(** * A shallow embedding of mm.c: an explicit free-list allocator

    The allocator of [mm.c] keeps a chain of boundary-tagged blocks in one
    arena and threads a doubly linked list through the payloads of the free
    blocks.  This development embeds the C functions as programs of a small
    state-and-error monad over a byte-addressed memory, and proves
    properties of them.

    Conventions.
    - The target is LP64: [size_t], [uintptr_t] and pointers are 64 bits,
      [unsigned int] and [uint32_t] are 32 bits; values are [Z] with the
      wrap-around written out ([wrap32], [wrap64]).
    - Memory is an array of bytes, little endian.  An access outside the
      current arena [[mem_start_brk, mem_brk)] is undefined behaviour and
      yields [Fault].
    - Recursion and loops of the C code run on fuel taken from the size of
      the arena; running out of fuel yields [Diverge]. *)

From Stdlib Require Import ZArith List Lia Bool Permutation.
Import ListNotations.
Open Scope Z_scope.

Set Implicit Arguments.

(** ** Machine integers *)

Definition wrap32 (x : Z) : Z := x mod 4294967296.
Definition wrap64 (x : Z) : Z := x mod 18446744073709551616.

(** [~0x7] converted to [unsigned int], and to [size_t]. *)
Definition MASK32 : Z := 4294967288.
Definition MASK64 : Z := 18446744073709551608.

(** ** Constants and macros of mm.c *)

Definition NULL : Z := 0.
Definition WSIZE : Z := 4.
Definition DSIZE : Z := 8.
(** [1*sizeof(uint32_t) + 2*sizeof(void* ) + 1*sizeof(uint32_t)] *)
Definition MINCHUNKSIZE : Z := 1 * 4 + 2 * 8 + 1 * 4.

Definition MAX (x y : Z) : Z := if y <? x then x else y.
Definition PACK (size alloc : Z) : Z := Z.lor size alloc.
Definition ALIGN (size : Z) : Z := Z.land (wrap64 (size + (DSIZE - 1))) MASK64.
Definition HDRP (bp : Z) : Z := bp - WSIZE.

(** ** Memory *)

Definition memory := Z -> Z.

Fixpoint load_le (n : nat) (m : memory) (a : Z) : Z :=
  match n with
  | O => 0
  | S k => m a mod 256 + 256 * load_le k m (a + 1)
  end.

Definition store_le (n : nat) (a v : Z) (m : memory) : memory :=
  fun x => if (a <=? x) && (x <? a + Z.of_nat n)
           then (v / 256 ^ (x - a)) mod 256 else m x.

Definition fill (dst c n : Z) (m : memory) : memory :=
  fun x => if (dst <=? x) && (x <? dst + n) then c mod 256 else m x.

Definition copy (dst src n : Z) (m : memory) : memory :=
  fun x => if (dst <=? x) && (x <? dst + n) then m (src + (x - dst)) else m x.

(** ** Diagnostics printed by the heap checker *)

Inductive msg : Type :=
| BadPrologueHeader
| BadPrologueFooter
| BadEpilogueHeader
| BlockLine (bp hsize halloc fsize falloc : Z)
| BlockTooSmall
| NotAligned (bp : Z)
| OutsideHeap
| HeaderFooterMismatch
| PrevBlockFree
| NextBlockFree
| PrevPointerInconsistent
| NextPointerInconsistent
| NotInHeap
| FreeCountMismatch
| CheckheapFailed.

(** ** Program state

    [mem_start_brk], [mem_brk] and [mem_max_addr] are the variables of the
    arena-growth collaborator (memlib); [heap_listp], [dl_start] and
    [dl_end] are the globals of mm.c; [console] collects what is printed. *)

Record state : Type := mkState {
  mem : memory;
  mem_start_brk : Z;
  mem_brk : Z;
  mem_max_addr : Z;
  heap_listp : Z;
  dl_start : Z;
  dl_end : Z;
  console : list msg
}.

Definition set_mem (m : memory) (s : state) : state :=
  mkState m (mem_start_brk s) (mem_brk s) (mem_max_addr s)
          (heap_listp s) (dl_start s) (dl_end s) (console s).
Definition set_brk (b : Z) (s : state) : state :=
  mkState (mem s) (mem_start_brk s) b (mem_max_addr s)
          (heap_listp s) (dl_start s) (dl_end s) (console s).
Definition set_heap_listp (p : Z) (s : state) : state :=
  mkState (mem s) (mem_start_brk s) (mem_brk s) (mem_max_addr s)
          p (dl_start s) (dl_end s) (console s).
Definition set_dl_start (p : Z) (s : state) : state :=
  mkState (mem s) (mem_start_brk s) (mem_brk s) (mem_max_addr s)
          (heap_listp s) p (dl_end s) (console s).
Definition set_dl_end (p : Z) (s : state) : state :=
  mkState (mem s) (mem_start_brk s) (mem_brk s) (mem_max_addr s)
          (heap_listp s) (dl_start s) p (console s).
Definition add_console (x : msg) (s : state) : state :=
  mkState (mem s) (mem_start_brk s) (mem_brk s) (mem_max_addr s)
          (heap_listp s) (dl_start s) (dl_end s) (console s ++ [x]).

(** ** The monad *)

Inductive outcome (A : Type) : Type :=
| Ok (a : A) (s : state)
| Fault
| Diverge
| Exited (code : Z).

Arguments Ok {A} a s.
Arguments Fault {A}.
Arguments Diverge {A}.
Arguments Exited {A} code.

Definition M (A : Type) : Type := state -> outcome A.

Definition ret {A : Type} (a : A) : M A := fun s => Ok a s.

Definition bind {A B : Type} (m : M A) (k : A -> M B) : M B :=
  fun s => match m s with
           | Ok a s' => k a s'
           | Fault => Fault
           | Diverge => Diverge
           | Exited c => Exited c
           end.

Notation "x <- m ;; k" := (bind m (fun x => k))
  (at level 61, m at next level, right associativity).
Notation "m ;;; k" := (bind m (fun _ => k))
  (at level 61, right associativity).

Definition fault {A : Type} : M A := fun _ => Fault.
Definition diverge {A : Type} : M A := fun _ => Diverge.
Definition exit {A : Type} (code : Z) : M A := fun _ => Exited code.
Definition gets {A : Type} (f : state -> A) : M A := fun s => Ok (f s) s.
Definition modify (f : state -> state) : M unit := fun s => Ok tt (f s).
Definition printf (x : msg) : M unit := modify (add_console x).

(** Is the range [[p, p+n)] inside the arena?  The macros of mm.c access
    memory without any test.  The arena is one region of memory from
    [mem_start_brk] to [mem_max_addr], of which [mem_brk] marks the part
    handed out so far: an access inside it succeeds, also above [mem_brk];
    an access outside it is a memory fault. *)
Definition in_arena (s : state) (p n : Z) : bool :=
  (mem_start_brk s <=? p) && (p + n <=? mem_max_addr s).

Definition load (n : nat) (p : Z) : M Z :=
  fun s => if in_arena s p (Z.of_nat n)
           then Ok (load_le n (mem s) p) s else Fault.

Definition store (n : nat) (p v : Z) : M unit :=
  fun s => if in_arena s p (Z.of_nat n)
           then Ok tt (set_mem (store_le n p v (mem s)) s) else Fault.

(** [GET] and [PUT] access an [unsigned int]. *)
Definition GET (p : Z) : M Z := load 4 p.
Definition PUT (p val : Z) : M unit := store 4 p val.
Definition GET_SIZE (p : Z) : M Z := w <- GET p ;; ret (Z.land w MASK32).
Definition GET_ALLOC (p : Z) : M Z := w <- GET p ;; ret (Z.land w 1).

Definition FTRP (bp : Z) : M Z :=
  sz <- GET_SIZE (HDRP bp) ;; ret (bp + sz - DSIZE).
Definition NEXT_BLKP (bp : Z) : M Z :=
  sz <- GET_SIZE (bp - WSIZE) ;; ret (bp + sz).
Definition PREV_BLKP (bp : Z) : M Z :=
  sz <- GET_SIZE (bp - DSIZE) ;; ret (bp - sz).

(** The fields of [struct POINTERS]: [prev] at offset 0, [next] at 8. *)
Definition get_prev (fb : Z) : M Z := load 8 fb.
Definition get_next (fb : Z) : M Z := load 8 (fb + 8).
Definition put_prev (fb v : Z) : M unit := store 8 fb v.
Definition put_next (fb v : Z) : M unit := store 8 (fb + 8) v.

Definition memset (p c n : Z) : M unit :=
  fun s => if n =? 0 then Ok tt s
           else if in_arena s p n
           then Ok tt (set_mem (fill p c n (mem s)) s) else Fault.

Definition memcpy (dst src n : Z) : M unit :=
  fun s => if n =? 0 then Ok tt s
           else if in_arena s dst n && in_arena s src n
           then Ok tt (set_mem (copy dst src n (mem s)) s) else Fault.

(** ** The arena-growth interface *)

(** Modelled from the spec: [mem_sbrk] is the arena-growth primitive
    [growBy(nBytes)], which mm.c consumes and does not implement.  It extends
    the arena and returns the start of the newly appended region, or fails
    (the C caller tests for [(void* )-1]) leaving the arena as it was. *)
Definition mem_sbrk (incr : Z) : M Z :=
  fun s => if (incr <? 0) || (mem_max_addr s <? mem_brk s + incr)
           then Ok (-1) s
           else Ok (mem_brk s) (set_brk (mem_brk s + incr) s).

(** Modelled from the spec: [lowBound()] and [highBound()], the first and
    the last byte of the arena. *)
Definition mem_heap_lo : M Z := gets mem_start_brk.
Definition mem_heap_hi : M Z := gets (fun s => mem_brk s - 1).

(** Fuel for the recursion of [coalesce] and for the loops: one unit for
    every byte of the arena. *)
Definition fuel_of (s : state) : nat :=
  S (Z.to_nat (mem_max_addr s - mem_start_brk s)).

(** ** Helper functions of mm.c *)

Definition align (p w : Z) : Z :=
  Z.land (wrap64 (p + (w - 1))) (wrap64 (Z.lnot (w - 1))).

Definition aligned (p : Z) : bool := align p 8 =? p.

Definition in_heap (p : Z) : M bool :=
  hi <- mem_heap_hi ;; lo <- mem_heap_lo ;; ret ((p <=? hi) && (lo <=? p)).

(** ** The free list *)

Definition add_freeblock (bp : Z) : M unit :=
  let free_block := bp in
  start <- gets dl_start ;;
  if negb (start =? NULL) then
    e <- gets dl_end ;;
    put_prev free_block e ;;;
    e <- gets dl_end ;;
    put_next e free_block ;;;
    put_next free_block NULL ;;;
    modify (set_dl_end free_block)
  else
    put_next free_block NULL ;;;
    put_prev free_block NULL ;;;
    modify (set_dl_end free_block) ;;;
    modify (set_dl_start free_block).

Definition remove_freeblock (ptr : Z) : M unit :=
  let fb := ptr in
  start <- gets dl_start ;;
  e <- gets dl_end ;;
  if start =? e then
    modify (set_dl_end NULL) ;;; modify (set_dl_start NULL)
  else if start =? fb then
    n <- get_next fb ;;
    modify (set_dl_start n) ;;;
    put_prev n NULL
  else if e =? fb then
    p <- get_prev fb ;;
    modify (set_dl_end p) ;;;
    put_next p NULL
  else
    p <- get_prev fb ;;
    n <- get_next fb ;;
    put_next p n ;;;
    n <- get_next fb ;;
    p <- get_prev fb ;;
    put_prev n p.

(** ** Coalescing *)

Fixpoint coalesce_rec (fuel : nat) (bp : Z) : M Z :=
  match fuel with
  | O => diverge
  | S fuel' =>
      pb <- PREV_BLKP bp ;;
      prev_alloc <- GET_ALLOC (HDRP pb) ;;
      nb <- NEXT_BLKP bp ;;
      next_alloc <- GET_ALLOC (HDRP nb) ;;
      if negb (prev_alloc =? 0) && negb (next_alloc =? 0) then ret bp
      else
        size <- GET_SIZE (HDRP bp) ;;
        if prev_alloc =? 0 then
          pb <- PREV_BLKP bp ;;
          coalesce_rec fuel' pb
        else if next_alloc =? 0 then
          nb <- NEXT_BLKP bp ;;
          remove_freeblock nb ;;;
          nb <- NEXT_BLKP bp ;;
          nsize <- GET_SIZE (HDRP nb) ;;
          let size := wrap64 (size + nsize) in
          PUT (HDRP bp) (PACK size 0) ;;;
          ft <- FTRP bp ;;
          PUT ft (PACK size 0) ;;;
          nb <- NEXT_BLKP bp ;;
          a <- GET_ALLOC (HDRP nb) ;;
          if a =? 0 then coalesce_rec fuel' bp else ret bp
        else ret bp
  end.

Definition coalesce (bp : Z) : M Z :=
  fun s => coalesce_rec (fuel_of s) bp s.

(** ** Searching and placing *)

(** The loop of [find_fit]; the statements after its [return bp] are
    unreachable, and [best] is still [NULL] when the loop ends. *)
Fixpoint find_fit_loop (fuel : nat) (asize bp : Z) : M Z :=
  match fuel with
  | O => diverge
  | S fuel' =>
      if negb (bp =? NULL) then
        sz <- GET_SIZE (HDRP bp) ;;
        if asize <=? sz then ret bp
        else
          n <- get_next bp ;;
          find_fit_loop fuel' asize n
      else ret NULL
  end.

Definition find_fit (asize : Z) : M Z :=
  fun s => find_fit_loop (fuel_of s) asize (dl_start s) s.

Definition place (bp asize : Z) : M unit :=
  csize <- GET_SIZE (HDRP bp) ;;
  if MINCHUNKSIZE <=? wrap64 (csize - asize) then
    remove_freeblock bp ;;;
    PUT (HDRP bp) (PACK asize 1) ;;;
    ft <- FTRP bp ;;
    PUT ft (PACK asize 1) ;;;
    bp <- NEXT_BLKP bp ;;
    PUT (HDRP bp) (PACK (wrap64 (csize - asize)) 0) ;;;
    ft <- FTRP bp ;;
    PUT ft (PACK (wrap64 (csize - asize)) 0) ;;;
    add_freeblock bp ;;;
    _ <- coalesce bp ;;
    ret tt
  else
    remove_freeblock bp ;;;
    PUT (HDRP bp) (PACK csize 1) ;;;
    ft <- FTRP bp ;;
    PUT ft (PACK csize 1).

Definition shrink (bp asize : Z) : M unit :=
  csize <- GET_SIZE (HDRP bp) ;;
  if csize <? asize then
    PUT (HDRP bp) (PACK asize 1) ;;;
    ft <- FTRP bp ;;
    PUT ft (PACK asize 1) ;;;
    bp <- NEXT_BLKP bp ;;
    PUT (HDRP bp) (PACK (wrap64 (csize - asize)) 0) ;;;
    ft <- FTRP bp ;;
    PUT ft (PACK (wrap64 (csize - asize)) 0) ;;;
    add_freeblock bp ;;;
    _ <- coalesce bp ;;
    ret tt
  else ret tt.

Definition extend_heap (words : Z) : M Z :=
  let size := if negb (words mod 2 =? 0)
              then wrap64 ((words + 1) * WSIZE) else wrap64 (words * WSIZE) in
  bp <- mem_sbrk size ;;
  if bp =? -1 then ret NULL
  else
    PUT (HDRP bp) (PACK size 0) ;;;
    ft <- FTRP bp ;;
    PUT ft (PACK size 0) ;;;
    nb <- NEXT_BLKP bp ;;
    PUT (HDRP nb) (PACK 0 1) ;;;
    add_freeblock bp ;;;
    coalesce bp.

(** ** The public operations *)

(** The adjusted block size of [mm_malloc]. *)
Definition malloc_asize (size : Z) : Z :=
  let size := if size <? 2 * DSIZE then 2 * DSIZE else size in
  wrap64 (wrap64 (1 * WSIZE + ALIGN size) + 1 * WSIZE).

Definition mm_malloc (size : Z) : M Z :=
  if size =? 0 then ret NULL
  else
    let asize := malloc_asize size in
    bp <- find_fit asize ;;
    if negb (bp =? NULL) then
      place bp asize ;;;
      ret bp
    else
      let extendsize := wrap32 (MAX asize (2 ^ 9)) in
      bp <- extend_heap (extendsize / WSIZE) ;;
      if bp =? NULL then ret NULL
      else
        place bp asize ;;;
        ret bp.

Definition mm_free (bp : Z) : M unit :=
  if bp =? 0 then ret tt
  else
    size <- GET_SIZE (HDRP bp) ;;
    PUT (HDRP bp) (PACK size 0) ;;;
    ft <- FTRP bp ;;
    PUT ft (PACK size 0) ;;;
    add_freeblock bp ;;;
    _ <- coalesce bp ;;
    ret tt.

(** The adjusted size of [mm_realloc]: the floored value is assigned to
    [asize] and then overwritten by an expression over the raw [size]. *)
Definition realloc_asize (size : Z) : Z :=
  let asize := size in
  let asize := if asize <? 2 * DSIZE then 2 * DSIZE else asize in
  let asize := wrap64 (wrap64 (1 * WSIZE + ALIGN size) + 1 * WSIZE) in
  asize.

(** The last part of [mm_realloc]: allocate, copy, free. *)
Definition realloc_copy (ptr size oldsize : Z) : M Z :=
  newptr <- mm_malloc size ;;
  if newptr =? 0 then ret 0
  else
    let oldsize := if size <? oldsize then size else oldsize in
    memcpy newptr ptr oldsize ;;;
    mm_free ptr ;;;
    ret newptr.

Definition mm_realloc (ptr size : Z) : M Z :=
  if size =? 0 then
    mm_free ptr ;;;
    ret 0
  else if ptr =? NULL then mm_malloc size
  else
    oldsize <- GET_SIZE (HDRP ptr) ;;
    let asize := realloc_asize size in
    if asize <? oldsize then
      shrink ptr asize ;;;
      ret ptr
    else
      nb <- NEXT_BLKP ptr ;;
      a <- GET_ALLOC (HDRP nb) ;;
      if a =? 0 then
        nb <- NEXT_BLKP ptr ;;
        _ <- coalesce nb ;;
        nb <- NEXT_BLKP ptr ;;
        nsz <- GET_SIZE (HDRP nb) ;;
        psz <- GET_SIZE (HDRP ptr) ;;
        let new_size := wrap32 (nsz + psz) in
        if size <=? new_size then
          nb <- NEXT_BLKP ptr ;;
          remove_freeblock nb ;;;
          PUT (HDRP ptr) (PACK new_size 1) ;;;
          ft <- FTRP ptr ;;
          PUT ft (PACK new_size 1) ;;;
          ret ptr
        else realloc_copy ptr size oldsize
      else realloc_copy ptr size oldsize.

Definition calloc (nmemb size : Z) : M Z :=
  let bytes := wrap64 (nmemb * size) in
  newptr <- mm_malloc bytes ;;
  memset newptr 0 bytes ;;;
  ret newptr.

(** ** The heap checker *)

Definition printblock (bp : Z) : M unit :=
  hsize <- GET_SIZE (HDRP bp) ;;
  halloc <- GET_ALLOC (HDRP bp) ;;
  ft <- FTRP bp ;;
  fsize <- GET_SIZE ft ;;
  ft <- FTRP bp ;;
  falloc <- GET_ALLOC ft ;;
  printf (BlockLine bp hsize halloc fsize falloc).

Definition when (b : bool) (m : M unit) : M unit := if b then m else ret tt.

Definition mm_checkblock (bp : Z) : M unit :=
  sz <- GET_SIZE (HDRP bp) ;;
  when (sz <? 24) (printf BlockTooSmall) ;;;
  when (negb (aligned bp)) (printf (NotAligned bp)) ;;;
  hin <- in_heap (HDRP bp) ;;
  out <- (if negb hin then ret true
          else ft <- FTRP bp ;; fin <- in_heap ft ;; ret (negb fin)) ;;
  when out (printf OutsideHeap) ;;;
  h <- GET (HDRP bp) ;;
  ft <- FTRP bp ;;
  f <- GET ft ;;
  when (negb (h =? f)) (printf HeaderFooterMismatch) ;;;
  a <- GET_ALLOC (HDRP bp) ;;
  if a =? 0 then
    pb <- PREV_BLKP bp ;;
    pin <- in_heap (HDRP pb) ;;
    (if pin then
       pb <- PREV_BLKP bp ;;
       pa <- GET_ALLOC (HDRP pb) ;;
       when (pa =? 0) (printf PrevBlockFree)
     else ret tt) ;;;
    nb <- NEXT_BLKP bp ;;
    nin <- in_heap (HDRP nb) ;;
    (if nin then
       nb <- NEXT_BLKP bp ;;
       na <- GET_ALLOC (HDRP nb) ;;
       when (na =? 0) (printf NextBlockFree)
     else ret tt)
  else ret tt.

(** The first loop of [mm_checkheap]: returns the final [bp] and the
    number of free blocks met. *)
Fixpoint check_blocks (fuel : nat) (verbose bp count1 : Z) : M (Z * Z) :=
  match fuel with
  | O => diverge
  | S fuel' =>
      sz <- GET_SIZE (HDRP bp) ;;
      if 0 <? sz then
        when (negb (verbose =? 0)) (printblock bp) ;;;
        mm_checkblock bp ;;;
        a <- GET_ALLOC (HDRP bp) ;;
        let count1 := if a =? 0 then count1 + 1 else count1 in
        nb <- NEXT_BLKP bp ;;
        check_blocks fuel' verbose nb count1
      else ret (bp, count1)
  end.

(** The second loop: returns the number of nodes of the free list. *)
Fixpoint check_list (fuel : nat) (bp count2 : Z) : M Z :=
  match fuel with
  | O => diverge
  | S fuel' =>
      if negb (bp =? NULL) then
        let count2 := count2 + 1 in
        let block := bp in
        p <- get_prev block ;;
        (if negb (p =? NULL) then
           p <- get_prev block ;;
           pn <- get_next p ;;
           when (negb (bp =? pn)) (printf PrevPointerInconsistent)
         else ret tt) ;;;
        n <- get_next block ;;
        (if negb (n =? NULL) then
           n <- get_next block ;;
           np <- get_prev n ;;
           when (negb (bp =? np)) (printf NextPointerInconsistent)
         else ret tt) ;;;
        inh <- in_heap bp ;;
        when (negb inh) (printf NotInHeap) ;;;
        n <- get_next bp ;;
        check_list fuel' n count2
      else ret count2
  end.

Definition mm_checkheap (verbose : Z) : M Z :=
  lo <- mem_heap_lo ;;
  let heap := DSIZE + lo in
  sz <- GET_SIZE (HDRP heap) ;;
  bad <- (if negb (sz =? DSIZE) then ret true
          else a <- GET_ALLOC (HDRP heap) ;; ret (a =? 0)) ;;
  when bad (printf BadPrologueHeader) ;;;
  hl <- gets heap_listp ;;
  x <- GET (HDRP hl) ;;
  hl <- gets heap_listp ;;
  y <- GET (HDRP hl) ;;
  when (negb (x =? y)) (printf BadPrologueFooter) ;;;
  hl <- gets heap_listp ;;
  r <- (fun s => check_blocks (fuel_of s) verbose hl 0 s) ;;
  let bp := fst r in
  let count1 := snd r in
  sz <- GET_SIZE (HDRP bp) ;;
  bad <- (if negb (sz =? 0) then ret true
          else a <- GET_ALLOC (HDRP bp) ;; ret (a =? 0)) ;;
  when bad (printf BadEpilogueHeader) ;;;
  start <- gets dl_start ;;
  count2 <- (fun s => check_list (fuel_of s) start 0 s) ;;
  when (negb (count1 =? count2)) (printf FreeCountMismatch) ;;;
  ret 0.

(** The [checkheap] macro of debug builds ([NDEBUG] not defined). *)
Definition checkheap (ndebug : bool) (verbose : Z) : M unit :=
  if ndebug then ret tt
  else
    r <- mm_checkheap verbose ;;
    if negb (r =? 0) then
      printf CheckheapFailed ;;;
      exit (-1)
    else ret tt.

Definition mm_init (ndebug : bool) : M Z :=
  modify (set_dl_end NULL) ;;;
  modify (set_dl_start NULL) ;;;
  p <- mem_sbrk (4 * WSIZE) ;;
  modify (set_heap_listp p) ;;;
  if p =? -1 then ret (-1)
  else
    hl <- gets heap_listp ;;
    PUT hl 0 ;;;
    hl <- gets heap_listp ;;
    PUT (hl + 1 * WSIZE) (PACK DSIZE 1) ;;;
    hl <- gets heap_listp ;;
    PUT (hl + 2 * WSIZE) (PACK DSIZE 1) ;;;
    hl <- gets heap_listp ;;
    PUT (hl + 3 * WSIZE) (PACK 0 1) ;;;
    bp <- extend_heap (MINCHUNKSIZE / WSIZE) ;;
    modify (set_heap_listp bp) ;;;
    checkheap ndebug 0 ;;;
    ret 0.

(** * Properties *)

(** ** Machine arithmetic *)

Lemma MASK32_land (x : Z) : Z.land x MASK32 = 8 * ((x mod 4294967296) / 8).
Proof.
  change MASK32 with (Z.land (Z.ones 32) (Z.lnot (Z.ones 3))).
  rewrite Z.land_assoc, Z.land_ones by lia.
  change (Z.land (x mod 2 ^ 32) (Z.lnot (Z.ones 3)))
    with (Z.ldiff (x mod 2 ^ 32) (Z.ones 3)).
  rewrite Z.ldiff_ones_r, Z.shiftl_mul_pow2, Z.shiftr_div_pow2 by lia.
  change (2 ^ 32) with 4294967296. change (2 ^ 3) with 8. lia.
Qed.

Lemma MASK64_land (x : Z) :
  Z.land x MASK64 = 8 * ((x mod 18446744073709551616) / 8).
Proof.
  change MASK64 with (Z.land (Z.ones 64) (Z.lnot (Z.ones 3))).
  rewrite Z.land_assoc, Z.land_ones by lia.
  change (Z.land (x mod 2 ^ 64) (Z.lnot (Z.ones 3)))
    with (Z.ldiff (x mod 2 ^ 64) (Z.ones 3)).
  rewrite Z.ldiff_ones_r, Z.shiftl_mul_pow2, Z.shiftr_div_pow2 by lia.
  change (2 ^ 64) with 18446744073709551616. change (2 ^ 3) with 8. lia.
Qed.

Lemma land_1 (x : Z) : Z.land x 1 = x mod 2.
Proof. change 1 with (Z.ones 1) at 1. now rewrite Z.land_ones by lia. Qed.

Lemma PACK_0 (s : Z) : PACK s 0 = s.
Proof. apply Z.lor_0_r. Qed.

Lemma PACK_1 (s : Z) : s mod 2 = 0 -> PACK s 1 = s + 1.
Proof.
  intros H. unfold PACK.
  assert (L : Z.land s 1 = 0) by (rewrite land_1; exact H).
  rewrite <- Z.lxor_lor by exact L.
  symmetry. apply Z.add_nocarry_lxor. exact L.
Qed.

(** The tag word of a block: its size with the allocated bit. *)
Definition tag (s : Z) (a : bool) : Z := PACK s (if a then 1 else 0).

Lemma tag_eq (s : Z) (a : bool) :
  s mod 8 = 0 -> tag s a = s + (if a then 1 else 0).
Proof.
  intros H. unfold tag. destruct a.
  - apply PACK_1. Z.div_mod_to_equations; lia.
  - rewrite PACK_0. lia.
Qed.

Lemma tag_size (s : Z) (a : bool) :
  0 <= s < 4294967296 -> s mod 8 = 0 ->
  Z.land (tag s a) MASK32 = s.
Proof.
  intros R H. rewrite tag_eq, MASK32_land by exact H.
  destruct a; Z.div_mod_to_equations; lia.
Qed.

Lemma tag_alloc (s : Z) (a : bool) :
  s mod 8 = 0 -> Z.land (tag s a) 1 = if a then 1 else 0.
Proof.
  intros H. rewrite tag_eq, land_1 by exact H.
  destruct a; Z.div_mod_to_equations; lia.
Qed.

Lemma tag_range (s : Z) (a : bool) :
  0 <= s < 4294967296 -> s mod 8 = 0 -> 0 <= tag s a < 4294967296.
Proof.
  intros R H. rewrite tag_eq by exact H.
  destruct a; Z.div_mod_to_equations; lia.
Qed.

Lemma ALIGN_eq (size : Z) :
  0 <= size -> size + 7 < 18446744073709551616 ->
  ALIGN size = 8 * ((size + 7) / 8).
Proof.
  intros H0 H1. unfold ALIGN, wrap64, DSIZE. rewrite MASK64_land.
  rewrite Z.mod_mod by lia.
  replace (size + (8 - 1)) with (size + 7) by lia.
  rewrite Z.mod_small by lia. reflexivity.
Qed.

(** ** Memory *)

Lemma load_le_ext (n : nat) (m m' : memory) (a : Z) :
  (forall x, a <= x < a + Z.of_nat n -> m' x = m x) ->
  load_le n m' a = load_le n m a.
Proof.
  revert a. induction n as [|n IH]; intros a H; [reflexivity|].
  cbn [load_le]. rewrite H by lia. f_equal. f_equal.
  apply IH. intros x Hx. apply H. lia.
Qed.

Lemma load_le_range (n : nat) (m : memory) (a : Z) :
  0 <= load_le n m a < 256 ^ Z.of_nat n.
Proof.
  revert a. induction n as [|n IH]; intros a.
  - cbn. lia.
  - rewrite Nat2Z.inj_succ, Z.pow_succ_r by lia. cbn [load_le].
    specialize (IH (a + 1)).
    assert (0 <= m a mod 256 < 256) by (apply Z.mod_pos_bound; lia).
    nia.
Qed.

Lemma store_le_out (n : nat) (a v : Z) (m : memory) (x : Z) :
  x < a \/ a + Z.of_nat n <= x -> store_le n a v m x = m x.
Proof.
  intros H. unfold store_le.
  destruct (a <=? x) eqn:E1; destruct (x <? a + Z.of_nat n) eqn:E2;
    cbn; try reflexivity; lia.
Qed.

Lemma store_le_in (n : nat) (a v : Z) (m : memory) (x : Z) :
  a <= x < a + Z.of_nat n -> store_le n a v m x = (v / 256 ^ (x - a)) mod 256.
Proof.
  intros H. unfold store_le.
  destruct (a <=? x) eqn:E1; destruct (x <? a + Z.of_nat n) eqn:E2;
    cbn; try reflexivity; lia.
Qed.

Lemma load_le_bytes (k : nat) : forall (m : memory) (a v i : Z),
  0 <= i ->
  (forall j, 0 <= j < Z.of_nat k -> m (a + i + j) = (v / 256 ^ (i + j)) mod 256) ->
  load_le k m (a + i) = (v / 256 ^ i) mod 256 ^ Z.of_nat k.
Proof.
  induction k as [|k IH]; intros m a v i Hi H.
  - cbn. now rewrite Z.mod_1_r.
  - rewrite Nat2Z.inj_succ, Z.pow_succ_r by lia. cbn [load_le].
    rewrite Z.rem_mul_r by (try lia; apply Z.pow_pos_nonneg; lia).
    f_equal.
    + specialize (H 0). rewrite !Z.add_0_r in H. rewrite H by lia.
      now rewrite Z.mod_mod by lia.
    + f_equal. replace (a + i + 1) with (a + (i + 1)) by lia.
      rewrite IH with (v := v) by
        (try lia; intros j Hj; specialize (H (1 + j));
         replace (a + (i + 1) + j) with (a + i + (1 + j)) by lia;
         replace (i + 1 + j) with (i + (1 + j)) by lia; apply H; lia).
      f_equal. rewrite Z.pow_add_r, Z.pow_1_r by lia.
      now rewrite Z.div_div by (try lia; apply Z.pow_pos_nonneg; lia).
Qed.

Lemma load_store_same (n : nat) (a v : Z) (m : memory) :
  load_le n (store_le n a v m) a = v mod 256 ^ Z.of_nat n.
Proof.
  pose proof (@load_le_bytes n (store_le n a v m) a v 0) as H.
  rewrite Z.add_0_r, Z.pow_0_r, Z.div_1_r in H. apply H; [lia|].
  intros j Hj. rewrite store_le_in by lia.
  replace (a + j - a) with (0 + j) by lia. reflexivity.
Qed.

Lemma load_store_other (n k : nat) (a b v : Z) (m : memory) :
  b + Z.of_nat n <= a \/ a + Z.of_nat k <= b ->
  load_le n (store_le k a v m) b = load_le n m b.
Proof.
  intros H. apply load_le_ext. intros x Hx. apply store_le_out. lia.
Qed.

Lemma load4_store4 (a v : Z) (m : memory) :
  0 <= v < 4294967296 -> load_le 4 (store_le 4 a v m) a = v.
Proof.
  intros H. rewrite load_store_same.
  change (256 ^ Z.of_nat 4) with 4294967296. apply Z.mod_small; lia.
Qed.

Lemma load8_store8 (a v : Z) (m : memory) :
  0 <= v < 18446744073709551616 -> load_le 8 (store_le 8 a v m) a = v.
Proof.
  intros H. rewrite load_store_same.
  change (256 ^ Z.of_nat 8) with 18446744073709551616. apply Z.mod_small; lia.
Qed.

Arguments load_le : simpl never.
Arguments store_le : simpl never.
Arguments tag : simpl never.

(** ** Running programs *)

Definition value_of {A : Type} (o : outcome A) : option A :=
  match o with Ok a _ => Some a | _ => None end.

Definition state_of {A : Type} (o : outcome A) : option state :=
  match o with Ok _ s => Some s | _ => None end.

(** An arena of [cap] bytes at address [lo] on which nothing has run yet. *)
Definition fresh_arena (lo cap : Z) : state :=
  mkState (fun _ => 0) lo lo (lo + cap) 0 0 0 [].

Lemma bind_step {A B : Type} (m : M A) (k : A -> M B) (s s1 : state) (a : A) :
  m s = Ok a s1 -> bind m k s = k a s1.
Proof. intros H. unfold bind. now rewrite H. Qed.

Lemma bind_Ok_inv {A B : Type} (m : M A) (k : A -> M B) (s s' : state) (b : B) :
  bind m k s = Ok b s' -> exists a s1, m s = Ok a s1 /\ k a s1 = Ok b s'.
Proof.
  unfold bind. destruct (m s) as [a s1| | |]; try discriminate.
  intros H. now exists a, s1.
Qed.

Lemma bind_assoc {A B C : Type} (m : M A) (k : A -> M B) (h : B -> M C) (s : state) :
  bind (bind m k) h s = bind m (fun a => bind (k a) h) s.
Proof. unfold bind. now destruct (m s). Qed.

(** ** Adjusted sizes *)

Lemma malloc_asize_eq (size : Z) :
  0 < size -> size <= 18446744073709551616 - 16 ->
  malloc_asize size = 8 * ((Z.max size 16 + 7) / 8) + 8.
Proof.
  intros H0 H1. unfold malloc_asize, DSIZE, WSIZE.
  change (2 * 8) with 16.
  assert (E : (if size <? 16 then 16 else size) = Z.max size 16)
    by (destruct (Z.ltb_spec size 16); lia).
  rewrite E. rewrite ALIGN_eq by lia. unfold wrap64.
  rewrite Z.add_mod_idemp_l by lia.
  rewrite Z.mod_small by (Z.div_mod_to_equations; lia). lia.
Qed.

Lemma malloc_asize_bounds (size : Z) :
  0 < size -> size <= 18446744073709551616 - 16 ->
  24 <= malloc_asize size /\ malloc_asize size mod 8 = 0 /\
  size + 8 <= malloc_asize size <= Z.max size 16 + 15.
Proof.
  intros H0 H1. rewrite malloc_asize_eq by lia.
  Z.div_mod_to_equations; lia.
Qed.

Lemma realloc_asize_eq (size : Z) :
  0 < size -> size <= 18446744073709551616 - 16 ->
  realloc_asize size = 8 * ((size + 7) / 8) + 8.
Proof.
  intros H0 H1. unfold realloc_asize, DSIZE, WSIZE.
  rewrite ALIGN_eq by lia. unfold wrap64.
  rewrite Z.add_mod_idemp_l by lia.
  rewrite Z.mod_small by (Z.div_mod_to_equations; lia). lia.
Qed.

(** C10, as the code has it.  For a nonzero request [mm_realloc] adjusts the
    raw size: its [asize] is header + footer + [ALIGN size], the floor of two
    pointer widths being assigned and then overwritten.  The result differs
    from the adjusted size of [mm_malloc] exactly for requests of at most 8
    bytes; from 9 bytes on the two agree. *)
Theorem realloc_asize_unfloored (size : Z) :
  0 < size < 18446744073709551616 ->
  realloc_asize size = wrap64 (wrap64 (1 * WSIZE + ALIGN size) + 1 * WSIZE) /\
  (realloc_asize size = malloc_asize size <-> 8 < size).
Proof.
  intros H. split; [reflexivity|].
  destruct (Z.ltb_spec size 16) as [L|L].
  - rewrite realloc_asize_eq, malloc_asize_eq by lia.
    rewrite Z.max_r by lia. change ((16 + 7) / 8) with 2.
    Z.div_mod_to_equations; lia.
  - split; [lia|]. intros _. unfold realloc_asize, malloc_asize.
    unfold DSIZE. change (2 * 8) with 16.
    destruct (Z.ltb_spec size 16); [lia|reflexivity].
Qed.

Lemma realloc_asize_unfloored_witness :
  realloc_asize 5 = wrap64 (wrap64 (1 * WSIZE + ALIGN 5) + 1 * WSIZE) /\
  (realloc_asize 5 = malloc_asize 5 <-> 8 < 5).
Proof. apply (@realloc_asize_unfloored 5). lia. Defined.

(** A request of 12 bytes is smaller than the minimum payload of 16 bytes,
    and yet both adjustments give 24. *)
Lemma realloc_asize_12_agrees :
  0 < 12 < 2 * DSIZE /\ realloc_asize 12 = malloc_asize 12.
Proof. split; [unfold DSIZE; lia|reflexivity]. Qed.

(** ** reallocate with size 0 *)

Lemma mm_realloc_NULL_0 (s : state) : mm_realloc NULL 0 s = Ok 0 s.
Proof. reflexivity. Qed.

(** ** Zeroed allocation *)

(** [calloc] multiplies in [size_t] and never looks at the overflow: a call
    behaves as the call for one element of [nmemb * size] modulo 2^64
    bytes. *)
Lemma calloc_product_wraps (nmemb size : Z) (s : state) :
  calloc nmemb size s = calloc 1 (wrap64 (nmemb * size)) s.
Proof.
  unfold calloc.
  replace (wrap64 (1 * wrap64 (nmemb * size))) with (wrap64 (nmemb * size));
    [reflexivity|].
  unfold wrap64. rewrite Z.mul_1_l. now rewrite Z.mod_mod by lia.
Qed.

(** The product of 2^63 + 8 and 2 overflows [size_t] and wraps to 16; on a
    freshly initialised heap the call reports no overflow: it succeeds and
    returns the first block, as the call for 16 bytes does. *)
Lemma calloc_overflow_succeeds :
  18446744073709551616 <= (9223372036854775808 + 8) * 2 /\
  wrap64 ((9223372036854775808 + 8) * 2) = 16 /\
  value_of ((mm_init false ;;; calloc (9223372036854775808 + 8) 2)
              (fresh_arena 4096 65536)) = Some 4112 /\
  value_of ((mm_init false ;;; calloc 1 16) (fresh_arena 4096 65536)) =
    Some 4112 /\
  4112 <> NULL.
Proof.
  split; [lia|]. split; [reflexivity|].
  split; [vm_compute; reflexivity|]. split; [vm_compute; reflexivity|discriminate].
Qed.

(** [calloc] does not look at the result of [mm_malloc]: after an
    allocation that failed, the [memset] runs on the null pointer, and the
    call stops there when there are bytes to clear. *)
Lemma calloc_memset_after_failure (nmemb size : Z) (s s1 : state) :
  mm_malloc (wrap64 (nmemb * size)) s = Ok NULL s1 ->
  calloc nmemb size s =
    (memset NULL 0 (wrap64 (nmemb * size)) ;;; ret NULL) s1 /\
  (wrap64 (nmemb * size) <> 0 -> 0 < mem_start_brk s1 ->
   calloc nmemb size s = Fault).
Proof.
  intros R. unfold calloc. erewrite bind_step by (exact R).
  split; [reflexivity|]. intros Hn Hlo. unfold bind, memset.
  apply Z.eqb_neq in Hn. rewrite Hn.
  assert (E : in_arena s1 NULL (wrap64 (nmemb * size)) = false).
  { unfold in_arena, NULL. apply andb_false_intro1. apply Z.leb_gt. lia. }
  now rewrite E.
Qed.

(** C5 on a failing input.  In an arena of 40 bytes [mm_init] uses all of
    it; the [mm_malloc] inside [calloc 1 100] then fails, and the [memset]
    that follows writes through the null pointer. *)
Theorem calloc_failed_malloc_faults :
  value_of ((mm_init false ;;; mm_malloc (wrap64 (1 * 100)))
              (fresh_arena 4096 40)) = Some NULL /\
  (mm_init false ;;; calloc 1 100) (fresh_arena 4096 40) = Fault.
Proof. split; vm_compute; reflexivity. Qed.

(** ** Shrinking *)

(** [shrink] is only called with [asize < oldsize], and then its test
    [csize < asize] fails: the block is returned as it is. *)
Lemma mm_realloc_smaller (ptr size : Z) (s : state) :
  size <> 0 -> ptr <> NULL ->
  in_arena s (HDRP ptr) 4 = true ->
  realloc_asize size < Z.land (load_le 4 (mem s) (HDRP ptr)) MASK32 ->
  mm_realloc ptr size s = Ok ptr s.
Proof.
  intros Hs Hp Ha Hlt. unfold mm_realloc.
  destruct (Z.eqb_spec size 0); [contradiction|].
  destruct (Z.eqb_spec ptr NULL); [contradiction|].
  unfold GET_SIZE, GET, load, bind at 1 2, ret. cbn [Z.of_nat Pos.of_succ_nat Pos.succ].
  rewrite Ha.
  destruct (Z.ltb_spec (realloc_asize size)
              (Z.land (load_le 4 (mem s) (HDRP ptr)) MASK32)); [|lia].
  unfold shrink, GET_SIZE, GET, load, bind, ret. cbn [Z.of_nat Pos.of_succ_nat Pos.succ].
  rewrite Ha.
  destruct (Z.ltb_spec (Z.land (load_le 4 (mem s) (HDRP ptr)) MASK32)
              (realloc_asize size)); [lia|reflexivity].
Qed.

(** C2 on a failing input.  After [mm_init] and [mm_malloc 40] the block at
    4112 has 48 bytes.  [mm_realloc 4112 8] has the adjusted size 16, so the
    leftover of 32 bytes is at least [MINCHUNKSIZE]; the call splits
    nothing: the header still says 48 bytes, allocated, and the free list is
    as it was. *)
Theorem mm_realloc_shrink_no_split :
  let s := state_of ((mm_init false ;;; mm_malloc 40) (fresh_arena 4096 65536)) in
  let o := (mm_init false ;;; mm_malloc 40 ;;; mm_realloc 4112 8)
             (fresh_arena 4096 65536) in
  realloc_asize 8 = 16 /\
  MINCHUNKSIZE <= 48 - realloc_asize 8 /\
  value_of o = Some 4112 /\
  option_map (fun s => load_le 4 (mem s) (HDRP 4112)) (state_of o) = Some (tag 48 true) /\
  option_map (fun s => load_le 4 (mem s) (HDRP (4112 + 16))) (state_of o) =
    option_map (fun s => load_le 4 (mem s) (HDRP (4112 + 16))) s /\
  option_map dl_start (state_of o) = option_map dl_start s /\
  option_map dl_end (state_of o) = option_map dl_end s /\
  option_map dl_start (state_of o) = Some (4112 + 48).
Proof. vm_compute. repeat split; try reflexivity; discriminate. Qed.

(** * The heap invariant

    A heap is described by the list of its blocks, each a size and an
    allocated flag, laid out from [heap_listp] to the epilogue, and by the
    list of the nodes of the free list in list order. *)

Abbreviation block := (Z * bool)%type (only parsing).

Definition block_ok (b : block) : Prop := 24 <= fst b /\ fst b mod 8 = 0.

Fixpoint total (bl : list block) : Z :=
  match bl with
  | [] => 0
  | b :: r => fst b + total r
  end.

(** The payload addresses of the blocks whose flag is [a]. *)
Fixpoint addrs (a : bool) (bp : Z) (bl : list block) : list Z :=
  match bl with
  | [] => []
  | (sz, a') :: r =>
      if Bool.eqb a a' then bp :: addrs a (bp + sz) r else addrs a (bp + sz) r
  end.

Definition free_bps := addrs false.
Definition used_bps := addrs true.

(** Header and footer of every block hold its tag. *)
Fixpoint tags (m : memory) (bp : Z) (bl : list block) : Prop :=
  match bl with
  | [] => True
  | (sz, a) :: r =>
      load_le 4 m (bp - 4) = tag sz a /\
      load_le 4 m (bp + sz - 8) = tag sz a /\
      tags m (bp + sz) r
  end.

(** No two neighbours are both free. *)
Fixpoint no_adj (bl : list block) : Prop :=
  match bl with
  | [] => True
  | (_, a) :: r =>
      match r with
      | [] => True
      | (_, a') :: _ => (a = true \/ a' = true) /\ no_adj r
      end
  end.

(** A segment of the doubly linked list: [p] is the [prev] of its first
    node and [n] the [next] of its last. *)
Fixpoint dlseg (m : memory) (p : Z) (l : list Z) (n : Z) : Prop :=
  match l with
  | [] => True
  | x :: r =>
      load_le 8 m x = p /\ load_le 8 m (x + 8) = hd n r /\ dlseg m x r n
  end.

Record heap_ok (s : state) (bl : list block) (fl : list Z) : Prop := {
  ok_lo : 0 < mem_start_brk s;
  ok_align : mem_start_brk s mod 8 = 0;
  ok_listp : heap_listp s = mem_start_brk s + 16;
  ok_brk : mem_brk s = heap_listp s + total bl;
  ok_max : mem_brk s <= mem_max_addr s;
  ok_cap : mem_max_addr s - mem_start_brk s < 4294967296;
  ok_addr : mem_max_addr s <= 18446744073709551616;
  ok_pro_hdr : load_le 4 (mem s) (heap_listp s - 12) = tag 8 true;
  ok_pro_ftr : load_le 4 (mem s) (heap_listp s - 8) = tag 8 true;
  ok_blocks : Forall block_ok bl;
  ok_tags : tags (mem s) (heap_listp s) bl;
  ok_epi : load_le 4 (mem s) (mem_brk s - 4) = tag 0 true;
  ok_list : dlseg (mem s) 0 fl 0;
  ok_dl_start : dl_start s = hd 0 fl;
  ok_dl_end : dl_end s = last fl 0;
  ok_nodup : NoDup fl;
  ok_incl : incl fl (free_bps (heap_listp s) bl)
}.

(** The invariant of the allocator between two public operations: the free
    list holds exactly the free blocks, and coalescing is complete. *)
Record heap_inv (s : state) (bl : list block) (fl : list Z) : Prop := {
  inv_ok : heap_ok s bl fl;
  inv_all : incl (free_bps (heap_listp s) bl) fl;
  inv_adj : no_adj bl
}.

(** ** Lists of blocks *)

Lemma total_app (l1 l2 : list block) : total (l1 ++ l2) = total l1 + total l2.
Proof. induction l1 as [|b l1 IH]; cbn; lia. Qed.

Lemma total_nonneg (bl : list block) : Forall block_ok bl -> 0 <= total bl.
Proof.
  induction 1 as [|b r [H _] _ IH]; cbn; lia.
Qed.

Lemma total_length (bl : list block) :
  Forall block_ok bl -> 24 * Z.of_nat (length bl) <= total bl.
Proof.
  induction 1 as [|b r [H _] _ IH]; cbn [total length]; lia.
Qed.

Lemma addrs_app (a : bool) (bp : Z) (l1 l2 : list block) :
  addrs a bp (l1 ++ l2) = addrs a bp l1 ++ addrs a (bp + total l1) l2.
Proof.
  revert bp. induction l1 as [|[sz a'] l1 IH]; intros bp; cbn.
  - now rewrite Z.add_0_r.
  - rewrite IH. replace (bp + sz + total l1) with (bp + (sz + total l1)) by lia.
    now destruct (Bool.eqb a a').
Qed.

Lemma addrs_range (a : bool) (bl : list block) : forall (bp x : Z),
  Forall block_ok bl -> In x (addrs a bp bl) ->
  bp <= x /\ x + 24 <= bp + total bl.
Proof.
  induction bl as [|[sz a'] r IH]; intros bp x Hok Hin; cbn in *; [tauto|].
  inversion Hok as [|? ? [H1 H2] Hr]; subst. cbn in H1.
  pose proof (total_nonneg Hr) as Ht.
  destruct (Bool.eqb a a').
  - destruct Hin as [<-|Hin]; [lia|]. apply IH in Hin; [lia|assumption].
  - apply IH in Hin; [lia|assumption].
Qed.

Lemma addrs_split (a : bool) (bl : list block) : forall (bp x : Z),
  In x (addrs a bp bl) ->
  exists l1 sz l2, bl = l1 ++ (sz, a) :: l2 /\ x = bp + total l1.
Proof.
  induction bl as [|[sz a'] r IH]; intros bp x Hin; cbn in *; [tauto|].
  destruct (Bool.eqb a a') eqn:E.
  - destruct Hin as [<-|Hin].
    + apply Bool.eqb_prop in E. subst a'.
      exists [], sz, r. cbn. split; [reflexivity|lia].
    + destruct (IH _ _ Hin) as (l1 & sz' & l2 & -> & ->).
      exists ((sz, a') :: l1), sz', l2. cbn. split; [reflexivity|lia].
  - destruct (IH _ _ Hin) as (l1 & sz' & l2 & -> & ->).
    exists ((sz, a') :: l1), sz', l2. cbn. split; [reflexivity|lia].
Qed.

Lemma addrs_mid (a : bool) (bp sz : Z) (l1 l2 : list block) :
  In (bp + total l1) (addrs a bp (l1 ++ (sz, a) :: l2)).
Proof.
  rewrite addrs_app. apply in_or_app. right. cbn.
  rewrite Bool.eqb_reflx. now left.
Qed.

Lemma addrs_other (a : bool) (bp sz : Z) (l1 l2 : list block) :
  addrs a bp (l1 ++ (sz, negb a) :: l2) =
  addrs a bp l1 ++ addrs a (bp + total l1 + sz) l2.
Proof.
  rewrite addrs_app. cbn. now destruct a.
Qed.

Lemma addrs_same (a : bool) (bp sz : Z) (l1 l2 : list block) :
  addrs a bp (l1 ++ (sz, a) :: l2) =
  addrs a bp l1 ++ (bp + total l1) :: addrs a (bp + total l1 + sz) l2.
Proof.
  rewrite addrs_app. cbn. now rewrite Bool.eqb_reflx.
Qed.

Lemma addrs_NoDup (a : bool) (bl : list block) : forall (bp : Z),
  Forall block_ok bl -> NoDup (addrs a bp bl).
Proof.
  induction bl as [|[sz a'] r IH]; intros bp Hok; cbn; [constructor|].
  inversion Hok as [|? ? [H1 H2] Hr]; subst. cbn in H1.
  destruct (Bool.eqb a a'); [|now apply IH].
  constructor; [|now apply IH].
  intros Hin. apply addrs_range in Hin; [lia|assumption].
Qed.

Lemma Forall_block_ok_app (l1 l2 : list block) :
  Forall block_ok (l1 ++ l2) <-> Forall block_ok l1 /\ Forall block_ok l2.
Proof. apply Forall_app. Qed.

(** ** Tags *)

Lemma tags_app (m : memory) (l1 l2 : list block) : forall (bp : Z),
  tags m bp (l1 ++ l2) <-> tags m bp l1 /\ tags m (bp + total l1) l2.
Proof.
  induction l1 as [|[sz a] l1 IH]; intros bp; cbn.
  - rewrite Z.add_0_r. tauto.
  - rewrite IH. replace (bp + sz + total l1) with (bp + (sz + total l1)) by lia.
    tauto.
Qed.

Lemma tags_ext (m m' : memory) (bl : list block) : forall (bp : Z),
  Forall block_ok bl ->
  (forall x, bp - 4 <= x < bp + total bl - 4 -> m' x = m x) ->
  tags m bp bl -> tags m' bp bl.
Proof.
  induction bl as [|[sz a] r IH]; intros bp Hok Hext Ht; cbn in *; [exact I|].
  inversion Hok as [|? ? [H1 H2] Hr]; subst. cbn in H1.
  pose proof (total_nonneg Hr) as Hn.
  destruct Ht as (Hh & Hf & Ht).
  split; [|split].
  - rewrite <- Hh. apply load_le_ext. intros x Hx. apply Hext. lia.
  - rewrite <- Hf. apply load_le_ext. intros x Hx. apply Hext. lia.
  - apply IH; [assumption| |assumption]. intros x Hx. apply Hext. lia.
Qed.

(** ** Segments of the free list *)

Lemma last_default (l : list Z) (x d d' : Z) : last (x :: l) d = last (x :: l) d'.
Proof.
  revert x. induction l as [|y l IH]; intros x; [reflexivity|].
  change (last (y :: l) d = last (y :: l) d'). apply IH.
Qed.

Lemma last_cons (l : list Z) (x d : Z) : last (x :: l) d = last l x.
Proof.
  destruct l as [|y l]; [reflexivity|].
  change (last (y :: l) d = last (y :: l) x). apply last_default.
Qed.

Lemma last_snoc (l : list Z) (x d : Z) : last (l ++ [x]) d = x.
Proof. apply last_last. Qed.

Lemma last_In (l : list Z) (x d : Z) : In (last (x :: l) d) (x :: l).
Proof.
  revert x. induction l as [|y l IH]; intros x; [now left|].
  right. change (In (last (y :: l) d) (y :: l)). apply IH.
Qed.

Lemma dlseg_app (m : memory) (l1 l2 : list Z) : forall (p n : Z),
  dlseg m p (l1 ++ l2) n <->
  dlseg m p l1 (hd n l2) /\ dlseg m (last l1 p) l2 n.
Proof.
  induction l1 as [|x l1 IH]; intros p n.
  - cbn. tauto.
  - cbn [app dlseg]. rewrite IH.
    assert (E1 : hd n (l1 ++ l2) = hd (hd n l2) l1) by now destruct l1.
    rewrite E1, last_cons. tauto.
Qed.

Lemma dlseg_ext (m m' : memory) (l : list Z) : forall (p n : Z),
  (forall x y, In x l -> x <= y < x + 16 -> m' y = m y) ->
  dlseg m p l n -> dlseg m' p l n.
Proof.
  induction l as [|x r IH]; intros p n Hext H; cbn in *; [exact I|].
  destruct H as (Hp & Hn & Hr). split; [|split].
  - rewrite <- Hp. apply load_le_ext. intros y Hy. apply (Hext x); [now left|].
    lia.
  - rewrite <- Hn. apply load_le_ext. intros y Hy. apply (Hext x); [now left|].
    lia.
  - apply IH; [|assumption]. intros z y Hz. apply Hext. now right.
Qed.

(** ** Running the primitives *)

Lemma in_arena_true (s : state) (p n : Z) :
  mem_start_brk s <= p -> p + n <= mem_max_addr s -> in_arena s p n = true.
Proof.
  intros H1 H2. unfold in_arena.
  apply andb_true_intro. split; apply Z.leb_le; assumption.
Qed.

Lemma load_ok (n : nat) (p : Z) (s : state) :
  mem_start_brk s <= p -> p + Z.of_nat n <= mem_max_addr s ->
  load n p s = Ok (load_le n (mem s) p) s.
Proof. intros H1 H2. unfold load. now rewrite in_arena_true. Qed.

Lemma store_ok (n : nat) (p v : Z) (s : state) :
  mem_start_brk s <= p -> p + Z.of_nat n <= mem_max_addr s ->
  store n p v s = Ok tt (set_mem (store_le n p v (mem s)) s).
Proof. intros H1 H2. unfold store. now rewrite in_arena_true. Qed.

Lemma GET_ok (p : Z) (s : state) :
  mem_start_brk s <= p -> p + 4 <= mem_max_addr s ->
  GET p s = Ok (load_le 4 (mem s) p) s.
Proof. intros. apply load_ok; cbn; lia. Qed.

Lemma PUT_ok (p v : Z) (s : state) :
  mem_start_brk s <= p -> p + 4 <= mem_max_addr s ->
  PUT p v s = Ok tt (set_mem (store_le 4 p v (mem s)) s).
Proof. intros. apply store_ok; cbn; lia. Qed.

Lemma GET_SIZE_ok (p sz : Z) (a : bool) (s : state) :
  mem_start_brk s <= p -> p + 4 <= mem_max_addr s ->
  load_le 4 (mem s) p = tag sz a ->
  0 <= sz < 4294967296 -> sz mod 8 = 0 ->
  GET_SIZE p s = Ok sz s.
Proof.
  intros H1 H2 H3 H4 H5. unfold GET_SIZE.
  erewrite bind_step by (apply GET_ok; assumption). unfold ret.
  now rewrite H3, tag_size.
Qed.

Lemma GET_ALLOC_ok (p sz : Z) (a : bool) (s : state) :
  mem_start_brk s <= p -> p + 4 <= mem_max_addr s ->
  load_le 4 (mem s) p = tag sz a ->
  sz mod 8 = 0 ->
  GET_ALLOC p s = Ok (if a then 1 else 0) s.
Proof.
  intros H1 H2 H3 H5. unfold GET_ALLOC.
  erewrite bind_step by (apply GET_ok; assumption). unfold ret.
  now rewrite H3, tag_alloc.
Qed.

Lemma FTRP_ok (bp sz : Z) (a : bool) (s : state) :
  mem_start_brk s <= bp - 4 -> bp <= mem_max_addr s ->
  load_le 4 (mem s) (bp - 4) = tag sz a ->
  0 <= sz < 4294967296 -> sz mod 8 = 0 ->
  FTRP bp s = Ok (bp + sz - 8) s.
Proof.
  intros H1 H2 H3 H4 H5. unfold FTRP, HDRP, WSIZE, DSIZE.
  erewrite bind_step by (eapply GET_SIZE_ok; eauto; lia). reflexivity.
Qed.

Lemma NEXT_BLKP_ok (bp sz : Z) (a : bool) (s : state) :
  mem_start_brk s <= bp - 4 -> bp <= mem_max_addr s ->
  load_le 4 (mem s) (bp - 4) = tag sz a ->
  0 <= sz < 4294967296 -> sz mod 8 = 0 ->
  NEXT_BLKP bp s = Ok (bp + sz) s.
Proof.
  intros H1 H2 H3 H4 H5. unfold NEXT_BLKP, WSIZE.
  erewrite bind_step by (eapply GET_SIZE_ok; eauto; lia). reflexivity.
Qed.

Lemma PREV_BLKP_ok (bp sz : Z) (a : bool) (s : state) :
  mem_start_brk s <= bp - 8 -> bp - 4 <= mem_max_addr s ->
  load_le 4 (mem s) (bp - 8) = tag sz a ->
  0 <= sz < 4294967296 -> sz mod 8 = 0 ->
  PREV_BLKP bp s = Ok (bp - sz) s.
Proof.
  intros H1 H2 H3 H4 H5. unfold PREV_BLKP, DSIZE.
  erewrite bind_step by (eapply GET_SIZE_ok; eauto; lia). reflexivity.
Qed.

(** Writing the two tags of a block, as every function of mm.c does it:
    the header, then the footer found through the new header. *)
Definition retag (bp sz : Z) (a : bool) (m : memory) : memory :=
  store_le 4 (bp + sz - 8) (tag sz a) (store_le 4 (bp - 4) (tag sz a) m).

Lemma put_tags_ok (bp sz : Z) (a : bool) (s : state) :
  mem_start_brk s <= bp - 4 -> bp + sz - 4 <= mem_max_addr s ->
  8 <= sz < 4294967296 -> sz mod 8 = 0 ->
  (PUT (HDRP bp) (tag sz a) ;;; ft <- FTRP bp ;; PUT ft (tag sz a)) s =
  Ok tt (set_mem (retag bp sz a (mem s)) s).
Proof.
  intros H1 H2 H3 H4. unfold HDRP, WSIZE.
  assert (R : 0 <= tag sz a < 4294967296) by (apply tag_range; lia).
  erewrite bind_step by (apply PUT_ok; lia).
  erewrite bind_step by
    (eapply FTRP_ok with (sz := sz) (a := a); cbn;
     [lia | lia | now apply load4_store4 | lia | assumption]).
  rewrite PUT_ok by (cbn; lia). reflexivity.
Qed.

Lemma put_tags_bind {B : Type} (bp sz : Z) (a : bool) (k : M B) (s : state) :
  mem_start_brk s <= bp - 4 -> bp + sz - 4 <= mem_max_addr s ->
  8 <= sz < 4294967296 -> sz mod 8 = 0 ->
  (PUT (HDRP bp) (tag sz a) ;;; ft <- FTRP bp ;; PUT ft (tag sz a) ;;; k) s =
  k (set_mem (retag bp sz a (mem s)) s).
Proof.
  intros H1 H2 H3 H4. unfold HDRP, WSIZE.
  assert (R : 0 <= tag sz a < 4294967296) by (apply tag_range; lia).
  erewrite bind_step by (apply PUT_ok; lia).
  erewrite bind_step by
    (eapply FTRP_ok with (sz := sz) (a := a); cbn;
     [lia | lia | now apply load4_store4 | lia | assumption]).
  erewrite bind_step by (apply PUT_ok; cbn; lia). reflexivity.
Qed.

Lemma retag_out (bp sz : Z) (a : bool) (m : memory) (x : Z) :
  8 <= sz ->
  x < bp - 4 \/ (bp <= x < bp + sz - 8) \/ bp + sz - 4 <= x ->
  retag bp sz a m x = m x.
Proof.
  intros H0 H. unfold retag. rewrite !store_le_out by (cbn; lia). reflexivity.
Qed.

Lemma retag_tags (bp sz : Z) (a : bool) (m : memory) :
  8 <= sz < 4294967296 -> sz mod 8 = 0 ->
  load_le 4 (retag bp sz a m) (bp - 4) = tag sz a /\
  load_le 4 (retag bp sz a m) (bp + sz - 8) = tag sz a.
Proof.
  intros H1 H2. unfold retag.
  assert (R : 0 <= tag sz a < 4294967296) by (apply tag_range; lia).
  split.
  - rewrite load_store_other by (cbn; lia). now apply load4_store4.
  - now apply load4_store4.
Qed.

Lemma load_retag_other (n : nat) (bp sz b : Z) (a : bool) (m : memory) :
  8 <= sz ->
  b + Z.of_nat n <= bp - 4 \/
  (bp <= b /\ b + Z.of_nat n <= bp + sz - 8) \/ bp + sz - 4 <= b ->
  load_le n (retag bp sz a m) b = load_le n m b.
Proof.
  intros H0 H. apply load_le_ext. intros x Hx. apply retag_out; lia.
Qed.

(** ** Reading a well-formed heap *)

(** The block before a position, the prologue when there is none, and the
    block after it, the epilogue when there is none. *)
Definition prev_of (l1 : list block) : block := last l1 (8, true).
Definition next_of (l2 : list block) : block := hd (0, true) l2.

Lemma addrs_sep (a : bool) (bl : list block) : forall (bp x y : Z),
  Forall block_ok bl ->
  In x (addrs a bp bl) -> In y (addrs a bp bl) -> x <> y ->
  x + 24 <= y \/ y + 24 <= x.
Proof.
  induction bl as [|[sz a'] r IH]; intros bp x y Hok Hx Hy Hne; cbn in *; [tauto|].
  inversion Hok as [|? ? [H1 H2] Hr]; subst. cbn in H1.
  destruct (Bool.eqb a a').
  - destruct Hx as [<-|Hx]; destruct Hy as [<-|Hy].
    + contradiction.
    + apply addrs_range in Hy; [lia|assumption].
    + apply addrs_range in Hx; [lia|assumption].
    + eapply IH; eauto.
  - eapply IH; eauto.
Qed.

Lemma snoc_cases (A : Type) (l : list A) :
  l = [] \/ exists l' x, l = l' ++ [x].
Proof.
  induction l as [|x l' _] using rev_ind; [now left|right]. now exists l', x.
Qed.

Section Reading.
Variables (s : state) (fl : list Z).
Variables (l1 l2 : list block) (sz : Z) (a : bool).
Hypothesis H : heap_ok s (l1 ++ (sz, a) :: l2) fl.

Let B := heap_listp s + total l1.

Lemma blk_facts :
  Forall block_ok l1 /\ Forall block_ok l2 /\
  24 <= sz /\ sz mod 8 = 0 /\
  0 <= total l1 /\ 0 <= total l2 /\
  mem_brk s = B + sz + total l2 /\
  mem_brk s - mem_start_brk s < 4294967296 /\
  mem_start_brk s + 16 <= B /\ 0 < mem_start_brk s /\
  mem_brk s <= 18446744073709551616 /\
  mem_brk s <= mem_max_addr s.
Proof.
  destruct H. apply Forall_app in ok_blocks0. destruct ok_blocks0 as [F1 F2].
  inversion F2 as [|? ? [Hs1 Hs2] F3]; subst. cbn in Hs1, Hs2.
  pose proof (total_nonneg F1). pose proof (total_nonneg F3).
  rewrite total_app in ok_brk0. cbn in ok_brk0. unfold B.
  repeat split; try assumption; lia.
Qed.

Lemma blk_hdr : load_le 4 (mem s) (B - 4) = tag sz a.
Proof.
  destruct H. apply tags_app in ok_tags0. cbn in ok_tags0. tauto.
Qed.

Lemma blk_ftr : load_le 4 (mem s) (B + sz - 8) = tag sz a.
Proof.
  destruct H. apply tags_app in ok_tags0. cbn in ok_tags0. tauto.
Qed.

Lemma prev_facts :
  8 <= fst (prev_of l1) /\ fst (prev_of l1) mod 8 = 0 /\
  fst (prev_of l1) <= B - (mem_start_brk s + 8) /\
  load_le 4 (mem s) (B - 8) = tag (fst (prev_of l1)) (snd (prev_of l1)) /\
  load_le 4 (mem s) (B - fst (prev_of l1) - 4) =
    tag (fst (prev_of l1)) (snd (prev_of l1)).
Proof.
  pose proof blk_facts as F. destruct H. unfold prev_of, B in *.
  destruct (snoc_cases l1) as [E|(l & [psz pa] & ->)].
  - subst l1. cbn [total last fst snd app] in *.
    rewrite Z.add_0_r. split; [lia|]. split; [reflexivity|]. split; [lia|].
    split; [assumption|].
    replace (heap_listp s - 8 - 4) with (heap_listp s - 12) by lia. assumption.
  - rewrite last_last. cbn [fst snd].
    rewrite <- app_assoc in ok_tags0. apply tags_app in ok_tags0.
    destruct ok_tags0 as [_ T]. cbn in T. destruct T as (Th & Tf & _).
    destruct F as (F1 & _). apply Forall_app in F1. destruct F1 as [F0 F1].
    inversion F1 as [|? ? [Hs1 Hs2] _]; subst. cbn in Hs1, Hs2.
    pose proof (total_nonneg F0).
    rewrite total_app. cbn [total fst]. split; [lia|]. split; [assumption|].
    split; [lia|]. split.
    + rewrite <- Tf. f_equal. lia.
    + rewrite <- Th. f_equal. lia.
Qed.
End Reading.

Arguments blk_facts {s fl l1 l2 sz a} H.
Arguments blk_hdr {s fl l1 l2 sz a} H.
Arguments blk_ftr {s fl l1 l2 sz a} H.
Arguments prev_facts {s fl l1 l2 sz a} H.

Lemma next_facts (s : state) (fl : list Z) (l1 l2 : list block) (sz : Z) (a : bool) :
  heap_ok s (l1 ++ (sz, a) :: l2) fl ->
  0 <= fst (next_of l2) /\ fst (next_of l2) mod 8 = 0 /\
  heap_listp s + total l1 + sz + fst (next_of l2) <= mem_brk s /\
  load_le 4 (mem s) (heap_listp s + total l1 + sz - 4) =
    tag (fst (next_of l2)) (snd (next_of l2)).
Proof.
  intros H. pose proof (blk_facts H) as F. destruct H. unfold next_of.
  destruct l2 as [|[nsz na] l3]; cbn [hd fst snd total] in *.
  - split; [lia|]. split; [reflexivity|]. split; [lia|].
    rewrite <- ok_epi0. f_equal. lia.
  - apply tags_app in ok_tags0. cbn in ok_tags0.
    destruct ok_tags0 as (_ & _ & _ & Th & _).
    destruct F as (_ & F2 & F). inversion F2 as [|? ? [Hs1 Hs2] F3]; subst.
    cbn in Hs1, Hs2. pose proof (total_nonneg F3).
    split; [lia|]. split; [assumption|]. split; [lia|]. assumption.
Qed.

Arguments next_facts {s fl l1 l2 sz a} _.

Lemma node_facts (s : state) (bl : list block) (fl : list Z) (x : Z) :
  heap_ok s bl fl -> In x fl ->
  mem_start_brk s + 16 <= x /\ x + 24 <= mem_brk s /\
  0 < x < 18446744073709551616.
Proof.
  intros H Hx. destruct H. apply ok_incl0 in Hx.
  apply addrs_range in Hx; [|assumption]. lia.
Qed.

Arguments node_facts {s bl fl x} _ _.

Lemma node_sep (s : state) (bl : list block) (fl : list Z) (x y : Z) :
  heap_ok s bl fl -> In x fl -> In y fl -> x <> y ->
  x + 24 <= y \/ y + 24 <= x.
Proof.
  intros H Hx Hy Hne. destruct H.
  eapply addrs_sep; eauto; now apply ok_incl0.
Qed.

(** ** Changing a region of the heap

    Memory changes inside the blocks [mid] that leave well-formed blocks
    [mid'] of the same total size, and leave alone the nodes of the free
    list, give a well-formed heap again. *)
Lemma heap_ok_region (s : state) (l1 mid mid' l2 : list block) (fl : list Z)
      (m' : memory) :
  heap_ok s (l1 ++ mid ++ l2) fl ->
  total mid' = total mid ->
  Forall block_ok mid' ->
  (forall x, x < heap_listp s + total l1 - 4 \/
             heap_listp s + total l1 + total mid - 4 <= x -> m' x = mem s x) ->
  tags m' (heap_listp s + total l1) mid' ->
  (forall x, In x fl -> In x (free_bps (heap_listp s + total l1) mid) ->
             In x (free_bps (heap_listp s + total l1) mid') /\
             forall y, x <= y < x + 16 -> m' y = mem s y) ->
  heap_ok (set_mem m' s) (l1 ++ mid' ++ l2) fl.
Proof.
  intros H Ht Hok Hout Htags Hnodes.
  destruct H.
  apply Forall_app in ok_blocks0. destruct ok_blocks0 as [F1 F23].
  apply Forall_app in F23. destruct F23 as [F2 F3].
  pose proof (total_nonneg F1). pose proof (total_nonneg F2).
  pose proof (total_nonneg F3).
  rewrite !total_app in ok_brk0.
  apply tags_app in ok_tags0. destruct ok_tags0 as [T1 T23].
  apply tags_app in T23. destruct T23 as [_ T3].
  constructor; cbn [mem set_mem mem_start_brk mem_brk mem_max_addr heap_listp
                    dl_start dl_end]; try assumption.
  - rewrite !total_app. lia.
  - rewrite <- ok_pro_hdr0. apply load_le_ext. intros x Hx. apply Hout. lia.
  - rewrite <- ok_pro_ftr0. apply load_le_ext. intros x Hx. apply Hout. lia.
  - apply Forall_app. split; [assumption|]. apply Forall_app. now split.
  - apply tags_app. split.
    + eapply tags_ext; [eassumption| |eassumption]. intros x Hx. apply Hout. lia.
    + apply tags_app. split; [assumption|]. rewrite Ht.
      eapply tags_ext; [eassumption| |eassumption]. intros x Hx. apply Hout. lia.
  - rewrite <- ok_epi0. apply load_le_ext. intros x Hx. apply Hout. lia.
  - eapply dlseg_ext; [|eassumption]. intros x y Hx Hy.
    pose proof (ok_incl0 _ Hx) as Hin. unfold free_bps in Hin.
    rewrite !addrs_app in Hin. apply in_app_or in Hin.
    destruct Hin as [Hin|Hin].
    { apply addrs_range in Hin; [|assumption]. apply Hout. lia. }
    apply in_app_or in Hin. destruct Hin as [Hin|Hin].
    { now apply (Hnodes x Hx Hin). }
    apply addrs_range in Hin; [|assumption]. apply Hout. lia.
  - intros x Hx. pose proof (ok_incl0 _ Hx) as Hin. unfold free_bps in *.
    rewrite !addrs_app in *. apply in_app_or in Hin.
    apply in_or_app. destruct Hin as [Hin|Hin]; [now left|right].
    apply in_app_or in Hin. apply in_or_app. destruct Hin as [Hin|Hin].
    + left. now apply (Hnodes x Hx Hin).
    + right. now rewrite Ht.
Qed.

Definition same_arena (s s' : state) : Prop :=
  mem_start_brk s' = mem_start_brk s /\ mem_brk s' = mem_brk s /\
  mem_max_addr s' = mem_max_addr s /\ heap_listp s' = heap_listp s /\
  console s' = console s.

Lemma same_arena_refl (s : state) : same_arena s s.
Proof. now repeat split. Qed.

Lemma same_arena_trans (s1 s2 s3 : state) :
  same_arena s1 s2 -> same_arena s2 s3 -> same_arena s1 s3.
Proof. unfold same_arena. intuition congruence. Qed.

Lemma tags_nodes (m m' : memory) (bl : list block) : forall (bp : Z),
  Forall block_ok bl ->
  (forall x, bp - 4 <= x ->
             (forall y, In y (free_bps bp bl) -> x < y \/ y + 16 <= x) ->
             m' x = m x) ->
  tags m bp bl -> tags m' bp bl.
Proof.
  induction bl as [|[sz a] r IH]; intros bp Hok Hext Ht; cbn in *; [exact I|].
  inversion Hok as [|? ? [H1 H2] Hr]; subst. cbn in H1.
  destruct Ht as (Hh & Hf & Ht).
  assert (Hy : forall x y, bp - 4 <= x < bp \/ bp + sz - 8 <= x < bp + sz - 4 ->
             In y (free_bps bp ((sz, a) :: r)) -> x < y \/ y + 16 <= x).
  { intros x y Hx Hin. unfold free_bps in Hin. cbn in Hin.
    destruct a; cbn in Hin.
    - apply addrs_range in Hin; [lia|assumption].
    - destruct Hin as [<-|Hin]; [lia|].
      apply addrs_range in Hin; [lia|assumption]. }
  split; [|split].
  - rewrite <- Hh. apply load_le_ext. intros x Hx. apply Hext; [lia|].
    intros y. apply Hy. lia.
  - rewrite <- Hf. apply load_le_ext. intros x Hx. apply Hext; [lia|].
    intros y. apply Hy. lia.
  - apply IH; [assumption| |assumption]. intros x Hx Hn. apply Hext; [lia|].
    intros y Hin. unfold free_bps in Hin. cbn in Hin.
    destruct a; cbn in Hin; [now apply Hn|].
    destruct Hin as [<-|Hin]; [lia|now apply Hn].
Qed.

(** Memory changes inside the nodes of free blocks keep the tags; with a
    well-linked list they give a well-formed heap. *)
Lemma heap_ok_nodes (s s' : state) (bl : list block) (fl fl' : list Z) :
  heap_ok s bl fl ->
  mem_start_brk s' = mem_start_brk s -> mem_brk s' = mem_brk s ->
  mem_max_addr s' = mem_max_addr s -> heap_listp s' = heap_listp s ->
  (forall x, (forall y, In y (free_bps (heap_listp s) bl) -> x < y \/ y + 16 <= x) ->
             mem s' x = mem s x) ->
  dlseg (mem s') 0 fl' 0 ->
  dl_start s' = hd 0 fl' -> dl_end s' = last fl' 0 ->
  NoDup fl' -> incl fl' (free_bps (heap_listp s) bl) ->
  heap_ok s' bl fl'.
Proof.
  intros H E1 E2 E3 E4 Hext Hl Hs He Hnd Hin. destruct H.
  pose proof (total_nonneg ok_blocks0) as Hn.
  assert (Hy : forall x y, x < heap_listp s - 4 \/ mem_brk s - 4 <= x ->
             In y (free_bps (heap_listp s) bl) -> x < y \/ y + 16 <= x).
  { intros x y Hx Hy. apply addrs_range in Hy; [lia|assumption]. }
  constructor; rewrite ?E1, ?E2, ?E3, ?E4; try assumption.
  - rewrite <- ok_pro_hdr0. apply load_le_ext. intros x Hx. apply Hext.
    intros y. apply Hy. lia.
  - rewrite <- ok_pro_ftr0. apply load_le_ext. intros x Hx. apply Hext.
    intros y. apply Hy. lia.
  - eapply tags_nodes; [eassumption| |eassumption]. intros x _. apply Hext.
  - rewrite <- ok_epi0. apply load_le_ext. intros x Hx. apply Hext.
    intros y. apply Hy. lia.
Qed.

Lemma dlseg_set_prev (m : memory) (p p' x n : Z) (r : list Z) :
  dlseg m p (x :: r) n ->
  (forall y, In y r -> x + 16 <= y \/ y + 16 <= x) ->
  0 <= p' < 18446744073709551616 ->
  dlseg (store_le 8 x p' m) p' (x :: r) n.
Proof.
  intros (Hp & Hn & Hr) Hsep Hp'. cbn [dlseg]. split; [|split].
  - now apply load8_store8.
  - rewrite load_store_other by (cbn; lia). assumption.
  - eapply dlseg_ext; [|eassumption]. intros z y Hz Hy.
    apply store_le_out. specialize (Hsep z Hz). cbn. lia.
Qed.

Lemma dlseg_set_next (m : memory) (p x n n' : Z) (l : list Z) :
  dlseg m p (l ++ [x]) n ->
  (forall y, In y l -> x + 16 <= y \/ y + 16 <= x) ->
  0 <= n' < 18446744073709551616 ->
  dlseg (store_le 8 (x + 8) n' m) p (l ++ [x]) n'.
Proof.
  intros H Hsep Hn'. apply dlseg_app in H. destruct H as [H1 (Hp & Hn & _)].
  apply dlseg_app. split.
  - eapply dlseg_ext; [|eassumption]. intros z y Hz Hy.
    apply store_le_out. specialize (Hsep z Hz). cbn. lia.
  - cbn [dlseg hd]. split; [|split; [|exact I]].
    + rewrite load_store_other by (cbn; lia). assumption.
    + now apply load8_store8.
Qed.

Lemma bind_gets {A B : Type} (f : state -> A) (k : A -> M B) (s : state) :
  bind (gets f) k s = k (f s) s.
Proof. reflexivity. Qed.

Lemma bind_modify {B : Type} (f : state -> state) (k : unit -> M B) (s : state) :
  bind (modify f) k s = k tt (f s).
Proof. reflexivity. Qed.

Lemma bind_ret {A B : Type} (a : A) (k : A -> M B) (s : state) :
  bind (ret a) k s = k a s.
Proof. reflexivity. Qed.

Lemma NoDup_hd_last (x d : Z) (l : list Z) :
  NoDup (x :: l) -> l <> [] -> x <> last (x :: l) d.
Proof.
  intros Hnd Hne E. inversion Hnd as [|? ? Hx _]; subst.
  destruct l as [|y l]; [contradiction|].
  apply Hx. rewrite E. rewrite last_cons.
  change (In (last (y :: l) x) (y :: l)). apply last_In.
Qed.

(** ** The free list operations *)

Lemma add_freeblock_ok (s : state) (bl : list block) (fl : list Z) (bp : Z) :
  heap_ok s bl fl -> In bp (free_bps (heap_listp s) bl) -> ~ In bp fl ->
  exists s', add_freeblock bp s = Ok tt s' /\
             heap_ok s' bl (fl ++ [bp]) /\ same_arena s s' /\
             (forall x, (forall y, In y (bp :: fl) -> x < y \/ y + 16 <= x) ->
                        mem s' x = mem s x).
Proof.
  intros H Hbp Hnin. pose proof H as H'. destruct H'.
  assert (Rb : heap_listp s <= bp /\ bp + 24 <= mem_brk s).
  { apply addrs_range in Hbp; [lia|assumption]. }
  assert (Hnd : NoDup (fl ++ [bp])).
  { apply NoDup_app; [assumption|repeat constructor; easy|].
    intros x Hx [<-|[]]. contradiction. }
  assert (Hincl : incl (fl ++ [bp]) (free_bps (heap_listp s) bl)).
  { intros x Hx. apply in_app_or in Hx. destruct Hx as [Hx|[<-|[]]]; auto. }
  unfold add_freeblock, put_next, put_prev. rewrite bind_gets.
  destruct (snoc_cases fl) as [->|(l & e & ->)].
  - cbn in ok_dl_start0. rewrite ok_dl_start0. cbn [Z.eqb NULL negb].
    erewrite bind_step by (apply store_ok; cbn; lia).
    erewrite bind_step by (apply store_ok; cbn; lia).
    rewrite bind_modify. unfold modify. eexists. split; [reflexivity|].
    split; [|split].
    + eapply heap_ok_nodes; try exact H; try reflexivity; try assumption.
      * cbn. intros x Hx. specialize (Hx bp Hbp).
        rewrite !store_le_out by (cbn; lia). reflexivity.
      * cbn. split; [|split; [|exact I]].
        -- apply load8_store8. lia.
        -- rewrite load_store_other by (cbn; lia). apply load8_store8. lia.
    + repeat split.
    + cbn. intros x Hx. specialize (Hx bp (or_introl eq_refl)).
      rewrite !store_le_out by (cbn; lia). reflexivity.
  - assert (He : In e (l ++ [e])) by (apply in_or_app; right; now left).
    pose proof (node_facts H He) as Fe.
    assert (Hsep : e + 24 <= bp \/ bp + 24 <= e).
    { eapply addrs_sep; [exact ok_blocks0|apply ok_incl0; exact He|exact Hbp|].
      intros ->. contradiction. }
    assert (Hsepl : forall y, In y l -> e + 16 <= y \/ y + 16 <= e).
    { intros y Hy.
      assert (y <> e).
      { intros ->. apply NoDup_remove_2 in ok_nodup0.
        apply ok_nodup0. rewrite app_nil_r. exact Hy. }
      destruct (@node_sep s bl (l ++ [e]) y e H); auto; try lia.
      apply in_or_app. now left. }
    assert (Hsepb : forall y, In y (l ++ [e]) -> bp + 16 <= y \/ y + 16 <= bp).
    { intros y Hy.
      destruct (@addrs_sep false bl (heap_listp s) y bp ok_blocks0); auto; try lia.
      intros ->. contradiction. }
    assert (Hs : dl_start s <> 0).
    { rewrite ok_dl_start0. destruct l as [|z l'].
      - cbn. lia.
      - cbn. assert (In z ((z :: l') ++ [e])) by now left.
        pose proof (node_facts H H0). lia. }
    apply Z.eqb_neq in Hs. unfold NULL. rewrite Hs. cbn [negb].
    rewrite bind_gets.
    erewrite bind_step by (apply store_ok; cbn; lia).
    rewrite bind_gets. cbn [dl_end set_mem].
    rewrite ok_dl_end0, last_last.
    erewrite bind_step by (apply store_ok; cbn; lia).
    erewrite bind_step by (apply store_ok; cbn; lia).
    unfold modify. eexists. split; [reflexivity|].
    split; [|split].
    + eapply heap_ok_nodes; try exact H; try reflexivity; try assumption.
      * cbn. intros x Hx. pose proof (Hx bp Hbp). pose proof (Hx e (ok_incl0 e He)).
        rewrite !store_le_out by (cbn; lia). reflexivity.
      * cbn [mem set_mem set_dl_end]. apply dlseg_app. split.
        -- cbn [hd]. eapply dlseg_ext; cycle 1.
           { apply dlseg_set_next with (m := store_le 8 bp e (mem s))
                                       (n := 0) (n' := bp); [|exact Hsepl|lia].
             eapply dlseg_ext; [|exact ok_list0]. intros z y Hz Hy.
             apply store_le_out. specialize (Hsepb z Hz). cbn. lia. }
           intros z y Hz Hy. apply store_le_out. specialize (Hsepb z Hz). cbn. lia.
        -- rewrite last_last. cbn [dlseg hd]. split; [|split; [|exact I]].
           ++ rewrite !load_store_other by (cbn; lia). apply load8_store8. lia.
           ++ apply load8_store8. lia.
      * cbn. rewrite ok_dl_start0. destruct l; reflexivity.
      * cbn. now rewrite last_last.
    + repeat split.
    + cbn. intros x Hx. pose proof (Hx bp (or_introl eq_refl)).
      pose proof (Hx e (or_intror He)).
      rewrite !store_le_out by (cbn; lia). reflexivity.
Qed.

Lemma last_app_cons (l1 l2 : list Z) (x d : Z) :
  last (l1 ++ x :: l2) d = last (x :: l2) d.
Proof.
  induction l1 as [|y l1 IH]; [reflexivity|].
  cbn [app]. rewrite last_cons, <- IH.
  destruct l1; cbn [app]; apply last_default.
Qed.

Lemma hd_app_cons (l1 l2 : list Z) (x d : Z) :
  hd d ((l1 ++ [x]) ++ l2) = hd x l1.
Proof. now destruct l1. Qed.

Lemma hd_snoc (l : list Z) (x d : Z) : hd d (l ++ [x]) = hd x l.
Proof. now destruct l. Qed.

Lemma hd_In (l : list Z) (x : Z) : In (hd x l) (l ++ [x]).
Proof. destruct l; now left. Qed.

Lemma remove_freeblock_ok (s : state) (bl : list block) (l1 l2 : list Z) (fb : Z) :
  heap_ok s bl (l1 ++ fb :: l2) ->
  exists s', remove_freeblock fb s = Ok tt s' /\
             heap_ok s' bl (l1 ++ l2) /\ same_arena s s' /\
             (forall x, (forall y, In y (l1 ++ l2) -> x < y \/ y + 16 <= x) ->
                        mem s' x = mem s x).
Proof.
  intros H. pose proof H as H'. destruct H'.
  assert (Hfb : In fb (l1 ++ fb :: l2)) by (apply in_or_app; right; now left).
  pose proof (node_facts H Hfb) as Ffb.
  pose proof (NoDup_remove_1 _ _ _ ok_nodup0) as Hnd.
  pose proof (NoDup_remove_2 _ _ _ ok_nodup0) as Hnin.
  assert (Hincl : incl (l1 ++ l2) (free_bps (heap_listp s) bl)).
  { intros x Hx. apply ok_incl0. apply in_app_or in Hx. apply in_or_app.
    destruct Hx; [now left|right; now right]. }
  assert (Hsub : forall x, In x (l1 ++ l2) -> In x (l1 ++ fb :: l2)).
  { intros x Hx. apply in_app_or in Hx. apply in_or_app.
    destruct Hx; [now left|right; now right]. }
  assert (Hsep : forall x y, In x (l1 ++ fb :: l2) -> In y (l1 ++ fb :: l2) ->
                             x <> y -> x + 24 <= y \/ y + 24 <= x).
  { intros x y Hx Hy. now apply (node_sep H). }
  assert (Hext : forall m', (forall x, (forall y, In y (l1 ++ l2) -> x < y \/ y + 16 <= x) ->
                               m' x = mem s x) ->
                 forall x, (forall y, In y (free_bps (heap_listp s) bl) -> x < y \/ y + 16 <= x) ->
                           m' x = mem s x).
  { intros m' Hm x Hx. apply Hm. intros y Hy. apply Hx. now apply Hincl. }
  unfold remove_freeblock. rewrite !bind_gets.
  rewrite ok_dl_start0, ok_dl_end0, last_app_cons.
  apply dlseg_app in ok_list0. cbn [hd dlseg] in ok_list0.
  destruct ok_list0 as (L1 & Lp & Ln & L2).
  destruct (snoc_cases l1) as [->|(l & z & ->)]; destruct l2 as [|y r].
  - (* the only node *)
    cbn [app hd last]. rewrite Z.eqb_refl.
    rewrite bind_modify. unfold modify. eexists. split; [reflexivity|].
    split; [|split].
    + eapply heap_ok_nodes; try exact H; try reflexivity; try assumption.
    + repeat split.
    + reflexivity.
  - (* the first node *)
    cbn [app hd]. cbn [app] in *.
    assert (E : fb <> last (fb :: y :: r) 0)
      by (apply NoDup_hd_last; [assumption|discriminate]).
    apply Z.eqb_neq in E. rewrite E, Z.eqb_refl.
    unfold get_next, put_prev.
    erewrite bind_step by (apply load_ok; cbn; lia).
    rewrite Ln. cbn [hd]. rewrite bind_modify.
    assert (Hy : In y (fb :: y :: r)) by (right; now left).
    pose proof (node_facts H Hy) as Fy.
    rewrite store_ok by (cbn; lia). eexists. split; [reflexivity|].
    split; [|split].
    + eapply heap_ok_nodes; try exact H; try reflexivity; try assumption.
      * apply Hext. cbn. intros x Hx. specialize (Hx y (or_introl eq_refl)).
        rewrite store_le_out by (cbn; lia). reflexivity.
      * cbn [mem set_mem set_dl_start]. eapply dlseg_set_prev; [exact L2| |lia].
        intros w Hw. inversion Hnd as [|? ? Hyr _]; subst.
        destruct (Hsep y w); auto; try lia.
        -- right; now right.
        -- intros ->. contradiction.
    + repeat split.
    + cbn. intros x Hx. specialize (Hx y (or_introl eq_refl)).
      rewrite store_le_out by (cbn; lia). reflexivity.
  - (* the last node *)
    rewrite app_nil_r in *. rewrite hd_app_cons. cbn [last].
    assert (Hh : In (hd z l) (l ++ [z])) by apply hd_In.
    assert (E1 : hd z l <> fb) by (intros E; apply Hnin; now rewrite <- E).
    apply Z.eqb_neq in E1. rewrite E1, Z.eqb_refl.
    unfold get_prev, put_next.
    erewrite bind_step by (apply load_ok; cbn; lia).
    rewrite Lp, last_last. rewrite bind_modify.
    assert (Hz : In z ((l ++ [z]) ++ [fb]))
      by (apply in_or_app; left; apply in_or_app; right; now left).
    pose proof (node_facts H Hz) as Fz.
    rewrite store_ok by (cbn; lia). eexists. split; [reflexivity|].
    split; [|split].
    + eapply heap_ok_nodes; try exact H; try reflexivity; try assumption.
      * apply Hext. cbn. intros x Hx.
        assert (In z (l ++ [z])) by (apply in_or_app; right; now left).
        specialize (Hx z H0).
        rewrite store_le_out by (cbn; lia). reflexivity.
      * cbn [mem set_mem set_dl_end]. eapply dlseg_set_next; [exact L1| |lia].
        intros w Hw.
        destruct (Hsep z w); auto; try lia.
        -- apply in_or_app; left; apply in_or_app; now left.
        -- intros ->. apply NoDup_remove_2 in Hnd. apply Hnd.
           now rewrite app_nil_r.
      * cbn. rewrite ok_dl_start0. now rewrite hd_app_cons, hd_snoc.
      * cbn. now rewrite last_last.
    + repeat split.
    + cbn. intros x Hx.
      assert (In z (l ++ [z])) by (apply in_or_app; right; now left).
      specialize (Hx z H0).
      rewrite store_le_out by (cbn; lia). reflexivity.
  - (* a node in the middle *)
    rewrite hd_app_cons. rewrite last_cons.
    assert (Hh : In (hd z l) (l ++ [z])) by apply hd_In.
    assert (Hz : In z (l ++ [z])) by (apply in_or_app; right; now left).
    assert (Hy : In y (y :: r)) by now left.
    assert (Hl : In (last (y :: r) fb) (y :: r)) by apply last_In.
    assert (Il : forall w, In w (l ++ [z]) -> In w ((l ++ [z]) ++ fb :: y :: r))
      by (intros w Hw; apply in_or_app; now left).
    assert (Ir : forall w, In w (y :: r) -> In w ((l ++ [z]) ++ fb :: y :: r))
      by (intros w Hw; apply in_or_app; right; now right).
    assert (Dlr : forall v w, In v (l ++ [z]) -> In w (y :: r) -> v <> w).
    { intros v w Hv Hw ->. clear - Hnd Hv Hw.
      induction (l ++ [z]) as [|u t IH]; [contradiction|].
      cbn [app] in Hnd. inversion Hnd; subst.
      destruct Hv as [->|Hv]; [|now apply IH].
      apply H1. apply in_or_app. now right. }
    assert (Dl : forall w, In w (l ++ [z]) -> w <> fb).
    { intros w Hw ->. apply Hnin. apply in_or_app. now left. }
    assert (Dr : forall w, In w (y :: r) -> w <> fb).
    { intros w Hw ->. apply Hnin. apply in_or_app. now right. }
    pose proof (Dl _ Hh) as E1. pose proof (Dr _ Hl) as E2.
    pose proof (Dlr _ _ Hh Hl) as E3.
    apply Z.eqb_neq in E1, E2, E3. rewrite E1, E2, E3.
    unfold get_prev, get_next, put_next, put_prev.
    rewrite last_last in Lp. cbn [hd] in Ln.
    pose proof (node_facts H (Il _ Hz)) as Fz.
    pose proof (node_facts H (Ir _ Hy)) as Fy.
    pose proof (Hsep z fb (Il _ Hz) Hfb (Dl _ Hz)) as Szf.
    pose proof (Hsep y fb (Ir _ Hy) Hfb (Dr _ Hy)) as Syf.
    pose proof (Hsep z y (Il _ Hz) (Ir _ Hy) (Dlr _ _ Hz Hy)) as Szy.
    erewrite bind_step by (apply load_ok; cbn; lia). rewrite Lp.
    erewrite bind_step by (apply load_ok; cbn; lia). rewrite Ln.
    erewrite bind_step by (apply store_ok; cbn; lia).
    erewrite bind_step by (apply load_ok; cbn; lia).
    erewrite bind_step by (apply load_ok; cbn; lia).
    cbn [mem set_mem]. rewrite !load_store_other by (cbn; lia).
    rewrite Lp, Ln.
    rewrite store_ok by (cbn; lia). eexists. split; [reflexivity|].
    assert (Hm : forall x, (forall w, In w ((l ++ [z]) ++ y :: r) -> x < w \/ w + 16 <= x) ->
                 store_le 8 y z (store_le 8 (z + 8) y (mem s)) x = mem s x).
    { intros x Hx.
      pose proof (Hx z (in_or_app _ _ _ (or_introl Hz))).
      pose proof (Hx y (in_or_app _ _ _ (or_intror Hy))).
      rewrite !store_le_out by (cbn; lia). reflexivity. }
    split; [|split].
    + eapply heap_ok_nodes; try exact H; try reflexivity; try assumption.
      * apply Hext. exact Hm.
      * cbn [mem set_mem]. apply dlseg_app. split.
        -- cbn [hd]. eapply dlseg_ext; cycle 1.
           { apply dlseg_set_next with (m := mem s) (n := fb) (n' := y);
               [exact L1| |lia].
             intros w Hw.
             assert (Hw' : In w (l ++ [z])) by (apply in_or_app; now left).
             assert (z <> w).
             { intros ->. apply NoDup_app_remove_r in Hnd.
               apply NoDup_remove_2 in Hnd. apply Hnd. now rewrite app_nil_r. }
             pose proof (Hsep z w (Il _ Hz) (Il _ Hw') H0). lia. }
           intros w x Hw Hx. apply store_le_out.
           pose proof (Hsep w y (Il _ Hw) (Ir _ Hy) (Dlr _ _ Hw Hy)).
           cbn; lia.
        -- rewrite last_last. eapply dlseg_set_prev; [| |lia].
           ++ eapply dlseg_ext; [|exact L2]. intros w x Hw Hx.
              apply store_le_out.
              assert (z <> w) by (apply Dlr; assumption).
              pose proof (Hsep z w (Il _ Hz) (Ir _ Hw) H0).
              cbn; lia.
           ++ intros w Hw.
              apply NoDup_app_remove_l in Hnd. apply NoDup_cons_iff in Hnd.
              destruct Hnd as [Hyr _].
              assert (y <> w) by (intros ->; contradiction).
              pose proof (Hsep y w (Ir _ Hy) (Ir _ (or_intror Hw)) H0). lia.
      * cbn. rewrite ok_dl_start0. now rewrite !hd_app_cons.
      * cbn. rewrite ok_dl_end0. rewrite !last_app_cons. now rewrite !last_cons.
    + repeat split.
    + exact Hm.
Qed.

Arguments add_freeblock_ok {s bl fl bp} _ _ _.
Arguments remove_freeblock_ok {s bl l1 l2 fb} _.

(** ** Reading the neighbours of a block *)

Definition flag (a : bool) : Z := if a then 1 else 0.

Section Neighbours.
Variables (s : state) (fl : list Z).
Variables (l1 l2 : list block) (sz : Z) (a : bool).
Hypothesis H : heap_ok s (l1 ++ (sz, a) :: l2) fl.

Let B := heap_listp s + total l1.

Lemma run_size : GET_SIZE (HDRP B) s = Ok sz s.
Proof.
  pose proof (blk_facts H) as F. fold B in F.
  unfold HDRP, WSIZE. eapply GET_SIZE_ok; [| |exact (blk_hdr H)| |]; lia.
Qed.

Lemma run_alloc : GET_ALLOC (HDRP B) s = Ok (flag a) s.
Proof.
  pose proof (blk_facts H) as F. fold B in F.
  unfold HDRP, WSIZE. eapply GET_ALLOC_ok; [| |exact (blk_hdr H)|]; lia.
Qed.

Lemma run_FTRP : FTRP B s = Ok (B + sz - 8) s.
Proof.
  pose proof (blk_facts H) as F. fold B in F.
  eapply FTRP_ok; [| |exact (blk_hdr H)| |]; lia.
Qed.

Lemma run_NEXT : NEXT_BLKP B s = Ok (B + sz) s.
Proof.
  pose proof (blk_facts H) as F. fold B in F.
  eapply NEXT_BLKP_ok; [| |exact (blk_hdr H)| |]; lia.
Qed.

Lemma run_PREV : PREV_BLKP B s = Ok (B - fst (prev_of l1)) s.
Proof.
  pose proof (blk_facts H) as F. fold B in F.
  pose proof (prev_facts H) as P. fold B in P.
  eapply PREV_BLKP_ok; [| |apply P| |]; first [lia|apply P].
Qed.

Lemma run_prev_alloc :
  GET_ALLOC (HDRP (B - fst (prev_of l1))) s = Ok (flag (snd (prev_of l1))) s.
Proof.
  pose proof (blk_facts H) as F. fold B in F.
  pose proof (prev_facts H) as P. fold B in P.
  unfold HDRP, WSIZE. eapply GET_ALLOC_ok; [| |apply P|]; first [lia|apply P].
Qed.

Lemma run_next_alloc :
  GET_ALLOC (HDRP (B + sz)) s = Ok (flag (snd (next_of l2))) s.
Proof.
  pose proof (blk_facts H) as F. fold B in F.
  pose proof (next_facts H) as P. fold B in P.
  unfold HDRP, WSIZE. eapply GET_ALLOC_ok; [| |apply P|]; first [lia|apply P].
Qed.

Lemma run_next_size :
  GET_SIZE (HDRP (B + sz)) s = Ok (fst (next_of l2)) s.
Proof.
  pose proof (blk_facts H) as F. fold B in F.
  pose proof (next_facts H) as P. fold B in P.
  unfold HDRP, WSIZE. eapply GET_SIZE_ok; [| |apply P| |]; first [lia|apply P].
Qed.
End Neighbours.

Arguments run_size {s fl l1 l2 sz a} H.
Arguments run_alloc {s fl l1 l2 sz a} H.
Arguments run_FTRP {s fl l1 l2 sz a} H.
Arguments run_NEXT {s fl l1 l2 sz a} H.
Arguments run_PREV {s fl l1 l2 sz a} H.
Arguments run_prev_alloc {s fl l1 l2 sz a} H.
Arguments run_next_alloc {s fl l1 l2 sz a} H.
Arguments run_next_size {s fl l1 l2 sz a} H.

(** ** Joining a block with its free right neighbour *)

Lemma join_ok (s : state) (fl : list Z) (l1 l2 : list block) (c n : Z)
      (a0 a' : bool) :
  heap_ok s (l1 ++ (c, a0) :: (n, false) :: l2) fl ->
  ~ In (heap_listp s + total l1 + c) fl ->
  (a' = true -> ~ In (heap_listp s + total l1) fl) ->
  heap_ok (set_mem (retag (heap_listp s + total l1) (c + n) a' (mem s)) s)
          (l1 ++ (c + n, a') :: l2) fl.
Proof.
  intros H Hn Ha.
  pose proof (blk_facts H) as F.
  destruct F as (F1 & F2 & Hc & Hc8 & T1 & T2 & Eb & Cap & Lo & _).
  inversion F2 as [|? ? [Hn1 Hn2] F3]; subst. cbn [fst] in Hn1, Hn2.
  cbn [total fst] in *. pose proof (total_nonneg F3).
  change (l1 ++ (c + n, a') :: l2) with (l1 ++ [(c + n, a')] ++ l2).
  apply heap_ok_region with (mid := [(c, a0); (n, false)]).
  - exact H.
  - cbn. lia.
  - repeat constructor; cbn [fst]; try lia.
    rewrite Z.add_mod by lia. rewrite Hc8, Hn2. reflexivity.
  - intros x Hx. cbn [total fst] in Hx. apply retag_out; lia.
  - cbn [tags]. pose proof (@retag_tags (heap_listp s + total l1) (c + n) a' (mem s)).
    assert (E8 : (c + n) mod 8 = 0).
    { rewrite Z.add_mod by lia. rewrite Hc8, Hn2. reflexivity. }
    destruct H1; [lia|assumption|]. repeat split; assumption.
  - intros x Hx Hin. unfold free_bps in *. cbn [addrs] in Hin.
    assert (x = heap_listp s + total l1 /\ a0 = false) as [-> ->].
    { destruct a0; cbn in Hin.
      - destruct Hin as [<-|[]]. contradiction.
      - destruct Hin as [<-|[<-|[]]]; [now split|contradiction]. }
    destruct a'; [exfalso; now apply Ha|]. split.
    + cbn. now left.
    + intros y Hy. apply retag_out; lia.
Qed.

(** ** Coalescing *)

Definition all_free (l : list block) : Prop := Forall (fun b => snd b = false) l.

Lemma wrap64_small (x : Z) : 0 <= x < 18446744073709551616 -> wrap64 x = x.
Proof. intros H. unfold wrap64. now apply Z.mod_small. Qed.

Lemma wrap32_small (x : Z) : 0 <= x < 4294967296 -> wrap32 x = x.
Proof. intros H. unfold wrap32. now apply Z.mod_small. Qed.

(** The bytes of the allocated blocks of a heap: header, payload and
    footer of each. *)
Fixpoint in_used (bp : Z) (bl : list block) (x : Z) : Prop :=
  match bl with
  | [] => False
  | (sz, a) :: r =>
      (a = true /\ bp - 4 <= x < bp + sz - 4) \/ in_used (bp + sz) r x
  end.

Lemma in_used_app (l1 l2 : list block) (x : Z) : forall (bp : Z),
  in_used bp (l1 ++ l2) x <-> in_used bp l1 x \/ in_used (bp + total l1) l2 x.
Proof.
  induction l1 as [|[sz a] r IH]; intros bp; cbn [app in_used total fst].
  - rewrite Z.add_0_r. tauto.
  - rewrite IH. rewrite Z.add_assoc. tauto.
Qed.

Lemma in_used_range (bl : list block) (x : Z) : forall (bp : Z),
  Forall block_ok bl -> in_used bp bl x -> bp - 4 <= x < bp + total bl - 4.
Proof.
  induction bl as [|[sz a] r IH]; intros bp Hok H; cbn [in_used total fst] in *.
  - contradiction.
  - inversion Hok as [|? ? [Hsz _] Hr]; subst. cbn [fst] in Hsz.
    pose proof (total_nonneg Hr). destruct H as [[_ H]|H]; [lia|].
    apply IH in H; [lia|assumption].
Qed.

Lemma in_used_all_free (G : list block) (x : Z) : forall (bp : Z),
  all_free G -> ~ in_used bp G x.
Proof.
  induction G as [|[g a] G IH]; intros bp HG H; cbn [in_used] in H; [assumption|].
  inversion HG as [|? ? Ha HG']; subst. cbn [snd] in Ha. subst a.
  destruct H as [[Hf _]|H]; [discriminate|]. eapply IH; eauto.
Qed.

(** A byte of an allocated block is no byte of the list node of a free
    block. *)
Lemma used_free_sep (bl : list block) (x y : Z) : forall (bp : Z),
  Forall block_ok bl -> in_used bp bl x -> In y (addrs false bp bl) ->
  x < y \/ y + 16 <= x.
Proof.
  induction bl as [|[sz a] r IH]; intros bp Hok Hx Hy;
    cbn [in_used addrs] in *; [contradiction|].
  inversion Hok as [|? ? [Hsz _] Hr]; subst. cbn [fst] in Hsz.
  destruct a; cbn [Bool.eqb] in Hy.
  - destruct Hx as [[_ Hx]|Hx].
    + apply addrs_range in Hy; [lia|assumption].
    + eapply IH; eauto.
  - destruct Hx as [[Hf _]|Hx]; [discriminate|].
    destruct Hy as [<-|Hy].
    + apply in_used_range in Hx; [lia|assumption].
    + eapply IH; eauto.
Qed.

(** A byte of an allocated block lies outside a given free block. *)
Lemma in_used_mid (l1 l2 : list block) (c : Z) (bp x : Z) :
  Forall block_ok (l1 ++ (c, false) :: l2) ->
  in_used bp (l1 ++ (c, false) :: l2) x ->
  x < bp + total l1 - 4 \/ bp + total l1 + c - 4 <= x.
Proof.
  intros Hok H. apply Forall_app in Hok. destruct Hok as [H1 H2].
  inversion H2 as [|? ? _ H3]; subst.
  apply in_used_app in H. cbn [in_used] in H.
  destruct H as [H|[[Hf _]|H]]; [|discriminate|].
  - apply in_used_range in H; [lia|assumption].
  - apply in_used_range in H; [lia|assumption].
Qed.

Lemma in_used_merge (L rest : list block) (c n : Z) (bp x : Z) :
  in_used bp (L ++ (c, false) :: (n, false) :: rest) x <->
  in_used bp (L ++ (c + n, false) :: rest) x.
Proof.
  rewrite !in_used_app. cbn [in_used].
  replace (bp + total L + c + n) with (bp + total L + (c + n)) by lia.
  intuition discriminate.
Qed.

Lemma in_used_flag (L rest : list block) (c : Z) (bp x : Z) :
  in_used bp (L ++ (c, false) :: rest) x -> in_used bp (L ++ (c, true) :: rest) x.
Proof. rewrite !in_used_app. cbn [in_used]. tauto. Qed.

Lemma in_used_unflag (L rest : list block) (c : Z) (bp x : Z) :
  in_used bp (L ++ (c, true) :: rest) x ->
  x < bp + total L - 4 \/ bp + total L + c - 4 <= x ->
  in_used bp (L ++ (c, false) :: rest) x.
Proof.
  rewrite !in_used_app. cbn [in_used]. intros [H|[[_ H]|H]] Hout; auto. lia.
Qed.

(** With an allocated left neighbour, [coalesce] absorbs the whole run of
    free blocks to the right. *)
Lemma coalesce_right_fr (F : list block) :
  forall (L R : list block) (c : Z) (s : state) (fl : list Z) (fuel : nat),
  heap_ok s (L ++ (c, false) :: F ++ R) fl ->
  snd (prev_of L) = true -> all_free F -> snd (next_of R) = true ->
  incl (free_bps (heap_listp s + total L + c) F) fl ->
  (length F < fuel)%nat ->
  exists s' fl',
    coalesce_rec fuel (heap_listp s + total L) s = Ok (heap_listp s + total L) s' /\
    heap_ok s' (L ++ (c + total F, false) :: R) fl' /\
    same_arena s s' /\
    (forall x, In x fl' <->
               In x fl /\ ~ In x (free_bps (heap_listp s + total L + c) F)) /\
    (F = [] -> s' = s /\ fl' = fl) /\
    (forall x, in_used (heap_listp s) (L ++ (c, false) :: F ++ R) x ->
               mem s' x = mem s x).
Proof.
  induction F as [|[n a] F' IH]; intros L R c s fl fuel H HL HF HR Hin Hfuel.
  - destruct fuel as [|fuel']; [cbn in Hfuel; lia|].
    cbn [app] in H. cbn [coalesce_rec].
    erewrite bind_step by (exact (run_PREV H)).
    erewrite bind_step by (exact (run_prev_alloc H)).
    erewrite bind_step by (exact (run_NEXT H)).
    erewrite bind_step by (exact (run_next_alloc H)).
    rewrite HL, HR. cbn [flag Z.eqb negb andb].
    exists s, fl. split; [reflexivity|]. cbn [total]. rewrite Z.add_0_r.
    split; [exact H|]. split; [apply same_arena_refl|].
    split; [|split; [auto|intros; reflexivity]].
    intros x. cbn. tauto.
  - destruct fuel as [|fuel']; [cbn in Hfuel; lia|].
    inversion HF as [|? ? Ha HF']; subst. cbn [snd] in Ha. subst a.
    cbn [app] in H. cbn [coalesce_rec].
    set (B := heap_listp s + total L) in *.
    erewrite bind_step by (exact (run_PREV H)).
    erewrite bind_step by (exact (run_prev_alloc H)).
    erewrite bind_step by (exact (run_NEXT H)).
    erewrite bind_step by (exact (run_next_alloc H)).
    rewrite HL. cbn [next_of hd snd flag Z.eqb negb andb].
    erewrite bind_step by (exact (run_size H)).
    erewrite bind_step by (exact (run_NEXT H)).
    (* remove the right neighbour from the free list *)
    assert (Hnb : In (B + c) fl).
    { apply Hin. unfold free_bps. cbn. now left. }
    destruct (in_split _ _ Hnb) as (f1 & f2 & ->).
    destruct (remove_freeblock_ok H) as (s1 & R1 & H1 & A1 & F1).
    erewrite bind_step by (exact R1).
    destruct A1 as (As & Ab & Am & Ah & Ac).
    assert (EB : heap_listp s1 + total L = B) by (unfold B; now rewrite Ah).
    pose proof (run_NEXT H1) as N1. rewrite EB in N1.
    erewrite bind_step by (exact N1).
    pose proof (run_next_size H1) as N2. rewrite EB in N2.
    erewrite bind_step by (exact N2). cbn [next_of hd fst].
    pose proof (blk_facts H1) as K. rewrite EB in K.
    destruct K as (K1 & K2 & Kc & Kc8 & KT1 & KT2 & Kb & Kcap & Klo & Kst & Kmax).
    inversion K2 as [|? ? [Kn Kn8] K3]; subst. cbn [fst] in Kn, Kn8.
    cbn [total fst] in *. pose proof (total_nonneg K3) as KT3.
    rewrite wrap64_small by lia.
    change (PACK (c + n) 0) with (tag (c + n) false).
    assert (E8 : (c + n) mod 8 = 0).
    { rewrite Z.add_mod by lia. rewrite Kc8, Kn8. reflexivity. }
    rewrite put_tags_bind by lia.
    assert (Hn1 : ~ In (B + c) (f1 ++ f2)).
    { destruct H. now apply NoDup_remove_2 in ok_nodup0. }
    pose proof (@join_ok s1 (f1 ++ f2) L (F' ++ R) c n false false H1) as H2.
    rewrite EB in H2. specialize (H2 Hn1 ltac:(discriminate)).
    set (s2 := set_mem (retag B (c + n) false (mem s1)) s1) in *.
    assert (EB2 : heap_listp s2 + total L = B) by exact EB.
    pose proof (run_NEXT H2) as N3. rewrite EB2 in N3.
    erewrite bind_step by (exact N3).
    pose proof (run_next_alloc H2) as N4. rewrite EB2 in N4.
    erewrite bind_step by (exact N4).
    assert (Hin2 : incl (free_bps (B + (c + n)) F') (f1 ++ f2)).
    { intros x Hx.
      assert (Hx' : In x (f1 ++ B + c :: f2)).
      { apply Hin. unfold free_bps. cbn. right.
        now replace (B + c + n) with (B + (c + n)) by lia. }
      apply Forall_app in K3. destruct K3 as [K3 _].
      apply addrs_range in Hx; [|assumption].
      apply in_app_or in Hx'. apply in_or_app.
      destruct Hx' as [Hx'|[Hx'|Hx']]; auto. lia. }
    assert (Hmem : forall fl', (forall x, In x fl' <->
                In x (f1 ++ f2) /\ ~ In x (free_bps (B + (c + n)) F')) ->
             forall x, In x fl' <->
                In x (f1 ++ B + c :: f2) /\
                ~ In x (free_bps (B + c) ((n, false) :: F'))).
    { intros fl' Hfl x. rewrite Hfl. unfold free_bps. cbn [addrs Bool.eqb].
      replace (B + c + n) with (B + (c + n)) by lia.
      rewrite !in_app_iff. cbn [In]. split.
      - intros [Hx Hnx]. split; [tauto|]. intros [E|E]; [|contradiction].
        subst x. apply Hn1. now apply in_or_app.
      - intros [Hx Hnx]. split; [|tauto].
        destruct Hx as [Hx|[Hx|Hx]]; auto. exfalso. apply Hnx. now left. }
    assert (Hfr2 : forall x,
               in_used (heap_listp s) (L ++ (c, false) :: (n, false) :: F' ++ R) x ->
               mem s2 x = mem s x).
    { intros x Hx. unfold s2. cbn [mem set_mem].
      assert (Hout : x < B - 4 \/ B + (c + n) - 4 <= x).
      { apply in_used_merge in Hx. unfold B.
        apply in_used_mid with (l2 := F' ++ R); [|exact Hx]. now destruct H2. }
      rewrite retag_out by lia. apply F1. intros y Hy.
      destruct H1. apply ok_incl0 in Hy. rewrite Ah in Hy.
      eapply used_free_sep; [exact ok_blocks0|exact Hx|exact Hy]. }
    destruct F' as [|[n' a'] F''].
    + cbn [app] in *. rewrite HR. cbn [flag Z.eqb]. unfold ret.
      exists s2, (f1 ++ f2). split; [reflexivity|].
      cbn [total]. rewrite Z.add_0_r. split; [exact H2|].
      split; [repeat split; assumption|].
      split; [|split; [discriminate|exact Hfr2]].
      apply Hmem. intros x. cbn. tauto.
    + inversion HF' as [|? ? Ha' HF'']; subst. cbn [snd] in Ha'. subst a'.
      cbn [app next_of hd snd flag Z.eqb].
      assert (Hs2 : heap_listp s2 = heap_listp s) by exact Ah.
      destruct (IH L R (c + n) s2 (f1 ++ f2) fuel')
        as (s3 & fl3 & R3 & H3 & A3 & M3 & _ & Fr3).
      * exact H2.
      * exact HL.
      * exact HF'.
      * exact HR.
      * rewrite Hs2. fold B. now replace (B + (c + n)) with (B + (c + n)) by lia.
      * cbn [length] in *. lia.
      * rewrite Hs2 in R3, M3. fold B in R3, M3.
        exists s3, fl3. split; [exact R3|].
        split.
        { rewrite Z.add_assoc. exact H3. }
        split.
        { eapply same_arena_trans; [|exact A3]. repeat split; assumption. }
        split; [apply Hmem; exact M3|]. split; [discriminate|].
        intros x Hx. rewrite Fr3; [now apply Hfr2|].
        rewrite Hs2. now apply in_used_merge in Hx.
Qed.

Lemma coalesce_right (F : list block) :
  forall (L R : list block) (c : Z) (s : state) (fl : list Z) (fuel : nat),
  heap_ok s (L ++ (c, false) :: F ++ R) fl ->
  snd (prev_of L) = true -> all_free F -> snd (next_of R) = true ->
  incl (free_bps (heap_listp s + total L + c) F) fl ->
  (length F < fuel)%nat ->
  exists s' fl',
    coalesce_rec fuel (heap_listp s + total L) s = Ok (heap_listp s + total L) s' /\
    heap_ok s' (L ++ (c + total F, false) :: R) fl' /\
    same_arena s s' /\
    (forall x, In x fl' <->
               In x fl /\ ~ In x (free_bps (heap_listp s + total L + c) F)) /\
    (F = [] -> s' = s /\ fl' = fl).
Proof.
  intros L R c s fl fuel H HL HF HR Hin Hfuel.
  destruct (@coalesce_right_fr F L R c s fl fuel H HL HF HR Hin Hfuel)
    as (s' & fl' & R' & H' & A' & M' & N' & _).
  exists s', fl'. repeat (split; [assumption|]). assumption.
Qed.

Arguments coalesce_right {F L R c s fl fuel} _ _ _ _ _ _.

Lemma prev_of_snoc (l : list block) (b : block) : prev_of (l ++ [b]) = b.
Proof. unfold prev_of. apply last_last. Qed.

(** [coalesce] on a block inside a run of free blocks [G ++ c :: F], bounded
    by allocated blocks or by the prologue and the epilogue: the run becomes
    one block, its first block's address is returned, and the other nodes
    of the run have left the free list. *)
Lemma coalesce_run_fr (G : list block) :
  forall (L R F : list block) (c : Z) (s : state) (fl : list Z) (fuel : nat),
  heap_ok s (L ++ G ++ (c, false) :: F ++ R) fl ->
  snd (prev_of L) = true -> all_free G -> all_free F -> snd (next_of R) = true ->
  incl (tl (free_bps (heap_listp s + total L) (G ++ (c, false) :: F))) fl ->
  (2 * length G + length F < fuel)%nat ->
  exists s' fl',
    coalesce_rec fuel (heap_listp s + total L + total G) s =
      Ok (heap_listp s + total L) s' /\
    heap_ok s' (L ++ (total G + c + total F, false) :: R) fl' /\
    same_arena s s' /\
    (forall x, In x fl' <->
               In x fl /\
               ~ In x (tl (free_bps (heap_listp s + total L) (G ++ (c, false) :: F)))) /\
    (G = [] -> F = [] -> s' = s /\ fl' = fl) /\
    (forall x, in_used (heap_listp s) (L ++ G ++ (c, false) :: F ++ R) x ->
               mem s' x = mem s x).
Proof.
  induction G as [|[g a] G' IH] using rev_ind;
    intros L R F c s fl fuel H HL HG HF HR Hin Hfuel.
  - cbn [app total length] in *. rewrite Z.add_0_r.
    assert (E : tl (free_bps (heap_listp s + total L) ((c, false) :: F)) =
                free_bps (heap_listp s + total L + c) F) by reflexivity.
    rewrite E in *.
    destruct (@coalesce_right_fr F L R c s fl fuel H HL HF HR Hin)
      as (s' & fl' & R' & H' & A' & M' & N' & Fr'); [lia|].
    exists s', fl'. split; [exact R'|]. split; [exact H'|].
    split; [exact A'|]. split; [exact M'|].
    split; [intros _; exact N'|exact Fr'].
  - apply Forall_app in HG. destruct HG as [HG' Hg].
    inversion Hg as [|? ? Ha _]; subst. cbn [snd] in Ha. subst a.
    destruct fuel as [|fuel']; [lia|].
    assert (E2 : L ++ (G' ++ [(g, false)]) ++ (c, false) :: F ++ R =
                 (L ++ G' ++ [(g, false)]) ++ (c, false) :: F ++ R)
      by now rewrite <- !app_assoc.
    assert (E3 : L ++ (G' ++ [(g, false)]) ++ (c, false) :: F ++ R =
                 L ++ G' ++ (g, false) :: ((c, false) :: F) ++ R)
      by now rewrite <- !app_assoc.
    assert (E4 : (G' ++ [(g, false)]) ++ (c, false) :: F =
                 G' ++ (g, false) :: (c, false) :: F)
      by now rewrite <- !app_assoc.
    pose proof H as H2. rewrite E2 in H2.
    pose proof H as H3. rewrite E3 in H3.
    assert (ET : heap_listp s + total (L ++ G' ++ [(g, false)]) =
                 heap_listp s + total L + total (G' ++ [(g, false)])).
    { rewrite !total_app. lia. }
    cbn [coalesce_rec].
    pose proof (run_PREV H2) as P1. rewrite ET in P1.
    erewrite bind_step by (exact P1).
    pose proof (run_prev_alloc H2) as P2. rewrite ET in P2.
    erewrite bind_step by (exact P2).
    pose proof (run_NEXT H2) as P3. rewrite ET in P3.
    erewrite bind_step by (exact P3).
    pose proof (run_next_alloc H2) as P4. rewrite ET in P4.
    erewrite bind_step by (exact P4).
    rewrite app_assoc, prev_of_snoc. cbn [snd fst flag Z.eqb negb andb].
    pose proof (run_size H2) as P5. rewrite ET in P5.
    erewrite bind_step by (exact P5).
    erewrite bind_step by (exact P1).
    rewrite app_assoc, prev_of_snoc. cbn [fst].
    replace (heap_listp s + total L + total (G' ++ [(g, false)]) - g)
      with (heap_listp s + total L + total G')
      by (rewrite total_app; cbn [total fst]; lia).
    destruct (IH L R ((c, false) :: F) g s fl fuel' H3 HL HG')
      as (s' & fl' & R' & H' & A' & M' & _ & Fr').
    + constructor; [reflexivity|assumption].
    + exact HR.
    + now rewrite <- E4.
    + rewrite length_app in Hfuel. cbn [length] in *. lia.
    + exists s', fl'. split; [exact R'|]. split.
      { replace (total (G' ++ [(g, false)]) + c + total F)
          with (total G' + g + total ((c, false) :: F))
          by (rewrite total_app; cbn [total fst]; lia).
        exact H'. }
      split; [exact A'|]. split.
      { rewrite E4. exact M'. }
      split; [intros E; now destruct G'|]. rewrite E3. exact Fr'.
Qed.

Lemma coalesce_run (G : list block) :
  forall (L R F : list block) (c : Z) (s : state) (fl : list Z) (fuel : nat),
  heap_ok s (L ++ G ++ (c, false) :: F ++ R) fl ->
  snd (prev_of L) = true -> all_free G -> all_free F -> snd (next_of R) = true ->
  incl (tl (free_bps (heap_listp s + total L) (G ++ (c, false) :: F))) fl ->
  (2 * length G + length F < fuel)%nat ->
  exists s' fl',
    coalesce_rec fuel (heap_listp s + total L + total G) s =
      Ok (heap_listp s + total L) s' /\
    heap_ok s' (L ++ (total G + c + total F, false) :: R) fl' /\
    same_arena s s' /\
    (forall x, In x fl' <->
               In x fl /\
               ~ In x (tl (free_bps (heap_listp s + total L) (G ++ (c, false) :: F)))) /\
    (G = [] -> F = [] -> s' = s /\ fl' = fl).
Proof.
  intros L R F c s fl fuel H HL HG HF HR Hin Hfuel.
  destruct (@coalesce_run_fr G L R F c s fl fuel H HL HG HF HR Hin Hfuel)
    as (s' & fl' & R' & H' & A' & M' & N' & _).
  exists s', fl'. repeat (split; [assumption|]). assumption.
Qed.

Arguments coalesce_run {G L R F c s fl fuel} _ _ _ _ _ _ _.

(** ** Runs of free blocks and the adjacency invariant *)

Lemma addrs_all_free (a : bool) (G : list block) : forall (bp : Z),
  all_free G -> addrs true bp G = [].
Proof.
  induction G as [|[g b] G IH]; intros bp HG; [reflexivity|].
  inversion HG as [|? ? Hb HG']; subst. cbn [snd] in Hb. subst b.
  cbn. now apply IH.
Qed.

Lemma addrs_tl_range (a : bool) (bl : list block) (bp x : Z) :
  Forall block_ok bl -> In x (tl (addrs a bp bl)) ->
  bp + 24 <= x /\ x + 24 <= bp + total bl.
Proof.
  intros Hok Hin. revert bp Hin.
  induction Hok as [|[sz a'] r [H1 H2] Hr IH]; intros bp Hin; cbn in *; [tauto|].
  pose proof (total_nonneg Hr).
  destruct (Bool.eqb a a'); cbn [tl] in Hin.
  - apply addrs_range in Hin; [lia|assumption].
  - apply IH in Hin. lia.
Qed.

Lemma addrs_disjoint (bl : list block) : forall (bp x : Z),
  Forall block_ok bl -> In x (addrs true bp bl) -> In x (addrs false bp bl) -> False.
Proof.
  induction bl as [|[sz a] r IH]; intros bp x Hok Ht Hf; cbn in *; [tauto|].
  inversion Hok as [|? ? [H1 H2] Hr]; subst. cbn in H1.
  destruct a; cbn in *.
  - destruct Ht as [<-|Ht].
    + apply addrs_range in Hf; [lia|assumption].
    + eapply IH; eauto.
  - destruct Hf as [<-|Hf].
    + apply addrs_range in Ht; [lia|assumption].
    + eapply IH; eauto.
Qed.

Lemma no_adj_app (l1 l2 : list block) :
  no_adj (l1 ++ l2) <->
  no_adj l1 /\ no_adj l2 /\ (snd (prev_of l1) = true \/ snd (next_of l2) = true).
Proof.
  unfold prev_of, next_of. induction l1 as [|[s1 a1] l1 IH].
  - cbn. tauto.
  - destruct l1 as [|[s2 a2] l1].
    + cbn [app no_adj last snd]. destruct l2 as [|[s3 a3] l2]; cbn [hd snd no_adj].
      * tauto.
      * tauto.
    + change (((s1, a1) :: (s2, a2) :: l1) ++ l2)
        with ((s1, a1) :: ((s2, a2) :: l1) ++ l2).
      change (no_adj ((s1, a1) :: ((s2, a2) :: l1) ++ l2))
        with ((a1 = true \/ a2 = true) /\ no_adj (((s2, a2) :: l1) ++ l2)).
      change (no_adj ((s1, a1) :: (s2, a2) :: l1))
        with ((a1 = true \/ a2 = true) /\ no_adj ((s2, a2) :: l1)).
      rewrite IH.
      change (last ((s1, a1) :: (s2, a2) :: l1) (8, true))
        with (last ((s2, a2) :: l1) (8, true)).
      tauto.
Qed.

Lemma no_adj_suffix (l : list block) :
  no_adj l ->
  exists L G, l = L ++ G /\ all_free G /\ snd (prev_of L) = true /\ no_adj L.
Proof.
  intros H. destruct (snoc_cases l) as [->|(l' & [g a] & ->)].
  - exists [], []. repeat split; constructor.
  - destruct a.
    + exists (l' ++ [(g, true)]), []. rewrite app_nil_r, prev_of_snoc.
      repeat split; auto. constructor.
    + apply no_adj_app in H. destruct H as (H1 & _ & [H3|H3]); [|discriminate].
      exists l', [(g, false)]. repeat split; auto. repeat constructor.
Qed.

Lemma no_adj_prefix (l : list block) :
  no_adj l ->
  exists F R, l = F ++ R /\ all_free F /\ snd (next_of R) = true /\ no_adj R.
Proof.
  intros H. destruct l as [|[n a] r].
  - exists [], []. repeat split; constructor.
  - destruct a.
    + exists [], ((n, true) :: r). repeat split; auto. constructor.
    + change ((n, false) :: r) with ([(n, false)] ++ r) in H.
      apply no_adj_app in H. destruct H as (_ & H2 & [H3|H3]); [discriminate|].
      exists [(n, false)], r. repeat split; auto. repeat constructor.
Qed.

Arguments no_adj_suffix {l} _.
Arguments no_adj_prefix {l} _.

Lemma no_adj_join (L R : list block) (c : Z) (a : bool) :
  no_adj L -> no_adj R ->
  a = true \/ (snd (prev_of L) = true /\ snd (next_of R) = true) ->
  no_adj (L ++ (c, a) :: R).
Proof.
  intros HL HR Ha. apply no_adj_app. split; [assumption|]. split.
  - change ((c, a) :: R) with ([(c, a)] ++ R). apply no_adj_app.
    split; [exact I|]. split; [assumption|]. cbn. tauto.
  - cbn. tauto.
Qed.

Lemma fuel_enough (s : state) (bl : list block) (fl : list Z) :
  heap_ok s bl fl -> (2 * length bl < fuel_of s)%nat.
Proof.
  intros H. destruct H. pose proof (total_length ok_blocks0).
  unfold fuel_of. lia.
Qed.

Lemma all_free_hd (run : list block) (A : Z) :
  all_free run -> run <> [] -> In A (free_bps A run).
Proof.
  intros H Hne. destruct run as [|[g a] r]; [contradiction|].
  inversion H as [|? ? Ha _]; subst. cbn [snd] in Ha. subst a.
  unfold free_bps. cbn. now left.
Qed.

Lemma In_tl (A : Type) (x : A) (l : list A) : In x (tl l) -> In x l.
Proof. destruct l; [easy|]. cbn. now right. Qed.

(** [coalesce] restores the invariant of a heap whose only pairs of free
    neighbours lie in one run of free blocks around the block it is
    called on. *)
Lemma coalesce_inv_fr (s : state) (L G F R : list block) (c : Z) (fl : list Z) :
  heap_ok s (L ++ G ++ (c, false) :: F ++ R) fl ->
  incl (free_bps (heap_listp s) (L ++ G ++ (c, false) :: F ++ R)) fl ->
  no_adj L -> no_adj R -> snd (prev_of L) = true -> snd (next_of R) = true ->
  all_free G -> all_free F ->
  exists s' fl',
    coalesce (heap_listp s + total L + total G) s = Ok (heap_listp s + total L) s' /\
    heap_inv s' (L ++ (total G + c + total F, false) :: R) fl' /\
    same_arena s s' /\
    (G = [] -> F = [] -> s' = s /\ fl' = fl) /\
    (forall x, in_used (heap_listp s) (L ++ G ++ (c, false) :: F ++ R) x ->
               mem s' x = mem s x) /\
    (forall x, In x fl' <->
               In x fl /\
               ~ In x (tl (free_bps (heap_listp s + total L) (G ++ (c, false) :: F)))).
Proof.
  intros H Hall HnL HnR HL HR HG HF.
  set (A := heap_listp s + total L).
  set (run := G ++ (c, false) :: F).
  assert (Erun : L ++ G ++ (c, false) :: F ++ R = L ++ run ++ R).
  { unfold run. now rewrite <- !app_assoc. }
  assert (Hrun : all_free run).
  { unfold run. apply Forall_app. split; [assumption|]. now constructor. }
  assert (Trun : total run = total G + c + total F).
  { unfold run. rewrite total_app. cbn [total fst]. lia. }
  pose proof H as H0. destruct H0.
  rewrite Erun in ok_blocks0.
  apply Forall_app in ok_blocks0. destruct ok_blocks0 as [OL ORR].
  apply Forall_app in ORR. destruct ORR as [Orun OR].
  assert (Hsub : incl (free_bps A run) (free_bps (heap_listp s) (L ++ run ++ R))).
  { intros x Hx. unfold free_bps. rewrite !addrs_app.
    apply in_or_app. right. apply in_or_app. now left. }
  destruct (@coalesce_run_fr G L R F c s fl (fuel_of s) H HL HG HF HR)
    as (s' & fl' & R' & H' & A' & M' & N' & Fr').
  - intros x Hx. apply Hall. rewrite Erun. apply Hsub. now apply In_tl.
  - pose proof (fuel_enough H) as Hf. rewrite !length_app in Hf.
    cbn [length] in Hf. rewrite length_app in Hf. lia.
  - exists s', fl'. split; [exact R'|].
    split; [|split; [exact A'|split; [exact N'|split; [exact Fr'|exact M']]]].
    destruct A' as (_ & _ & _ & Ah & _).
    constructor.
    + exact H'.
    + rewrite Ah. intros x Hx. apply M'. fold A. fold run.
      unfold free_bps in Hx. rewrite addrs_same in Hx. fold A in Hx.
      rewrite <- Trun in Hx.
      assert (Hcases : (In x (addrs false (heap_listp s) L) /\ x + 24 <= A) \/
                       x = A \/
                       (In x (addrs false (A + total run) R) /\ A + total run <= x)).
      { apply in_app_or in Hx. destruct Hx as [Hx|[Hx|Hx]].
        - left. split; [assumption|]. apply addrs_range in Hx; [|assumption].
          unfold A. lia.
        - right. left. now symmetry.
        - right. right. split; [assumption|].
          apply addrs_range in Hx; [lia|assumption]. }
      split.
      * apply Hall. rewrite Erun. unfold free_bps. rewrite !addrs_app. fold A.
        apply in_or_app. destruct Hcases as [[Hc _]|[->|[Hc _]]].
        -- now left.
        -- right. apply in_or_app. left. apply all_free_hd; [assumption|].
           unfold run. now destruct G.
        -- right. apply in_or_app. now right.
      * intros Ht. apply addrs_tl_range in Ht; [|assumption].
        destruct Hcases as [[_ Hc]|[->|[_ Hc]]]; lia.
    + apply no_adj_join; auto.
Qed.

Lemma coalesce_inv (s : state) (L G F R : list block) (c : Z) (fl : list Z) :
  heap_ok s (L ++ G ++ (c, false) :: F ++ R) fl ->
  incl (free_bps (heap_listp s) (L ++ G ++ (c, false) :: F ++ R)) fl ->
  no_adj L -> no_adj R -> snd (prev_of L) = true -> snd (next_of R) = true ->
  all_free G -> all_free F ->
  exists s' fl',
    coalesce (heap_listp s + total L + total G) s = Ok (heap_listp s + total L) s' /\
    heap_inv s' (L ++ (total G + c + total F, false) :: R) fl' /\
    same_arena s s' /\
    (G = [] -> F = [] -> s' = s /\ fl' = fl).
Proof.
  intros H Hall HnL HnR HL HR HG HF.
  destruct (@coalesce_inv_fr s L G F R c fl H Hall HnL HnR HL HR HG HF)
    as (s' & fl' & R' & H' & A' & N' & _).
  exists s', fl'. repeat (split; [assumption|]). assumption.
Qed.

Arguments coalesce_inv {s L G F R c fl} _ _ _ _ _ _ _ _.
Arguments coalesce_inv_fr {s L G F R c fl} _ _ _ _ _ _ _ _.

Lemma used_merge (L G F R : list block) (c bp : Z) :
  all_free G -> all_free F ->
  used_bps bp (L ++ G ++ (c, false) :: F ++ R) =
  used_bps bp (L ++ (total G + c + total F, false) :: R).
Proof.
  intros HG HF. unfold used_bps.
  rewrite (addrs_app true bp L). rewrite (addrs_app true _ G).
  rewrite (addrs_all_free true _ HG). cbn [app addrs Bool.eqb].
  rewrite (addrs_app true _ F). rewrite (addrs_all_free true _ HF). cbn [app].
  rewrite (addrs_app true bp L). cbn [addrs Bool.eqb].
  do 2 f_equal. lia.
Qed.

(** Changing the flag of a block. *)
Lemma retag_ok (s : state) (fl : list Z) (l1 l2 : list block) (sz : Z)
      (a a' : bool) :
  heap_ok s (l1 ++ (sz, a) :: l2) fl ->
  (a' = true -> ~ In (heap_listp s + total l1) fl) ->
  heap_ok (set_mem (retag (heap_listp s + total l1) sz a' (mem s)) s)
          (l1 ++ (sz, a') :: l2) fl.
Proof.
  intros H Ha.
  pose proof (blk_facts H) as F.
  destruct F as (F1 & F2 & Hc & Hc8 & T1 & T2 & Eb & Cap & Lo & _).
  change (l1 ++ (sz, a') :: l2) with (l1 ++ [(sz, a')] ++ l2).
  apply heap_ok_region with (mid := [(sz, a)]).
  - exact H.
  - reflexivity.
  - repeat constructor; cbn [fst]; lia.
  - intros x Hx. cbn [total fst] in Hx. apply retag_out; lia.
  - cbn [tags].
    destruct (@retag_tags (heap_listp s + total l1) sz a' (mem s)); [lia|assumption|].
    repeat split; assumption.
  - intros x Hx Hin. unfold free_bps in *. cbn [addrs] in Hin.
    destruct a; cbn in Hin; [contradiction|]. destruct Hin as [<-|[]].
    destruct a'; [exfalso; now apply Ha|]. split.
    + cbn. now left.
    + intros y Hy. apply retag_out; lia.
Qed.

(** Writing into the payload of an allocated block. *)
Lemma payload_ok (s : state) (fl : list Z) (l1 l2 : list block) (sz : Z)
      (m' : memory) :
  heap_ok s (l1 ++ (sz, true) :: l2) fl ->
  (forall x, x < heap_listp s + total l1 \/
             heap_listp s + total l1 + sz - 8 <= x -> m' x = mem s x) ->
  heap_ok (set_mem m' s) (l1 ++ (sz, true) :: l2) fl.
Proof.
  intros H Hm.
  pose proof (blk_facts H) as F.
  destruct F as (F1 & F2 & Hc & Hc8 & T1 & T2 & Eb & Cap & Lo & _).
  change (l1 ++ (sz, true) :: l2) with (l1 ++ [(sz, true)] ++ l2).
  apply heap_ok_region with (mid := [(sz, true)]).
  - exact H.
  - reflexivity.
  - repeat constructor; cbn [fst]; lia.
  - intros x Hx. cbn [total fst] in Hx. apply Hm. lia.
  - cbn [tags]. split; [|split; [|exact I]].
    + rewrite <- (blk_hdr H). apply load_le_ext. intros x Hx. apply Hm. lia.
    + rewrite <- (blk_ftr H). apply load_le_ext. intros x Hx. apply Hm. lia.
  - intros x Hx Hin. unfold free_bps in Hin. cbn in Hin. contradiction.
Qed.

(** ** mm_free *)

Lemma mm_free_fr (s : state) (l1 l2 : list block) (sz : Z) (fl : list Z) :
  heap_inv s (l1 ++ (sz, true) :: l2) fl ->
  exists s' bl' fl',
    mm_free (heap_listp s + total l1) s = Ok tt s' /\
    heap_inv s' bl' fl' /\ same_arena s s' /\
    (forall x, In x (used_bps (heap_listp s) bl') <->
               In x (used_bps (heap_listp s) (l1 ++ (sz, true) :: l2)) /\
               x <> heap_listp s + total l1) /\
    (forall x, in_used (heap_listp s) (l1 ++ (sz, false) :: l2) x ->
               mem s' x = mem s x) /\
    (exists L G F R,
       l1 = L ++ G /\ l2 = F ++ R /\ all_free G /\ all_free F /\
       bl' = L ++ (total G + sz + total F, false) :: R).
Proof.
  intros [H Hall Hadj].
  assert (Hp : In (heap_listp s + total l1)
                  (used_bps (heap_listp s) (l1 ++ (sz, true) :: l2)))
    by apply addrs_mid.
  pose proof (blk_facts H) as K.
  destruct K as (K1 & K2 & Kc & Kc8 & KT1 & KT2 & Kb & Kcap & Klo & Kst & Kmax).
  set (B := heap_listp s + total l1) in *.
  unfold mm_free.
  assert (E0 : (B =? 0) = false) by (apply Z.eqb_neq; lia).
  rewrite E0.
  erewrite bind_step by (exact (run_size H)).
  change (PACK sz 0) with (tag sz false).
  rewrite put_tags_bind by lia.
  assert (Hnin : ~ In B fl).
  { intros Hin. destruct H. apply ok_incl0 in Hin.
    eapply addrs_disjoint; [exact ok_blocks0|exact Hp|exact Hin]. }
  pose proof (@retag_ok s fl l1 l2 sz true false H ltac:(discriminate)) as H1.
  fold B in H1.
  set (s1 := set_mem (retag B sz false (mem s)) s) in *.
  assert (HB1 : In B (free_bps (heap_listp s1) (l1 ++ (sz, false) :: l2))).
  { apply addrs_mid. }
  destruct (add_freeblock_ok H1 HB1 Hnin) as (s2 & R2 & H2 & A2 & Fa).
  erewrite bind_step by (exact R2).
  assert (Hfr2 : forall x, in_used (heap_listp s) (l1 ++ (sz, false) :: l2) x ->
                           mem s2 x = mem s x).
  { intros x Hx.
    assert (Hout : x < B - 4 \/ B + sz - 4 <= x).
    { unfold B. apply in_used_mid with (l2 := l2); [|exact Hx]. now destruct H1. }
    rewrite Fa.
    - unfold s1. cbn [mem set_mem]. apply retag_out; lia.
    - intros y Hy.
      assert (Hy' : In y (free_bps (heap_listp s) (l1 ++ (sz, false) :: l2))).
      { destruct Hy as [<-|Hy]; [exact HB1|]. destruct H1. now apply ok_incl0. }
      destruct H1. eapply used_free_sep; [exact ok_blocks0|exact Hx|exact Hy']. }
  apply no_adj_app in Hadj. destruct Hadj as (Hadj1 & Hadj2 & _).
  change (no_adj ((sz, true) :: l2)) with (no_adj ([(sz, true)] ++ l2)) in Hadj2.
  apply no_adj_app in Hadj2. destruct Hadj2 as (_ & Hadj2 & _).
  destruct (no_adj_suffix Hadj1) as (L & G & -> & HG & HL & HnL).
  destruct (no_adj_prefix Hadj2) as (F & R & -> & HF & HR & HnR).
  destruct A2 as (As & Ab & Am & Ah & Ac).
  assert (EL : (L ++ G) ++ (sz, false) :: F ++ R = L ++ G ++ (sz, false) :: F ++ R)
    by now rewrite <- app_assoc.
  rewrite EL in H2.
  assert (EB : B = heap_listp s2 + total L + total G).
  { unfold B. rewrite Ah. cbn [heap_listp s1 set_mem]. rewrite total_app. lia. }
  rewrite EB.
  destruct (coalesce_inv_fr H2) as (s3 & fl3 & R3 & H3 & A3 & _ & Fr3 & _); auto.
  - rewrite Ah. cbn [heap_listp s1 set_mem]. rewrite <- EL.
    intros x Hx. unfold free_bps in Hx. rewrite addrs_same in Hx.
    apply in_app_or in Hx. apply in_or_app.
    destruct Hx as [Hx|[Hx|Hx]].
    + left. apply Hall. unfold free_bps.
      rewrite (addrs_other false _ sz (L ++ G) (F ++ R)).
      apply in_or_app. now left.
    + right. left. exact Hx.
    + left. apply Hall. unfold free_bps.
      rewrite (addrs_other false _ sz (L ++ G) (F ++ R)).
      apply in_or_app. now right.
  - erewrite bind_step by (exact R3). unfold ret.
    exists s3, (L ++ (total G + sz + total F, false) :: R), fl3.
    split; [reflexivity|]. split; [exact H3|]. split; [|split; [|split]].
    + eapply same_arena_trans; [|exact A3].
      repeat split; assumption.
    + intros x. rewrite <- used_merge by assumption. rewrite <- EL.
      unfold used_bps. rewrite (addrs_other true), (addrs_same true).
      fold B. rewrite !in_app_iff. cbn [In]. split.
      * intros [Hx|Hx].
        -- split; [tauto|]. apply addrs_range in Hx; [|assumption]. unfold B. lia.
        -- split; [tauto|]. apply addrs_range in Hx; [|assumption]. lia.
      * intros [[Hx|[Hx|Hx]] Hne]; try tauto. congruence.
    + intros x Hx. rewrite Fr3; [now apply Hfr2|].
      rewrite Ah. cbn [heap_listp s1 set_mem]. now rewrite <- EL.
    + exists L, G, F, R. repeat split; assumption.
Qed.

Lemma mm_free_ok (s : state) (bl : list block) (fl : list Z) (p : Z) :
  heap_inv s bl fl -> In p (used_bps (heap_listp s) bl) ->
  exists s' bl' fl',
    mm_free p s = Ok tt s' /\ heap_inv s' bl' fl' /\ same_arena s s' /\
    (forall x, In x (used_bps (heap_listp s) bl') <->
               In x (used_bps (heap_listp s) bl) /\ x <> p).
Proof.
  intros Hinv Hp.
  destruct (addrs_split _ _ _ _ Hp) as (l1 & sz & l2 & -> & ->).
  destruct (@mm_free_fr s l1 l2 sz fl Hinv)
    as (s' & bl' & fl' & R & H' & A & U & _).
  exists s', bl', fl'. repeat (split; [assumption|]). assumption.
Qed.

Arguments mm_free_ok {s bl fl p} _ _.

(** ** place *)

Lemma in_remove_mid (f1 f2 : list Z) (x b : Z) :
  In x (f1 ++ b :: f2) -> x <> b -> In x (f1 ++ f2).
Proof.
  intros H Hne. apply in_app_or in H. apply in_or_app.
  destruct H as [H|[H|H]]; auto. congruence.
Qed.

Lemma no_adj_next_alloc (l1 l2 : list block) (c : Z) :
  no_adj (l1 ++ (c, false) :: l2) -> snd (next_of l2) = true.
Proof.
  intros H. apply no_adj_app in H. destruct H as (_ & H & _).
  change ((c, false) :: l2) with ([(c, false)] ++ l2) in H.
  apply no_adj_app in H. destruct H as (_ & _ & [H|H]); [discriminate|exact H].
Qed.

Lemma no_adj_parts (l1 l2 : list block) (b : block) :
  no_adj (l1 ++ b :: l2) -> no_adj l1 /\ no_adj l2.
Proof.
  intros H. apply no_adj_app in H. destruct H as (H1 & H & _).
  change (b :: l2) with ([b] ++ l2) in H.
  apply no_adj_app in H. tauto.
Qed.

Lemma remove_mid (l1 l2 : list Z) (x : Z) :
  NoDup (l1 ++ x :: l2) -> remove Z.eq_dec x (l1 ++ x :: l2) = l1 ++ l2.
Proof.
  intros H. pose proof (NoDup_remove_2 _ _ _ H) as Hn.
  rewrite remove_app. cbn [remove]. destruct (Z.eq_dec x x); [|contradiction].
  rewrite !notin_remove; [reflexivity| |];
    intros Hin; apply Hn; apply in_or_app; auto.
Qed.

Lemma place_fr (s : state) (l1 l2 : list block) (c asize : Z) (fl : list Z) :
  heap_inv s (l1 ++ (c, false) :: l2) fl ->
  24 <= asize <= c -> asize mod 8 = 0 ->
  exists s' c' l2' fl',
    place (heap_listp s + total l1) asize s = Ok tt s' /\
    heap_inv s' (l1 ++ (c', true) :: l2') fl' /\ same_arena s s' /\
    asize <= c' /\
    (forall x, In x (used_bps (heap_listp s) (l1 ++ (c', true) :: l2')) <->
               In x (used_bps (heap_listp s) (l1 ++ (c, false) :: l2)) \/
               x = heap_listp s + total l1) /\
    (if 24 <=? c - asize
     then c' = asize /\ l2' = (c - asize, false) :: l2 /\
          fl' = remove Z.eq_dec (heap_listp s + total l1) fl ++
                [heap_listp s + total l1 + asize]
     else c' = c /\ l2' = l2 /\
          fl' = remove Z.eq_dec (heap_listp s + total l1) fl) /\
    (forall x, in_used (heap_listp s) (l1 ++ (c, false) :: l2) x ->
               mem s' x = mem s x).
Proof.
  intros [H Hall Hadj] Ha Ha8.
  pose proof (blk_facts H) as K.
  destruct K as (K1 & K2 & Kc & Kc8 & KT1 & KT2 & Kb & Kcap & Klo & Kst & Kmax).
  set (B := heap_listp s + total l1) in *.
  pose proof (no_adj_next_alloc _ _ _ Hadj) as Hnext.
  destruct (no_adj_parts _ _ _ Hadj) as [Hadj1 Hadj2].
  assert (HB : In B fl) by (apply Hall; apply addrs_mid).
  destruct (in_split _ _ HB) as (f1 & f2 & ->).
  assert (Hnin : ~ In B (f1 ++ f2)).
  { destruct H. now apply NoDup_remove_2 in ok_nodup0. }
  assert (Hfree : forall x, In x (free_bps (heap_listp s) l1) \/
                            In x (free_bps (B + c) l2) -> In x (f1 ++ f2)).
  { intros x Hx. apply in_remove_mid with (b := B).
    - apply Hall. unfold free_bps. rewrite addrs_same. fold B.
      apply in_or_app. destruct Hx as [Hx|Hx]; [now left|right; now right].
    - destruct Hx as [Hx|Hx]; apply addrs_range in Hx; try assumption;
        unfold B; lia. }
  assert (Hused : forall c' l2', used_bps (B + c) l2 = used_bps (B + c') l2' ->
            forall x, In x (used_bps (heap_listp s) (l1 ++ (c', true) :: l2')) <->
               In x (used_bps (heap_listp s) (l1 ++ (c, false) :: l2)) \/ x = B).
  { intros c' l2' E x. unfold used_bps in *.
    rewrite (addrs_same true), (addrs_other true). fold B.
    rewrite E, !in_app_iff. cbn [In]. intuition. }
  unfold place.
  erewrite bind_step by (exact (run_size H)).
  rewrite wrap64_small by lia.
  destruct (remove_freeblock_ok H) as (s1 & R1 & H1 & A1 & F1).
  destruct A1 as (As & Ab & Am & Ah & Ac).
  assert (Hrm : remove Z.eq_dec B (f1 ++ B :: f2) = f1 ++ f2).
  { apply remove_mid. now destruct H. }
  assert (Hout : forall x, in_used (heap_listp s) (l1 ++ (c, false) :: l2) x ->
                           x < B - 4 \/ B + c - 4 <= x).
  { intros x Hx. unfold B. apply in_used_mid with (l2 := l2); [|exact Hx].
    now destruct H. }
  assert (Hsep : forall x y, in_used (heap_listp s) (l1 ++ (c, false) :: l2) x ->
                             In y (f1 ++ f2) -> x < y \/ y + 16 <= x).
  { intros x y Hx Hy. destruct H1. apply ok_incl0 in Hy. rewrite Ah in Hy.
    eapply used_free_sep; [exact ok_blocks0|exact Hx|exact Hy]. }
  assert (Hfr1 : forall x, in_used (heap_listp s) (l1 ++ (c, false) :: l2) x ->
                           mem s1 x = mem s x).
  { intros x Hx. apply F1. intros y Hy. now apply Hsep. }
  assert (EB : heap_listp s1 + total l1 = B) by (unfold B; now rewrite Ah).
  change MINCHUNKSIZE with 24.
  destruct (Z.leb_spec 24 (c - asize)) as [Hsplit|Hsplit].
  - (* split *)
    erewrite bind_step by (exact R1).
    change (PACK asize 1) with (tag asize true).
    rewrite put_tags_bind by lia.
    set (m2 := retag B asize true (mem s1)).
    assert (N2 : NEXT_BLKP B (set_mem m2 s1) = Ok (B + asize) (set_mem m2 s1)).
    { eapply NEXT_BLKP_ok with (a := true); cbn [mem set_mem mem_start_brk mem_brk mem_max_addr];
        try lia. apply retag_tags; lia. }
    erewrite bind_step by (exact N2).
    change (PACK (c - asize) 0) with (tag (c - asize) false).
    assert (E8 : (c - asize) mod 8 = 0).
    { rewrite Zminus_mod, Kc8, Ha8. reflexivity. }
    rewrite put_tags_bind by (cbn [mem set_mem mem_start_brk mem_brk mem_max_addr]; lia).
    set (m3 := retag (B + asize) (c - asize) false (mem (set_mem m2 s1))).
    change (set_mem m3 (set_mem m2 s1)) with (set_mem m3 s1).
    assert (H3 : heap_ok (set_mem m3 s1)
                   (l1 ++ [(asize, true); (c - asize, false)] ++ l2) (f1 ++ f2)).
    { apply heap_ok_region with (mid := [(c, false)]).
      - exact H1.
      - cbn. lia.
      - repeat constructor; cbn [fst]; lia.
      - intros x Hx. rewrite EB in Hx. cbn [total fst] in Hx.
        unfold m3, m2. cbn [mem set_mem]. rewrite !retag_out by lia. reflexivity.
      - rewrite EB. unfold m3, m2. cbn [tags mem set_mem].
        destruct (@retag_tags B asize true (mem s1)) as [T1 T2]; [lia|assumption|].
        destruct (@retag_tags (B + asize) (c - asize) false
                    (retag B asize true (mem s1))) as [T3 T4]; [lia|assumption|].
        replace (B + asize + (c - asize) - 8) with (B + c - 8) in * by lia.
        split; [|split; [|split; [|split; [|exact I]]]].
        + rewrite load_retag_other by (cbn; lia). exact T1.
        + rewrite load_retag_other by (cbn; lia). exact T2.
        + exact T3.
        + exact T4.
      - intros x Hx Hin. rewrite EB in Hin. unfold free_bps in Hin.
        cbn in Hin. destruct Hin as [<-|[]]. contradiction. }
    cbn [app] in H3.
    assert (HN : In (B + asize)
                   (free_bps (heap_listp (set_mem m3 s1))
                      (l1 ++ (asize, true) :: (c - asize, false) :: l2))).
    { cbn [heap_listp set_mem]. rewrite Ah. unfold free_bps.
      rewrite addrs_app. apply in_or_app. right. fold B. cbn. now left. }
    assert (HNn : ~ In (B + asize) (f1 ++ f2)).
    { intros Hin. destruct H1. apply ok_incl0 in Hin. rewrite Ah in Hin.
      unfold free_bps in Hin. rewrite addrs_same in Hin. fold B in Hin.
      apply in_app_or in Hin. destruct Hin as [Hin|[Hin|Hin]].
      - apply addrs_range in Hin; [|assumption]. unfold B in *. lia.
      - lia.
      - apply addrs_range in Hin; [|assumption]. lia. }
    destruct (add_freeblock_ok H3 HN HNn) as (s4 & R4 & H4 & A4 & Fa4).
    erewrite bind_step by (exact R4).
    assert (Hfr4 : forall x, in_used (heap_listp s) (l1 ++ (c, false) :: l2) x ->
                             mem s4 x = mem s x).
    { intros x Hx. pose proof (Hout x Hx) as Ho. rewrite Fa4.
      - cbn [mem set_mem]. unfold m3, m2. cbn [mem set_mem].
        rewrite !retag_out by lia. now apply Hfr1.
      - intros y [<-|Hy]; [lia|]. now apply Hsep. }
    destruct A4 as (As4 & Ab4 & Am4 & Ah4 & Ac4).
    cbn [mem_start_brk mem_brk mem_max_addr heap_listp console set_mem] in *.
    assert (EL : l1 ++ (asize, true) :: (c - asize, false) :: l2 =
                 (l1 ++ [(asize, true)]) ++ [] ++ (c - asize, false) :: [] ++ l2)
      by now rewrite <- app_assoc.
    rewrite EL in H4.
    assert (EB4 : B + asize = heap_listp s4 + total (l1 ++ [(asize, true)]) + total []).
    { rewrite total_app. cbn [total fst]. rewrite Ah4, Ah. unfold B. lia. }
    rewrite EB4.
    destruct (coalesce_inv H4) as (s5 & fl5 & R5 & H5 & A5 & N5).
    + rewrite <- EL. rewrite Ah4, Ah. intros x Hx.
      unfold free_bps in Hx. rewrite addrs_app in Hx. fold B in Hx.
      cbn [addrs Bool.eqb] in Hx.
      replace (B + asize + (c - asize)) with (B + c) in Hx by lia.
      apply in_app_or in Hx. apply in_or_app.
      destruct Hx as [Hx|[Hx|Hx]].
      * left. apply Hfree. now left.
      * right. left. exact Hx.
      * left. apply Hfree. now right.
    + apply no_adj_app. split; [assumption|]. split; [exact I|]. now right.
    + assumption.
    + now rewrite prev_of_snoc.
    + assumption.
    + constructor.
    + constructor.
    + erewrite bind_step by (exact R5). unfold ret.
      cbn [total] in H5. rewrite Z.add_0_l, Z.add_0_r in H5.
      rewrite <- app_assoc in H5. cbn [app] in H5.
      exists s5, asize, ((c - asize, false) :: l2), fl5.
      split; [reflexivity|]. split; [exact H5|]. split.
      { destruct A5 as (As5 & Ab5 & Am5 & Ah5 & Ac5).
        repeat split; congruence. }
      split; [lia|].
      split; [apply Hused; unfold used_bps; cbn [addrs Bool.eqb]; f_equal; lia|].
      destruct (N5 eq_refl eq_refl) as [E5 E5'].
      split.
      { split; [reflexivity|]. split; [reflexivity|].
        rewrite <- EB4. now rewrite Hrm, E5'. }
      intros x Hx. rewrite E5. now apply Hfr4.
  - (* no split *)
    erewrite bind_step by (exact R1).
    change (PACK c 1) with (tag c true).
    rewrite put_tags_ok by lia.
    pose proof (@retag_ok s1 (f1 ++ f2) l1 l2 c false true H1) as H2.
    rewrite EB in H2. specialize (H2 ltac:(intros _; exact Hnin)).
    exists (set_mem (retag B c true (mem s1)) s1), c, l2, (f1 ++ f2).
    split; [reflexivity|]. split.
    + constructor.
      * exact H2.
      * cbn [heap_listp set_mem]. rewrite Ah. intros x Hx. apply Hfree.
        unfold free_bps in Hx. rewrite (addrs_other false) in Hx. fold B in Hx.
        apply in_app_or in Hx. exact Hx.
      * apply no_adj_join; auto.
    + split; [repeat split; assumption|]. split; [lia|].
      split; [now apply Hused|]. split.
      { split; [reflexivity|]. split; [reflexivity|]. now rewrite Hrm. }
      intros x Hx. pose proof (Hout x Hx) as Ho. cbn [mem set_mem].
      rewrite retag_out by lia. now apply Hfr1.
Qed.

Lemma place_ok (s : state) (l1 l2 : list block) (c asize : Z) (fl : list Z) :
  heap_inv s (l1 ++ (c, false) :: l2) fl ->
  24 <= asize <= c -> asize mod 8 = 0 ->
  exists s' c' l2' fl',
    place (heap_listp s + total l1) asize s = Ok tt s' /\
    heap_inv s' (l1 ++ (c', true) :: l2') fl' /\ same_arena s s' /\
    asize <= c' /\
    (forall x, In x (used_bps (heap_listp s) (l1 ++ (c', true) :: l2')) <->
               In x (used_bps (heap_listp s) (l1 ++ (c, false) :: l2)) \/
               x = heap_listp s + total l1).
Proof.
  intros Hinv Ha Ha8.
  destruct (@place_fr s l1 l2 c asize fl Hinv Ha Ha8)
    as (s' & c' & l2' & fl' & R & H' & A & Hc & U & _).
  exists s', c', l2', fl'. repeat (split; [assumption|]). assumption.
Qed.

Arguments place_ok {s l1 l2 c asize fl} _ _ _.

(** ** find_fit *)

(** The free list as [find_fit] walks it: every node is a non-null address
    whose [next] field holds the node after it, the last one holding the
    null pointer. *)
Fixpoint nextseg (m : memory) (l : list Z) : Prop :=
  match l with
  | [] => True
  | x :: r => x <> NULL /\ load_le 8 m (x + 8) = hd NULL r /\ nextseg m r
  end.

(** The size field of the header of the block at [bp]. *)
Definition size_at (m : memory) (bp : Z) : Z :=
  Z.land (load_le 4 m (HDRP bp)) MASK32.

(** Following the words of the specification: the first block of the list,
    scanned from the head, whose size is at least the required size, and
    "not found" (the null pointer) when there is none. *)
Definition first_fit_spec (m : memory) (asize : Z) (l : list Z) : Z :=
  match find (fun bp => asize <=? size_at m bp) l with
  | Some bp => bp
  | None => NULL
  end.

Lemma nextseg_suffix (m : memory) (l1 l2 : list Z) :
  nextseg m (l1 ++ l2) -> nextseg m l2.
Proof.
  induction l1 as [|x l1 IH]; [easy|]. cbn [app nextseg]. intros (_ & _ & H).
  now apply IH.
Qed.

Lemma nextseg_inj (m : memory) (l1 : list Z) : forall (l2 : list Z),
  nextseg m l1 -> nextseg m l2 -> hd NULL l1 = hd NULL l2 -> l1 = l2.
Proof.
  induction l1 as [|x r1 IH]; intros [|y r2] H1 H2 E; cbn in *.
  - reflexivity.
  - destruct H2 as (Hy & _). now subst y.
  - destruct H1 as (Hx & _). now subst x.
  - subst y. destruct H1 as (_ & N1 & H1). destruct H2 as (_ & N2 & H2).
    f_equal. apply IH; auto. congruence.
Qed.

Lemma nextseg_NoDup (m : memory) (l : list Z) : nextseg m l -> NoDup l.
Proof.
  induction l as [|x r IH]; intros H; [constructor|].
  pose proof H as (Hx & Hn & Hr). constructor; [|now apply IH].
  intros Hin. destruct (in_split _ _ Hin) as (r1 & r2 & E).
  assert (H2 : nextseg m (x :: r2)).
  { apply nextseg_suffix with (l1 := r1). now rewrite <- E. }
  assert (E2 : x :: r2 = x :: r) by (eapply nextseg_inj; eauto).
  apply (f_equal (@length Z)) in E2. cbn [length] in E2.
  apply (f_equal (@length Z)) in E. rewrite length_app in E.
  cbn [length] in E. lia.
Qed.

Lemma NoDup_range_length (l : list Z) (lo hi : Z) :
  NoDup l -> (forall x, In x l -> lo <= x < hi) ->
  Z.of_nat (length l) <= Z.max 0 (hi - lo).
Proof.
  intros Hnd Hr.
  assert (Hm : NoDup (map (fun x => Z.to_nat (x - lo)) l)).
  { apply NoDup_map_NoDup_ForallPairs; [|assumption].
    intros x y Hx Hy E. apply Hr in Hx. apply Hr in Hy. lia. }
  assert (Hi : incl (map (fun x => Z.to_nat (x - lo)) l)
                    (seq 0 (Z.to_nat (hi - lo)))).
  { intros n Hn. apply in_map_iff in Hn. destruct Hn as (x & <- & Hx).
    apply Hr in Hx. apply in_seq. lia. }
  pose proof (NoDup_incl_length Hm Hi) as Hl.
  rewrite length_map, length_seq in Hl. lia.
Qed.

Lemma find_fit_loop_ok (l : list Z) : forall (s : state) (asize : Z) (fuel : nat),
  nextseg (mem s) l ->
  (forall x, In x l -> mem_start_brk s <= x - 4 /\ x + 16 <= mem_max_addr s) ->
  (length l < fuel)%nat ->
  find_fit_loop fuel asize (hd NULL l) s = Ok (first_fit_spec (mem s) asize l) s.
Proof.
  induction l as [|x r IH]; intros s asize fuel Hseg Hin Hfuel;
    (destruct fuel as [|fuel']; [cbn in Hfuel; lia|]).
  - reflexivity.
  - destruct Hseg as (Hx & Hn & Hr).
    pose proof (Hin x (or_introl eq_refl)) as Rx.
    cbn [find_fit_loop hd].
    apply Z.eqb_neq in Hx. rewrite Hx. cbn [negb].
    unfold GET_SIZE, GET, HDRP, WSIZE.
    rewrite bind_assoc.
    erewrite bind_step by (apply load_ok; cbn; lia).
    rewrite bind_ret.
    unfold first_fit_spec. cbn [find]. unfold size_at at 1, HDRP, WSIZE.
    destruct (asize <=? Z.land (load_le 4 (mem s) (x - 4)) MASK32); [reflexivity|].
    unfold get_next. erewrite bind_step by (apply load_ok; cbn; lia).
    rewrite Hn. apply IH; auto.
    + intros y Hy. apply Hin. now right.
    + cbn [length] in Hfuel. lia.
Qed.

Lemma find_fit_chain (s : state) (l : list Z) (asize : Z) :
  dl_start s = hd NULL l ->
  nextseg (mem s) l ->
  (forall x, In x l -> mem_start_brk s <= x - 4 /\ x + 16 <= mem_max_addr s) ->
  find_fit asize s = Ok (first_fit_spec (mem s) asize l) s.
Proof.
  intros Hs Hseg Hin. unfold find_fit. rewrite Hs.
  apply find_fit_loop_ok; auto.
  pose proof (nextseg_NoDup _ _ Hseg) as Hnd.
  pose proof (@NoDup_range_length l (mem_start_brk s) (mem_max_addr s) Hnd) as Hl.
  unfold fuel_of. assert (forall x, In x l -> mem_start_brk s <= x < mem_max_addr s).
  { intros x Hx. apply Hin in Hx. lia. }
  specialize (Hl H). lia.
Qed.

Lemma first_fit_spec_scan (m : memory) (asize : Z) (l : list Z) :
  (first_fit_spec m asize l = NULL /\
   forall x, In x l -> size_at m x < asize) \/
  (exists l1 l2,
     l = l1 ++ first_fit_spec m asize l :: l2 /\
     asize <= size_at m (first_fit_spec m asize l) /\
     forall x, In x l1 -> size_at m x < asize).
Proof.
  unfold first_fit_spec. induction l as [|x r IH]; cbn [find].
  - left. split; [reflexivity|]. intros x [].
  - destruct (Z.leb_spec asize (size_at m x)) as [Hfit|Hno].
    + right. exists [], r. split; [reflexivity|]. split; [assumption|].
      intros y [].
    + destruct IH as [[E Hall]|(l1 & l2 & E & Hfit & Hall)].
      * left. split; [assumption|]. intros y [<-|Hy]; auto.
      * right. exists (x :: l1), l2. split; [cbn [app]; now f_equal|].
        split; [assumption|]. intros y [<-|Hy]; auto.
Qed.

(** C6.  On every free list that is a chain of nodes inside the arena
    ending in the null pointer, [find_fit] returns, with the state as it
    was, the first node in list order from [dl_start] whose block size is
    at least [asize]: every node before it is too small, whatever the
    sizes of the nodes after it.  When every node is too small it returns
    the null pointer. *)
Theorem find_fit_first_fit (s : state) (l : list Z) (asize : Z) :
  dl_start s = hd NULL l ->
  nextseg (mem s) l ->
  (forall x, In x l -> mem_start_brk s <= x - 4 /\ x + 16 <= mem_max_addr s) ->
  exists r,
    find_fit asize s = Ok r s /\
    r = first_fit_spec (mem s) asize l /\
    ((r = NULL /\ forall x, In x l -> size_at (mem s) x < asize) \/
     (exists l1 l2,
        l = l1 ++ r :: l2 /\ asize <= size_at (mem s) r /\
        forall x, In x l1 -> size_at (mem s) x < asize)).
Proof.
  intros Hs Hseg Hin. exists (first_fit_spec (mem s) asize l).
  split; [now apply find_fit_chain|]. split; [reflexivity|].
  apply first_fit_spec_scan.
Qed.

Lemma dlseg_nextseg (m : memory) (l : list Z) : forall (p : Z),
  dlseg m p l 0 -> (forall x, In x l -> x <> 0) -> nextseg m l.
Proof.
  induction l as [|x r IH]; intros p H Hnz; [exact I|].
  destruct H as (_ & Hn & Hr). cbn [nextseg]. split; [|split].
  - apply Hnz. now left.
  - exact Hn.
  - eapply IH; [exact Hr|]. intros y Hy. apply Hnz. now right.
Qed.

Lemma find_fit_heap (s : state) (bl : list block) (fl : list Z) (asize : Z) :
  heap_ok s bl fl ->
  find_fit asize s = Ok (first_fit_spec (mem s) asize fl) s.
Proof.
  intros H. apply find_fit_chain.
  - apply H.
  - eapply dlseg_nextseg; [apply H|]. intros x Hx.
    pose proof (node_facts H Hx). lia.
  - intros x Hx. pose proof (node_facts H Hx). pose proof (ok_max H). lia.
Qed.

Lemma first_fit_cases (s : state) (bl : list block) (fl : list Z) (asize : Z) :
  heap_ok s bl fl ->
  first_fit_spec (mem s) asize fl = NULL \/
  exists l1 c l2,
    bl = l1 ++ (c, false) :: l2 /\
    first_fit_spec (mem s) asize fl = heap_listp s + total l1 /\
    asize <= c /\ heap_listp s + total l1 <> NULL.
Proof.
  intros H. unfold first_fit_spec.
  destruct (find (fun bp => asize <=? size_at (mem s) bp) fl) as [bp|] eqn:E;
    [right|now left].
  apply find_some in E. destruct E as [Hin Hfit].
  pose proof (node_facts H Hin) as Fn.
  pose proof H as H0. destruct H0. apply ok_incl0 in Hin.
  destruct (addrs_split _ _ _ _ Hin) as (l1 & c & l2 & -> & ->).
  exists l1, c, l2. split; [reflexivity|]. split; [reflexivity|].
  pose proof (blk_facts H) as K. pose proof (blk_hdr H) as Hh.
  unfold size_at, HDRP, WSIZE in Hfit. rewrite Hh, tag_size in Hfit by lia.
  apply Z.leb_le in Hfit. split; [assumption|]. unfold NULL. lia.
Qed.

(** ** extend_heap *)

Lemma extend_heap_fail (s : state) (words : Z) :
  0 <= words -> words mod 2 = 0 -> 4 * words < 4294967296 ->
  mem_max_addr s < mem_brk s + 4 * words ->
  extend_heap words s = Ok NULL s.
Proof.
  intros H0 H2 H32 Hmax. unfold extend_heap, WSIZE.
  apply Z.eqb_eq in H2. rewrite H2. cbn [negb].
  rewrite wrap64_small by lia.
  unfold mem_sbrk, bind.
  assert (E : (words * 4 <? 0) || (mem_max_addr s <? mem_brk s + words * 4) = true).
  { apply orb_true_intro. right. apply Z.ltb_lt. lia. }
  rewrite E. reflexivity.
Qed.

Lemma extend_heap_fr (s : state) (bl : list block) (fl : list Z) (words : Z) :
  heap_inv s bl fl ->
  0 <= words -> words mod 2 = 0 -> 24 <= 4 * words ->
  mem_brk s + 4 * words <= mem_max_addr s ->
  exists s' L c fl',
    extend_heap words s = Ok (heap_listp s + total L) s' /\
    heap_inv s' (L ++ [(c, false)]) fl' /\
    4 * words <= c /\
    used_bps (heap_listp s) (L ++ [(c, false)]) = used_bps (heap_listp s) bl /\
    mem_start_brk s' = mem_start_brk s /\ mem_max_addr s' = mem_max_addr s /\
    heap_listp s' = heap_listp s /\ console s' = console s /\
    mem_brk s' = mem_brk s + 4 * words /\
    (exists G, bl = L ++ G /\ all_free G /\ c = total G + 4 * words) /\
    (forall x, in_used (heap_listp s) bl x -> mem s' x = mem s x).
Proof.
  intros [H Hall Hadj] H0 H2 H24 Hmax.
  pose proof H as Hc. destruct Hc.
  pose proof (total_nonneg ok_blocks0) as Ht.
  set (size := 4 * words) in *.
  set (bp := mem_brk s).
  assert (S8 : size mod 8 = 0).
  { unfold size. clear - H2. Z.div_mod_to_equations. lia. }
  unfold extend_heap, WSIZE.
  apply Z.eqb_eq in H2. rewrite H2. cbn [negb].
  replace (words * 4) with size by (unfold size; lia).
  rewrite wrap64_small by lia.
  unfold mem_sbrk at 1. unfold bind at 1.
  assert (E : (size <? 0) || (mem_max_addr s <? mem_brk s + size) = false).
  { apply orb_false_intro; apply Z.ltb_ge; lia. }
  rewrite E. fold bp.
  assert (E1 : (bp =? -1) = false) by (apply Z.eqb_neq; unfold bp; lia).
  rewrite E1.
  set (s1 := set_brk (bp + size) s).
  change (PACK size 0) with (tag size false).
  rewrite put_tags_bind
    by (cbn [mem_start_brk mem_brk mem_max_addr s1 set_brk]; unfold bp; lia).
  set (m2 := retag bp size false (mem s1)).
  assert (N2 : NEXT_BLKP bp (set_mem m2 s1) = Ok (bp + size) (set_mem m2 s1)).
  { eapply NEXT_BLKP_ok with (a := false);
      cbn [mem set_mem mem_start_brk mem_brk mem_max_addr s1 set_brk]; unfold bp; try lia.
    apply retag_tags; lia. }
  erewrite bind_step by (exact N2).
  change (PACK 0 1) with (tag 0 true).
  erewrite bind_step
    by (apply PUT_ok; cbn [mem set_mem mem_start_brk mem_brk mem_max_addr s1 set_brk];
        unfold HDRP, WSIZE, bp; lia).
  cbn [mem set_mem]. unfold HDRP, WSIZE.
  set (m3 := store_le 4 (bp + size - 4) (tag 0 true) m2).
  change (set_mem m3 (set_mem m2 s1)) with (set_mem m3 s1).
  assert (Hm3 : forall x, x < bp - 4 -> m3 x = mem s x).
  { intros x Hx. unfold m3, m2. rewrite store_le_out by lia.
    rewrite retag_out by lia. reflexivity. }
  assert (H3 : heap_ok (set_mem m3 s1) (bl ++ [(size, false)]) fl).
  { constructor;
      cbn [mem set_mem mem_start_brk mem_brk mem_max_addr heap_listp dl_start
           dl_end s1 set_brk]; try assumption.
    - rewrite total_app. cbn [total fst]. unfold bp. lia.
    - rewrite <- ok_pro_hdr0. apply load_le_ext. intros x Hx. apply Hm3.
      unfold bp. lia.
    - rewrite <- ok_pro_ftr0. apply load_le_ext. intros x Hx. apply Hm3.
      unfold bp. lia.
    - apply Forall_app. split; [assumption|].
      repeat constructor; cbn [fst]; lia.
    - apply tags_app. split.
      + eapply tags_ext; [eassumption| |eassumption]. intros x Hx. apply Hm3.
        unfold bp. lia.
      + replace (heap_listp s + total bl) with bp by (unfold bp; lia).
        cbn [tags]. unfold m3.
        rewrite !load_store_other by lia.
        destruct (@retag_tags bp size false (mem s1)) as [T1 T2];
          [lia|assumption|]. repeat split; assumption.
    - unfold m3. apply load4_store4. now vm_compute.
    - eapply dlseg_ext; [|eassumption]. intros x y Hx Hy. apply Hm3.
      pose proof (node_facts H Hx). unfold bp. lia.
    - intros x Hx. unfold free_bps. rewrite addrs_app. apply in_or_app. left.
      now apply ok_incl0. }
  assert (HB : In bp (free_bps (heap_listp (set_mem m3 s1)) (bl ++ [(size, false)]))).
  { cbn [heap_listp set_mem s1 set_brk]. unfold free_bps. rewrite addrs_app.
    apply in_or_app. right. cbn. left. unfold bp. lia. }
  assert (HBn : ~ In bp fl).
  { intros Hin. pose proof (node_facts H Hin). unfold bp in *. lia. }
  destruct (add_freeblock_ok H3 HB HBn) as (s4 & R4 & H4 & A4 & Fa4).
  erewrite bind_step by (exact R4).
  assert (Hfr4 : forall x, in_used (heap_listp s) bl x -> mem s4 x = mem s x).
  { intros x Hx.
    pose proof (@in_used_range bl x (heap_listp s) ok_blocks0 Hx) as Hr.
    rewrite Fa4.
    - cbn [mem set_mem]. apply Hm3. unfold bp. lia.
    - intros y [<-|Hy]; [unfold bp; lia|].
      eapply used_free_sep; [exact ok_blocks0|exact Hx|now apply ok_incl0]. }
  destruct A4 as (As4 & Ab4 & Am4 & Ah4 & Ac4).
  cbn [mem_start_brk mem_brk mem_max_addr heap_listp console set_mem s1 set_brk] in *.
  destruct (no_adj_suffix Hadj) as (L & G & -> & HG & HL & HnL).
  assert (EL : (L ++ G) ++ [(size, false)] = L ++ G ++ (size, false) :: [] ++ [])
    by now rewrite <- app_assoc.
  rewrite EL in H4.
  assert (EB : bp = heap_listp s4 + total L + total G).
  { rewrite Ah4. unfold bp. rewrite ok_brk0, total_app. lia. }
  rewrite EB.
  destruct (coalesce_inv_fr H4) as (s5 & fl5 & R5 & H5 & A5 & _ & Fr5 & _); auto.
  - rewrite <- EL, Ah4. intros x Hx. unfold free_bps in Hx.
    rewrite addrs_app in Hx. apply in_app_or in Hx. apply in_or_app.
    destruct Hx as [Hx|Hx].
    + left. now apply Hall.
    + right. cbn in Hx. destruct Hx as [<-|[]]. left. unfold bp. lia.
  - exact I.
  - constructor.
  - destruct A5 as (As5 & Ab5 & Am5 & Ah5 & Ac5).
    exists s5, L, (total G + size + total []), fl5.
    split; [rewrite R5; now rewrite Ah4|]. split; [exact H5|]. split.
    { apply Forall_app in ok_blocks0. destruct ok_blocks0 as [_ OG].
      pose proof (total_nonneg OG). cbn [total]. lia. }
    split.
    { pose proof (@used_merge L G [] [] size (heap_listp s) HG ltac:(constructor)) as U.
      cbn [app] in U. rewrite <- U. unfold used_bps.
      rewrite !addrs_app. cbn [addrs Bool.eqb]. now rewrite !app_nil_r. }
    split; [congruence|]. split; [congruence|]. split; [congruence|].
    split; [congruence|]. split; [congruence|]. split.
    { exists G. split; [reflexivity|]. split; [assumption|]. cbn [total]. lia. }
    intros x Hx. rewrite Fr5; [now apply Hfr4|].
    rewrite Ah4, <- EL. apply in_used_app. now left.
Qed.

Lemma extend_heap_ok (s : state) (bl : list block) (fl : list Z) (words : Z) :
  heap_inv s bl fl ->
  0 <= words -> words mod 2 = 0 -> 24 <= 4 * words ->
  mem_brk s + 4 * words <= mem_max_addr s ->
  exists s' L c fl',
    extend_heap words s = Ok (heap_listp s + total L) s' /\
    heap_inv s' (L ++ [(c, false)]) fl' /\
    4 * words <= c /\
    used_bps (heap_listp s) (L ++ [(c, false)]) = used_bps (heap_listp s) bl /\
    mem_start_brk s' = mem_start_brk s /\ mem_max_addr s' = mem_max_addr s /\
    heap_listp s' = heap_listp s /\ console s' = console s /\
    mem_brk s' = mem_brk s + 4 * words.
Proof.
  intros Hinv H0 H2 H24 Hmax.
  destruct (@extend_heap_fr s bl fl words Hinv H0 H2 H24 Hmax)
    as (s' & L & c & fl' & R & H' & Hc & U & E1 & E2 & E3 & E4 & E5 & _).
  exists s', L, c, fl'. repeat (split; [assumption|]). assumption.
Qed.

Arguments extend_heap_ok {s bl fl words} _ _ _ _ _.

(** ** mm_malloc *)

(** What the arena keeps when the heap grows. *)
Definition grows (s s' : state) : Prop :=
  mem_start_brk s' = mem_start_brk s /\ mem_max_addr s' = mem_max_addr s /\
  heap_listp s' = heap_listp s /\ console s' = console s /\
  mem_brk s <= mem_brk s'.

Lemma grows_refl (s : state) : grows s s.
Proof. unfold grows. repeat split; lia. Qed.

Lemma grows_trans (s1 s2 s3 : state) : grows s1 s2 -> grows s2 s3 -> grows s1 s3.
Proof. unfold grows. intros (A1 & A2 & A3 & A4 & A5) (B1 & B2 & B3 & B4 & B5).
  repeat split; try congruence. lia. Qed.

Lemma same_arena_grows (s s' : state) : same_arena s s' -> grows s s'.
Proof. unfold grows. intros (A1 & A2 & A3 & A4 & A5). repeat split; auto. lia. Qed.

Lemma malloc_asize_range (size : Z) :
  0 < size <= 4294967296 - 16 ->
  24 <= malloc_asize size < 4294967296 /\ malloc_asize size mod 8 = 0 /\
  size + 8 <= malloc_asize size.
Proof.
  intros H. pose proof (@malloc_asize_bounds size). lia.
Qed.

Lemma mm_malloc_fr (s : state) (bl : list block) (fl : list Z) (size : Z) :
  heap_inv s bl fl -> 0 < size <= 4294967296 - 16 ->
  exists r s' bl' fl',
    mm_malloc size s = Ok r s' /\ heap_inv s' bl' fl' /\ grows s s' /\
    ((r = NULL /\ s' = s /\ bl' = bl /\ fl' = fl) \/
     (exists l1 c l2,
        bl' = l1 ++ (c, true) :: l2 /\ r = heap_listp s + total l1 /\
        malloc_asize size <= c /\
        ~ In r (used_bps (heap_listp s) bl) /\
        forall x, In x (used_bps (heap_listp s) bl') <->
                  In x (used_bps (heap_listp s) bl) \/ x = r)) /\
    (forall x, in_used (heap_listp s) bl x -> mem s' x = mem s x) /\
    (r = NULL <->
     first_fit_spec (mem s) (malloc_asize size) fl = NULL /\
     mem_max_addr s < mem_brk s + MAX (malloc_asize size) 512) /\
    (first_fit_spec (mem s) (malloc_asize size) fl <> NULL ->
     r = first_fit_spec (mem s) (malloc_asize size) fl /\
     mem_brk s' = mem_brk s) /\
    (first_fit_spec (mem s) (malloc_asize size) fl = NULL -> r <> NULL ->
     mem_brk s' = mem_brk s + MAX (malloc_asize size) 512) /\
    (r <> NULL ->
     exists l1 c l2,
       bl' = l1 ++ (c, true) :: l2 /\ r = heap_listp s + total l1 /\
       malloc_asize size <= c < malloc_asize size + 24).
Proof.
  intros Hinv Hsize. pose proof Hinv as [H Hall Hadj].
  destruct (malloc_asize_range Hsize) as (Ha & Ha8 & Hap).
  unfold mm_malloc.
  assert (E0 : (size =? 0) = false) by (apply Z.eqb_neq; lia). rewrite E0.
  set (asize := malloc_asize size) in *.
  erewrite bind_step by (exact (@find_fit_heap s bl fl asize H)).
  destruct (@first_fit_cases s bl fl asize H) as [E|(l1 & c & l2 & -> & E & Hc & Hnz)].
  - (* no fit: extend the heap *)
    rewrite E. cbn [NULL Z.eqb negb].
    change (2 ^ 9) with 512.
    set (ext := MAX asize 512).
    assert (Hext : asize <= ext /\ 512 <= ext /\ ext < 4294967296 /\ ext mod 8 = 0).
    { unfold ext, MAX. destruct (Z.ltb_spec 512 asize); repeat split; lia. }
    destruct Hext as (X1 & X2 & X3 & X8).
    rewrite wrap32_small by lia. unfold WSIZE.
    assert (W : 0 <= ext / 4 /\ (ext / 4) mod 2 = 0 /\ 4 * (ext / 4) = ext).
    { clear - X2 X8. Z.div_mod_to_equations. lia. }
    destruct W as (W0 & W2 & W4).
    destruct (Z.ltb_spec (mem_max_addr s) (mem_brk s + ext)) as [Hfail|Hfit].
    + erewrite bind_step by (apply extend_heap_fail; lia).
      cbn [NULL Z.eqb]. unfold ret.
      exists 0, s, bl, fl. split; [reflexivity|]. split; [assumption|].
      split; [apply grows_refl|]. split; [left; repeat split|].
      split; [intros; reflexivity|]. split; [split; [intros _; now split|reflexivity]|].
      split; [intros Hff; contradiction|].
      split; [intros _ Hr|intros Hr]; now contradiction Hr.
    + destruct (@extend_heap_fr s bl fl (ext / 4) Hinv)
        as (s1 & L & c & fl1 & R1 & H1 & C1 & U1 & G1 & G2 & G3 & G4 & G5 &
            (G & EG & HG & _) & Fr1);
        try lia.
      erewrite bind_step by (exact R1).
      pose proof (blk_facts (inv_ok H1)) as K.
      assert (E1 : (heap_listp s + total L =? 0) = false).
      { apply Z.eqb_neq. rewrite <- G3. lia. }
      unfold NULL. rewrite E1.
      destruct (@place_fr s1 L [] c asize fl1 H1) as
        (s2 & c' & l2' & fl2 & R2 & H2 & A2 & C2 & U2 & Sh2 & Fr2); try lia.
      rewrite G3 in R2, U2, Fr2.
      erewrite bind_step by (exact R2). unfold ret.
      exists (heap_listp s + total L), s2, (L ++ (c', true) :: l2'), fl2.
      split; [reflexivity|]. split; [assumption|]. split.
      { eapply grows_trans; [|apply same_arena_grows; exact A2].
        unfold grows. repeat split; assumption || lia. }
      split; [|split; [|split; [|split; [|split]]]].
      * right. exists L, c', l2'. repeat split; auto.
        -- intros Hin. rewrite <- U1 in Hin.
           destruct H1 as [H1 _ _]. destruct H1.
           eapply addrs_disjoint; [exact ok_blocks0|exact Hin|].
           rewrite <- G3. apply addrs_mid.
        -- intros Hx. apply U2 in Hx. now rewrite U1 in Hx.
        -- intros Hx. apply U2. now rewrite U1.
      * intros x Hx. rewrite Fr2; [now apply Fr1|].
        rewrite EG in Hx. apply in_used_app in Hx. apply in_used_app.
        destruct Hx as [Hx|Hx]; [now left|].
        exfalso. eapply in_used_all_free; eassumption.
      * apply Z.eqb_neq in E1. split; [intros E2; contradiction|].
        intros [_ Hlt]. fold ext in Hlt. lia.
      * intros Hff. contradiction.
      * intros _ _. fold ext. destruct A2 as (_ & Ab2 & _). lia.
      * intros _. exists L, c', l2'. split; [reflexivity|]. split; [reflexivity|].
        destruct (Z.leb_spec 24 (c - asize)); lia.
  - (* a fit *)
    rewrite E. pose proof Hnz as Hnz'. apply Z.eqb_neq in Hnz. rewrite Hnz. cbn [negb].
    destruct (@place_fr s l1 l2 c asize fl Hinv) as
      (s2 & c' & l2' & fl2 & R2 & H2 & A2 & C2 & U2 & Sh2 & Fr2); try lia.
    erewrite bind_step by (exact R2). unfold ret.
    exists (heap_listp s + total l1), s2, (l1 ++ (c', true) :: l2'), fl2.
    split; [reflexivity|]. split; [assumption|].
    split; [now apply same_arena_grows|]. split; [|split; [|split; [|split; [|split]]]].
    + right. exists l1, c', l2'. repeat split; auto.
      * intros Hin. destruct H.
        eapply addrs_disjoint; [exact ok_blocks0|exact Hin|]. apply addrs_mid.
      * apply U2.
      * apply U2.
    + intros x Hx. apply Fr2. exact Hx.
    + split; [intros E2; contradiction|]. intros [E2 _]. congruence.
    + intros _. split; [reflexivity|]. now destruct A2 as (_ & Ab2 & _).
    + intros E2. congruence.
    + intros _. exists l1, c', l2'. split; [reflexivity|]. split; [reflexivity|].
      destruct (Z.leb_spec 24 (c - asize)); lia.
Qed.

Lemma mm_malloc_ok (s : state) (bl : list block) (fl : list Z) (size : Z) :
  heap_inv s bl fl -> 0 < size <= 4294967296 - 16 ->
  exists r s' bl' fl',
    mm_malloc size s = Ok r s' /\ heap_inv s' bl' fl' /\ grows s s' /\
    ((r = NULL /\ s' = s /\ bl' = bl /\ fl' = fl) \/
     (exists l1 c l2,
        bl' = l1 ++ (c, true) :: l2 /\ r = heap_listp s + total l1 /\
        malloc_asize size <= c /\
        ~ In r (used_bps (heap_listp s) bl) /\
        forall x, In x (used_bps (heap_listp s) bl') <->
                  In x (used_bps (heap_listp s) bl) \/ x = r)).
Proof.
  intros Hinv Hsize.
  destruct (@mm_malloc_fr s bl fl size Hinv Hsize)
    as (r & s' & bl' & fl' & R & H' & G & C & _).
  exists r, s', bl', fl'. repeat (split; [assumption|]). assumption.
Qed.


(** ** Writing into a payload *)

Lemma heap_inv_same (s s' : state) (bl : list block) (fl : list Z) :
  heap_inv s bl fl -> heap_ok s' bl fl -> heap_listp s' = heap_listp s ->
  heap_inv s' bl fl.
Proof.
  intros [H Hall Hadj] H' E. constructor; auto. now rewrite E.
Qed.

Lemma memcpy_ok (s : state) (fl : list Z) (l1 l2 : list block) (c src n : Z) :
  heap_ok s (l1 ++ (c, true) :: l2) fl ->
  0 <= n <= c - 8 -> mem_start_brk s <= src -> src + n <= mem_brk s ->
  exists s', memcpy (heap_listp s + total l1) src n s = Ok tt s' /\
             heap_ok s' (l1 ++ (c, true) :: l2) fl /\ same_arena s s'.
Proof.
  intros H Hn Hs1 Hs2. pose proof (blk_facts H) as K. unfold memcpy.
  destruct (Z.eqb_spec n 0) as [E|E].
  - exists s. split; [reflexivity|]. split; [assumption|apply same_arena_refl].
  - rewrite !in_arena_true by lia. cbn [andb]. eexists. split; [reflexivity|].
    split; [|repeat split].
    apply payload_ok; [exact H|]. intros x Hx. unfold copy.
    destruct (heap_listp s + total l1 <=? x) eqn:E1;
      destruct (x <? heap_listp s + total l1 + n) eqn:E2; cbn [andb];
      try reflexivity. lia.
Qed.

Lemma memset_ok (s : state) (fl : list Z) (l1 l2 : list block) (c v n : Z) :
  heap_ok s (l1 ++ (c, true) :: l2) fl ->
  0 <= n <= c - 8 ->
  exists s', memset (heap_listp s + total l1) v n s = Ok tt s' /\
             heap_ok s' (l1 ++ (c, true) :: l2) fl /\ same_arena s s'.
Proof.
  intros H Hn. pose proof (blk_facts H) as K. unfold memset.
  destruct (Z.eqb_spec n 0) as [E|E].
  - exists s. split; [reflexivity|]. split; [assumption|apply same_arena_refl].
  - rewrite !in_arena_true by lia. eexists. split; [reflexivity|].
    split; [|repeat split].
    apply payload_ok; [exact H|]. intros x Hx. unfold fill.
    destruct (heap_listp s + total l1 <=? x) eqn:E1;
      destruct (x <? heap_listp s + total l1 + n) eqn:E2; cbn [andb];
      try reflexivity. lia.
Qed.

(** ** mm_realloc *)

Lemma realloc_copy_ok (s : state) (bl : list block) (fl : list Z)
      (p size oldsize : Z) :
  heap_inv s bl fl -> In p (used_bps (heap_listp s) bl) ->
  0 < size <= 4294967296 - 16 ->
  0 <= oldsize -> p + oldsize <= mem_brk s ->
  exists r s' bl' fl',
    realloc_copy p size oldsize s = Ok r s' /\ heap_inv s' bl' fl' /\ grows s s' /\
    ((r = NULL /\ s' = s /\ bl' = bl /\ fl' = fl) \/
     (r <> NULL /\ ~ In r (used_bps (heap_listp s) bl) /\
      forall x, In x (used_bps (heap_listp s) bl') <->
                (In x (used_bps (heap_listp s) bl) /\ x <> p) \/ x = r)).
Proof.
  intros Hinv Hp Hsize Hold Hsrc.
  destruct (malloc_asize_range Hsize) as (Ha & Ha8 & Hap).
  unfold realloc_copy.
  destruct (mm_malloc_ok Hinv Hsize) as (r & s1 & bl1 & fl1 & R1 & H1 & G1 & C1).
  erewrite bind_step by (exact R1).
  destruct C1 as [(-> & -> & -> & ->)|(l1 & c & l2 & -> & -> & Hc & Hnew & U1)].
  - cbn [NULL Z.eqb]. unfold ret. exists 0, s, bl, fl.
    split; [reflexivity|]. split; [assumption|]. split; [apply grows_refl|].
    left. repeat split.
  - destruct G1 as (G1 & G2 & G3 & G4 & G5).
    pose proof (blk_facts (inv_ok H1)) as K.
    assert (Hp0 : mem_start_brk s <= p).
    { destruct Hinv as [H _ _]. destruct H.
      apply addrs_range in Hp; [lia|assumption]. }
    assert (E1 : (heap_listp s + total l1 =? 0) = false).
    { apply Z.eqb_neq. rewrite <- G3. lia. }
    rewrite E1.
    set (n := if size <? oldsize then size else oldsize).
    assert (Hn : 0 <= n <= size /\ n <= oldsize).
    { unfold n. destruct (Z.ltb_spec size oldsize); lia. }
    destruct (@memcpy_ok s1 fl1 l1 l2 c p n (inv_ok H1)) as (s2 & R2 & H2 & A2);
      try lia.
    rewrite G3 in R2. erewrite bind_step by (exact R2).
    destruct A2 as (As & Ab & Am & Ah & Ac).
    assert (Hinv2 : heap_inv s2 (l1 ++ (c, true) :: l2) fl1).
    { eapply heap_inv_same; eauto. }
    assert (Hp2 : In p (used_bps (heap_listp s2) (l1 ++ (c, true) :: l2))).
    { rewrite Ah, G3. apply U1. now left. }
    destruct (mm_free_ok Hinv2 Hp2) as (s3 & bl3 & fl3 & R3 & H3 & A3 & U3).
    erewrite bind_step by (exact R3). unfold ret.
    exists (heap_listp s + total l1), s3, bl3, fl3.
    split; [reflexivity|]. split; [assumption|]. split.
    { eapply grows_trans; [|apply same_arena_grows; exact A3].
      unfold grows. repeat split; congruence || lia. }
    right. split; [unfold NULL; rewrite <- G3; lia|]. split; [exact Hnew|].
    intros x. rewrite Ah, G3 in U3. rewrite U3, U1. split.
    + intros [[Hx|Hx] Hne]; [left; tauto|now right].
    + intros [[Hx Hne]|Hx]; [tauto|]. split; [now right|]. congruence.
Qed.

Lemma realloc_asize_range (size : Z) :
  0 < size <= 4294967296 - 16 ->
  16 <= realloc_asize size < 4294967296 /\ size + 8 <= realloc_asize size.
Proof.
  intros H. rewrite realloc_asize_eq by lia. Z.div_mod_to_equations. lia.
Qed.

(** The in-place growth of [mm_realloc]: the free right neighbour leaves
    the list and the block takes both sizes.  Only the header of the block,
    the last word of the neighbour and list nodes are written. *)
Lemma realloc_in_place_fr (s : state) (l1 l3 : list block) (c n : Z)
      (fl : list Z) :
  heap_inv s (l1 ++ (c, true) :: (n, false) :: l3) fl ->
  exists s' fl',
    (remove_freeblock (heap_listp s + total l1 + c) ;;;
     PUT (HDRP (heap_listp s + total l1)) (tag (c + n) true) ;;;
     ft <- FTRP (heap_listp s + total l1) ;;
     PUT ft (tag (c + n) true) ;;;
     ret (heap_listp s + total l1)) s = Ok (heap_listp s + total l1) s' /\
    heap_inv s' (l1 ++ (c + n, true) :: l3) fl' /\ same_arena s s' /\
    (forall x, In x fl' <-> In x fl /\ x <> heap_listp s + total l1 + c) /\
    (forall x, heap_listp s + total l1 <= x < heap_listp s + total l1 + c - 8 ->
               mem s' x = mem s x) /\
    (forall x, in_used (heap_listp s) (l1 ++ (c, false) :: (n, false) :: l3) x ->
               mem s' x = mem s x).
Proof.
  intros Hinv. pose proof Hinv as [H Hall Hadj].
  pose proof (blk_facts H) as K.
  destruct K as (K1 & K2 & Kc & Kc8 & KT1 & KT2 & Kb & Kcap & Klo & Kst & Kmax).
  set (B := heap_listp s + total l1) in *.
  assert (Hp : In B (used_bps (heap_listp s) (l1 ++ (c, true) :: (n, false) :: l3))).
  { unfold used_bps. rewrite addrs_app. apply in_or_app. right. now left. }
  inversion K2 as [|? ? [Kn Kn8] K3]; subst. cbn [fst] in Kn, Kn8.
  cbn [total fst] in *. pose proof (total_nonneg K3) as KT3.
  assert (HN : In (B + c) fl).
  { apply Hall. unfold free_bps. rewrite addrs_app. apply in_or_app. right.
    fold B. cbn. now left. }
  destruct (in_split _ _ HN) as (f1 & f2 & ->).
  destruct (remove_freeblock_ok H) as (s1 & R1 & H1 & A1 & F1).
  erewrite bind_step by (exact R1).
  destruct A1 as (As & Ab & Am & Ah & Ac).
  assert (E8 : (c + n) mod 8 = 0).
  { rewrite Z.add_mod by lia. rewrite Kc8, Kn8. reflexivity. }
  rewrite put_tags_bind by (assumption || lia). unfold ret.
  assert (Hn1 : ~ In (B + c) (f1 ++ f2)).
  { destruct H. now apply NoDup_remove_2 in ok_nodup0. }
  assert (Hn2 : ~ In B (f1 ++ f2)).
  { intros Hin. destruct H1. apply ok_incl0 in Hin. rewrite Ah in Hin.
    eapply addrs_disjoint; [exact ok_blocks0|exact Hp|exact Hin]. }
  pose proof (@join_ok s1 (f1 ++ f2) l1 l3 c n true true H1) as H2.
  rewrite Ah in H2. fold B in H2.
  specialize (H2 Hn1 ltac:(intros _; exact Hn2)).
  eexists _, (f1 ++ f2).
  split; [reflexivity|]. split; [|split; [|split; [|split]]].
  - constructor.
    + exact H2.
    + cbn [heap_listp set_mem]. rewrite Ah. intros x Hx.
      apply in_remove_mid with (b := B + c).
      * apply Hall. unfold free_bps in *.
        rewrite (addrs_other false) in Hx. rewrite (addrs_other false).
        fold B in Hx |- *. apply in_app_or in Hx. apply in_or_app.
        destruct Hx as [Hx|Hx]; [now left|right].
        cbn [addrs Bool.eqb]. right.
        now replace (B + c + n) with (B + (c + n)) by lia.
      * unfold free_bps in Hx. rewrite (addrs_other false) in Hx. fold B in Hx.
        apply in_app_or in Hx. destruct Hx as [Hx|Hx];
          apply addrs_range in Hx; try assumption; unfold B in *; lia.
    + destruct (no_adj_parts _ _ _ Hadj) as [Hadj1 Hadj2].
      destruct (no_adj_parts [] _ _ Hadj2) as [_ Hadj3].
      apply no_adj_join; auto.
  - repeat split; cbn [mem_start_brk mem_max_addr heap_listp console mem_brk set_mem];
      congruence.
  - intros x. rewrite !in_app_iff. cbn [In]. split.
    + intros Hx. split; [tauto|]. intros ->. apply Hn1.
      now apply in_or_app.
    + intros [[Hx|[Hx|Hx]] Hne]; [now left|congruence|now right].
  - intros x Hx. cbn [mem set_mem]. rewrite retag_out by lia. apply F1.
    intros y Hy.
    destruct H1. apply ok_incl0 in Hy. rewrite Ah in Hy.
    unfold free_bps in Hy. rewrite addrs_app in Hy. fold B in Hy.
    apply in_app_or in Hy. destruct Hy as [Hy|Hy].
    + apply addrs_range in Hy; [|assumption]. unfold B in *. lia.
    + cbn [addrs Bool.eqb] in Hy. destruct Hy as [<-|Hy]; [lia|].
      apply addrs_range in Hy; [lia|assumption].
  - intros x Hx. cbn [mem set_mem].
    assert (Hok : Forall block_ok (l1 ++ (c + n, false) :: l3)).
    { apply Forall_app. split; [assumption|]. constructor; [|assumption].
      split; cbn [fst]; [lia|assumption]. }
    pose proof Hx as Hx'. apply in_used_merge in Hx'.
    pose proof (@in_used_mid l1 l3 (c + n) (heap_listp s) x Hok Hx') as Hout.
    fold B in Hout.
    rewrite retag_out by lia. apply F1. intros y Hy. pose proof Hy as Hy0.
    destruct H1. apply ok_incl0 in Hy. rewrite Ah in Hy.
    eapply used_free_sep; [|exact Hx'|].
    + exact Hok.
    + unfold free_bps in Hy. rewrite (addrs_other false) in Hy.
      rewrite addrs_app. apply in_app_or in Hy. apply in_or_app.
      destruct Hy as [Hy|Hy]; [now left|right].
      cbn [addrs Bool.eqb] in Hy |- *. right. destruct Hy as [Hy|Hy].
      * exfalso. apply Hn1. replace (B + c) with y by (unfold B; lia). exact Hy0.
      * now replace (heap_listp s + total l1 + (c + n))
          with (heap_listp s + total l1 + c + n) by lia.
Qed.

Lemma mm_realloc_ok (s : state) (bl : list block) (fl : list Z) (p size : Z) :
  heap_inv s bl fl -> In p (used_bps (heap_listp s) bl) ->
  0 < size <= 4294967296 - 16 ->
  exists r s' bl' fl',
    mm_realloc p size s = Ok r s' /\ heap_inv s' bl' fl' /\ grows s s' /\
    ((r = NULL /\ s' = s /\ bl' = bl /\ fl' = fl) \/
     (r <> NULL /\ (r = p \/ ~ In r (used_bps (heap_listp s) bl)) /\
      forall x, In x (used_bps (heap_listp s) bl') <->
                (In x (used_bps (heap_listp s) bl) /\ x <> p) \/ x = r)).
Proof.
  intros Hinv Hp Hsize. pose proof Hinv as [H Hall Hadj].
  destruct (addrs_split _ _ _ _ Hp) as (l1 & c & l2 & E & Ep).
  subst bl p. pose proof (blk_facts H) as K.
  destruct K as (K1 & K2 & Kc & Kc8 & KT1 & KT2 & Kb & Kcap & Klo & Kst & Kmax).
  set (B := heap_listp s + total l1) in *.
  assert (Hcopy : exists r s' bl' fl',
    realloc_copy B size c s = Ok r s' /\ heap_inv s' bl' fl' /\ grows s s' /\
    ((r = NULL /\ s' = s /\ bl' = l1 ++ (c, true) :: l2 /\ fl' = fl) \/
     (r <> NULL /\
      (r = B \/ ~ In r (used_bps (heap_listp s) (l1 ++ (c, true) :: l2))) /\
      forall x, In x (used_bps (heap_listp s) bl') <->
                (In x (used_bps (heap_listp s) (l1 ++ (c, true) :: l2)) /\ x <> B)
                \/ x = r))).
  { destruct (@realloc_copy_ok s _ fl B size c Hinv Hp Hsize)
      as (r & s' & bl' & fl' & R' & H' & G' & C'); try lia.
    exists r, s', bl', fl'. split; [exact R'|]. split; [exact H'|].
    split; [exact G'|].
    destruct C' as [C'|(C1 & C3 & C2)]; [now left|right].
    split; [assumption|]. split; [now right|assumption]. }
  unfold mm_realloc.
  assert (E0 : (size =? 0) = false) by (apply Z.eqb_neq; lia). rewrite E0.
  assert (E1 : (B =? NULL) = false) by (apply Z.eqb_neq; unfold NULL; lia).
  rewrite E1.
  erewrite bind_step by (exact (run_size H)).
  destruct (Z.ltb_spec (realloc_asize size) c) as [Hlt|Hge].
  - (* the request is smaller: shrink does nothing *)
    assert (Hshrink : shrink B (realloc_asize size) s = Ok tt s).
    { unfold shrink. erewrite bind_step by (exact (run_size H)).
      destruct (Z.ltb_spec c (realloc_asize size)); [lia|reflexivity]. }
    erewrite bind_step by (exact Hshrink). unfold ret.
    exists B, s, (l1 ++ (c, true) :: l2), fl.
    split; [reflexivity|]. split; [assumption|]. split; [apply grows_refl|].
    right. split; [unfold NULL; lia|]. split; [now left|]. intros x.
    destruct (Z.eq_dec x B) as [->|Hne]; tauto.
  - erewrite bind_step by (exact (run_NEXT H)).
    erewrite bind_step by (exact (run_next_alloc H)).
    destruct l2 as [|[n [|]] l3]; cbn [next_of hd snd flag Z.eqb]; try exact Hcopy.
    (* the right neighbour is free *)
    erewrite bind_step by (exact (run_NEXT H)).
    destruct (no_adj_parts _ _ _ Hadj) as [Hadj1 Hadj2].
    pose proof (no_adj_next_alloc [] l3 n Hadj2) as Hn3.
    destruct (no_adj_parts [] _ _ Hadj2) as [_ Hadj3].
    assert (EL : l1 ++ (c, true) :: (n, false) :: l3 =
                 (l1 ++ [(c, true)]) ++ [] ++ (n, false) :: [] ++ l3)
      by now rewrite <- app_assoc.
    pose proof H as H'. rewrite EL in H'.
    assert (EB : heap_listp s + total l1 + c =
                 heap_listp s + total (l1 ++ [(c, true)]) + total []).
    { rewrite total_app. cbn [total fst]. lia. }
    destruct (coalesce_inv H') as (s' & fl' & R' & _ & _ & N').
    { now rewrite <- EL. }
    { apply no_adj_app. split; [assumption|]. split; [exact I|]. now right. }
    { assumption. }
    { now rewrite prev_of_snoc. }
    { assumption. }
    { constructor. }
    { constructor. }
    destruct (N' eq_refl eq_refl) as [-> ->]. rewrite <- EB in R'.
    erewrite bind_step by (exact R').
    erewrite bind_step by (exact (run_NEXT H)).
    erewrite bind_step by (exact (run_next_size H)). cbn [next_of hd fst].
    erewrite bind_step by (exact (run_size H)).
    inversion K2 as [|? ? [Kn Kn8] K3]; subst. cbn [fst] in Kn, Kn8.
    cbn [total fst] in *. pose proof (total_nonneg K3) as KT3.
    rewrite wrap32_small by lia.
    destruct (Z.leb_spec size (n + c)) as [Hfit|Hno]; [|exact Hcopy].
    erewrite bind_step by (exact (run_NEXT H)).
    replace (n + c) with (c + n) by lia.
    change (PACK (c + n) 1) with (tag (c + n) true).
    destruct (@realloc_in_place_fr s l1 l3 c n fl Hinv)
      as (s1 & fl1 & R1 & H1 & A1 & _).
    exists B, s1, (l1 ++ (c + n, true) :: l3), fl1.
    split; [exact R1|]. split; [exact H1|]. split; [now apply same_arena_grows|].
    right. split; [unfold NULL; lia|]. split; [now left|].
    intros x. unfold used_bps.
    rewrite !(addrs_same true). fold B. cbn [addrs Bool.eqb].
    replace (B + (c + n)) with (B + c + n) by lia.
    rewrite !in_app_iff. cbn [In].
    destruct (Z.eq_dec x B) as [->|Hne]; [tauto|]. intuition.
Qed.

(** ** calloc *)

Lemma calloc_zero (s : state) (nmemb size : Z) :
  wrap64 (nmemb * size) = 0 -> calloc nmemb size s = Ok NULL s.
Proof. intros E. unfold calloc. rewrite E. reflexivity. Qed.

Lemma calloc_ok (s : state) (bl : list block) (fl : list Z) (nmemb size : Z) :
  heap_inv s bl fl -> 0 < wrap64 (nmemb * size) <= 4294967296 - 16 ->
  (exists r s' bl' fl',
     calloc nmemb size s = Ok r s' /\ heap_inv s' bl' fl' /\ grows s s' /\
     r <> NULL /\ ~ In r (used_bps (heap_listp s) bl) /\
     forall x, In x (used_bps (heap_listp s) bl') <->
               In x (used_bps (heap_listp s) bl) \/ x = r) \/
  (mm_malloc (wrap64 (nmemb * size)) s = Ok NULL s /\
   calloc nmemb size s = Fault).
Proof.
  intros Hinv Hsize. unfold calloc.
  set (bytes := wrap64 (nmemb * size)) in *.
  destruct (malloc_asize_range Hsize) as (Ha & Ha8 & Hap).
  destruct (mm_malloc_ok Hinv Hsize) as (r & s1 & bl1 & fl1 & R1 & H1 & G1 & C1).
  erewrite bind_step by (exact R1).
  destruct C1 as [(-> & -> & -> & ->)|(l1 & c & l2 & -> & -> & Hc & Hnew & U1)].
  - right. split; [assumption|]. unfold bind, memset.
    assert (E : (bytes =? 0) = false) by (apply Z.eqb_neq; lia). rewrite E.
    assert (E2 : in_arena s NULL bytes = false).
    { unfold in_arena, NULL. destruct Hinv as [H _ _]. destruct H.
      apply andb_false_intro1. apply Z.leb_gt. lia. }
    now rewrite E2.
  - left. destruct G1 as (G1 & G2 & G3 & G4 & G5).
    pose proof (blk_facts (inv_ok H1)) as K.
    destruct (@memset_ok s1 fl1 l1 l2 c 0 bytes (inv_ok H1)) as (s2 & R2 & H2 & A2);
      try lia.
    rewrite G3 in R2. erewrite bind_step by (exact R2). unfold ret.
    destruct A2 as (As & Ab & Am & Ah & Ac).
    exists (heap_listp s + total l1), s2, (l1 ++ (c, true) :: l2), fl1.
    split; [reflexivity|]. split; [eapply heap_inv_same; eauto|]. split.
    { unfold grows. repeat split; congruence || lia. }
    split; [unfold NULL; rewrite <- G3; lia|]. split; assumption.
Qed.

(** ** The heap checker on a well-formed heap *)

(** Two states that differ at most in what has been printed. *)
Definition same_heap (s s' : state) : Prop :=
  mem s' = mem s /\ mem_start_brk s' = mem_start_brk s /\
  mem_brk s' = mem_brk s /\ mem_max_addr s' = mem_max_addr s /\
  heap_listp s' = heap_listp s /\ dl_start s' = dl_start s /\
  dl_end s' = dl_end s.

Lemma same_heap_refl (s : state) : same_heap s s.
Proof. now repeat split. Qed.

Lemma same_heap_trans (s1 s2 s3 : state) :
  same_heap s1 s2 -> same_heap s2 s3 -> same_heap s1 s3.
Proof. unfold same_heap. intuition congruence. Qed.

Lemma same_heap_console (x : msg) (s : state) : same_heap s (add_console x s).
Proof. now repeat split. Qed.

Lemma heap_ok_same (s s' : state) (bl : list block) (fl : list Z) :
  same_heap s s' -> heap_ok s bl fl -> heap_ok s' bl fl.
Proof.
  intros (E1 & E2 & E3 & E4 & E5 & E6 & E7) H. destruct H.
  constructor; rewrite ?E1, ?E2, ?E3, ?E4, ?E5, ?E6, ?E7; assumption.
Qed.

Lemma heap_inv_same_heap (s s' : state) (bl : list block) (fl : list Z) :
  same_heap s s' -> heap_inv s bl fl -> heap_inv s' bl fl.
Proof.
  intros E [H Hall Hadj]. constructor; auto.
  - eapply heap_ok_same; eauto.
  - destruct E as (_ & _ & _ & _ & E & _). now rewrite E.
Qed.

Lemma total_mod8 (bl : list block) : Forall block_ok bl -> total bl mod 8 = 0.
Proof.
  induction 1 as [|b r [_ H8] _ IH]; [reflexivity|]. cbn [total].
  rewrite Z.add_mod by lia. rewrite H8, IH. reflexivity.
Qed.

Lemma aligned_true (p : Z) :
  0 <= p < 18446744073709551616 - 8 -> p mod 8 = 0 -> aligned p = true.
Proof.
  intros R H. unfold aligned, align.
  change (wrap64 (Z.lnot (8 - 1))) with MASK64.
  rewrite MASK64_land. unfold wrap64. rewrite Z.mod_mod by lia.
  replace (p + (8 - 1)) with (p + 7) by lia.
  rewrite Z.mod_small by lia. apply Z.eqb_eq.
  Z.div_mod_to_equations. lia.
Qed.

Lemma no_adj_prev_alloc (l1 l2 : list block) (c : Z) :
  no_adj (l1 ++ (c, false) :: l2) -> snd (prev_of l1) = true.
Proof.
  intros H. apply no_adj_app in H. destruct H as (_ & _ & [H|H]);
    [exact H|discriminate].
Qed.

(** What [mm_checkheap] prints in verbose mode: one line for each block. *)
Fixpoint block_lines (bp : Z) (bl : list block) : list msg :=
  match bl with
  | [] => []
  | (sz, a) :: r => BlockLine bp sz (flag a) sz (flag a) :: block_lines (bp + sz) r
  end.

Lemma in_heap_true (p : Z) (s : state) :
  mem_start_brk s <= p -> p <= mem_brk s - 1 -> in_heap p s = Ok true s.
Proof.
  intros H1 H2. unfold in_heap, mem_heap_hi, mem_heap_lo.
  rewrite !bind_gets. unfold ret.
  assert (E1 : (p <=? mem_brk s - 1) = true) by (apply Z.leb_le; lia).
  assert (E2 : (mem_start_brk s <=? p) = true) by (apply Z.leb_le; lia).
  now rewrite E1, E2.
Qed.

Lemma printblock_ok (s : state) (fl : list Z) (l1 l2 : list block) (sz : Z)
      (a : bool) :
  heap_ok s (l1 ++ (sz, a) :: l2) fl ->
  printblock (heap_listp s + total l1) s =
  Ok tt (add_console (BlockLine (heap_listp s + total l1) sz (flag a) sz (flag a)) s).
Proof.
  intros H. pose proof (blk_facts H) as K. unfold printblock.
  erewrite bind_step by (exact (run_size H)).
  erewrite bind_step by (exact (run_alloc H)).
  erewrite bind_step by (exact (run_FTRP H)).
  erewrite bind_step by (eapply GET_SIZE_ok; [| |exact (blk_ftr H)| |]; lia).
  erewrite bind_step by (exact (run_FTRP H)).
  erewrite bind_step by (eapply GET_ALLOC_ok; [| |exact (blk_ftr H)|]; lia).
  reflexivity.
Qed.

Lemma mm_checkblock_ok (s : state) (fl : list Z) (l1 l2 : list block) (sz : Z)
      (a : bool) :
  heap_inv s (l1 ++ (sz, a) :: l2) fl ->
  mm_checkblock (heap_listp s + total l1) s = Ok tt s.
Proof.
  intros [H Hall Hadj]. pose proof (blk_facts H) as K.
  destruct K as (K1 & K2 & Kc & Kc8 & KT1 & KT2 & Kb & Kcap & Klo & Kst & Kmax).
  pose proof (prev_facts H) as P. pose proof (next_facts H) as N.
  set (B := heap_listp s + total l1) in *.
  assert (B8 : B mod 8 = 0).
  { unfold B. destruct H. rewrite ok_listp0.
    pose proof (total_mod8 K1). clear - ok_align0 H.
    Z.div_mod_to_equations. lia. }
  subst B. unfold mm_checkblock.
  erewrite bind_step by (exact (run_size H)).
  assert (E1 : (sz <? 24) = false) by (apply Z.ltb_ge; lia).
  rewrite E1. cbn [when]. rewrite bind_ret.
  rewrite aligned_true by lia. cbn [negb when]. rewrite bind_ret.
  unfold HDRP, WSIZE.
  erewrite bind_step by (apply in_heap_true; lia). cbn [negb].
  rewrite bind_assoc.
  erewrite bind_step by (exact (run_FTRP H)).
  rewrite bind_assoc.
  erewrite bind_step by (apply in_heap_true; lia). rewrite bind_ret.
  cbn [negb when]. rewrite bind_ret.
  erewrite bind_step by (apply GET_ok; lia).
  erewrite bind_step by (exact (run_FTRP H)).
  erewrite bind_step by (apply GET_ok; lia).
  rewrite (blk_hdr H), (blk_ftr H), Z.eqb_refl. cbn [negb when]. rewrite bind_ret.
  pose proof (run_alloc H) as RA. unfold HDRP, WSIZE in RA.
  erewrite bind_step by (exact RA).
  destruct a; cbn [flag Z.eqb]; [reflexivity|].
  pose proof (no_adj_prev_alloc _ _ _ Hadj) as Hpa.
  pose proof (no_adj_next_alloc _ _ _ Hadj) as Hna.
  erewrite bind_step by (exact (run_PREV H)).
  erewrite bind_step by (apply in_heap_true; lia).
  cbv iota. rewrite bind_assoc.
  erewrite bind_step by (exact (run_PREV H)).
  pose proof (run_prev_alloc H) as RP. unfold HDRP, WSIZE in RP.
  rewrite bind_assoc.
  erewrite bind_step by (exact RP).
  rewrite Hpa. cbn [flag Z.eqb when]. rewrite bind_ret.
  erewrite bind_step by (exact (run_NEXT H)).
  erewrite bind_step by (apply in_heap_true; lia).
  cbv iota.
  erewrite bind_step by (exact (run_NEXT H)).
  pose proof (run_next_alloc H) as RN. unfold HDRP, WSIZE in RN.
  erewrite bind_step by (exact RN).
  rewrite Hna. reflexivity.
Qed.

Arguments printblock_ok {s fl l1 l2 sz a} _.
Arguments mm_checkblock_ok {s fl l1 l2 sz a} _.

Lemma check_blocks_ok (fl : list Z) (verbose : Z) (l2 : list block) :
  forall (l1 : list block) (s : state) (count : Z) (fuel : nat),
  heap_inv s (l1 ++ l2) fl -> (length l2 < fuel)%nat ->
  exists s',
    check_blocks fuel verbose (heap_listp s + total l1) count s =
      Ok (mem_brk s,
          count + Z.of_nat (length (free_bps (heap_listp s + total l1) l2))) s' /\
    same_heap s s' /\
    console s' = console s ++
      (if verbose =? 0 then [] else block_lines (heap_listp s + total l1) l2).
Proof.
  induction l2 as [|[sz a] r IH]; intros l1 s count fuel Hinv Hfuel;
    (destruct fuel as [|fuel']; [cbn in Hfuel; lia|]); cbn [check_blocks].
  - rewrite app_nil_r in Hinv. destruct Hinv as [H _ _]. destruct H.
    pose proof (total_nonneg ok_blocks0).
    erewrite bind_step by
      (unfold HDRP, WSIZE; eapply GET_SIZE_ok with (sz := 0) (a := true);
       [lia|lia|rewrite <- ok_brk0; exact ok_epi0|lia|reflexivity]).
    cbn [Z.ltb Z.compare]. unfold ret. exists s. split.
    + cbn. rewrite Z.add_0_r. now rewrite ok_brk0.
    + split; [apply same_heap_refl|]. cbn [block_lines].
      destruct (verbose =? 0); now rewrite app_nil_r.
  - pose proof Hinv as [H _ _]. pose proof (blk_facts H) as K.
    destruct K as (K1 & K2 & Kc & Kc8 & KT1 & KT2 & Kb & Kcap & Klo & Kst & Kmax).
    erewrite bind_step by (exact (run_size H)).
    assert (E0 : (0 <? sz) = true) by (apply Z.ltb_lt; lia). rewrite E0.
    set (B := heap_listp s + total l1) in *.
    set (line := BlockLine B sz (flag a) sz (flag a)).
    assert (Hs1 : exists s1,
      when (negb (verbose =? 0)) (printblock B) s = Ok tt s1 /\ same_heap s s1 /\
      console s1 = console s ++ (if verbose =? 0 then [] else [line])).
    { destruct (verbose =? 0); cbn [negb when].
      - exists s. split; [reflexivity|]. split; [apply same_heap_refl|].
        now rewrite app_nil_r.
      - exists (add_console line s). split; [now apply (printblock_ok H)|].
        split; [apply same_heap_console|reflexivity]. }
    destruct Hs1 as (s1 & R1 & S1 & C1).
    erewrite bind_step by (exact R1).
    pose proof (heap_inv_same_heap S1 Hinv) as Hinv1.
    pose proof Hinv1 as [H1 _ _].
    destruct S1 as (Em & Es & Eb & Ex & Eh & Eds & Ede).
    assert (EB : heap_listp s1 + total l1 = B) by (unfold B; now rewrite Eh).
    pose proof (mm_checkblock_ok Hinv1) as R2. rewrite EB in R2.
    erewrite bind_step by (exact R2).
    pose proof (run_alloc H1) as R3. rewrite EB in R3.
    erewrite bind_step by (exact R3).
    pose proof (run_NEXT H1) as R4. rewrite EB in R4.
    erewrite bind_step by (exact R4).
    assert (EL : l1 ++ (sz, a) :: r = (l1 ++ [(sz, a)]) ++ r)
      by now rewrite <- app_assoc.
    rewrite EL in Hinv1.
    assert (EB2 : heap_listp s1 + total (l1 ++ [(sz, a)]) = B + sz).
    { rewrite total_app. cbn [total fst]. lia. }
    destruct (IH (l1 ++ [(sz, a)]) s1
                 (if flag a =? 0 then count + 1 else count) fuel' Hinv1)
      as (s2 & R5 & S5 & C5); [cbn [length] in Hfuel; lia|].
    rewrite EB2 in R5, C5. exists s2. split; [|split].
    + rewrite R5. rewrite Eb. do 2 f_equal. unfold free_bps. cbn [addrs].
      destruct a; cbn [flag Z.eqb Bool.eqb length]; lia.
    + eapply same_heap_trans; [|exact S5]. repeat split; assumption.
    + rewrite C5, C1. cbn [block_lines]. fold line.
      destruct (verbose =? 0); rewrite <- app_assoc; reflexivity.
Qed.

Lemma dlseg_mid (m : memory) (f1 f2 : list Z) (x : Z) :
  dlseg m 0 (f1 ++ x :: f2) 0 ->
  load_le 8 m x = last f1 0 /\ load_le 8 m (x + 8) = hd 0 f2 /\
  (forall z l, f1 = l ++ [z] -> load_le 8 m (z + 8) = x) /\
  (forall y r, f2 = y :: r -> load_le 8 m y = x).
Proof.
  intros H. apply dlseg_app in H. cbn [hd dlseg] in H.
  destruct H as (H1 & Hp & Hn & H2). split; [assumption|]. split; [assumption|].
  split.
  - intros z l ->. apply dlseg_app in H1. cbn in H1. tauto.
  - intros y r ->. cbn in H2. tauto.
Qed.

Lemma check_list_ok (bl : list block) (f2 : list Z) :
  forall (f1 : list Z) (s : state) (count : Z) (fuel : nat),
  heap_ok s bl (f1 ++ f2) -> (length f2 < fuel)%nat ->
  check_list fuel (hd 0 f2) count s = Ok (count + Z.of_nat (length f2)) s.
Proof.
  induction f2 as [|x r IH]; intros f1 s count fuel H Hfuel;
    (destruct fuel as [|fuel']; [cbn in Hfuel; lia|]); cbn [check_list hd].
  - cbn. now rewrite Z.add_0_r.
  - assert (Hx : In x (f1 ++ x :: r)) by (apply in_or_app; right; now left).
    pose proof (node_facts H Hx) as Fx.
    assert (E0 : (x =? NULL) = false) by (apply Z.eqb_neq; unfold NULL; lia).
    rewrite E0. cbn [negb].
    pose proof H as H0. destruct H0.
    destruct (dlseg_mid _ _ _ _ ok_list0) as (Lp & Ln & Lz & Ly).
    unfold get_prev, get_next.
    erewrite bind_step by (apply load_ok; lia).
    rewrite Lp.
    assert (Hprev : forall (k : M Z),
      ((if negb (last f1 0 =? NULL)
        then p <- load 8 x ;; pn <- load 8 (p + 8) ;;
             when (negb (x =? pn)) (printf PrevPointerInconsistent)
        else ret tt) ;;; k) s = k s).
    { intros k. destruct (snoc_cases f1) as [->|(l & z & ->)].
      - reflexivity.
      - rewrite last_last in *.
        assert (Hz : In z ((l ++ [z]) ++ x :: r)).
        { apply in_or_app. left. apply in_or_app. right. now left. }
        pose proof (node_facts H Hz) as Fz.
        assert (Ez : (z =? NULL) = false) by (apply Z.eqb_neq; unfold NULL; lia).
        rewrite Ez. cbn [negb]. rewrite !bind_assoc.
        erewrite bind_step by (apply load_ok; lia). rewrite Lp.
        rewrite bind_assoc.
        erewrite bind_step by (apply load_ok; lia).
        rewrite (Lz z l eq_refl), Z.eqb_refl. reflexivity. }
    rewrite Hprev.
    erewrite bind_step by (apply load_ok; lia). rewrite Ln.
    assert (Hnext : forall (k : M Z),
      ((if negb (hd 0 r =? NULL)
        then n <- load 8 (x + 8) ;; np <- load 8 n ;;
             when (negb (x =? np)) (printf NextPointerInconsistent)
        else ret tt) ;;; k) s = k s).
    { intros k. destruct r as [|y r'].
      - reflexivity.
      - cbn [hd] in *.
        assert (Hy : In y (f1 ++ x :: y :: r')).
        { apply in_or_app. right. right. now left. }
        pose proof (node_facts H Hy) as Fy.
        assert (Ey : (y =? NULL) = false) by (apply Z.eqb_neq; unfold NULL; lia).
        rewrite Ey. cbn [negb]. rewrite !bind_assoc.
        erewrite bind_step by (apply load_ok; lia). rewrite Ln.
        rewrite bind_assoc.
        erewrite bind_step by (apply load_ok; lia).
        rewrite (Ly y r' eq_refl), Z.eqb_refl. reflexivity. }
    rewrite Hnext.
    erewrite bind_step by (apply in_heap_true; lia).
    cbn [negb when]. rewrite bind_ret.
    erewrite bind_step by (apply load_ok; lia). rewrite Ln.
    assert (EL : f1 ++ x :: r = (f1 ++ [x]) ++ r) by now rewrite <- app_assoc.
    rewrite EL in H. rewrite (IH (f1 ++ [x]) s (count + 1) fuel' H).
    + f_equal. cbn [length]. lia.
    + cbn [length] in Hfuel. lia.
Qed.

Lemma addrs_length (a : bool) (bl : list block) (bp : Z) :
  (length (addrs a bp bl) <= length bl)%nat.
Proof.
  revert bp. induction bl as [|[sz a'] r IH]; intros bp; cbn; [lia|].
  specialize (IH (bp + sz)). destruct (Bool.eqb a a'); cbn [length]; lia.
Qed.

Lemma free_list_length (s : state) (bl : list block) (fl : list Z) :
  heap_inv s bl fl -> length fl = length (free_bps (heap_listp s) bl).
Proof.
  intros [H Hall _]. destruct H. apply Nat.le_antisymm.
  - now apply NoDup_incl_length.
  - apply NoDup_incl_length; [|assumption]. now apply addrs_NoDup.
Qed.

(** On a heap that satisfies the invariant the checker finds nothing to
    report: it returns 0 and prints, in verbose mode, one line for each
    block. *)
Lemma mm_checkheap_ok (s : state) (bl : list block) (fl : list Z) (verbose : Z) :
  heap_inv s bl fl ->
  exists s',
    mm_checkheap verbose s = Ok 0 s' /\ same_heap s s' /\
    console s' = console s ++
      (if verbose =? 0 then [] else block_lines (heap_listp s) bl).
Proof.
  intros Hinv. pose proof Hinv as [H Hall Hadj]. pose proof H as H0. destruct H0.
  pose proof (total_nonneg ok_blocks0) as Ht.
  unfold mm_checkheap, mem_heap_lo. rewrite bind_gets. unfold HDRP, DSIZE, WSIZE.
  assert (Hph : load_le 4 (mem s) (8 + mem_start_brk s - 4) = tag 8 true).
  { rewrite <- ok_pro_hdr0. f_equal. lia. }
  erewrite bind_step by (eapply GET_SIZE_ok; [| |exact Hph| |]; lia || reflexivity).
  cbn [Z.eqb Pos.eqb negb]. rewrite bind_assoc.
  erewrite bind_step by (eapply GET_ALLOC_ok; [| |exact Hph|]; lia || reflexivity).
  rewrite bind_ret. cbn [Z.eqb when]. rewrite bind_ret.
  rewrite bind_gets. erewrite bind_step by (apply GET_ok; lia).
  rewrite bind_gets. erewrite bind_step by (apply GET_ok; lia).
  rewrite Z.eqb_refl. cbn [negb when]. rewrite bind_ret. rewrite bind_gets.
  assert (Hinv' : heap_inv s ([] ++ bl) fl) by exact Hinv.
  destruct (@check_blocks_ok fl verbose bl [] s 0 (fuel_of s) Hinv')
    as (s1 & R1 & S1 & C1).
  { pose proof (fuel_enough H). lia. }
  cbn [total] in R1, C1. rewrite Z.add_0_r in R1, C1.
  unfold bind at 1. rewrite R1. cbn [fst snd].
  pose proof (heap_inv_same_heap S1 Hinv) as Hinv1.
  pose proof Hinv1 as [H1 _ _].
  destruct S1 as (Em & Es & Eb & Ex & Eh & Eds & Ede).
  assert (Hep : load_le 4 (mem s1) (mem_brk s - 4) = tag 0 true).
  { rewrite Em. exact ok_epi0. }
  erewrite bind_step by (eapply GET_SIZE_ok; [| |exact Hep| |]; lia || reflexivity).
  cbn [Z.eqb negb]. rewrite bind_assoc.
  erewrite bind_step by (eapply GET_ALLOC_ok; [| |exact Hep|]; lia || reflexivity).
  rewrite bind_ret. cbn [Z.eqb when]. rewrite bind_ret.
  rewrite bind_gets.
  assert (H1' : heap_ok s1 bl ([] ++ fl)) by exact H1.
  pose proof (@check_list_ok bl fl [] s1 0 (fuel_of s1) H1') as R2.
  destruct H1 as [? ? ? ? ? ? ? ? ? ? ? ? ? D1 ? ? ?].
  rewrite <- D1 in R2.
  unfold bind at 1. rewrite R2.
  - rewrite (free_list_length Hinv), Z.add_0_l, Z.eqb_refl.
    cbn [negb when]. rewrite bind_ret. unfold ret.
    exists s1. split; [reflexivity|]. split; [repeat split; assumption|].
    exact C1.
  - pose proof (fuel_enough H) as Hf.
    pose proof (free_list_length Hinv) as Hl.
    pose proof (addrs_length false bl (heap_listp s)) as Hl2.
    unfold free_bps in Hl. unfold fuel_of in *. rewrite Ex, Es. lia.
Qed.

(** ** Programs that do not use [heap_listp]

    Only [mm_init] and [mm_checkheap] touch [heap_listp]; everything else
    runs the same whatever it holds, which is how [mm_init] can call
    [extend_heap] before it sets the variable. *)

Definition lift_listp (p : Z) {A : Type} (o : outcome A) : outcome A :=
  match o with
  | Ok a s => Ok a (set_heap_listp p s)
  | Fault => Fault
  | Diverge => Diverge
  | Exited c => Exited c
  end.

Definition listp_free {A : Type} (m : M A) : Prop :=
  forall p s, m (set_heap_listp p s) = lift_listp p (m s).

Lemma listp_free_ret {A : Type} (a : A) : listp_free (ret a).
Proof. intros p s. reflexivity. Qed.

Lemma listp_free_bind {A B : Type} (m : M A) (k : A -> M B) :
  listp_free m -> (forall a, listp_free (k a)) -> listp_free (bind m k).
Proof.
  intros Hm Hk p s. unfold bind. rewrite Hm.
  destruct (m s) as [a s1| | |]; cbn [lift_listp]; try reflexivity. apply Hk.
Qed.

Lemma listp_free_load (n : nat) (a : Z) : listp_free (load n a).
Proof. intros p s. unfold load, in_arena. cbn. now destruct (_ && _). Qed.

Lemma listp_free_store (n : nat) (a v : Z) : listp_free (store n a v).
Proof. intros p s. unfold store, in_arena. cbn. now destruct (_ && _). Qed.

Lemma listp_free_gets_dl_start : listp_free (gets dl_start).
Proof. intros p s. reflexivity. Qed.

Lemma listp_free_gets_dl_end : listp_free (gets dl_end).
Proof. intros p s. reflexivity. Qed.

Lemma listp_free_set_dl_start (v : Z) : listp_free (modify (set_dl_start v)).
Proof. intros p s. reflexivity. Qed.

Lemma listp_free_set_dl_end (v : Z) : listp_free (modify (set_dl_end v)).
Proof. intros p s. reflexivity. Qed.

Lemma listp_free_mem_sbrk (incr : Z) : listp_free (mem_sbrk incr).
Proof. intros p s. unfold mem_sbrk. cbn. now destruct (_ || _). Qed.

Lemma listp_free_diverge {A : Type} : listp_free (@diverge A).
Proof. intros p s. reflexivity. Qed.

Ltac listp_free_tac :=
  repeat first
    [ apply listp_free_ret
    | apply listp_free_load
    | apply listp_free_store
    | apply listp_free_gets_dl_start
    | apply listp_free_gets_dl_end
    | apply listp_free_set_dl_start
    | apply listp_free_set_dl_end
    | apply listp_free_mem_sbrk
    | apply listp_free_diverge
    | apply listp_free_bind; [|intros ?]
    | match goal with
      | |- listp_free (if ?b then _ else _) => destruct b
      end ].

Lemma listp_free_GET_SIZE (a : Z) : listp_free (GET_SIZE a).
Proof. unfold GET_SIZE, GET. listp_free_tac. Qed.

Lemma listp_free_GET_ALLOC (a : Z) : listp_free (GET_ALLOC a).
Proof. unfold GET_ALLOC, GET. listp_free_tac. Qed.

Lemma listp_free_add_freeblock (bp : Z) : listp_free (add_freeblock bp).
Proof. unfold add_freeblock, put_prev, put_next. listp_free_tac. Qed.

Lemma listp_free_remove_freeblock (bp : Z) : listp_free (remove_freeblock bp).
Proof.
  unfold remove_freeblock, put_prev, put_next, get_prev, get_next.
  listp_free_tac.
Qed.

Lemma listp_free_coalesce_rec (fuel : nat) :
  forall bp, listp_free (coalesce_rec fuel bp).
Proof.
  induction fuel as [|fuel IH]; intros bp; cbn [coalesce_rec].
  - apply listp_free_diverge.
  - unfold PREV_BLKP, NEXT_BLKP, FTRP, PUT.
    repeat first
      [ apply IH
      | apply listp_free_GET_SIZE
      | apply listp_free_GET_ALLOC
      | apply listp_free_remove_freeblock
      | apply listp_free_ret
      | apply listp_free_store
      | apply listp_free_bind; [|intros ?]
      | match goal with
        | |- listp_free (if ?b then _ else _) => destruct b
        end ].
Qed.

Lemma listp_free_coalesce (bp : Z) : listp_free (coalesce bp).
Proof. intros p s. unfold coalesce. apply listp_free_coalesce_rec. Qed.

Lemma listp_free_extend_heap (words : Z) : listp_free (extend_heap words).
Proof.
  unfold extend_heap, PREV_BLKP, NEXT_BLKP, FTRP, PUT.
  repeat first
    [ apply listp_free_GET_SIZE
    | apply listp_free_add_freeblock
    | apply listp_free_coalesce
    | apply listp_free_ret
    | apply listp_free_store
    | apply listp_free_mem_sbrk
    | apply listp_free_bind; [|intros ?]
    | match goal with
      | |- listp_free (if ?b then _ else _) => destruct b
      end ].
Qed.

(** ** mm_init *)

(** An arena on which nothing has been allocated yet, aligned, with room
    for the prologue, the epilogue and the first block, and small enough
    for block sizes to fit the 32-bit tags. *)
Definition fresh (s : state) : Prop :=
  mem_brk s = mem_start_brk s /\
  0 < mem_start_brk s /\ mem_start_brk s mod 8 = 0 /\
  mem_start_brk s + 40 <= mem_max_addr s /\
  mem_max_addr s - mem_start_brk s < 4294967296 /\
  mem_max_addr s <= 18446744073709551616.

Lemma block_ok_total_0 (L : list block) :
  Forall block_ok L -> total L <= 0 -> L = [].
Proof.
  intros H Ht. destruct L as [|b r]; [reflexivity|].
  pose proof (total_length H) as Hl. cbn [length] in Hl. lia.
Qed.

Ltac simpl_state :=
  cbn [set_mem set_brk set_heap_listp set_dl_start set_dl_end add_console
       mem mem_brk mem_start_brk mem_max_addr heap_listp dl_start dl_end console].

Lemma mm_init_ok (ndebug : bool) (s : state) :
  fresh s ->
  exists s' fl,
    mm_init ndebug s = Ok 0 s' /\ heap_inv s' [(24, false)] fl /\
    mem_start_brk s' = mem_start_brk s /\ mem_max_addr s' = mem_max_addr s /\
    console s' = console s.
Proof.
  intros (Eb & Hlo & Hal & Hroom & Hcap & Hmax).
  destruct s as [m lo brk mx hl ds de con].
  cbn [mem_brk mem_start_brk mem_max_addr console] in *. subst brk.
  unfold mm_init. rewrite !bind_modify.
  unfold mem_sbrk at 1. unfold bind at 1. simpl_state.
  unfold WSIZE, DSIZE, NULL.
  change (4 * 4) with 16.
  assert (E1 : (16 <? 0) || (mx <? lo + 16) = false).
  { apply orb_false_intro; apply Z.ltb_ge; lia. }
  rewrite E1. rewrite bind_modify. simpl_state.
  assert (E2 : (lo =? -1) = false) by (apply Z.eqb_neq; lia). rewrite E2.
  rewrite bind_gets. simpl_state.
  erewrite bind_step by (apply PUT_ok; cbn; lia).
  rewrite bind_gets. simpl_state.
  erewrite bind_step by (apply PUT_ok; cbn; lia).
  rewrite bind_gets. simpl_state.
  erewrite bind_step by (apply PUT_ok; cbn; lia).
  rewrite bind_gets. simpl_state.
  erewrite bind_step by (apply PUT_ok; cbn; lia).
  simpl_state.
  change (PACK 8 1) with 9. change (PACK 0 1) with 1.
  change (1 * 4) with 4. change (2 * 4) with 8. change (3 * 4) with 12.
  change (MINCHUNKSIZE / 4) with 6.
  set (m4 := store_le 4 (lo + 12) 1
               (store_le 4 (lo + 8) 9 (store_le 4 (lo + 4) 9 (store_le 4 lo 0 m)))).
  set (s4 := mkState m4 lo (lo + 16) mx (lo + 16) 0 0 con).
  match goal with
  | |- context [bind (extend_heap 6) _ ?st] =>
      change st with (set_heap_listp lo s4)
  end.
  assert (H4 : heap_inv s4 [] []).
  { constructor; [constructor| |exact I];
      cbn [s4 mem mem_brk mem_start_brk mem_max_addr heap_listp dl_start dl_end
           total tags dlseg hd last]; try lia; try exact I.
    - change (tag 8 true) with 9. unfold m4.
      rewrite !load_store_other by (cbn; lia).
      replace (lo + 16 - 12) with (lo + 4) by lia. now apply load4_store4.
    - change (tag 8 true) with 9. unfold m4.
      rewrite !load_store_other by (cbn; lia).
      replace (lo + 16 - 8) with (lo + 8) by lia. now apply load4_store4.
    - constructor.
    - change (tag 0 true) with 1. unfold m4.
      replace (lo + 16 - 4) with (lo + 12) by lia. now apply load4_store4.
    - constructor.
    - intros x [].
    - intros x []. }
  destruct (@extend_heap_ok s4 [] [] 6 H4)
    as (s5 & L & c & fl5 & R5 & H5 & C5 & U5 & G1 & G2 & G3 & G4 & G5);
    try (cbn [s4 mem_brk mem_max_addr]; lia); try reflexivity.
  cbn [s4 mem mem_brk mem_start_brk mem_max_addr heap_listp console] in *.
  assert (EL : L = []).
  { pose proof (blk_facts (inv_ok H5)) as K.
    destruct K as (K1 & _ & _ & _ & KT1 & _ & Kb & _).
    cbn [total] in Kb. apply block_ok_total_0; [assumption|]. lia. }
  subst L. cbn [total app] in *. rewrite Z.add_0_r in *.
  assert (Ec : c = 24).
  { pose proof (blk_facts (l1 := []) (inv_ok H5)) as K.
    destruct K as (_ & _ & _ & _ & _ & _ & Kb & _). cbn [total] in Kb. lia. }
  subst c.
  unfold bind at 1. rewrite (listp_free_extend_heap 6 lo s4). rewrite R5.
  cbn [lift_listp]. rewrite bind_modify.
  change (set_heap_listp (lo + 16) (set_heap_listp lo s5))
    with (set_heap_listp (lo + 16) s5).
  assert (S6 : same_heap s5 (set_heap_listp (lo + 16) s5)).
  { repeat split. cbn. now rewrite G3. }
  pose proof (heap_inv_same_heap S6 H5) as H6.
  assert (Hck : exists s7, checkheap ndebug 0 (set_heap_listp (lo + 16) s5) = Ok tt s7 /\
                           same_heap (set_heap_listp (lo + 16) s5) s7 /\
                           console s7 = console s5).
  { unfold checkheap. destruct ndebug.
    - eexists. split; [reflexivity|]. split; [apply same_heap_refl|reflexivity].
    - destruct (mm_checkheap_ok 0 H6) as (s7 & R7 & S7 & C7).
      erewrite bind_step by (exact R7). cbn [Z.eqb negb]. unfold ret.
      exists s7. split; [reflexivity|]. split; [assumption|].
      rewrite C7. cbn. now rewrite app_nil_r. }
  destruct Hck as (s7 & R7 & S7 & C7).
  erewrite bind_step by (exact R7). unfold ret.
  exists s7, fl5. split; [reflexivity|].
  split; [eapply heap_inv_same_heap; eauto|].
  destruct S7 as (_ & Es & _ & Ex & _). cbn in Es, Ex.
  repeat split; congruence.
Qed.

(** * Sessions: a client driving the public operations *)

(** Modelled from the spec: the caller's side of the interface.  A client
    keeps the pointers it was given in numbered slots and hands to
    [mm_free] and [mm_realloc] only what a slot holds, that is [NULL] or a
    pointer it got from the allocator and did not release since.  A slot is
    cleared by [Free] and by a [Realloc] of size 0; a failed [Realloc]
    leaves the slot with the block it had. *)
Inductive request : Type :=
| Malloc (id : nat) (size : Z)
| Free (id : nat)
| Realloc (id : nat) (size : Z)
| Calloc (id : nat) (nmemb size : Z).

Definition slots : Type := nat -> Z.

Definition no_slots : slots := fun _ => NULL.

Definition set_slot (t : slots) (id : nat) (p : Z) : slots :=
  fun j => if Nat.eqb j id then p else t j.

Definition serve (t : slots) (r : request) : M slots :=
  match r with
  | Malloc id size =>
      p <- mm_malloc size ;;
      ret (set_slot t id p)
  | Free id =>
      mm_free (t id) ;;;
      ret (set_slot t id NULL)
  | Realloc id size =>
      p <- mm_realloc (t id) size ;;
      ret (if (p =? NULL) && negb (size =? 0) then t else set_slot t id p)
  | Calloc id nmemb size =>
      p <- calloc nmemb size ;;
      ret (set_slot t id p)
  end.

Fixpoint run (t : slots) (rs : list request) : M slots :=
  match rs with
  | [] => ret t
  | r :: rs' => t' <- serve t r ;; run t' rs'
  end.

Definition session (ndebug : bool) (rs : list request) : M slots :=
  mm_init ndebug ;;; run no_slots rs.

(** Request sizes for which the 32-bit [extendsize] of [mm_malloc] holds the
    adjusted size. *)
Definition small (n : Z) : bool := (0 <=? n) && (n <=? 4294967296 - 16).

Definition request_ok (r : request) : bool :=
  match r with
  | Malloc _ size => small size
  | Free _ => true
  | Realloc _ size => small size
  | Calloc _ nmemb size => small (wrap64 (nmemb * size))
  end.

Definition is_calloc (r : request) : bool :=
  match r with Calloc _ _ _ => true | _ => false end.

(** ** Reading the block chain off the memory *)

Definition alloc_at (m : memory) (bp : Z) : Z :=
  Z.land (load_le 4 m (HDRP bp)) 1.

(** The block chain as the loop of [mm_checkheap] walks it: from
    [heap_listp], from a block at [bp] to [bp + size], up to a header of
    size 0.  An entry is the block pointer, the size and the allocated bit
    of the header. *)
Fixpoint chain (fuel : nat) (m : memory) (bp : Z) : list (Z * Z * Z) :=
  match fuel with
  | O => []
  | S f =>
      let sz := size_at m bp in
      if 0 <? sz then (bp, sz, alloc_at m bp) :: chain f m (bp + sz) else []
  end.

Definition block_chain (s : state) : list (Z * Z * Z) :=
  chain (fuel_of s) (mem s) (heap_listp s).

Fixpoint adjacent_free (l : list (Z * Z * Z)) : bool :=
  match l with
  | [] => false
  | (_, _, a) :: r =>
      match r with
      | [] => false
      | (_, _, b) :: _ => ((a =? 0) && (b =? 0)) || adjacent_free r
      end
  end.

Definition chain_end (bp : Z) (l : list (Z * Z * Z)) : Z :=
  fold_left (fun e x => e + snd (fst x)) l bp.

Fixpoint entries (bp : Z) (bl : list block) : list (Z * Z * Z) :=
  match bl with
  | [] => []
  | (sz, a) :: r => (bp, sz, flag a) :: entries (bp + sz) r
  end.

Lemma chain_entries (m : memory) (l2 : list block) :
  forall (bp : Z) (fuel : nat),
  Forall block_ok l2 -> total l2 < 4294967296 ->
  tags m bp l2 -> load_le 4 m (bp + total l2 - 4) = tag 0 true ->
  (length l2 < fuel)%nat ->
  chain fuel m bp = entries bp l2.
Proof.
  induction l2 as [|[sz a] r IH]; intros bp fuel Hok Hcap Ht He Hf.
  - destruct fuel as [|f]; [inversion Hf|].
    cbn [chain entries total] in *. unfold size_at, HDRP, WSIZE.
    replace (bp + 0 - 4) with (bp - 4) in He by lia. rewrite He.
    rewrite tag_size by (reflexivity || lia). reflexivity.
  - destruct fuel as [|f]; [inversion Hf|].
    inversion Hok as [|? ? [Hsz Hsz8] Hr]; subst. cbn [fst] in Hsz, Hsz8.
    pose proof (total_nonneg Hr) as Hr0.
    cbn [total fst] in Hcap, He. destruct Ht as (Hh & _ & Ht).
    cbn [chain entries]. unfold size_at, alloc_at, HDRP, WSIZE. rewrite Hh.
    rewrite tag_size by (assumption || lia). rewrite tag_alloc by assumption.
    destruct (Z.ltb_spec 0 sz) as [_|]; [|lia].
    fold (flag a). f_equal. apply IH; try assumption; try lia.
    + now replace (bp + sz + total r - 4) with (bp + (sz + total r) - 4) by lia.
    + cbn [length] in Hf. lia.
Qed.

Lemma block_chain_entries (s : state) (bl : list block) (fl : list Z) :
  heap_ok s bl fl -> block_chain s = entries (heap_listp s) bl.
Proof.
  intros H. pose proof (fuel_enough H) as Hf. destruct H. unfold block_chain.
  apply chain_entries; try assumption; try lia.
  now rewrite <- ok_brk0.
Qed.

Lemma adjacent_free_entries (bl : list block) : forall (bp : Z),
  no_adj bl -> adjacent_free (entries bp bl) = false.
Proof.
  induction bl as [|[sz a] r IH]; intros bp H; [reflexivity|].
  destruct r as [|[sz' a'] r']; [reflexivity|].
  destruct H as [Ha Hr]. specialize (IH (bp + sz) Hr).
  cbn [entries adjacent_free] in *. rewrite IH. rewrite orb_false_r.
  destruct Ha as [-> | ->]; cbn [flag Z.eqb andb]; [reflexivity|].
  apply andb_false_r.
Qed.

Lemma chain_end_entries (bl : list block) : forall (bp e : Z),
  fold_left (fun e x => e + snd (fst x)) (entries bp bl) e = e + total bl.
Proof.
  induction bl as [|[sz a] r IH]; intros bp e; cbn [entries fold_left total fst snd].
  - lia.
  - rewrite IH. lia.
Qed.

Lemma entries_aligned (bl : list block) : forall (bp : Z),
  Forall block_ok bl -> bp mod 8 = 0 ->
  Forall (fun x => fst (fst x) mod 8 = 0) (entries bp bl).
Proof.
  induction bl as [|[sz a] r IH]; intros bp H Hbp; cbn [entries]; constructor.
  - exact Hbp.
  - inversion H as [|? ? [_ H8] Hr]; subst. cbn [fst] in H8.
    apply IH; [assumption|]. rewrite Z.add_mod by lia. now rewrite Hbp, H8.
Qed.

Lemma entries_used (bl : list block) : forall (bp x : Z),
  In x (used_bps bp bl) -> exists sz, In (x, sz, 1) (entries bp bl).
Proof.
  unfold used_bps.
  induction bl as [|[sz a] r IH]; intros bp x H; cbn [addrs entries] in *.
  - destruct H.
  - destruct a; cbn [Bool.eqb] in H.
    + destruct H as [<-|H].
      * exists sz. now left.
      * destruct (IH _ _ H) as (sz' & H'). exists sz'. now right.
    + destruct (IH _ _ H) as (sz' & H'). exists sz'. now right.
Qed.

(** ** The invariant of a session *)

(** The slots hold distinct pointers, each one an allocated block of the
    heap. *)
Definition slots_ok (U : Z -> Prop) (t : slots) : Prop :=
  (forall i, t i <> NULL -> U (t i)) /\
  (forall i j, t i <> NULL -> t i = t j -> i = j).

Definition sess_inv (s : state) (t : slots) : Prop :=
  exists bl fl,
    heap_inv s bl fl /\
    slots_ok (fun x => In x (used_bps (heap_listp s) bl)) t.

Lemma slots_ok_clear (U U' : Z -> Prop) (t : slots) (id : nat) :
  slots_ok U t -> (forall x, U x -> x <> t id -> U' x) ->
  slots_ok U' (set_slot t id NULL).
Proof.
  intros [H1 H2] HU. split.
  - intros i Hi. unfold set_slot in *.
    destruct (Nat.eqb_spec i id) as [|Hne]; [congruence|].
    apply HU; [now apply H1|]. intros E. apply Hne. now apply H2.
  - intros i j Hi E. unfold set_slot in *.
    destruct (Nat.eqb_spec i id); [congruence|].
    destruct (Nat.eqb_spec j id); [congruence|]. now apply H2.
Qed.

Lemma slots_ok_put (U U' : Z -> Prop) (t : slots) (id : nat) (r : Z) :
  slots_ok U t -> r <> NULL -> U' r ->
  (forall x, U x -> x <> t id -> U' x) ->
  (forall j, j <> id -> t j <> NULL -> t j <> r) ->
  slots_ok U' (set_slot t id r).
Proof.
  intros [H1 H2] Hr Hin HU Hnew. split.
  - intros i Hi. unfold set_slot in *.
    destruct (Nat.eqb_spec i id) as [|Hne]; [assumption|].
    apply HU; [now apply H1|]. intros E. apply Hne. now apply H2.
  - intros i j Hi E. unfold set_slot in *.
    destruct (Nat.eqb_spec i id) as [->|Hi'];
      destruct (Nat.eqb_spec j id) as [->|Hj'].
    + reflexivity.
    + exfalso. apply (Hnew j); congruence.
    + exfalso. apply (Hnew i); congruence.
    + now apply H2.
Qed.

Lemma small_range (n : Z) :
  small n = true -> n = 0 \/ 0 < n <= 4294967296 - 16.
Proof.
  unfold small. intros H. apply andb_prop in H. destruct H as [H1 H2].
  apply Z.leb_le in H1. apply Z.leb_le in H2. lia.
Qed.

Lemma sess_clear (s : state) (t : slots) (id : nat) :
  sess_inv s t -> sess_inv s (set_slot t id NULL).
Proof.
  intros (bl & fl & H & Ht). exists bl, fl. split; [assumption|].
  eapply slots_ok_clear; [exact Ht|]. auto.
Qed.

Lemma sess_malloc (s : state) (t : slots) (id : nat) (size : Z) :
  sess_inv s t -> 0 < size <= 4294967296 - 16 ->
  exists r s',
    mm_malloc size s = Ok r s' /\ grows s s' /\
    ((r = NULL /\ s' = s) \/ (r <> NULL /\ sess_inv s' (set_slot t id r))).
Proof.
  intros (bl & fl & H & Ht) Hsize.
  destruct (mm_malloc_ok H Hsize) as (r & s1 & bl1 & fl1 & R1 & H1 & G1 & C1).
  exists r, s1. split; [assumption|]. split; [assumption|].
  destruct C1 as [(-> & -> & _)|(l1 & c & l2 & -> & Er & Hc & Hnew & U1)].
  - now left.
  - right. pose proof G1 as (G1' & G2 & G3 & G4 & G5).
    pose proof (blk_facts (inv_ok H1)) as K. rewrite G3 in K.
    assert (Hr : r <> NULL) by (unfold NULL; lia). split; [assumption|].
    exists (l1 ++ (c, true) :: l2), fl1. split; [assumption|]. rewrite G3.
    eapply slots_ok_put; [exact Ht|assumption| | |].
    + apply U1. now right.
    + intros x Hx _. apply U1. now left.
    + intros j _ Hj E. apply Hnew. rewrite <- E. now apply (proj1 Ht).
Qed.

Lemma sess_free (s : state) (t : slots) (id : nat) :
  sess_inv s t ->
  exists s',
    mm_free (t id) s = Ok tt s' /\ grows s s' /\
    sess_inv s' (set_slot t id NULL).
Proof.
  intros Hs. destruct (Z.eq_dec (t id) NULL) as [E|Hne].
  - exists s. rewrite E. split; [reflexivity|]. split; [apply grows_refl|].
    now apply sess_clear.
  - destruct Hs as (bl & fl & H & Ht).
    destruct (mm_free_ok H (proj1 Ht id Hne)) as (s' & bl' & fl' & R & H' & A & U).
    exists s'. split; [assumption|]. split; [now apply same_arena_grows|].
    exists bl', fl'. split; [assumption|].
    destruct A as (_ & _ & _ & Ah & _). rewrite Ah.
    eapply slots_ok_clear; [exact Ht|]. intros x Hx Hxp. apply U. now split.
Qed.

Lemma sess_realloc (s : state) (t : slots) (id : nat) (size : Z) :
  sess_inv s t -> 0 < size <= 4294967296 - 16 ->
  exists r s',
    mm_realloc (t id) size s = Ok r s' /\ grows s s' /\
    ((r = NULL /\ s' = s) \/ (r <> NULL /\ sess_inv s' (set_slot t id r))).
Proof.
  intros Hs Hsize. destruct (Z.eq_dec (t id) NULL) as [E|Hne].
  - rewrite E. unfold mm_realloc.
    assert (E0 : (size =? 0) = false) by (apply Z.eqb_neq; lia). rewrite E0.
    cbn [NULL Z.eqb]. now apply sess_malloc.
  - destruct Hs as (bl & fl & H & Ht).
    destruct (@mm_realloc_ok s bl fl (t id) size H (proj1 Ht id Hne) Hsize)
      as (r & s' & bl' & fl' & R & H' & G & C).
    exists r, s'. split; [assumption|]. split; [assumption|].
    destruct C as [(-> & -> & _)|(Hr & Hnew & U)]; [now left|right].
    split; [assumption|]. exists bl', fl'. split; [assumption|].
    destruct G as (_ & _ & Gh & _). rewrite Gh.
    eapply slots_ok_put; [exact Ht|assumption| | |].
    + apply U. now right.
    + intros x Hx Hxp. apply U. left. now split.
    + intros j Hj Hjn E. destruct Hnew as [Hp|Hnew].
      * apply Hj. apply (proj2 Ht); congruence.
      * apply Hnew. rewrite <- E. now apply (proj1 Ht).
Qed.

Lemma sess_calloc (s : state) (t : slots) (id : nat) (nmemb size : Z) :
  sess_inv s t -> small (wrap64 (nmemb * size)) = true ->
  (exists r s',
     calloc nmemb size s = Ok r s' /\ grows s s' /\
     sess_inv s' (set_slot t id r)) \/
  calloc nmemb size s = Fault.
Proof.
  intros Hs Hsize. destruct (small_range _ Hsize) as [E|Hpos].
  - left. exists NULL, s. split; [now apply calloc_zero|].
    split; [apply grows_refl|now apply sess_clear].
  - destruct Hs as (bl & fl & H & Ht).
    destruct (@calloc_ok s bl fl nmemb size H Hpos)
      as [(r & s' & bl' & fl' & R & H' & G & Hr & Hnew & U)|[_ R]];
      [left|now right].
    exists r, s'. split; [assumption|]. split; [assumption|].
    exists bl', fl'. split; [assumption|].
    destruct G as (_ & _ & Gh & _). rewrite Gh.
    eapply slots_ok_put; [exact Ht|assumption| | |].
    + apply U. now right.
    + intros x Hx _. apply U. now left.
    + intros j _ Hj E. apply Hnew. rewrite <- E. now apply (proj1 Ht).
Qed.

(** A request on a well-formed heap completes with a well-formed heap;
    only a [Calloc] can stop the machine, when its allocation fails. *)
Lemma serve_inv (s : state) (t : slots) (r : request) :
  sess_inv s t -> request_ok r = true ->
  match serve t r s with
  | Ok t' s' => sess_inv s' t' /\ grows s s'
  | Fault => is_calloc r = true
  | Diverge => False
  | Exited _ => False
  end.
Proof.
  intros Hs Hr. destruct r as [id size|id|id size|id nmemb size];
    cbn [serve request_ok is_calloc] in *.
  - destruct (small_range _ Hr) as [->|Hpos].
    + cbn. split; [now apply sess_clear|apply grows_refl].
    + destruct (@sess_malloc s t id size Hs Hpos) as (p & s' & R & G & C).
      erewrite bind_step by (exact R). unfold ret. split; [|assumption].
      destruct C as [(-> & ->)|(_ & C)]; [now apply sess_clear|assumption].
  - destruct (@sess_free s t id Hs) as (s' & R & G & C).
    erewrite bind_step by (exact R). unfold ret. now split.
  - destruct (small_range _ Hr) as [->|Hpos].
    + unfold mm_realloc. cbn [Z.eqb]. rewrite bind_assoc.
      destruct (@sess_free s t id Hs) as (s' & R & G & C).
      erewrite bind_step by (exact R). unfold bind, ret.
      cbn [NULL Z.eqb negb andb]. now split.
    + destruct (@sess_realloc s t id size Hs Hpos) as (p & s' & R & G & C).
      erewrite bind_step by (exact R). unfold ret.
      assert (E0 : (size =? 0) = false) by (apply Z.eqb_neq; lia). rewrite E0.
      cbn [negb]. rewrite andb_true_r. split; [|assumption].
      destruct C as [(-> & ->)|(Hp & C)].
      * cbn [NULL Z.eqb]. assumption.
      * apply Z.eqb_neq in Hp. now rewrite Hp.
  - destruct (@sess_calloc s t id nmemb size Hs Hr) as [(p & s' & R & G & C)|R].
    + erewrite bind_step by (exact R). unfold ret. now split.
    + unfold bind. now rewrite R.
Qed.

Lemma run_inv (rs : list request) : forall (s : state) (t : slots),
  sess_inv s t -> forallb request_ok rs = true ->
  match run t rs s with
  | Ok t' s' => sess_inv s' t' /\ grows s s'
  | Fault => existsb is_calloc rs = true
  | Diverge => False
  | Exited _ => False
  end.
Proof.
  induction rs as [|r rs IH]; intros s t Hs Hrs.
  - cbn. split; [assumption|apply grows_refl].
  - cbn [forallb] in Hrs. apply andb_prop in Hrs. destruct Hrs as [Hr Hrs].
    pose proof (@serve_inv s t r Hs Hr) as K. cbn [run existsb]. unfold bind.
    destruct (serve t r s) as [t1 s1| | |].
    + destruct K as [K G]. specialize (IH s1 t1 K Hrs).
      destruct (run t1 rs s1) as [t2 s2| | |]; try assumption.
      * destruct IH as [IH G']. split; [assumption|].
        eapply grows_trans; eassumption.
      * rewrite IH. apply orb_true_r.
    + now rewrite K.
    + assumption.
    + assumption.
Qed.

Lemma session_inv (ndebug : bool) (rs : list request) (s0 : state) :
  fresh s0 -> forallb request_ok rs = true ->
  match session ndebug rs s0 with
  | Ok t s => sess_inv s t /\ mem_start_brk s = mem_start_brk s0 /\
              mem_max_addr s = mem_max_addr s0
  | Fault => existsb is_calloc rs = true
  | Diverge => False
  | Exited _ => False
  end.
Proof.
  intros H0 Hrs. unfold session.
  destruct (@mm_init_ok ndebug s0 H0) as (s1 & fl & R & H1 & E1 & E2 & E3).
  erewrite bind_step by (exact R).
  assert (Hs : sess_inv s1 no_slots).
  { exists [(24, false)], fl. split; [assumption|].
    split; intros i; unfold no_slots; congruence. }
  pose proof (@run_inv rs s1 no_slots Hs Hrs) as K.
  destruct (run no_slots rs s1) as [t s| | |]; try assumption.
  destruct K as [K (G1 & G2 & _)]. split; [assumption|]. split; congruence.
Qed.

(** What the invariant of a session says about the block chain read off
    the memory. *)
Lemma sess_chain (s : state) (t : slots) :
  sess_inv s t ->
  adjacent_free (block_chain s) = false /\
  chain_end (heap_listp s) (block_chain s) = mem_brk s /\
  Forall (fun x => fst (fst x) mod 8 = 0) (block_chain s) /\
  (forall i, t i <> NULL -> exists sz, In (t i, sz, 1) (block_chain s)) /\
  (forall i, t i mod 8 = 0).
Proof.
  intros (bl & fl & H & Ht). pose proof H as [Hok Hall Hadj].
  rewrite (block_chain_entries Hok).
  assert (Hal : Forall (fun x => fst (fst x) mod 8 = 0)
                       (entries (heap_listp s) bl)).
  { destruct Hok. apply entries_aligned; [assumption|].
    rewrite ok_listp0. rewrite Z.add_mod by lia. now rewrite ok_align0. }
  assert (Hin : forall i, t i <> NULL ->
                  exists sz, In (t i, sz, 1) (entries (heap_listp s) bl)).
  { intros i Hi. apply entries_used. now apply (proj1 Ht). }
  split; [now apply adjacent_free_entries|].
  split; [unfold chain_end; rewrite chain_end_entries; now destruct Hok|].
  split; [assumption|]. split; [assumption|].
  intros i. destruct (Z.eq_dec (t i) NULL) as [E|Hne]; [now rewrite E|].
  destruct (Hin i Hne) as (sz & Hsz).
  rewrite Forall_forall in Hal. exact (Hal _ Hsz).
Qed.

Lemma fresh_arena_fresh (lo cap : Z) :
  0 < lo -> lo mod 8 = 0 -> 40 <= cap < 4294967296 ->
  lo + cap <= 18446744073709551616 ->
  fresh (fresh_arena lo cap).
Proof. intros H1 H2 H3 H4. unfold fresh, fresh_arena. cbn. repeat split; lia. Qed.

(** Sessions within the 32-bit range.  A client that starts with
    [mm_init] on an unused arena and then issues any sequence of
    [mm_malloc], [mm_free], [mm_realloc] and [calloc] calls, with pointers
    it holds and sizes up to 2^32 - 16, finds after the last completed
    call a block chain that runs from
    [heap_listp] to the end of the heap and in which no two neighbours
    are both free.  Every call completes, but for a [calloc] whose
    allocation fails, which stops the machine.  As the sequence is
    arbitrary, this holds after each call of it. *)
Theorem no_adjacent_free_blocks (ndebug : bool) (rs : list request) (s0 : state) :
  fresh s0 -> forallb request_ok rs = true ->
  match session ndebug rs s0 with
  | Ok t s =>
      adjacent_free (block_chain s) = false /\
      chain_end (heap_listp s) (block_chain s) = mem_brk s
  | Fault => existsb is_calloc rs = true
  | Diverge => False
  | Exited _ => False
  end.
Proof.
  intros H0 Hrs. pose proof (@session_inv ndebug rs s0 H0 Hrs) as K.
  destruct (session ndebug rs s0) as [t s| | |]; try assumption.
  destruct K as [K _]. destruct (sess_chain K) as (C1 & C2 & _). now split.
Qed.

(** A session on an arena of 64 KiB at address 4096. *)
Definition example_session : list request :=
  [Malloc 0 16; Malloc 1 100; Malloc 2 40; Free 1; Realloc 0 60;
   Calloc 3 4 10; Free 2; Free 0].

Lemma no_adjacent_free_blocks_witness :
  fresh (fresh_arena 4096 65536) /\
  forallb request_ok example_session = true /\
  match session false example_session (fresh_arena 4096 65536) with
  | Ok t s =>
      adjacent_free (block_chain s) = false /\
      chain_end (heap_listp s) (block_chain s) = mem_brk s
  | Fault => existsb is_calloc example_session = true
  | Diverge => False
  | Exited _ => False
  end.
Proof.
  assert (H : fresh (fresh_arena 4096 65536)).
  { apply fresh_arena_fresh; [lia|reflexivity|lia|lia]. }
  split; [exact H|]. split; [reflexivity|].
  apply (@no_adjacent_free_blocks false example_session _ H).
  reflexivity.
Defined.

(** The block chain at the end of the example session. *)
Lemma example_session_chain :
  option_map block_chain
    (state_of (session false example_session (fresh_arena 4096 65536))) =
  Some [(4112, 184, 0); (4296, 48, 1); (4344, 304, 0)].
Proof. vm_compute. reflexivity. Qed.

(** C1 on a failing input.  The adjusted size of a request above
    2^32 - 16 does not fit the [uint32_t extendsize] of [mm_malloc] nor the
    32-bit header word.  Here three blocks are allocated and released, a
    block of 72 bytes is allocated at 4112, and [mm_realloc] is asked to
    grow it to 2^32 + 16 bytes.  The [mm_malloc] inside it extends the heap
    by 24 bytes instead of 2^32 + 24 and hands out a block of 24 bytes at
    4184; the [memcpy] of 72 bytes then runs over the end of that block and
    writes old tags into the free block behind it.  The call completes and
    returns 4184; the chain read off the memory now has the free blocks at
    4208 and 4232 next to each other, and ends at 4280, before the end of
    the heap at 4672. *)
Theorem oversize_realloc_leaves_free_neighbours :
  let o := session false
             [Malloc 0 16; Malloc 1 16; Malloc 2 16; Free 1; Free 0; Free 2;
              Malloc 3 64; Realloc 3 (4294967296 + 16)]
             (fresh_arena 4096 65536) in
  option_map (fun t : slots => t 3%nat) (value_of o) = Some 4184 /\
  option_map block_chain (state_of o) =
    Some [(4112, 72, 0); (4184, 24, 1); (4208, 24, 0); (4232, 24, 0);
          (4256, 24, 1)] /\
  option_map (fun s => adjacent_free (block_chain s)) (state_of o) =
    Some true /\
  option_map (fun s => (chain_end (heap_listp s) (block_chain s), mem_brk s))
    (state_of o) = Some (4280, 4672).
Proof. vm_compute. repeat split. Qed.

(** The same session before the last call: the block of 72 bytes at 4112
    and one free block behind it. *)
Lemma oversize_realloc_before :
  let o := session false
             [Malloc 0 16; Malloc 1 16; Malloc 2 16; Free 1; Free 0; Free 2;
              Malloc 3 64]
             (fresh_arena 4096 65536) in
  option_map (fun t : slots => t 3%nat) (value_of o) = Some 4112 /\
  option_map block_chain (state_of o) = Some [(4112, 72, 1); (4184, 464, 0)].
Proof. vm_compute. repeat split. Qed.

(** Alignment within the 32-bit range.  After a session as above, every
    block pointer of the chain is a
    multiple of 8, the chain runs to the end of the heap, every pointer the
    client holds is a multiple of 8, and a further [mm_malloc] of a size up
    to 2^32 - 16 returns a multiple of 8 which, when it is not [NULL], is
    the pointer of an allocated block of the chain. *)
Theorem payloads_aligned (ndebug : bool) (rs : list request) (s0 : state)
        (size : Z) :
  fresh s0 -> forallb request_ok rs = true -> small size = true ->
  match session ndebug rs s0 with
  | Ok t s =>
      Forall (fun x => fst (fst x) mod 8 = 0) (block_chain s) /\
      chain_end (heap_listp s) (block_chain s) = mem_brk s /\
      (forall i, t i mod 8 = 0) /\
      exists r s',
        mm_malloc size s = Ok r s' /\ r mod 8 = 0 /\
        (r <> NULL -> exists sz, In (r, sz, 1) (block_chain s'))
  | Fault => existsb is_calloc rs = true
  | Diverge => False
  | Exited _ => False
  end.
Proof.
  intros H0 Hrs Hsize. pose proof (@session_inv ndebug rs s0 H0 Hrs) as K.
  destruct (session ndebug rs s0) as [t s| | |]; try assumption.
  destruct K as [K _]. destruct (sess_chain K) as (_ & C2 & C3 & _ & C5).
  split; [assumption|]. split; [assumption|]. split; [assumption|].
  destruct (small_range _ Hsize) as [->|Hpos].
  - exists NULL, s. split; [reflexivity|]. split; [reflexivity|]. congruence.
  - destruct (@sess_malloc s t 0%nat size K Hpos) as (r & s' & R & _ & C).
    exists r, s'. split; [assumption|].
    destruct C as [(-> & ->)|(Hr & C)]; [split; [reflexivity|congruence]|].
    destruct (sess_chain C) as (_ & _ & _ & D4 & D5).
    specialize (D4 0%nat). specialize (D5 0%nat).
    unfold set_slot in D4, D5. cbn [Nat.eqb] in D4, D5. split; assumption.
Qed.

Lemma payloads_aligned_witness :
  fresh (fresh_arena 4096 65536) /\
  forallb request_ok example_session = true /\ small 100 = true /\
  match session false example_session (fresh_arena 4096 65536) with
  | Ok t s =>
      Forall (fun x => fst (fst x) mod 8 = 0) (block_chain s) /\
      chain_end (heap_listp s) (block_chain s) = mem_brk s /\
      (forall i, t i mod 8 = 0) /\
      exists r s',
        mm_malloc 100 s = Ok r s' /\ r mod 8 = 0 /\
        (r <> NULL -> exists sz, In (r, sz, 1) (block_chain s'))
  | Fault => existsb is_calloc example_session = true
  | Diverge => False
  | Exited _ => False
  end.
Proof.
  assert (H : fresh (fresh_arena 4096 65536)).
  { apply fresh_arena_fresh; [lia|reflexivity|lia|lia]. }
  split; [exact H|]. split; [reflexivity|]. split; [reflexivity|].
  apply (@payloads_aligned false example_session _ 100 H); reflexivity.
Defined.

(** The bytes of an arena that is not cleared before use.  mm.c never
    writes to the part of the arena above the heap before it hands it out,
    and reads what it finds there when a block of fewer than 24 bytes puts
    its list fields over its own footer and the epilogue.  These are the
    values at nine places above 4648; all other bytes are 0. *)
Definition leftover_mem : memory :=
  store_le 8 4664 4652 (store_le 8 4672 8192 (store_le 4 12852 64
  (store_le 8 12856 4112 (store_le 8 12864 20001 (store_le 4 12916 1
  (store_le 4 19997 4096 (store_le 8 20009 4160 (store_le 4 24093 1
  (fun _ => 0))))))))).

Definition leftover_arena : state :=
  mkState leftover_mem 4096 4096 (4096 + 65536) 0 0 0 [].

Lemma leftover_arena_fresh : fresh leftover_arena.
Proof. unfold fresh, leftover_arena. cbn. repeat split; lia. Qed.

(** The heap of the session below before the large request: five blocks,
    the first and the third free, the list running from the first to the
    third, the last block allocated and ending at 4648. *)
Lemma leftover_session_before :
  let o := session false
             [Malloc 0 16; Malloc 1 16; Malloc 2 16; Malloc 3 16; Malloc 4 432;
              Free 0; Free 2] leftover_arena in
  option_map (fun s => (block_chain s, dl_start s, dl_end s, mem_brk s))
    (state_of o) =
    Some ([(4112, 24, 0); (4136, 24, 1); (4160, 24, 0); (4184, 24, 1);
           (4208, 440, 1)], 4112, 4160, 4648).
Proof. vm_compute. reflexivity. Qed.

(** C8 on a failing input.  [mm_malloc (2^32 + 8)] has the adjusted size
    2^32 + 16, of which the [uint32_t extendsize] keeps 16: [extend_heap]
    makes a free block of 16 bytes at 4648, and [add_freeblock] writes its
    [next] field over its footer and the epilogue.  [coalesce] now finds a
    free block of size 0 behind it and calls [remove_freeblock] on 4664,
    which is no list node: the pointers it follows are the bytes the arena
    happens to hold there.  With [leftover_mem] the two removals store
    8192 over the epilogue and 20001 into the [next] field of the list
    head 4112, and the call completes, returning 4648.  The next
    [mm_malloc 100] finds 4112 too small, follows its [next] field, reads
    the size 4096 before 20001, and returns 20001, which is no multiple of
    8. *)
Theorem oversize_malloc_misaligned :
  let o := session false
             [Malloc 0 16; Malloc 1 16; Malloc 2 16; Malloc 3 16; Malloc 4 432;
              Free 0; Free 2; Malloc 5 (4294967296 + 8); Malloc 6 100]
             leftover_arena in
  fresh leftover_arena /\
  malloc_asize (4294967296 + 8) = 4294967296 + 16 /\
  wrap32 (MAX (malloc_asize (4294967296 + 8)) (2 ^ 9)) = 16 /\
  option_map (fun t : slots => (t 5%nat, t 6%nat)) (value_of o) =
    Some (4648, 20001) /\
  20001 mod 8 = 1 /\ aligned 20001 = false.
Proof.
  split; [exact leftover_arena_fresh|]. vm_compute. repeat split.
Qed.

(** The pointers of the example session, in the order of the calls that
    return one. *)
Lemma example_session_pointers :
  value_of ((mm_init false ;;;
             a <- mm_malloc 16 ;; b <- mm_malloc 100 ;; c <- mm_malloc 40 ;;
             mm_free b ;;; a' <- mm_realloc a 60 ;; d <- calloc 4 10 ;;
             ret [a; b; c; a'; d]) (fresh_arena 4096 65536)) =
  Some [4112; 4136; 4248; 4112; 4296].
Proof. vm_compute. reflexivity. Qed.

(** ** Growing in place *)

(** [mm_realloc] on an allocated block with a free right neighbour, for a
    request that is not smaller than the block: what is left of the
    function after the reads of the headers. *)
Lemma mm_realloc_next_free (s : state) (l1 l3 : list block) (c n : Z)
      (fl : list Z) (size : Z) :
  heap_inv s (l1 ++ (c, true) :: (n, false) :: l3) fl ->
  size <> 0 -> c <= realloc_asize size ->
  mm_realloc (heap_listp s + total l1) size s =
  if size <=? c + n then
    (remove_freeblock (heap_listp s + total l1 + c) ;;;
     PUT (HDRP (heap_listp s + total l1)) (tag (c + n) true) ;;;
     ft <- FTRP (heap_listp s + total l1) ;;
     PUT ft (tag (c + n) true) ;;;
     ret (heap_listp s + total l1)) s
  else realloc_copy (heap_listp s + total l1) size c s.
Proof.
  intros Hinv Hsize Hge. pose proof Hinv as [H Hall Hadj].
  pose proof (blk_facts H) as K.
  destruct K as (K1 & K2 & Kc & Kc8 & KT1 & KT2 & Kb & Kcap & Klo & Kst & Kmax).
  set (B := heap_listp s + total l1) in *.
  unfold mm_realloc.
  assert (E0 : (size =? 0) = false) by (apply Z.eqb_neq; lia). rewrite E0.
  assert (E1 : (B =? NULL) = false) by (apply Z.eqb_neq; unfold NULL; lia).
  rewrite E1.
  erewrite bind_step by (exact (run_size H)).
  destruct (Z.ltb_spec (realloc_asize size) c) as [Hlt|_]; [lia|].
  erewrite bind_step by (exact (run_NEXT H)).
  erewrite bind_step by (exact (run_next_alloc H)).
  cbn [next_of hd snd flag Z.eqb].
  erewrite bind_step by (exact (run_NEXT H)).
  destruct (no_adj_parts _ _ _ Hadj) as [Hadj1 Hadj2].
  pose proof (no_adj_next_alloc [] l3 n Hadj2) as Hn3.
  destruct (no_adj_parts [] _ _ Hadj2) as [_ Hadj3].
  assert (EL : l1 ++ (c, true) :: (n, false) :: l3 =
               (l1 ++ [(c, true)]) ++ [] ++ (n, false) :: [] ++ l3)
    by now rewrite <- app_assoc.
  pose proof H as H'. rewrite EL in H'.
  assert (EB : heap_listp s + total l1 + c =
               heap_listp s + total (l1 ++ [(c, true)]) + total []).
  { rewrite total_app. cbn [total fst]. lia. }
  destruct (coalesce_inv H') as (s' & fl' & R' & _ & _ & N').
  { now rewrite <- EL. }
  { apply no_adj_app. split; [assumption|]. split; [exact I|]. now right. }
  { assumption. }
  { now rewrite prev_of_snoc. }
  { assumption. }
  { constructor. }
  { constructor. }
  destruct (N' eq_refl eq_refl) as [-> ->]. rewrite <- EB in R'.
  erewrite bind_step by (exact R').
  erewrite bind_step by (exact (run_NEXT H)).
  erewrite bind_step by (exact (run_next_size H)). cbn [next_of hd fst].
  erewrite bind_step by (exact (run_size H)).
  inversion K2 as [|? ? [Kn Kn8] K3]; subst. cbn [fst] in Kn, Kn8.
  cbn [total fst] in *. pose proof (total_nonneg K3) as KT3.
  rewrite wrap32_small by lia.
  replace (n + c) with (c + n) by lia.
  destruct (Z.leb_spec size (c + n)) as [Hfit|Hno]; [|reflexivity].
  erewrite bind_step by (exact (run_NEXT H)). reflexivity.
Qed.

(** Growth in place, as the code tests it.  Let [p] be an allocated block
    of [c] bytes whose right neighbour is a free block of [n] bytes, in a
    well-formed heap, and let the request be at least as large as the
    block ([realloc_asize size] is not below [c]).  When the merged size
    [c + n] is at least [size], [mm_realloc] returns [p]; the neighbour
    has left the free list, header and footer of [p] carry [c + n] and the
    allocated bit, and no byte of the old payload has changed.  When
    [c + n] is below [size], the call is the call of the copying path and
    its result is not [p]. *)
Theorem mm_realloc_grow_in_place (s : state) (l1 l3 : list block) (c n : Z)
        (fl : list Z) (size : Z) :
  heap_inv s (l1 ++ (c, true) :: (n, false) :: l3) fl ->
  0 < size <= 4294967296 - 16 ->
  c <= realloc_asize size ->
  exists r s' bl' fl',
    mm_realloc (heap_listp s + total l1) size s = Ok r s' /\
    heap_inv s' bl' fl' /\
    if size <=? c + n then
      r = heap_listp s + total l1 /\
      bl' = l1 ++ (c + n, true) :: l3 /\
      load_le 4 (mem s') (HDRP r) = tag (c + n) true /\
      load_le 4 (mem s') (r + (c + n) - DSIZE) = tag (c + n) true /\
      (forall x, r <= x < r + c - DSIZE -> mem s' x = mem s x) /\
      (forall x, In x fl' <-> In x fl /\ x <> r + c)
    else
      mm_realloc (heap_listp s + total l1) size s =
        realloc_copy (heap_listp s + total l1) size c s /\
      r <> heap_listp s + total l1.
Proof.
  intros Hinv Hsize Hge. pose proof Hinv as [H Hall Hadj].
  rewrite (@mm_realloc_next_free s l1 l3 c n fl size Hinv) by lia.
  pose proof (blk_facts H) as K.
  destruct K as (K1 & K2 & Kc & Kc8 & KT1 & KT2 & Kb & Kcap & Klo & Kst & Kmax).
  set (B := heap_listp s + total l1) in *.
  assert (Hp : In B (used_bps (heap_listp s) (l1 ++ (c, true) :: (n, false) :: l3))).
  { unfold used_bps. rewrite addrs_app. apply in_or_app. right. now left. }
  destruct (Z.leb_spec size (c + n)) as [Hfit|Hno].
  - inversion K2 as [|? ? [Kn Kn8] K3]; subst. cbn [fst] in Kn, Kn8.
    cbn [total fst] in *. pose proof (total_nonneg K3) as KT3.
    assert (HN : In (B + c) fl).
    { apply Hall. unfold free_bps. rewrite addrs_app. apply in_or_app. right.
      fold B. cbn. now left. }
    destruct (in_split _ _ HN) as (f1 & f2 & ->).
    destruct (remove_freeblock_ok H) as (s1 & R1 & H1 & A1 & F1).
    erewrite bind_step by (exact R1).
    destruct A1 as (As & Ab & Am & Ah & Ac).
    assert (E8 : (c + n) mod 8 = 0).
    { rewrite Z.add_mod by lia. rewrite Kc8, Kn8. reflexivity. }
    rewrite put_tags_bind by (assumption || lia). unfold ret.
    assert (Hn1 : ~ In (B + c) (f1 ++ f2)).
    { destruct H. now apply NoDup_remove_2 in ok_nodup0. }
    assert (Hn2 : ~ In B (f1 ++ f2)).
    { intros Hin. destruct H1. apply ok_incl0 in Hin. rewrite Ah in Hin.
      eapply addrs_disjoint; [exact ok_blocks0|exact Hp|exact Hin]. }
    pose proof (@join_ok s1 (f1 ++ f2) l1 l3 c n true true H1) as H2.
    rewrite Ah in H2. fold B in H2.
    specialize (H2 Hn1 ltac:(intros _; exact Hn2)).
    destruct (retag_tags B true (mem s1) (sz := c + n)) as [T1 T2];
      [lia|assumption|].
    eexists B, _, (l1 ++ (c + n, true) :: l3), (f1 ++ f2).
    split; [reflexivity|]. split; [|split; [reflexivity|split; [reflexivity|]]].
    + constructor.
      * exact H2.
      * cbn [heap_listp set_mem]. rewrite Ah. intros x Hx.
        apply in_remove_mid with (b := B + c).
        -- apply Hall. unfold free_bps in *.
           rewrite (addrs_other false) in Hx. rewrite (addrs_other false).
           fold B in Hx |- *. apply in_app_or in Hx. apply in_or_app.
           destruct Hx as [Hx|Hx]; [now left|right].
           cbn [addrs Bool.eqb]. right.
           now replace (B + c + n) with (B + (c + n)) by lia.
        -- unfold free_bps in Hx. rewrite (addrs_other false) in Hx. fold B in Hx.
           apply in_app_or in Hx. destruct Hx as [Hx|Hx];
             apply addrs_range in Hx; try assumption; unfold B in *; lia.
      * destruct (no_adj_parts _ _ _ Hadj) as [Hadj1 Hadj2].
        destruct (no_adj_parts [] _ _ Hadj2) as [_ Hadj3].
        apply no_adj_join; auto.
    + cbn [mem set_mem]. unfold HDRP, WSIZE, DSIZE.
      split; [exact T1|]. split; [exact T2|]. split.
      * intros x Hx. rewrite retag_out by lia. apply F1. intros y Hy.
        destruct H1. apply ok_incl0 in Hy. rewrite Ah in Hy.
        unfold free_bps in Hy. rewrite addrs_app in Hy. fold B in Hy.
        apply in_app_or in Hy. destruct Hy as [Hy|Hy].
        -- apply addrs_range in Hy; [|assumption]. unfold B in *. lia.
        -- cbn [addrs Bool.eqb] in Hy. destruct Hy as [<-|Hy]; [lia|].
           apply addrs_range in Hy; [lia|assumption].
      * intros x. rewrite !in_app_iff. cbn [In]. split.
        -- intros Hx. split; [tauto|]. intros ->. apply Hn1.
           now apply in_or_app.
        -- intros [[Hx|[Hx|Hx]] Hne]; [now left|congruence|now right].
  - destruct (@realloc_copy_ok s _ fl B size c Hinv Hp Hsize)
      as (r & s' & bl' & fl' & R' & H' & G' & C'); try lia.
    exists r, s', bl', fl'. split; [exact R'|]. split; [exact H'|].
    split; [reflexivity|].
    destruct C' as [(-> & _)|(_ & C3 & _)]; [unfold NULL; lia|congruence].
Qed.

(** The heap after [mm_init], [mm_malloc 16], [mm_malloc 100] and the
    release of the second block: an allocated block of 24 bytes at 4112
    and a free block of 512 bytes at 4136. *)
Definition grow_state : state :=
  match state_of ((mm_init false ;;; mm_malloc 16 ;;; mm_malloc 100 ;;;
                   mm_free 4136) (fresh_arena 4096 65536)) with
  | Some s => s
  | None => fresh_arena 4096 65536
  end.

Lemma grow_state_inv : heap_inv grow_state [(24, true); (512, false)] [4136].
Proof.
  constructor; [constructor| |].
  all: try (vm_compute; reflexivity).
  all: try (vm_compute; intuition discriminate).
  - repeat constructor; cbn; lia.
  - repeat constructor. intros [].
Qed.

Lemma mm_realloc_grow_in_place_witness :
  exists r s' bl' fl',
    mm_realloc (heap_listp grow_state + total []) 60 grow_state = Ok r s' /\
    heap_inv s' bl' fl' /\
    if 60 <=? 24 + 512 then
      r = heap_listp grow_state + total [] /\
      bl' = [] ++ (24 + 512, true) :: [] /\
      load_le 4 (mem s') (HDRP r) = tag (24 + 512) true /\
      load_le 4 (mem s') (r + (24 + 512) - DSIZE) = tag (24 + 512) true /\
      (forall x, r <= x < r + 24 - DSIZE -> mem s' x = mem grow_state x) /\
      (forall x, In x fl' <-> In x [4136] /\ x <> r + 24)
    else
      mm_realloc (heap_listp grow_state + total []) 60 grow_state =
        realloc_copy (heap_listp grow_state + total []) 60 24 grow_state /\
      r <> heap_listp grow_state + total [].
Proof.
  apply (@mm_realloc_grow_in_place grow_state [] [] 24 512 [4136] 60).
  - exact grow_state_inv.
  - lia.
  - vm_compute. discriminate.
Defined.

(** C3 on a failing input.  The test for growth in place, [new_size >=
    size], compares the merged block size, which counts the 8 bytes of
    header and footer, with the raw request, where every other path
    compares block sizes with the adjusted size.  Here the block of 24
    bytes at 4112 has a free right neighbour of 80 bytes, and the request
    of 104 bytes has the adjusted size 112.  The merged block of 104 bytes
    does not cover it, yet [mm_realloc] takes the path in place: it
    returns 4112 as a block of 104 bytes, which has 96 bytes of payload
    for a request of 104. *)
Theorem mm_realloc_in_place_uncovered :
  let before := (mm_init false ;;; mm_malloc 16 ;;; mm_malloc 72 ;;;
                 mm_malloc 1 ;;; mm_free 4136) (fresh_arena 4096 65536) in
  let after := (mm_init false ;;; mm_malloc 16 ;;; mm_malloc 72 ;;;
                mm_malloc 1 ;;; mm_free 4136 ;;; mm_realloc 4112 104)
                 (fresh_arena 4096 65536) in
  option_map block_chain (state_of before) =
    Some [(4112, 24, 1); (4136, 80, 0); (4216, 24, 1); (4240, 408, 0)] /\
  realloc_asize 104 = 112 /\ 24 + 80 < realloc_asize 104 /\
  value_of after = Some 4112 /\
  option_map block_chain (state_of after) =
    Some [(4112, 104, 1); (4216, 24, 1); (4240, 408, 0)] /\
  104 - DSIZE < 104.
Proof. vm_compute. repeat split. Qed.

(** The two outcomes on [grow_state]: a request of 60 bytes grows the block
    at 4112 in place, a request of 600 bytes moves it. *)
Lemma grow_state_examples :
  value_of (mm_realloc 4112 60 grow_state) = Some 4112 /\
  value_of (mm_realloc 4112 600 grow_state) = Some 4136.
Proof. vm_compute. split; reflexivity. Qed.

(** * The status of the checker *)

Definition no_exit {A : Type} (m : M A) : Prop :=
  forall s, match m s with Exited _ => False | _ => True end.

Definition returns_0 (m : M Z) : Prop :=
  forall s, match m s with Ok r _ => r = 0 | Exited _ => False | _ => True end.

Lemma no_exit_ret {A : Type} (a : A) : no_exit (ret a).
Proof. intros s. exact I. Qed.

Lemma no_exit_bind {A B : Type} (m : M A) (k : A -> M B) :
  no_exit m -> (forall a, no_exit (k a)) -> no_exit (bind m k).
Proof.
  intros Hm Hk s. unfold bind. specialize (Hm s).
  destruct (m s) as [a s1| | |]; try assumption. apply Hk.
Qed.

Lemma no_exit_load (n : nat) (a : Z) : no_exit (load n a).
Proof. intros s. unfold load. now destruct (in_arena _ _ _). Qed.

Lemma no_exit_gets {A : Type} (f : state -> A) : no_exit (gets f).
Proof. intros s. exact I. Qed.

Lemma no_exit_modify (f : state -> state) : no_exit (modify f).
Proof. intros s. exact I. Qed.

Lemma no_exit_diverge {A : Type} : no_exit (@diverge A).
Proof. intros s. exact I. Qed.

Ltac no_exit_tac :=
  repeat first
    [ apply no_exit_ret
    | apply no_exit_load
    | apply no_exit_gets
    | apply no_exit_modify
    | apply no_exit_diverge
    | apply no_exit_bind; [|intros ?]
    | match goal with
      | |- no_exit (if ?b then _ else _) => destruct b
      end ].

Lemma no_exit_printblock (bp : Z) : no_exit (printblock bp).
Proof.
  unfold printblock, FTRP, GET_SIZE, GET_ALLOC, GET, printf. no_exit_tac.
Qed.

Lemma no_exit_mm_checkblock (bp : Z) : no_exit (mm_checkblock bp).
Proof.
  unfold mm_checkblock, when, in_heap, mem_heap_hi, mem_heap_lo,
    PREV_BLKP, NEXT_BLKP, FTRP, GET_SIZE, GET_ALLOC, GET, printf.
  no_exit_tac.
Qed.

Lemma no_exit_check_blocks (fuel : nat) : forall (verbose bp count1 : Z),
  no_exit (check_blocks fuel verbose bp count1).
Proof.
  induction fuel as [|fuel IH]; intros verbose bp count1; cbn [check_blocks].
  - apply no_exit_diverge.
  - unfold when, NEXT_BLKP, GET_SIZE, GET_ALLOC, GET.
    repeat first
      [ apply IH
      | apply no_exit_printblock
      | apply no_exit_mm_checkblock
      | apply no_exit_ret
      | apply no_exit_load
      | apply no_exit_bind; [|intros ?]
      | match goal with
        | |- no_exit (if ?b then _ else _) => destruct b
        end ].
Qed.

Lemma no_exit_check_list (fuel : nat) : forall (bp count2 : Z),
  no_exit (check_list fuel bp count2).
Proof.
  induction fuel as [|fuel IH]; intros bp count2; cbn [check_list].
  - apply no_exit_diverge.
  - unfold when, in_heap, mem_heap_hi, mem_heap_lo, get_prev, get_next, printf.
    repeat first
      [ apply IH
      | apply no_exit_ret
      | apply no_exit_load
      | apply no_exit_gets
      | apply no_exit_modify
      | apply no_exit_bind; [|intros ?]
      | match goal with
        | |- no_exit (if ?b then _ else _) => destruct b
        end ].
Qed.

Lemma returns_0_bind {A : Type} (m : M A) (k : A -> M Z) :
  no_exit m -> (forall a, returns_0 (k a)) -> returns_0 (bind m k).
Proof.
  intros Hm Hk s. unfold bind. specialize (Hm s).
  destruct (m s) as [a s1| | |]; try assumption. apply Hk.
Qed.

Lemma returns_0_mm_checkheap (verbose : Z) : returns_0 (mm_checkheap verbose).
Proof.
  unfold mm_checkheap.
  repeat (apply returns_0_bind; [|intros ?]).
  all: try (intros s; reflexivity).
  all: unfold when, mem_heap_lo, GET_SIZE, GET_ALLOC, GET, printf.
  all: try (intros s; apply no_exit_check_blocks).
  all: try (intros s; apply no_exit_check_list).
  all: no_exit_tac.
Qed.

(** C9.  Whatever the heap and the verbosity, a call of [mm_checkheap]
    that returns, returns 0, and no call ends the program; so the
    [checkheap] macro, which exits on a status other than 0, never exits.
    On a well-formed heap the call does return. *)
Theorem mm_checkheap_returns_0 (verbose : Z) (s : state) :
  match mm_checkheap verbose s with
  | Ok r _ => r = 0
  | Exited _ => False
  | _ => True
  end /\
  (forall ndebug,
     match checkheap ndebug verbose s with
     | Exited _ => False
     | _ => True
     end) /\
  (forall bl fl, heap_inv s bl fl ->
     exists s', mm_checkheap verbose s = Ok 0 s' /\
                checkheap false verbose s = Ok tt s').
Proof.
  pose proof (returns_0_mm_checkheap verbose s) as K.
  split; [exact K|]. split.
  - intros [|]; unfold checkheap; [exact I|]. unfold bind.
    destruct (mm_checkheap verbose s) as [r s1| | |]; try exact I; try assumption.
    subst r. exact I.
  - intros bl fl H.
    destruct (@mm_checkheap_ok s bl fl verbose H) as (s' & R & _).
    exists s'. split; [assumption|]. unfold checkheap.
    erewrite bind_step by (exact R). reflexivity.
Qed.

(** A heap with a wrong header: the block at 4112 of [grow_state] claims 32
    bytes where its footer says 24. *)
Definition broken_state : state :=
  set_mem (store_le 4 (HDRP 4112) (tag 32 true) (mem grow_state)) grow_state.

(** The checker reports what it finds on [broken_state], and returns 0. *)
Lemma mm_checkheap_broken_state :
  value_of (mm_checkheap 0 broken_state) = Some 0 /\
  option_map console (state_of (mm_checkheap 0 broken_state)) =
    Some [HeaderFooterMismatch; BadEpilogueHeader; FreeCountMismatch] /\
  value_of (checkheap false 0 broken_state) = Some tt.
Proof. vm_compute. repeat split. Qed.

(** The heap after [mm_init] and [mm_malloc 16], 40 bytes long, with the
    header of its only block overwritten by a size of 1024 bytes. *)
Definition outside_state : state :=
  match state_of ((mm_init false ;;; mm_malloc 16) (fresh_arena 4096 65536)) with
  | Some s => set_mem (store_le 4 (HDRP 4112) 1024 (mem s)) s
  | None => fresh_arena 4096 65536
  end.

(** On [outside_state] the walk follows the header out of the heap: it
    reads the footer and the next header above [mem_brk], inside the
    arena.  The checker prints four diagnostics and returns 0, and the
    [checkheap] macro goes on. *)
Lemma mm_checkheap_outside_heap :
  mem_brk outside_state = 4136 /\
  value_of (mm_checkheap 0 outside_state) = Some 0 /\
  option_map console (state_of (mm_checkheap 0 outside_state)) =
    Some [OutsideHeap; HeaderFooterMismatch; BadEpilogueHeader;
          FreeCountMismatch] /\
  value_of (checkheap false 0 outside_state) = Some tt.
Proof. vm_compute. repeat split. Qed.

(** * reallocate with size 0 *)

(** C7.  [mm_realloc ptr 0] is [mm_free ptr] followed by returning the null
    pointer, for every pointer and every state: same final state, same
    fault or divergence, and result 0.  For the null pointer nothing
    changes.  For an allocated block of a well-formed heap both calls
    complete, in the same well-formed heap, from which the block is gone
    and in which no two neighbours of the chain are free. *)
Theorem mm_realloc_0_is_free (ptr : Z) (s : state) :
  mm_realloc ptr 0 s =
    match mm_free ptr s with
    | Ok _ s' => Ok 0 s'
    | Fault => Fault
    | Diverge => Diverge
    | Exited c => Exited c
    end /\
  mm_realloc NULL 0 s = Ok 0 s /\
  mm_free NULL s = Ok tt s /\
  (forall bl fl,
     heap_inv s bl fl -> In ptr (used_bps (heap_listp s) bl) ->
     exists s' bl' fl',
       mm_free ptr s = Ok tt s' /\ mm_realloc ptr 0 s = Ok 0 s' /\
       heap_inv s' bl' fl' /\
       adjacent_free (block_chain s') = false /\
       forall x, In x (used_bps (heap_listp s) bl') <->
                 In x (used_bps (heap_listp s) bl) /\ x <> ptr).
Proof.
  split; [reflexivity|]. split; [reflexivity|]. split; [reflexivity|].
  intros bl fl H Hp.
  destruct (@mm_free_ok s bl fl ptr H Hp) as (s' & bl' & fl' & R & H' & _ & U).
  exists s', bl', fl'. split; [assumption|]. split.
  - unfold mm_realloc. cbn [Z.eqb]. erewrite bind_step by (exact R). reflexivity.
  - split; [assumption|]. split; [|assumption].
    rewrite (block_chain_entries (inv_ok H')).
    apply adjacent_free_entries. now destruct H'.
Qed.

(** * First fit on a heap *)

(** The heap after [mm_init], three allocations and the release of the
    first block: the free list is the block of 352 bytes at 4296 followed
    by the block of 24 bytes at 4112. *)
Definition fit_state : state :=
  match state_of ((mm_init false ;;; mm_malloc 16 ;;; mm_malloc 100 ;;;
                   mm_malloc 40 ;;; mm_free 4112) (fresh_arena 4096 65536)) with
  | Some s => s
  | None => fresh_arena 4096 65536
  end.

Lemma find_fit_first_fit_witness :
  exists r,
    find_fit 24 fit_state = Ok r fit_state /\
    r = first_fit_spec (mem fit_state) 24 [4296; 4112] /\
    ((r = NULL /\
      forall x, In x [4296; 4112] -> size_at (mem fit_state) x < 24) \/
     (exists l1 l2,
        [4296; 4112] = l1 ++ r :: l2 /\ 24 <= size_at (mem fit_state) r /\
        forall x, In x l1 -> size_at (mem fit_state) x < 24)).
Proof.
  apply (@find_fit_first_fit fit_state [4296; 4112] 24).
  - reflexivity.
  - vm_compute. repeat split; discriminate.
  - intros x [<-|[<-|[]]]; vm_compute; split; discriminate.
Defined.

(** A request of 24 bytes gets the block of 352 bytes at the head of the
    list, not the block of 24 bytes behind it; a request of 400 bytes
    finds nothing. *)
Lemma fit_state_examples :
  size_at (mem fit_state) 4296 = 352 /\ size_at (mem fit_state) 4112 = 24 /\
  value_of (find_fit 24 fit_state) = Some 4296 /\
  value_of (find_fit 400 fit_state) = Some NULL.
Proof. vm_compute. repeat split. Qed.

(** * Further properties of mm.c *)

(** ** Macros and helper functions *)

Lemma PACK_flag (size : Z) (a : bool) :
  size mod 8 = 0 -> PACK size (flag a) = size + flag a.
Proof. intros H. exact (@tag_eq size a H). Qed.

(** X1.  A header word written with [PUT] and [PACK] reads back through
    [GET_SIZE] and [GET_ALLOC] as the size it was given, reduced modulo
    2^32, and the allocated bit: the word has 32 bits, so a size of 2^32
    bytes or more loses its upper part. *)
Theorem header_round_trip (s : state) (p size : Z) (a : bool) :
  in_arena s p 4 = true -> 0 <= size -> size mod 8 = 0 ->
  (PUT p (PACK size (flag a)) ;;;
   sz <- GET_SIZE p ;; al <- GET_ALLOC p ;; ret (sz, al)) s =
  Ok (wrap32 size, flag a)
     (set_mem (store_le 4 p (PACK size (flag a)) (mem s)) s).
Proof.
  intros Hin H0 H8.
  unfold PUT, GET_SIZE, GET_ALLOC, GET, store, load, bind, ret.
  assert (Hin' : forall m, in_arena (set_mem m s) p 4 = true)
    by (intros m; exact Hin).
  cbn [Z.of_nat Pos.of_succ_nat Pos.succ]. rewrite Hin, !Hin'.
  cbn [mem set_mem]. rewrite load_store_same. rewrite PACK_flag by assumption.
  change (256 ^ Z.of_nat 4) with 4294967296.
  rewrite MASK32_land, land_1, Z.mod_mod by lia. unfold wrap32.
  assert (E1 : 8 * ((size + flag a) mod 4294967296 / 8) = size mod 4294967296).
  { destruct a; cbn [flag]; Z.div_mod_to_equations; lia. }
  assert (E2 : ((size + flag a) mod 4294967296) mod 2 = flag a).
  { destruct a; cbn [flag]; Z.div_mod_to_equations; lia. }
  now rewrite E1, E2.
Qed.

Lemma header_round_trip_witness :
  (PUT 4108 (PACK 4294967344 (flag true)) ;;;
   sz <- GET_SIZE 4108 ;; al <- GET_ALLOC 4108 ;; ret (sz, al)) grow_state =
  Ok (wrap32 4294967344, flag true)
     (set_mem (store_le 4 4108 (PACK 4294967344 (flag true)) (mem grow_state))
              grow_state).
Proof.
  apply (@header_round_trip grow_state 4108 4294967344 true).
  - reflexivity.
  - lia.
  - reflexivity.
Defined.

Lemma ALIGN_facts (size : Z) :
  0 <= size < 18446744073709551616 ->
  ALIGN size mod 8 = 0 /\
  (size <= 18446744073709551616 - 8 -> size <= ALIGN size < size + 8) /\
  (18446744073709551616 - 8 < size -> ALIGN size = 0).
Proof.
  intros H. unfold ALIGN. rewrite MASK64_land. unfold wrap64, DSIZE.
  rewrite Z.mod_mod by lia. split; [|split].
  - rewrite Z.mul_comm. apply Z.mod_mul. lia.
  - intros Hs. Z.div_mod_to_equations. lia.
  - intros Hs. Z.div_mod_to_equations. lia.
Qed.

(** X2.  [ALIGN] rounds a size up to the next multiple of 8: the result is
    a multiple of 8, not below the size and less than 8 above it.  The sum
    is taken in [size_t]: for the seven sizes above 2^64 - 8 it wraps and
    the result is 0. *)
Theorem ALIGN_rounds_up (size : Z) :
  0 <= size < 18446744073709551616 ->
  ALIGN size mod 8 = 0 /\
  (size <= 18446744073709551616 - 8 -> size <= ALIGN size < size + 8) /\
  (18446744073709551616 - 8 < size -> ALIGN size = 0).
Proof.
  intros H. destruct (@ALIGN_facts size H) as (A8 & Alo & Ahi).
  split; [exact A8|]. split; [exact Alo|exact Ahi].
Qed.

Lemma ALIGN_rounds_up_witness :
  ALIGN 13 mod 8 = 0 /\
  (13 <= 18446744073709551616 - 8 -> 13 <= ALIGN 13 < 13 + 8) /\
  (18446744073709551616 - 8 < 13 -> ALIGN 13 = 0).
Proof. apply (@ALIGN_rounds_up 13). lia. Defined.

Lemma align_8 (p : Z) : align p 8 = ALIGN p.
Proof. reflexivity. Qed.

(** X3.  [aligned] accepts exactly the multiples of 8, for every pointer
    value of 64 bits. *)
Theorem aligned_iff (p : Z) :
  0 <= p < 18446744073709551616 -> (aligned p = true <-> p mod 8 = 0).
Proof.
  intros H. unfold aligned. rewrite align_8.
  destruct (@ALIGN_facts p H) as (A8 & Alo & Ahi).
  rewrite Z.eqb_eq. split.
  - intros E. now rewrite <- E.
  - intros H8. destruct (Z_le_gt_dec p (18446744073709551616 - 8)) as [Hle|Hgt].
    + specialize (Alo Hle). Z.div_mod_to_equations. lia.
    + Z.div_mod_to_equations. lia.
Qed.

Lemma aligned_iff_witness :
  (aligned 4112 = true <-> 4112 mod 8 = 0) /\
  (aligned 4116 = true <-> 4116 mod 8 = 0).
Proof.
  split; [apply (@aligned_iff 4112)|apply (@aligned_iff 4116)]; lia.
Defined.

(** ** The free list read off the memory *)

(** The free list as the loop of [find_fit] walks it, from [dl_start] along
    the [next] fields up to the null pointer, and the walk from [dl_end]
    along the [prev] fields. *)
Fixpoint list_from (fuel : nat) (m : memory) (p : Z) : list Z :=
  match fuel with
  | O => []
  | S f => if p =? NULL then [] else p :: list_from f m (load_le 8 m (p + 8))
  end.

Fixpoint list_back (fuel : nat) (m : memory) (p : Z) : list Z :=
  match fuel with
  | O => []
  | S f => if p =? NULL then [] else p :: list_back f m (load_le 8 m p)
  end.

Definition free_list (s : state) : list Z :=
  list_from (fuel_of s) (mem s) (dl_start s).

Definition free_list_back (s : state) : list Z :=
  list_back (fuel_of s) (mem s) (dl_end s).

Lemma list_from_nextseg (m : memory) (l : list Z) : forall (fuel : nat),
  nextseg m l -> (length l < fuel)%nat -> list_from fuel m (hd NULL l) = l.
Proof.
  induction l as [|x r IH]; intros fuel H Hf;
    (destruct fuel as [|f]; [inversion Hf|]).
  - reflexivity.
  - destruct H as (Hx & Hn & Hr). cbn [list_from hd].
    apply Z.eqb_neq in Hx. rewrite Hx. rewrite Hn. f_equal.
    apply IH; [assumption|]. cbn [length] in Hf. lia.
Qed.

Lemma list_back_dlseg (m : memory) (l : list Z) : forall (fuel : nat) (n : Z),
  dlseg m 0 l n -> (forall x, In x l -> x <> 0) ->
  (length l < fuel)%nat ->
  list_back fuel m (last l 0) = rev l.
Proof.
  induction l as [|x r IH] using rev_ind; intros fuel n H Hnz Hf;
    (destruct fuel as [|f]; [inversion Hf|]).
  - reflexivity.
  - rewrite last_snoc, rev_unit. cbn [list_back].
    assert (Hx : x <> 0) by (apply Hnz; apply in_or_app; right; now left).
    apply Z.eqb_neq in Hx. unfold NULL. rewrite Hx. f_equal.
    apply dlseg_app in H. destruct H as (H1 & H2).
    cbn [dlseg hd] in H1, H2. destruct H2 as (Hprev & _ & _).
    rewrite Hprev. rewrite length_app in Hf. cbn [length] in Hf.
    apply IH with (n := x).
    + exact H1.
    + intros z Hz. apply Hnz. apply in_or_app. now left.
    + lia.
Qed.

Lemma free_list_bound (s : state) (bl : list block) (fl : list Z) :
  heap_ok s bl fl -> (length fl < fuel_of s)%nat.
Proof.
  intros H. pose proof (fuel_enough H) as Hf. destruct H.
  pose proof (NoDup_incl_length ok_nodup0 ok_incl0) as Hl.
  pose proof (addrs_length false bl (heap_listp s)) as Ha.
  unfold free_bps in Hl. lia.
Qed.

Lemma free_list_heap (s : state) (bl : list block) (fl : list Z) :
  heap_ok s bl fl -> free_list s = fl /\ free_list_back s = rev fl.
Proof.
  intros H. pose proof (free_list_bound H) as Hf.
  assert (Hnz : forall x, In x fl -> x <> 0).
  { intros x Hx. pose proof (node_facts H Hx). lia. }
  unfold free_list, free_list_back. destruct H. split.
  - rewrite ok_dl_start0. apply list_from_nextseg; [|assumption].
    eapply dlseg_nextseg; eassumption.
  - rewrite ok_dl_end0. eapply list_back_dlseg; eassumption.
Qed.

(** X4.  [add_freeblock] puts a free block that is not yet on the list at
    its tail: the walk along the [next] fields finds the old list followed
    by the block, the walk back from [dl_end] starts with the block, the
    block chain is as it was, and no byte outside the first 16 bytes of
    the block and of the old nodes has changed. *)
Theorem add_freeblock_appends (s : state) (bl : list block) (fl : list Z)
        (bp : Z) :
  heap_ok s bl fl -> In bp (free_bps (heap_listp s) bl) -> ~ In bp fl ->
  exists s',
    add_freeblock bp s = Ok tt s' /\
    free_list s' = free_list s ++ [bp] /\
    free_list_back s' = bp :: free_list_back s /\
    dl_end s' = bp /\
    block_chain s' = block_chain s /\
    (forall x, (forall y, In y (bp :: free_list s) -> x < y \/ y + 16 <= x) ->
               mem s' x = mem s x).
Proof.
  intros H Hin Hnew.
  destruct (@add_freeblock_ok s bl fl bp H Hin Hnew) as (s' & R & H' & A & F).
  destruct (free_list_heap H) as [E1 E2].
  destruct (free_list_heap H') as [E1' E2'].
  exists s'. split; [exact R|]. rewrite E1, E2, E1', E2'.
  split; [reflexivity|]. split; [now rewrite rev_unit|]. split.
  - destruct H'. rewrite ok_dl_end0. apply last_snoc.
  - split; [|exact F].
    rewrite (block_chain_entries H), (block_chain_entries H').
    destruct A as (_ & _ & _ & Ah & _). now rewrite Ah.
Qed.

(** X5.  [remove_freeblock] takes one node out of the free list, wherever
    it stands: the walk along the [next] fields finds the other nodes in
    the order they had, the walk back along the [prev] fields finds them
    in the reverse order, and the block chain is as it was. *)
Theorem remove_freeblock_unlinks (s : state) (bl : list block) (fl : list Z)
        (fb : Z) :
  heap_ok s bl fl -> In fb fl ->
  exists s',
    remove_freeblock fb s = Ok tt s' /\
    free_list s' = remove Z.eq_dec fb (free_list s) /\
    free_list_back s' = rev (free_list s') /\
    ~ In fb (free_list s') /\
    block_chain s' = block_chain s.
Proof.
  intros H Hin. destruct (in_split _ _ Hin) as (l1 & l2 & ->).
  destruct (@remove_freeblock_ok s bl l1 l2 fb H) as (s' & R & H' & A & _).
  destruct (free_list_heap H) as [E1 _].
  destruct (free_list_heap H') as [E1' E2'].
  exists s'. split; [exact R|]. rewrite E1, E1', E2'.
  assert (Hnd : NoDup (l1 ++ fb :: l2)) by now destruct H.
  split; [now rewrite remove_mid|]. split; [reflexivity|]. split.
  - now apply NoDup_remove_2 in Hnd.
  - rewrite (block_chain_entries H), (block_chain_entries H').
    destruct A as (_ & _ & _ & Ah & _). now rewrite Ah.
Qed.

(** X6.  [remove_freeblock] undoes [add_freeblock]: after the two calls on
    a free block that was not on the list, [dl_start], [dl_end] and the
    list are what they were, and no byte outside the first 16 bytes of the
    block and of the nodes has changed. *)
Theorem remove_after_add (s : state) (bl : list block) (fl : list Z) (bp : Z) :
  heap_ok s bl fl -> In bp (free_bps (heap_listp s) bl) -> ~ In bp fl ->
  exists s',
    (add_freeblock bp ;;; remove_freeblock bp) s = Ok tt s' /\
    free_list s' = free_list s /\
    free_list_back s' = free_list_back s /\
    dl_start s' = dl_start s /\ dl_end s' = dl_end s /\
    (forall x, (forall y, In y (bp :: free_list s) -> x < y \/ y + 16 <= x) ->
               mem s' x = mem s x).
Proof.
  intros H Hin Hnew.
  destruct (@add_freeblock_ok s bl fl bp H Hin Hnew) as (s1 & R1 & H1 & A1 & F1).
  destruct (@remove_freeblock_ok s1 bl fl [] bp H1) as (s2 & R2 & H2 & A2 & F2).
  rewrite app_nil_r in H2, F2.
  destruct (free_list_heap H) as [E1 E2].
  destruct (free_list_heap H2) as [E1' E2'].
  exists s2. split.
  - erewrite bind_step by (exact R1). exact R2.
  - rewrite E1, E2, E1', E2'. split; [reflexivity|]. split; [reflexivity|].
    destruct H, H2. split; [congruence|]. split; [congruence|].
    intros x Hx. rewrite F2, F1; [reflexivity|exact Hx|].
    intros y Hy. apply Hx. now right.
Qed.

Ltac concrete_heap :=
  repeat match goal with
         | |- heap_inv _ _ _ => constructor
         | |- heap_ok _ _ _ => constructor
         end;
  try (vm_compute; reflexivity);
  try (vm_compute; intuition discriminate);
  try (repeat constructor; cbn; lia);
  try (repeat constructor; cbn; intuition discriminate).

(** [fit_state]: blocks of 24, 112, 48 and 352 bytes from 4112, the first
    and the last of them free. *)
Lemma fit_state_inv :
  heap_inv fit_state [(24, false); (112, true); (48, true); (352, false)]
           [4296; 4112].
Proof. concrete_heap. Qed.

(** [fit_state] with the block at 4112 taken off the free list. *)
Definition unlinked_state : state :=
  match state_of (remove_freeblock 4112 fit_state) with
  | Some s => s
  | None => fit_state
  end.

Lemma unlinked_state_ok :
  heap_ok unlinked_state [(24, false); (112, true); (48, true); (352, false)]
          [4296].
Proof. concrete_heap. Qed.

Lemma add_freeblock_appends_witness :
  exists s',
    add_freeblock 4112 unlinked_state = Ok tt s' /\
    free_list s' = free_list unlinked_state ++ [4112] /\
    free_list_back s' = 4112 :: free_list_back unlinked_state /\
    dl_end s' = 4112 /\
    block_chain s' = block_chain unlinked_state /\
    (forall x,
       (forall y, In y (4112 :: free_list unlinked_state) ->
                  x < y \/ y + 16 <= x) ->
       mem s' x = mem unlinked_state x).
Proof.
  apply (@add_freeblock_appends unlinked_state
           [(24, false); (112, true); (48, true); (352, false)] [4296] 4112).
  - exact unlinked_state_ok.
  - vm_compute. now left.
  - intros [H|[]]. discriminate.
Defined.

Lemma remove_freeblock_unlinks_witness :
  exists s',
    remove_freeblock 4296 fit_state = Ok tt s' /\
    free_list s' = remove Z.eq_dec 4296 (free_list fit_state) /\
    free_list_back s' = rev (free_list s') /\
    ~ In 4296 (free_list s') /\
    block_chain s' = block_chain fit_state.
Proof.
  apply (@remove_freeblock_unlinks fit_state
           [(24, false); (112, true); (48, true); (352, false)] [4296; 4112] 4296).
  - exact (inv_ok fit_state_inv).
  - now left.
Defined.

Lemma remove_after_add_witness :
  exists s',
    (add_freeblock 4112 ;;; remove_freeblock 4112) unlinked_state = Ok tt s' /\
    free_list s' = free_list unlinked_state /\
    free_list_back s' = free_list_back unlinked_state /\
    dl_start s' = dl_start unlinked_state /\
    dl_end s' = dl_end unlinked_state /\
    (forall x,
       (forall y, In y (4112 :: free_list unlinked_state) ->
                  x < y \/ y + 16 <= x) ->
       mem s' x = mem unlinked_state x).
Proof.
  apply (@remove_after_add unlinked_state
           [(24, false); (112, true); (48, true); (352, false)] [4296] 4112).
  - exact unlinked_state_ok.
  - vm_compute. now left.
  - intros [H|[]]. discriminate.
Defined.

(** The lists of the two states, as the walks read them. *)
Lemma free_list_examples :
  free_list fit_state = [4296; 4112] /\
  free_list_back fit_state = [4112; 4296] /\
  free_list unlinked_state = [4296] /\
  option_map free_list (state_of (add_freeblock 4112 unlinked_state)) =
    Some [4296; 4112].
Proof. vm_compute. repeat split. Qed.

(** ** Coalescing, placing and growing, on the block chain *)

Lemma entries_used_iff (bl : list block) : forall (bp x : Z),
  In x (used_bps bp bl) <-> exists sz, In (x, sz, 1) (entries bp bl).
Proof.
  unfold used_bps.
  induction bl as [|[sz a] r IH]; intros bp x; cbn [addrs entries].
  - split; [intros []|intros (sz & [])].
  - destruct a; cbn [Bool.eqb flag In]; rewrite IH.
    + split.
      * intros [<-|(sz' & H)]; [exists sz; now left|exists sz'; now right].
      * intros (sz' & [E|H]); [left; congruence|right; now exists sz'].
    + split.
      * intros (sz' & H). exists sz'. now right.
      * intros (sz' & [E|H]); [discriminate|now exists sz'].
Qed.

Lemma entries_free_iff (bl : list block) : forall (bp x : Z),
  In x (free_bps bp bl) <-> exists sz, In (x, sz, 0) (entries bp bl).
Proof.
  unfold free_bps.
  induction bl as [|[sz a] r IH]; intros bp x; cbn [addrs entries].
  - split; [intros []|intros (sz & [])].
  - destruct a; cbn [Bool.eqb flag In]; rewrite IH.
    + split.
      * intros (sz' & H). exists sz'. now right.
      * intros (sz' & [E|H]); [discriminate|now exists sz'].
    + split.
      * intros [<-|(sz' & H)]; [exists sz; now left|exists sz'; now right].
      * intros (sz' & [E|H]); [left; congruence|right; now exists sz'].
Qed.

Lemma entries_in_used (bl : list block) : forall (bp q sz x : Z),
  In (q, sz, 1) (entries bp bl) -> q - 4 <= x < q + sz - 4 -> in_used bp bl x.
Proof.
  induction bl as [|[c a] r IH]; intros bp q sz x H Hx; cbn [entries in_used] in *.
  - destruct H.
  - destruct H as [E|H].
    + inversion E; subst. left. split; [now destruct a|assumption].
    + right. eapply IH; eauto.
Qed.

Lemma entries_range (bl : list block) : forall (bp q sz a : Z),
  Forall block_ok bl -> In (q, sz, a) (entries bp bl) ->
  bp <= q /\ q + sz <= bp + total bl /\ 24 <= sz /\ sz mod 8 = 0.
Proof.
  induction bl as [|[c b] r IH]; intros bp q sz a Hok H; cbn [entries total fst] in *.
  - destruct H.
  - inversion Hok as [|? ? [Hc Hc8] Hr]; subst. cbn [fst] in Hc, Hc8.
    pose proof (total_nonneg Hr). destruct H as [E|H].
    + inversion E; subst. lia.
    + apply IH in H; [lia|assumption].
Qed.

(** Two blocks of a chain at different addresses do not overlap. *)
Lemma entries_sep (bl : list block) : forall (bp x sx ax y sy ay : Z),
  Forall block_ok bl ->
  In (x, sx, ax) (entries bp bl) -> In (y, sy, ay) (entries bp bl) -> x <> y ->
  x + sx <= y \/ y + sy <= x.
Proof.
  induction bl as [|[c b] r IH]; intros bp x sx ax y sy ay Hok Hx Hy Hne;
    cbn [entries] in *; [destruct Hx|].
  inversion Hok as [|? ? [Hc Hc8] Hr]; subst. cbn [fst] in Hc, Hc8.
  destruct Hx as [Ex|Hx]; destruct Hy as [Ey|Hy].
  - inversion Ex; inversion Ey; subst. contradiction.
  - inversion Ex; subst. apply entries_range in Hy; [lia|assumption].
  - inversion Ey; subst. apply entries_range in Hx; [lia|assumption].
  - eapply IH; eauto.
Qed.

(** An address is the pointer of at most one block of a chain. *)
Lemma entries_fun (bl : list block) : forall (bp x sx ax sy ay : Z),
  Forall block_ok bl ->
  In (x, sx, ax) (entries bp bl) -> In (x, sy, ay) (entries bp bl) ->
  sx = sy /\ ax = ay.
Proof.
  induction bl as [|[c b] r IH]; intros bp x sx ax sy ay Hok Hx Hy;
    cbn [entries] in *; [destruct Hx|].
  inversion Hok as [|? ? [Hc Hc8] Hr]; subst. cbn [fst] in Hc, Hc8.
  destruct Hx as [Ex|Hx]; destruct Hy as [Ey|Hy].
  - inversion Ex; inversion Ey; subst. now split.
  - inversion Ex; subst. apply entries_range in Hy; [lia|assumption].
  - inversion Ey; subst. apply entries_range in Hx; [lia|assumption].
  - eapply IH; eauto.
Qed.

(** X7.  [coalesce] on a free block [c] that stands in a run of free
    blocks, [G] to its left and [F] to its right, between allocated
    neighbours (the prologue and the epilogue count as such), all nodes of
    the run but the first being on the free list: the call returns the
    pointer of the first block of the run, the chain has one free block of
    the total size in place of the run, exactly the other nodes of the run
    have left the list, and no byte of an allocated block has changed.
    With allocated neighbours on both sides nothing changes. *)
Theorem coalesce_merges_run (s : state) (L G F R : list block) (c : Z)
        (fl : list Z) :
  heap_ok s (L ++ G ++ (c, false) :: F ++ R) fl ->
  snd (prev_of L) = true -> all_free G -> all_free F -> snd (next_of R) = true ->
  incl (tl (free_bps (heap_listp s + total L) (G ++ (c, false) :: F))) fl ->
  exists s',
    coalesce (heap_listp s + total L + total G) s =
      Ok (heap_listp s + total L) s' /\
    block_chain s' =
      entries (heap_listp s) (L ++ (total G + c + total F, false) :: R) /\
    (forall x, In x (free_list s') <->
               In x (free_list s) /\
               ~ In x (tl (free_bps (heap_listp s + total L)
                                    (G ++ (c, false) :: F)))) /\
    (forall x, in_used (heap_listp s) (L ++ G ++ (c, false) :: F ++ R) x ->
               mem s' x = mem s x) /\
    (G = [] -> F = [] -> s' = s).
Proof.
  intros H HL HG HF HR Hin.
  destruct (@coalesce_run_fr G L R F c s fl (fuel_of s) H HL HG HF HR Hin)
    as (s' & fl' & R' & H' & A' & M' & N' & Fr').
  - pose proof (fuel_enough H) as Hf. rewrite !length_app in Hf.
    cbn [length] in Hf. rewrite length_app in Hf. lia.
  - exists s'. split; [exact R'|].
    destruct (free_list_heap H) as [E1 _]. destruct (free_list_heap H') as [E1' _].
    rewrite E1, E1'. split.
    + rewrite (block_chain_entries H').
      destruct A' as (_ & _ & _ & Ah & _). now rewrite Ah.
    + split; [exact M'|]. split; [exact Fr'|].
      intros EG EF. now destruct (N' EG EF).
Qed.

(** [fit_state] with the block at 4136 marked free and put on the list,
    as [mm_free] has it when it calls [coalesce]: the blocks at 4112 and
    4136 are free neighbours. *)
Definition run_state : state :=
  match state_of ((PUT (HDRP 4136) (PACK 112 0) ;;;
                   PUT (4136 + 112 - DSIZE) (PACK 112 0) ;;;
                   add_freeblock 4136) fit_state) with
  | Some s => s
  | None => fit_state
  end.

Lemma run_state_ok :
  heap_ok run_state [(24, false); (112, false); (48, true); (352, false)]
          [4296; 4112; 4136].
Proof. concrete_heap. Qed.

Lemma coalesce_merges_run_witness :
  exists s',
    coalesce (heap_listp run_state + total [] + total [(24, false)]) run_state =
      Ok (heap_listp run_state + total []) s' /\
    block_chain s' =
      entries (heap_listp run_state)
              ([] ++ (total [(24, false)] + 112 + total [], false)
                  :: [(48, true); (352, false)]) /\
    (forall x, In x (free_list s') <->
               In x (free_list run_state) /\
               ~ In x (tl (free_bps (heap_listp run_state + total [])
                                    ([(24, false)] ++ (112, false) :: [])))) /\
    (forall x,
       in_used (heap_listp run_state)
               ([] ++ [(24, false)] ++ (112, false) :: [] ++
                [(48, true); (352, false)]) x ->
       mem s' x = mem run_state x) /\
    ([(24, false)] = [] -> @nil (Z * bool) = [] -> s' = run_state).
Proof.
  apply (@coalesce_merges_run run_state [] [(24, false)] []
           [(48, true); (352, false)] 112 [4296; 4112; 4136]).
  - exact run_state_ok.
  - reflexivity.
  - repeat constructor.
  - constructor.
  - reflexivity.
  - intros x Hx. vm_compute in Hx. destruct Hx as [<-|[]]. cbn. auto.
Defined.

(** The chain of [run_state] before and after the call. *)
Lemma run_state_example :
  block_chain run_state =
    [(4112, 24, 0); (4136, 112, 0); (4248, 48, 1); (4296, 352, 0)] /\
  value_of (coalesce 4136 run_state) = Some 4112 /\
  option_map block_chain (state_of (coalesce 4136 run_state)) =
    Some [(4112, 136, 0); (4248, 48, 1); (4296, 352, 0)] /\
  option_map free_list (state_of (coalesce 4136 run_state)) =
    Some [4296; 4112].
Proof. vm_compute. repeat split. Qed.

(** X8.  [place] on a free block of [c] bytes of a well-formed heap, for an
    adjusted size [asize] of at most [c]: when at least [MINCHUNKSIZE]
    bytes are left over, the block is split into an allocated block of
    [asize] bytes and a free remainder, which goes to the tail of the free
    list; otherwise the whole block is allocated.  In both cases the block
    leaves the list, and no byte of the blocks allocated before changes. *)
Theorem place_splits (s : state) (l1 l2 : list block) (c asize : Z)
        (fl : list Z) :
  heap_inv s (l1 ++ (c, false) :: l2) fl ->
  24 <= asize <= c -> asize mod 8 = 0 ->
  exists s',
    place (heap_listp s + total l1) asize s = Ok tt s' /\
    (if MINCHUNKSIZE <=? c - asize
     then block_chain s' =
            entries (heap_listp s)
                    (l1 ++ (asize, true) :: (c - asize, false) :: l2) /\
          free_list s' =
            remove Z.eq_dec (heap_listp s + total l1) (free_list s) ++
            [heap_listp s + total l1 + asize]
     else block_chain s' = entries (heap_listp s) (l1 ++ (c, true) :: l2) /\
          free_list s' =
            remove Z.eq_dec (heap_listp s + total l1) (free_list s)) /\
    (forall x, in_used (heap_listp s) (l1 ++ (c, false) :: l2) x ->
               mem s' x = mem s x).
Proof.
  intros Hinv Ha Ha8.
  destruct (@place_fr s l1 l2 c asize fl Hinv Ha Ha8)
    as (s' & c' & l2' & fl' & R & H' & A & _ & _ & Sh & Fr).
  exists s'. split; [exact R|]. split; [|exact Fr].
  destruct (free_list_heap (inv_ok Hinv)) as [E1 _].
  destruct (free_list_heap (inv_ok H')) as [E1' _].
  rewrite E1, E1', (block_chain_entries (inv_ok H')).
  destruct A as (_ & _ & _ & Ah & _). rewrite Ah.
  change MINCHUNKSIZE with 24.
  destruct (24 <=? c - asize); destruct Sh as (-> & -> & ->); now split.
Qed.

Lemma place_splits_witness :
  exists s',
    place (heap_listp fit_state + total [(24, false); (112, true); (48, true)])
          48 fit_state = Ok tt s' /\
    (if MINCHUNKSIZE <=? 352 - 48
     then block_chain s' =
            entries (heap_listp fit_state)
                    ([(24, false); (112, true); (48, true)] ++
                     (48, true) :: (352 - 48, false) :: []) /\
          free_list s' =
            remove Z.eq_dec
              (heap_listp fit_state +
               total [(24, false); (112, true); (48, true)])
              (free_list fit_state) ++
            [heap_listp fit_state +
             total [(24, false); (112, true); (48, true)] + 48]
     else block_chain s' =
            entries (heap_listp fit_state)
                    ([(24, false); (112, true); (48, true)] ++
                     (352, true) :: []) /\
          free_list s' =
            remove Z.eq_dec
              (heap_listp fit_state +
               total [(24, false); (112, true); (48, true)])
              (free_list fit_state)) /\
    (forall x,
       in_used (heap_listp fit_state)
               ([(24, false); (112, true); (48, true)] ++ (352, false) :: []) x ->
       mem s' x = mem fit_state x).
Proof.
  apply (@place_splits fit_state [(24, false); (112, true); (48, true)] []
           352 48 [4296; 4112]).
  - exact fit_state_inv.
  - lia.
  - reflexivity.
Defined.

(** On [fit_state]: 48 bytes out of the block of 352 bytes leave a free
    remainder of 304 bytes at the tail of the list; 336 bytes out of it
    leave 16 bytes, too few for a block, and the whole block is taken. *)
Lemma place_examples :
  option_map block_chain (state_of (place 4296 48 fit_state)) =
    Some [(4112, 24, 0); (4136, 112, 1); (4248, 48, 1); (4296, 48, 1);
          (4344, 304, 0)] /\
  option_map free_list (state_of (place 4296 48 fit_state)) =
    Some [4112; 4344] /\
  option_map block_chain (state_of (place 4296 336 fit_state)) =
    Some [(4112, 24, 0); (4136, 112, 1); (4248, 48, 1); (4296, 352, 1)] /\
  option_map free_list (state_of (place 4296 336 fit_state)) = Some [4112].
Proof. vm_compute. repeat split. Qed.

(** The number of words [extend_heap] asks for: an odd count is rounded up
    to the next even one. *)
Definition even_words (words : Z) : Z :=
  if words mod 2 =? 0 then words else words + 1.

Lemma even_words_even (words : Z) : even_words words mod 2 = 0.
Proof.
  unfold even_words. destruct (Z.eqb_spec (words mod 2) 0) as [E|E]; [exact E|].
  Z.div_mod_to_equations. lia.
Qed.

Lemma extend_heap_round (words : Z) (s : state) :
  extend_heap words s = extend_heap (even_words words) s.
Proof.
  unfold even_words. destruct (Z.eqb_spec (words mod 2) 0) as [E|E]; [reflexivity|].
  assert (E1 : (words + 1) mod 2 = 0) by (Z.div_mod_to_equations; lia).
  unfold extend_heap. apply Z.eqb_neq in E. rewrite E, E1. reflexivity.
Qed.



(** Seven words are rounded up to eight: the arena of [fit_state] grows by
    32 bytes, and the free block of 352 bytes at its end becomes one of
    384 bytes. *)
Lemma extend_heap_example :
  value_of (extend_heap 7 fit_state) = Some 4296 /\
  option_map block_chain (state_of (extend_heap 7 fit_state)) =
    Some [(4112, 24, 0); (4136, 112, 1); (4248, 48, 1); (4296, 384, 0)] /\
  option_map mem_brk (state_of (extend_heap 7 fit_state)) =
    Some (mem_brk fit_state + 32).
Proof. vm_compute. repeat split. Qed.

(** ** mm_init *)

Lemma single_free_list (fl : list Z) (x : Z) :
  NoDup fl -> incl fl [x] -> incl [x] fl -> fl = [x].
Proof.
  intros Hnd H1 H2. pose proof (NoDup_incl_length Hnd H1) as Hl.
  cbn [length] in Hl. destruct fl as [|y [|z r]].
  - exfalso. apply (H2 x). now left.
  - f_equal. destruct (H1 y (or_introl eq_refl)) as [E|[]]. now symmetry.
  - cbn [length] in Hl. lia.
Qed.

(** X10.  On an unused arena with room for 40 bytes, [mm_init] returns 0
    and leaves 16 bytes of padding, prologue and epilogue followed by one
    free block of [MINCHUNKSIZE] bytes, which is the whole block chain and
    the whole free list; [heap_listp] points to that block; nothing is
    printed. *)
Theorem mm_init_first_block (ndebug : bool) (s : state) :
  fresh s ->
  exists s',
    mm_init ndebug s = Ok 0 s' /\
    heap_listp s' = mem_start_brk s + 16 /\
    mem_brk s' = mem_start_brk s + 16 + MINCHUNKSIZE /\
    block_chain s' = [(mem_start_brk s + 16, MINCHUNKSIZE, 0)] /\
    free_list s' = [mem_start_brk s + 16] /\
    load_le 4 (mem s') (mem_start_brk s + 4) = PACK DSIZE 1 /\
    load_le 4 (mem s') (mem_start_brk s + 8) = PACK DSIZE 1 /\
    load_le 4 (mem s') (mem_brk s' - 4) = PACK 0 1 /\
    console s' = console s.
Proof.
  intros Hf. destruct (@mm_init_ok ndebug s Hf) as (s' & fl & R & H' & Es & _ & Ec).
  exists s'. split; [exact R|].
  pose proof (inv_ok H') as Hok. pose proof Hok as Hok'. destruct Hok'.
  cbn [total fst] in ok_brk0.
  assert (Efl : fl = [heap_listp s']).
  { apply single_free_list; [assumption|exact ok_incl0|exact (inv_all H')]. }
  destruct (free_list_heap Hok) as [E1 _].
  rewrite (block_chain_entries Hok), E1, Efl. cbn [entries flag].
  change MINCHUNKSIZE with 24. rewrite ok_listp0, Es in *.
  change (PACK DSIZE 1) with (tag 8 true). change (PACK 0 1) with (tag 0 true).
  split; [reflexivity|]. split; [lia|]. split; [reflexivity|].
  split; [reflexivity|]. split.
  { rewrite <- ok_pro_hdr0. f_equal. lia. }
  split.
  { rewrite <- ok_pro_ftr0. f_equal. lia. }
  split; [exact ok_epi0|exact Ec].
Qed.

Lemma mm_init_first_block_witness :
  exists s',
    mm_init false (fresh_arena 4096 65536) = Ok 0 s' /\
    heap_listp s' = mem_start_brk (fresh_arena 4096 65536) + 16 /\
    mem_brk s' = mem_start_brk (fresh_arena 4096 65536) + 16 + MINCHUNKSIZE /\
    block_chain s' =
      [(mem_start_brk (fresh_arena 4096 65536) + 16, MINCHUNKSIZE, 0)] /\
    free_list s' = [mem_start_brk (fresh_arena 4096 65536) + 16] /\
    load_le 4 (mem s') (mem_start_brk (fresh_arena 4096 65536) + 4) =
      PACK DSIZE 1 /\
    load_le 4 (mem s') (mem_start_brk (fresh_arena 4096 65536) + 8) =
      PACK DSIZE 1 /\
    load_le 4 (mem s') (mem_brk s' - 4) = PACK 0 1 /\
    console s' = console (fresh_arena 4096 65536).
Proof.
  apply (@mm_init_first_block false (fresh_arena 4096 65536)).
  apply fresh_arena_fresh; [lia|reflexivity|lia|lia].
Defined.

Lemma bind_Fault {A B : Type} (m : M A) (k : A -> M B) (s : state) :
  m s = Fault -> bind m k s = Fault.
Proof. intros H. unfold bind. now rewrite H. Qed.

Lemma load_cases (n : nat) (p : Z) (s : state) :
  load n p s = Fault \/ load n p s = Ok (load_le n (mem s) p) s.
Proof. unfold load. destruct (in_arena s p (Z.of_nat n)); auto. Qed.

Lemma GET_SIZE_cases (p : Z) (s : state) :
  GET_SIZE p s = Fault \/ exists v, GET_SIZE p s = Ok v s.
Proof.
  unfold GET_SIZE, GET. destruct (load_cases 4 p s) as [E|E].
  - left. now apply bind_Fault.
  - right. eexists. erewrite bind_step by (exact E). reflexivity.
Qed.

Lemma GET_ALLOC_cases (p : Z) (s : state) :
  GET_ALLOC p s = Fault \/ exists v, GET_ALLOC p s = Ok v s.
Proof.
  unfold GET_ALLOC, GET. destruct (load_cases 4 p s) as [E|E].
  - left. now apply bind_Fault.
  - right. eexists. erewrite bind_step by (exact E). reflexivity.
Qed.

(** With [heap_listp] at [NULL] the checker reads the word before address 0,
    outside every arena. *)
Lemma mm_checkheap_null_listp (verbose : Z) (s : state) :
  heap_listp s = NULL -> -4 < mem_start_brk s ->
  mm_checkheap verbose s = Fault.
Proof.
  intros Hl Hlo. unfold mm_checkheap, mem_heap_lo. rewrite bind_gets.
  destruct (GET_SIZE_cases (HDRP (DSIZE + mem_start_brk s)) s) as [E|(sz & E)];
    [now apply bind_Fault|].
  erewrite bind_step by (exact E).
  assert (Hbad : forall (bad : bool) (k : unit -> M Z),
            (forall s', heap_listp s' = NULL ->
                        mem_start_brk s' = mem_start_brk s -> k tt s' = Fault) ->
            bind (when bad (printf BadPrologueHeader)) k s = Fault).
  { intros bad k Hk. destruct bad; unfold when, printf.
    - rewrite bind_modify. now apply Hk.
    - rewrite bind_ret. now apply Hk. }
  assert (Hrest : forall s', heap_listp s' = NULL ->
            mem_start_brk s' = mem_start_brk s ->
            forall (k : Z -> M Z),
            (hl <- gets heap_listp ;; x <- GET (HDRP hl) ;; k x) s' = Fault).
  { intros s' Hl' Hs' k. rewrite bind_gets, Hl'. apply bind_Fault.
    unfold GET, load, in_arena, HDRP, NULL, WSIZE.
    assert (E0 : (mem_start_brk s' <=? 0 - 4) = false)
      by (apply Z.leb_gt; lia).
    now rewrite E0. }
  destruct (negb (sz =? DSIZE)).
  - rewrite bind_ret. apply Hbad. intros s' Hl' Hs'. now apply Hrest.
  - rewrite bind_assoc.
    destruct (GET_ALLOC_cases (HDRP (DSIZE + mem_start_brk s)) s) as [E2|(a & E2)];
      [now apply bind_Fault|].
    erewrite bind_step by (exact E2). rewrite bind_ret.
    apply Hbad. intros s' Hl' Hs'. now apply Hrest.
Qed.

(** X11.  [mm_init] on an arena that is too small.  With less than 16
    bytes of room the first [mem_sbrk] fails: the call returns -1, and
    [heap_listp] is left holding the failure value -1.  With room for the
    16 bytes but not for the first block, [extend_heap] fails and its
    [NULL] becomes [heap_listp] without a test: a build with [NDEBUG]
    returns 0 all the same, a debug build stops in [checkheap] when it
    reads the header of the block at [NULL]. *)
Theorem mm_init_small_arena (s : state) :
  0 <= mem_start_brk s <= mem_brk s ->
  (mem_max_addr s < mem_brk s + 16 ->
   forall ndebug,
     mm_init ndebug s =
     Ok (-1) (set_heap_listp (-1) (set_dl_start NULL (set_dl_end NULL s)))) /\
  (mem_brk s + 16 <= mem_max_addr s < mem_brk s + 40 ->
   (exists s',
      mm_init true s = Ok 0 s' /\ heap_listp s' = NULL /\
      mem_brk s' = mem_brk s + 16 /\ dl_start s' = NULL) /\
   mm_init false s = Fault).
Proof.
  intros Hs. destruct s as [m lo brk mx hl ds de con].
  cbn [mem_brk mem_start_brk mem_max_addr] in *. split.
  - intros Hsmall ndebug. unfold mm_init. rewrite !bind_modify.
    unfold mem_sbrk at 1. unfold bind at 1. simpl_state.
    unfold WSIZE. change (4 * 4) with 16.
    assert (E1 : (16 <? 0) || (mx <? brk + 16) = true).
    { apply orb_true_intro. right. apply Z.ltb_lt. lia. }
    rewrite E1. rewrite bind_modify. reflexivity.
  - intros Hroom.
    assert (Hrun : forall ndebug,
      mm_init ndebug (mkState m lo brk mx hl ds de con) =
      (checkheap ndebug 0 ;;; ret 0)
        (mkState (store_le 4 (brk + 12) 1
                    (store_le 4 (brk + 8) 9
                       (store_le 4 (brk + 4) 9 (store_le 4 brk 0 m))))
                 lo (brk + 16) mx NULL 0 0 con)).
    { intros ndebug. unfold mm_init. rewrite !bind_modify.
      unfold mem_sbrk at 1. unfold bind at 1. simpl_state.
      unfold WSIZE, DSIZE, NULL. change (4 * 4) with 16.
      assert (E1 : (16 <? 0) || (mx <? brk + 16) = false).
      { apply orb_false_intro; apply Z.ltb_ge; lia. }
      rewrite E1. rewrite bind_modify. simpl_state.
      assert (E2 : (brk =? -1) = false) by (apply Z.eqb_neq; lia). rewrite E2.
      rewrite bind_gets. simpl_state.
      erewrite bind_step by (apply PUT_ok; cbn; lia).
      rewrite bind_gets. simpl_state.
      erewrite bind_step by (apply PUT_ok; cbn; lia).
      rewrite bind_gets. simpl_state.
      erewrite bind_step by (apply PUT_ok; cbn; lia).
      rewrite bind_gets. simpl_state.
      erewrite bind_step by (apply PUT_ok; cbn; lia).
      change (MINCHUNKSIZE / 4) with 6.
      erewrite bind_step by (apply extend_heap_fail; cbn; lia).
      rewrite bind_modify. reflexivity. }
    split.
    + eexists. rewrite Hrun. split; [reflexivity|]. now cbn.
    + rewrite Hrun. unfold checkheap. rewrite bind_assoc.
      apply bind_Fault. apply mm_checkheap_null_listp; [reflexivity|].
      cbn [mem_start_brk]. lia.
Qed.

Lemma mm_init_small_arena_witness :
  (mem_max_addr (fresh_arena 4096 12) < mem_brk (fresh_arena 4096 12) + 16 ->
   forall ndebug,
     mm_init ndebug (fresh_arena 4096 12) =
     Ok (-1) (set_heap_listp (-1)
                (set_dl_start NULL (set_dl_end NULL (fresh_arena 4096 12))))) /\
  (mem_brk (fresh_arena 4096 12) + 16 <= mem_max_addr (fresh_arena 4096 12)
     < mem_brk (fresh_arena 4096 12) + 40 ->
   (exists s',
      mm_init true (fresh_arena 4096 12) = Ok 0 s' /\ heap_listp s' = NULL /\
      mem_brk s' = mem_brk (fresh_arena 4096 12) + 16 /\ dl_start s' = NULL) /\
   mm_init false (fresh_arena 4096 12) = Fault).
Proof. apply (@mm_init_small_arena (fresh_arena 4096 12)). cbn. lia. Defined.

(** The three outcomes on arenas of 12, 32 and 40 bytes. *)
Lemma mm_init_examples :
  value_of (mm_init true (fresh_arena 4096 12)) = Some (-1) /\
  value_of (mm_init true (fresh_arena 4096 32)) = Some 0 /\
  option_map heap_listp (state_of (mm_init true (fresh_arena 4096 32))) =
    Some NULL /\
  mm_init false (fresh_arena 4096 32) = Fault /\
  value_of (mm_init false (fresh_arena 4096 40)) = Some 0 /\
  value_of ((mm_init true ;;; mm_malloc 1) (fresh_arena 4096 32)) = Some NULL.
Proof. vm_compute. repeat split. Qed.

(** ** mm_malloc and mm_free on the block chain *)

Lemma entries_tag (m : memory) (bl : list block) : forall (bp q sz a : Z),
  tags m bp bl -> In (q, sz, a) (entries bp bl) ->
  exists b, a = flag b /\ load_le 4 m (q - 4) = tag sz b.
Proof.
  induction bl as [|[c b] r IH]; intros bp q sz a Ht H; cbn [entries tags] in *.
  - destruct H.
  - destruct Ht as (Hh & _ & Ht). destruct H as [E|H].
    + inversion E; subst. now exists b.
    + eapply IH; eauto.
Qed.

(** An allocated block that an operation neither releases nor writes to is
    the same block of the chain afterwards. *)
Lemma used_entry_kept (s s' : state) (bl bl' : list block) (fl fl' : list Z)
      (q sz : Z) :
  heap_ok s bl fl -> heap_ok s' bl' fl' -> heap_listp s' = heap_listp s ->
  In (q, sz, 1) (entries (heap_listp s) bl) ->
  In q (used_bps (heap_listp s) bl') ->
  (forall x, q - 4 <= x < q -> mem s' x = mem s x) ->
  In (q, sz, 1) (entries (heap_listp s) bl').
Proof.
  intros H H' Eh Hq Hq' Hm.
  apply entries_used_iff in Hq'. destruct Hq' as (sz' & Hq').
  destruct (@entries_tag (mem s) bl (heap_listp s) q sz 1 (ok_tags H) Hq)
    as (b & Eb & Hb).
  rewrite <- Eh in Hq'.
  destruct (@entries_tag (mem s') bl' (heap_listp s') q sz' 1 (ok_tags H') Hq')
    as (b' & Eb' & Hb').
  rewrite Eh in Hq'.
  assert (E : load_le 4 (mem s') (q - 4) = load_le 4 (mem s) (q - 4)).
  { apply load_le_ext. intros x Hx. apply Hm. cbn in Hx. lia. }
  destruct b; [|discriminate]. destruct b'; [|discriminate].
  rewrite Hb, Hb' in E.
  pose proof (@entries_range bl (heap_listp s) q sz 1 (ok_blocks H) Hq)
    as (_ & _ & _ & H8).
  pose proof (@entries_range bl' (heap_listp s) q sz' 1 (ok_blocks H') Hq')
    as (_ & _ & _ & H8').
  rewrite !tag_eq in E by assumption. replace sz with sz' by lia. exact Hq'.
Qed.

Lemma first_fit_null_iff (m : memory) (asize : Z) (l : list Z) :
  (forall x, In x l -> x <> NULL) ->
  (first_fit_spec m asize l = NULL <->
   forall x, In x l -> size_at m x < asize).
Proof.
  intros Hnz.
  destruct (first_fit_spec_scan m asize l) as [[E Hall]|(l1 & l2 & E & Hfit & _)].
  - tauto.
  - assert (Hin : In (first_fit_spec m asize l) l).
    { rewrite E at 2. apply in_or_app. right. now left. }
    split.
    + intros E0. exfalso. apply (Hnz _ Hin). exact E0.
    + intros Hall. specialize (Hall _ Hin). lia.
Qed.

Lemma entries_mid (l1 l2 : list block) (c : Z) (a : bool) : forall (bp : Z),
  In (bp + total l1, c, flag a) (entries bp (l1 ++ (c, a) :: l2)).
Proof.
  induction l1 as [|[sz b] r IH]; intros bp; cbn [app entries total fst].
  - left. now rewrite Z.add_0_r.
  - right. rewrite Z.add_assoc. apply IH.
Qed.

Lemma heap_chain (s : state) (bl : list block) (fl : list Z) :
  heap_inv s bl fl ->
  block_chain s = entries (heap_listp s) bl /\
  adjacent_free (block_chain s) = false /\
  Forall (fun x => fst (fst x) mod 8 = 0) (block_chain s) /\
  free_list s = fl.
Proof.
  intros H. pose proof (inv_ok H) as Hok.
  rewrite (block_chain_entries Hok). split; [reflexivity|].
  split; [apply adjacent_free_entries; exact (inv_adj H)|]. split.
  - destruct Hok. apply entries_aligned; [assumption|].
    rewrite ok_listp0. rewrite Z.add_mod by lia. now rewrite ok_align0.
  - now destruct (free_list_heap Hok).
Qed.

(** X12.  [mm_malloc] on a well-formed heap, for a size from 1 to
    2^32 - 16.  It returns [NULL] exactly when no block of the free list
    has the adjusted size and the arena cannot grow by the larger of the
    adjusted size and 512 bytes, and then it changes nothing.  Otherwise
    the result is the pointer, a multiple of 8, of an allocated block of
    the chain that is at least 8 bytes larger than the request and was not
    allocated before.  Every block allocated before is still there with
    its size, and none of its bytes has changed; no two neighbours of the
    chain are free. *)
Theorem mm_malloc_result (s : state) (bl : list block) (fl : list Z)
        (size : Z) :
  heap_inv s bl fl -> 0 < size <= 4294967296 - 16 ->
  exists r s',
    mm_malloc size s = Ok r s' /\
    (r = NULL <->
       (forall x, In x (free_list s) -> size_at (mem s) x < malloc_asize size) /\
       mem_max_addr s < mem_brk s + MAX (malloc_asize size) 512) /\
    (r = NULL -> s' = s) /\
    (r <> NULL ->
       exists sz,
         In (r, sz, 1) (block_chain s') /\ size + 8 <= sz /\ r mod 8 = 0 /\
         forall sz0, ~ In (r, sz0, 1) (block_chain s)) /\
    (forall q szq,
       In (q, szq, 1) (block_chain s) ->
       In (q, szq, 1) (block_chain s') /\
       forall x, q - 4 <= x < q + szq - 4 -> mem s' x = mem s x) /\
    adjacent_free (block_chain s') = false.
Proof.
  intros Hinv Hsize.
  destruct (@mm_malloc_fr s bl fl size Hinv Hsize)
    as (r & s' & bl' & fl' & R & H' & G & C & Fr & Null & _).
  destruct (malloc_asize_range Hsize) as (Ha & Ha8 & Hap).
  destruct (heap_chain Hinv) as (E1 & _ & _ & E4).
  destruct (heap_chain H') as (E1' & E2' & E3' & _).
  destruct G as (_ & _ & Gh & _). rewrite Gh in E1'.
  assert (Hnz : forall x, In x fl -> x <> NULL).
  { intros x Hx. pose proof (node_facts (inv_ok Hinv) Hx). unfold NULL. lia. }
  assert (Hsub : forall x, In x (used_bps (heap_listp s) bl) ->
                           In x (used_bps (heap_listp s) bl')).
  { intros x Hx. destruct C as [(_ & _ & -> & _)|(l1 & c & l2 & _ & _ & _ & _ & U)];
      [assumption|]. apply U. now left. }
  exists r, s'. split; [exact R|]. rewrite E1, E1', E4. split.
  { rewrite Null.
    now rewrite (@first_fit_null_iff (mem s) (malloc_asize size) fl Hnz). }
  split.
  { intros Er. destruct C as [(_ & -> & _)|(l1 & c & l2 & -> & Er' & _)];
      [reflexivity|].
    pose proof (blk_facts (inv_ok H')) as K. rewrite Gh in K.
    exfalso. unfold NULL in Er. lia. }
  split.
  { intros Hr. destruct C as [(Er & _)|(l1 & c & l2 & -> & -> & Hc & Hnew & _)];
      [contradiction|].
    exists c. split; [apply (entries_mid l1 l2 c true)|]. split; [lia|]. split.
    - rewrite Forall_forall in E3'. rewrite E1' in E3'.
      exact (E3' _ (entries_mid l1 l2 c true (heap_listp s))).
    - intros sz0 Hin. apply Hnew. apply entries_used_iff. now exists sz0. }
  split; [|rewrite <- E1'; exact E2'].
  intros q szq Hq. split.
  - eapply used_entry_kept;
      [exact (inv_ok Hinv)|exact (inv_ok H')|exact Gh|exact Hq| |].
    + apply Hsub. apply entries_used_iff. now exists szq.
    + intros x Hx. apply Fr. eapply entries_in_used; [exact Hq|].
      pose proof (@entries_range bl (heap_listp s) q szq 1
                    (ok_blocks (inv_ok Hinv)) Hq). lia.
  - intros x Hx. apply Fr. eapply entries_in_used; eassumption.
Qed.

Lemma mm_malloc_result_witness :
  exists r s',
    mm_malloc 100 fit_state = Ok r s' /\
    (r = NULL <->
       (forall x, In x (free_list fit_state) ->
                  size_at (mem fit_state) x < malloc_asize 100) /\
       mem_max_addr fit_state < mem_brk fit_state + MAX (malloc_asize 100) 512) /\
    (r = NULL -> s' = fit_state) /\
    (r <> NULL ->
       exists sz,
         In (r, sz, 1) (block_chain s') /\ 100 + 8 <= sz /\ r mod 8 = 0 /\
         forall sz0, ~ In (r, sz0, 1) (block_chain fit_state)) /\
    (forall q szq,
       In (q, szq, 1) (block_chain fit_state) ->
       In (q, szq, 1) (block_chain s') /\
       forall x, q - 4 <= x < q + szq - 4 -> mem s' x = mem fit_state x) /\
    adjacent_free (block_chain s') = false.
Proof.
  apply (@mm_malloc_result fit_state
           [(24, false); (112, true); (48, true); (352, false)] [4296; 4112] 100).
  - exact fit_state_inv.
  - lia.
Defined.

(** X13.  [mm_free] on an allocated block of a well-formed heap.  The
    call completes; the pointer is no allocated block any more; its bytes
    lie in a free block of the chain that is on the free list; every other
    allocated block is still there with its size and with every byte it
    had; no two neighbours of the chain are free; the arena has the size
    it had. *)
Theorem mm_free_result (s : state) (bl : list block) (fl : list Z) (p sz : Z) :
  heap_inv s bl fl -> In (p, sz, 1) (block_chain s) ->
  exists s',
    mm_free p s = Ok tt s' /\
    (forall sz0, ~ In (p, sz0, 1) (block_chain s')) /\
    (exists q szq,
       In (q, szq, 0) (block_chain s') /\ q <= p /\ p + sz <= q + szq /\
       In q (free_list s')) /\
    (forall q szq,
       In (q, szq, 1) (block_chain s) -> q <> p ->
       In (q, szq, 1) (block_chain s') /\
       forall x, q - 4 <= x < q + szq - 4 -> mem s' x = mem s x) /\
    adjacent_free (block_chain s') = false /\
    mem_brk s' = mem_brk s.
Proof.
  intros Hinv Hp. destruct (heap_chain Hinv) as (E1 & _ & _ & _).
  rewrite E1 in Hp.
  assert (Hpu : In p (used_bps (heap_listp s) bl))
    by (apply entries_used_iff; now exists sz).
  destruct (addrs_split _ _ _ _ Hpu) as (l1 & c & l2 & Ebl & Ep).
  assert (Ec : c = sz).
  { rewrite Ebl, Ep in Hp.
    pose proof (entries_mid l1 l2 c true (heap_listp s)) as Hm.
    assert (Hok : Forall block_ok (l1 ++ (c, true) :: l2))
      by (rewrite <- Ebl; exact (ok_blocks (inv_ok Hinv))).
    now destruct (@entries_fun _ _ _ _ _ _ _ Hok Hm Hp). }
  subst c. subst bl.
  destruct (@mm_free_fr s l1 l2 sz fl Hinv)
    as (s' & bl' & fl' & R & H' & A & U & Fr & (L & G & F & R0 & EL & ER & HG & HF & Eb')).
  destruct (heap_chain H') as (E1' & E2' & _ & E4').
  destruct A as (_ & Ab & _ & Ah & _). rewrite Ah in E1'.
  pose proof (inv_ok Hinv) as Hok. pose proof (inv_ok H') as Hok'.
  exists s'. rewrite <- Ep in R. split; [exact R|]. rewrite E1, E1', E4'.
  split.
  { intros sz0 Hin.
    assert (Hu : In p (used_bps (heap_listp s) bl'))
      by (apply entries_used_iff; now exists sz0).
    apply U in Hu. destruct Hu as [_ Hne]. now apply Hne. }
  split.
  { exists (heap_listp s + total L), (total G + sz + total F).
    pose proof (ok_blocks Hok) as Hb. rewrite EL, ER in Hb.
    apply Forall_app in Hb. destruct Hb as [Hb1 Hb2].
    apply Forall_app in Hb1. destruct Hb1 as [_ HbG].
    inversion Hb2 as [|? ? _ Hb3]; subst.
    apply Forall_app in Hb3. destruct Hb3 as [HbF _].
    pose proof (total_nonneg HbG). pose proof (total_nonneg HbF).
    split; [apply (entries_mid L R0 (total G + sz + total F) false)|].
    rewrite total_app. split; [lia|]. split; [lia|].
    apply (inv_all H'). rewrite Ah. apply addrs_mid. }
  split; [|split; [rewrite <- E1'; exact E2'|exact Ab]].
  intros q szq Hq Hne.
  assert (Hsep : q + szq <= p \/ p + sz <= q).
  { eapply entries_sep; [exact (ok_blocks Hok)|exact Hq|exact Hp|exact Hne]. }
  assert (Hfr : forall x, q - 4 <= x < q + szq - 4 -> mem s' x = mem s x).
  { intros x Hx. apply Fr. apply in_used_unflag.
    - eapply entries_in_used; eassumption.
    - lia. }
  split; [|exact Hfr].
  eapply used_entry_kept; [exact Hok|exact Hok'|exact Ah|exact Hq| |].
  - apply U. split; [|rewrite <- Ep; exact Hne].
    apply entries_used_iff. now exists szq.
  - intros x Hx. apply Hfr.
    pose proof (@entries_range _ (heap_listp s) q szq 1 (ok_blocks Hok) Hq). lia.
Qed.

Lemma mm_free_result_witness :
  exists s',
    mm_free 4248 fit_state = Ok tt s' /\
    (forall sz0, ~ In (4248, sz0, 1) (block_chain s')) /\
    (exists q szq,
       In (q, szq, 0) (block_chain s') /\ q <= 4248 /\ 4248 + 48 <= q + szq /\
       In q (free_list s')) /\
    (forall q szq,
       In (q, szq, 1) (block_chain fit_state) -> q <> 4248 ->
       In (q, szq, 1) (block_chain s') /\
       forall x, q - 4 <= x < q + szq - 4 -> mem s' x = mem fit_state x) /\
    adjacent_free (block_chain s') = false /\
    mem_brk s' = mem_brk fit_state.
Proof.
  apply (@mm_free_result fit_state
           [(24, false); (112, true); (48, true); (352, false)] [4296; 4112]
           4248 48).
  - exact fit_state_inv.
  - vm_compute. auto.
Defined.

(** Releasing the block at 4248 of [fit_state] merges it with the free
    block of 352 bytes behind it. *)
Lemma mm_free_example :
  option_map block_chain (state_of (mm_free 4248 fit_state)) =
    Some [(4112, 24, 0); (4136, 112, 1); (4248, 400, 0)] /\
  option_map free_list (state_of (mm_free 4248 fit_state)) =
    Some [4112; 4248].
Proof. vm_compute. repeat split. Qed.

(** ** Invariants of a session *)

Lemma session_state (ndebug : bool) (rs : list request) (s0 : state) :
  fresh s0 -> forallb request_ok rs = true ->
  match session ndebug rs s0 with
  | Ok t s => sess_inv s t /\ console s = console s0
  | Fault => existsb is_calloc rs = true
  | Diverge => False
  | Exited _ => False
  end.
Proof.
  intros H0 Hrs. unfold session.
  destruct (@mm_init_ok ndebug s0 H0) as (s1 & fl & R & H1 & _ & _ & E3).
  erewrite bind_step by (exact R).
  assert (Hs : sess_inv s1 no_slots).
  { exists [(24, false)], fl. split; [assumption|].
    split; intros i; unfold no_slots; congruence. }
  pose proof (@run_inv rs s1 no_slots Hs Hrs) as K.
  destruct (run no_slots rs s1) as [t s| | |]; try assumption.
  destruct K as [K (_ & _ & _ & Gc & _)]. split; [assumption|]. congruence.
Qed.

(** X14.  After a session, every pointer the client holds is the pointer
    of an allocated block of the chain, inside the heap, and the blocks of
    two pointers held in different slots do not overlap. *)
Theorem live_blocks_disjoint (ndebug : bool) (rs : list request) (s0 : state) :
  fresh s0 -> forallb request_ok rs = true ->
  match session ndebug rs s0 with
  | Ok t s =>
      (forall i, t i <> NULL ->
         exists sz, In (t i, sz, 1) (block_chain s) /\
                    heap_listp s <= t i /\ t i + sz <= mem_brk s) /\
      (forall i j si sj,
         i <> j -> t i <> NULL ->
         In (t i, si, 1) (block_chain s) -> In (t j, sj, 1) (block_chain s) ->
         t i + si <= t j \/ t j + sj <= t i)
  | Fault => existsb is_calloc rs = true
  | Diverge => False
  | Exited _ => False
  end.
Proof.
  intros H0 Hrs. pose proof (@session_state ndebug rs s0 H0 Hrs) as K.
  destruct (session ndebug rs s0) as [t s| | |]; try assumption.
  destruct K as [(bl & fl & H & Ht) _].
  destruct (heap_chain H) as (E1 & _). rewrite E1.
  pose proof (ok_blocks (inv_ok H)) as Hb. split.
  - intros i Hi. pose proof (proj1 Ht i Hi) as Hu.
    apply entries_used_iff in Hu. destruct Hu as (sz & Hu). exists sz.
    split; [exact Hu|].
    pose proof (@entries_range bl (heap_listp s) (t i) sz 1 Hb Hu) as Hr.
    rewrite (ok_brk (inv_ok H)). lia.
  - intros i j si sj Hij Hi Hei Hej.
    eapply entries_sep; [exact Hb|exact Hei|exact Hej|].
    intros E. apply Hij. now apply (proj2 Ht).
Qed.

Lemma live_blocks_disjoint_witness :
  fresh (fresh_arena 4096 65536) /\
  match session false example_session (fresh_arena 4096 65536) with
  | Ok t s =>
      (forall i, t i <> NULL ->
         exists sz, In (t i, sz, 1) (block_chain s) /\
                    heap_listp s <= t i /\ t i + sz <= mem_brk s) /\
      (forall i j si sj,
         i <> j -> t i <> NULL ->
         In (t i, si, 1) (block_chain s) -> In (t j, sj, 1) (block_chain s) ->
         t i + si <= t j \/ t j + sj <= t i)
  | Fault => existsb is_calloc example_session = true
  | Diverge => False
  | Exited _ => False
  end.
Proof.
  assert (H : fresh (fresh_arena 4096 65536)).
  { apply fresh_arena_fresh; [lia|reflexivity|lia|lia]. }
  split; [exact H|].
  apply (@live_blocks_disjoint false example_session _ H). reflexivity.
Defined.

(** X15.  After a session the free list holds exactly the free blocks of
    the chain, each once; the walk back from [dl_end] along the [prev]
    fields finds the same nodes in the reverse order. *)
Theorem free_list_consistent (ndebug : bool) (rs : list request) (s0 : state) :
  fresh s0 -> forallb request_ok rs = true ->
  match session ndebug rs s0 with
  | Ok t s =>
      (forall x, In x (free_list s) <->
                 exists sz, In (x, sz, 0) (block_chain s)) /\
      NoDup (free_list s) /\
      free_list_back s = rev (free_list s) /\
      dl_start s = hd NULL (free_list s) /\
      dl_end s = last (free_list s) NULL
  | Fault => existsb is_calloc rs = true
  | Diverge => False
  | Exited _ => False
  end.
Proof.
  intros H0 Hrs. pose proof (@session_state ndebug rs s0 H0 Hrs) as K.
  destruct (session ndebug rs s0) as [t s| | |]; try assumption.
  destruct K as [(bl & fl & H & Ht) _].
  destruct (heap_chain H) as (E1 & _ & _ & E4).
  destruct (free_list_heap (inv_ok H)) as [_ E5].
  rewrite E1, E5, E4. pose proof (inv_ok H) as Hok. split.
  - intros x. rewrite <- entries_free_iff. split.
    + apply (ok_incl Hok).
    + apply (inv_all H).
  - split; [exact (ok_nodup Hok)|]. split; [reflexivity|].
    split; [exact (ok_dl_start Hok)|exact (ok_dl_end Hok)].
Qed.

Lemma free_list_consistent_witness :
  fresh (fresh_arena 4096 65536) /\
  match session false example_session (fresh_arena 4096 65536) with
  | Ok t s =>
      (forall x, In x (free_list s) <->
                 exists sz, In (x, sz, 0) (block_chain s)) /\
      NoDup (free_list s) /\
      free_list_back s = rev (free_list s) /\
      dl_start s = hd NULL (free_list s) /\
      dl_end s = last (free_list s) NULL
  | Fault => existsb is_calloc example_session = true
  | Diverge => False
  | Exited _ => False
  end.
Proof.
  assert (H : fresh (fresh_arena 4096 65536)).
  { apply fresh_arena_fresh; [lia|reflexivity|lia|lia]. }
  split; [exact H|].
  apply (@free_list_consistent false example_session _ H). reflexivity.
Defined.

Lemma entries_tags (m : memory) (bl : list block) : forall (bp q sz a : Z),
  tags m bp bl -> In (q, sz, a) (entries bp bl) ->
  load_le 4 m (q - 4) = PACK sz a /\ load_le 4 m (q + sz - 8) = PACK sz a.
Proof.
  induction bl as [|[c b] r IH]; intros bp q sz a Ht H; cbn [entries tags] in *.
  - destruct H.
  - destruct Ht as (Hh & Hf & Ht). destruct H as [E|H].
    + inversion E; subst. now split.
    + eapply IH; eauto.
Qed.

(** X16.  After a session every block of the chain has a size of at least
    [MINCHUNKSIZE] that is a multiple of 8, and a footer word equal to its
    header word, size and allocated bit; the prologue words before the
    first block and the epilogue word at the end of the heap are in
    place. *)
Theorem boundary_tags_consistent (ndebug : bool) (rs : list request)
        (s0 : state) :
  fresh s0 -> forallb request_ok rs = true ->
  match session ndebug rs s0 with
  | Ok t s =>
      (forall b sz a,
         In (b, sz, a) (block_chain s) ->
         MINCHUNKSIZE <= sz /\ sz mod 8 = 0 /\
         load_le 4 (mem s) (HDRP b) = PACK sz a /\
         load_le 4 (mem s) (b + sz - DSIZE) = PACK sz a) /\
      heap_listp s = mem_start_brk s0 + 4 * WSIZE /\
      load_le 4 (mem s) (heap_listp s - 3 * WSIZE) = PACK DSIZE 1 /\
      load_le 4 (mem s) (heap_listp s - 2 * WSIZE) = PACK DSIZE 1 /\
      load_le 4 (mem s) (mem_brk s - WSIZE) = PACK 0 1
  | Fault => existsb is_calloc rs = true
  | Diverge => False
  | Exited _ => False
  end.
Proof.
  intros H0 Hrs. pose proof (@session_inv ndebug rs s0 H0 Hrs) as K.
  destruct (session ndebug rs s0) as [t s| | |]; try assumption.
  destruct K as [(bl & fl & H & Ht) (Es & _)].
  destruct (heap_chain H) as (E1 & _). rewrite E1.
  pose proof (inv_ok H) as Hok. destruct Hok.
  unfold HDRP, WSIZE, DSIZE. change MINCHUNKSIZE with 24. split.
  - intros b sz a Hin.
    pose proof (@entries_range bl (heap_listp s) b sz a ok_blocks0 Hin)
      as (_ & _ & Hsz & H8).
    destruct (@entries_tags (mem s) bl (heap_listp s) b sz a ok_tags0 Hin)
      as [Hh Hf].
    repeat split; assumption.
  - split; [rewrite ok_listp0, Es; lia|].
    change (3 * 4) with 12. change (2 * 4) with 8.
    repeat split; assumption.
Qed.

Lemma boundary_tags_consistent_witness :
  fresh (fresh_arena 4096 65536) /\
  match session false example_session (fresh_arena 4096 65536) with
  | Ok t s =>
      (forall b sz a,
         In (b, sz, a) (block_chain s) ->
         MINCHUNKSIZE <= sz /\ sz mod 8 = 0 /\
         load_le 4 (mem s) (HDRP b) = PACK sz a /\
         load_le 4 (mem s) (b + sz - DSIZE) = PACK sz a) /\
      heap_listp s = mem_start_brk (fresh_arena 4096 65536) + 4 * WSIZE /\
      load_le 4 (mem s) (heap_listp s - 3 * WSIZE) = PACK DSIZE 1 /\
      load_le 4 (mem s) (heap_listp s - 2 * WSIZE) = PACK DSIZE 1 /\
      load_le 4 (mem s) (mem_brk s - WSIZE) = PACK 0 1
  | Fault => existsb is_calloc example_session = true
  | Diverge => False
  | Exited _ => False
  end.
Proof.
  assert (H : fresh (fresh_arena 4096 65536)).
  { apply fresh_arena_fresh; [lia|reflexivity|lia|lia]. }
  split; [exact H|].
  apply (@boundary_tags_consistent false example_session _ H). reflexivity.
Defined.

(** ** The checker on a well-formed heap *)

Definition line_of (e : Z * Z * Z) : msg :=
  BlockLine (fst (fst e)) (snd (fst e)) (snd e) (snd (fst e)) (snd e).

Lemma block_lines_entries (bl : list block) : forall (bp : Z),
  block_lines bp bl = map line_of (entries bp bl).
Proof.
  induction bl as [|[sz a] r IH]; intros bp; cbn [block_lines entries map].
  - reflexivity.
  - rewrite IH. reflexivity.
Qed.

(** X17.  After a session the checker finds nothing to report: the call
    returns 0, leaves memory, arena and list pointers as they are, and
    prints no diagnostic.  With a verbosity other than 0 it prints one
    line per block of the chain, in chain order, footer fields equal to
    header fields, and nothing else.  The session itself prints
    nothing. *)
Theorem mm_checkheap_silent (ndebug : bool) (rs : list request) (s0 : state)
        (verbose : Z) :
  fresh s0 -> forallb request_ok rs = true ->
  match session ndebug rs s0 with
  | Ok t s =>
      console s = console s0 /\
      exists s',
        mm_checkheap verbose s = Ok 0 s' /\ same_heap s s' /\
        console s' =
          console s ++
          (if verbose =? 0 then [] else map line_of (block_chain s))
  | Fault => existsb is_calloc rs = true
  | Diverge => False
  | Exited _ => False
  end.
Proof.
  intros H0 Hrs. pose proof (@session_state ndebug rs s0 H0 Hrs) as K.
  destruct (session ndebug rs s0) as [t s| | |]; try assumption.
  destruct K as [(bl & fl & H & Ht) Ec]. split; [exact Ec|].
  destruct (@mm_checkheap_ok s bl fl verbose H) as (s' & R & Sh & C).
  exists s'. split; [exact R|]. split; [exact Sh|].
  destruct (heap_chain H) as (E1 & _).
  now rewrite C, E1, block_lines_entries.
Qed.

Lemma mm_checkheap_silent_witness :
  fresh (fresh_arena 4096 65536) /\
  match session false example_session (fresh_arena 4096 65536) with
  | Ok t s =>
      console s = console (fresh_arena 4096 65536) /\
      exists s',
        mm_checkheap 1 s = Ok 0 s' /\ same_heap s s' /\
        console s' =
          console s ++ (if 1 =? 0 then [] else map line_of (block_chain s))
  | Fault => existsb is_calloc example_session = true
  | Diverge => False
  | Exited _ => False
  end.
Proof.
  assert (H : fresh (fresh_arena 4096 65536)).
  { apply fresh_arena_fresh; [lia|reflexivity|lia|lia]. }
  split; [exact H|].
  apply (@mm_checkheap_silent false example_session _ 1 H). reflexivity.
Defined.

(** The lines of a verbose check at the end of the example session. *)
Lemma mm_checkheap_verbose_example :
  option_map console
    (state_of ((session false example_session ;;; mm_checkheap 1)
                 (fresh_arena 4096 65536))) =
  Some [BlockLine 4112 184 0 184 0; BlockLine 4296 48 1 48 1;
        BlockLine 4344 304 0 304 0].
Proof. vm_compute. reflexivity. Qed.

(** ** Contents of the payloads: calloc and mm_realloc *)

Lemma entries_split (bl : list block) : forall (bp q sz : Z),
  In (q, sz, 1) (entries bp bl) ->
  exists l1 l2, bl = l1 ++ (sz, true) :: l2 /\ q = bp + total l1.
Proof.
  induction bl as [|[c b] r IH]; intros bp q sz H; cbn [entries] in H.
  - destruct H.
  - destruct H as [E|H].
    + inversion E as [[E1 E2 E3]]. destruct b; [|discriminate].
      exists [], r. split; [reflexivity|]. cbn [total]. lia.
    + destruct (IH _ _ _ H) as (l1 & l2 & -> & ->).
      exists ((c, b) :: l1), l2. split; [reflexivity|]. cbn [total fst]. lia.
Qed.

(** [mm_malloc] on the chain: what the other operations build on. *)
Lemma mm_malloc_chain (s : state) (bl : list block) (fl : list Z) (size : Z) :
  heap_inv s bl fl -> 0 < size <= 4294967296 - 16 ->
  exists r s' bl' fl',
    mm_malloc size s = Ok r s' /\ heap_inv s' bl' fl' /\ grows s s' /\
    ((r = NULL /\ s' = s) \/
     (r <> NULL /\ ~ In r (used_bps (heap_listp s) bl) /\
      exists c, In (r, c, 1) (entries (heap_listp s) bl') /\ size + 8 <= c)) /\
    (forall q szq,
       In (q, szq, 1) (entries (heap_listp s) bl) ->
       In (q, szq, 1) (entries (heap_listp s) bl') /\
       forall x, q - 4 <= x < q + szq - 4 -> mem s' x = mem s x).
Proof.
  intros Hinv Hsize.
  destruct (@mm_malloc_fr s bl fl size Hinv Hsize)
    as (r & s' & bl' & fl' & R & H' & G & C & Fr & _).
  destruct (malloc_asize_range Hsize) as (Ha & Ha8 & Hap).
  pose proof G as (_ & _ & Gh & _).
  exists r, s', bl', fl'. split; [exact R|]. split; [exact H'|].
  split; [exact G|]. split.
  - destruct C as [(Er & Es & _)|(l1 & c & l2 & -> & -> & Hc & Hnew & _)].
    + left. now split.
    + right. pose proof (blk_facts (inv_ok H')) as K. rewrite Gh in K.
      split; [unfold NULL; lia|]. split; [exact Hnew|].
      exists c. split; [apply (entries_mid l1 l2 c true)|lia].
  - intros q szq Hq.
    assert (Hfr : forall x, q - 4 <= x < q + szq - 4 -> mem s' x = mem s x).
    { intros x Hx. apply Fr. eapply entries_in_used; eassumption. }
    split; [|exact Hfr].
    eapply used_entry_kept;
      [exact (inv_ok Hinv)|exact (inv_ok H')|exact Gh|exact Hq| |].
    + assert (Hu : In q (used_bps (heap_listp s) bl))
        by (apply entries_used_iff; now exists szq).
      destruct C as [(_ & _ & -> & _)|(l1 & c & l2 & _ & _ & _ & _ & U)];
        [assumption|]. apply U. now left.
    + intros x Hx. apply Hfr.
      pose proof (@entries_range bl (heap_listp s) q szq 1
                    (ok_blocks (inv_ok Hinv)) Hq). lia.
Qed.

(** [mm_free] on the chain. *)
Lemma mm_free_chain (s : state) (bl : list block) (fl : list Z) (p sz : Z) :
  heap_inv s bl fl -> In (p, sz, 1) (entries (heap_listp s) bl) ->
  exists s' bl' fl',
    mm_free p s = Ok tt s' /\ heap_inv s' bl' fl' /\ same_arena s s' /\
    ~ In p (used_bps (heap_listp s) bl') /\
    (forall q szq,
       In (q, szq, 1) (entries (heap_listp s) bl) -> q <> p ->
       In (q, szq, 1) (entries (heap_listp s) bl') /\
       forall x, q - 4 <= x < q + szq - 4 -> mem s' x = mem s x).
Proof.
  intros Hinv Hp.
  destruct (entries_split _ _ _ _ Hp) as (l1 & l2 & -> & Ep).
  destruct (@mm_free_fr s l1 l2 sz fl Hinv)
    as (s' & bl' & fl' & R & H' & A & U & Fr & _).
  pose proof A as (_ & _ & _ & Ah & _).
  pose proof (inv_ok Hinv) as Hok. pose proof (inv_ok H') as Hok'.
  exists s', bl', fl'. rewrite <- Ep in R. split; [exact R|].
  split; [exact H'|]. split; [exact A|]. split.
  { intros Hu. apply U in Hu. destruct Hu as [_ Hne]. now apply Hne. }
  intros q szq Hq Hne.
  assert (Hsep : q + szq <= p \/ p + sz <= q).
  { eapply entries_sep; [exact (ok_blocks Hok)|exact Hq|exact Hp|exact Hne]. }
  assert (Hfr : forall x, q - 4 <= x < q + szq - 4 -> mem s' x = mem s x).
  { intros x Hx. apply Fr. apply in_used_unflag.
    - eapply entries_in_used; eassumption.
    - lia. }
  split; [|exact Hfr].
  eapply used_entry_kept; [exact Hok|exact Hok'|exact Ah|exact Hq| |].
  - apply U. split; [|rewrite <- Ep; exact Hne].
    apply entries_used_iff. now exists szq.
  - intros x Hx. apply Hfr.
    pose proof (@entries_range _ (heap_listp s) q szq 1 (ok_blocks Hok) Hq). lia.
Qed.

(** Writing into the payload of an allocated block with [memset]. *)
Lemma memset_chain (s : state) (bl : list block) (fl : list Z) (r c v n : Z) :
  heap_inv s bl fl -> In (r, c, 1) (entries (heap_listp s) bl) ->
  0 <= n <= c - 8 ->
  exists s', memset r v n s = Ok tt s' /\ heap_inv s' bl fl /\ same_arena s s' /\
             forall x, mem s' x = fill r v n (mem s) x.
Proof.
  intros Hinv Hr Hn.
  destruct (entries_split _ _ _ _ Hr) as (l1 & l2 & -> & ->).
  destruct (@memset_ok s fl l1 l2 c v n (inv_ok Hinv) Hn) as (s' & R & H' & A).
  exists s'. split; [exact R|]. pose proof A as (_ & _ & _ & Ah & _).
  split; [eapply heap_inv_same; eauto|]. split; [exact A|].
  intros x. unfold memset in R.
  destruct (Z.eqb_spec n 0) as [E|E].
  - inversion R; subst. unfold fill.
    destruct (Z.leb_spec (heap_listp s' + total l1) x);
      destruct (Z.ltb_spec x (heap_listp s' + total l1 + 0)); cbn [andb];
      try reflexivity. lia.
  - destruct (in_arena s (heap_listp s + total l1) n); [|discriminate].
    inversion R; subst. reflexivity.
Qed.

(** Writing into the payload of an allocated block with [memcpy]. *)
Lemma memcpy_chain (s : state) (bl : list block) (fl : list Z)
      (r c src n : Z) :
  heap_inv s bl fl -> In (r, c, 1) (entries (heap_listp s) bl) ->
  0 <= n <= c - 8 -> mem_start_brk s <= src -> src + n <= mem_brk s ->
  exists s', memcpy r src n s = Ok tt s' /\ heap_inv s' bl fl /\ same_arena s s' /\
             forall x, mem s' x = copy r src n (mem s) x.
Proof.
  intros Hinv Hr Hn Hs1 Hs2.
  destruct (entries_split _ _ _ _ Hr) as (l1 & l2 & -> & ->).
  destruct (@memcpy_ok s fl l1 l2 c src n (inv_ok Hinv) Hn Hs1 Hs2)
    as (s' & R & H' & A).
  exists s'. split; [exact R|]. pose proof A as (_ & _ & _ & Ah & _).
  split; [eapply heap_inv_same; eauto|]. split; [exact A|].
  intros x. unfold memcpy in R.
  destruct (Z.eqb_spec n 0) as [E|E].
  - inversion R; subst. unfold copy.
    destruct (Z.leb_spec (heap_listp s' + total l1) x);
      destruct (Z.ltb_spec x (heap_listp s' + total l1 + 0)); cbn [andb];
      try reflexivity. lia.
  - destruct (in_arena s (heap_listp s + total l1) n && in_arena s src n);
      [|discriminate].
    inversion R; subst. reflexivity.
Qed.

(** [calloc] on the chain. *)
Lemma calloc_chain (s : state) (bl : list block) (fl : list Z)
      (nmemb size : Z) :
  heap_inv s bl fl -> 0 < wrap64 (nmemb * size) <= 4294967296 - 16 ->
  (calloc nmemb size s = Fault /\
   mm_malloc (wrap64 (nmemb * size)) s = Ok NULL s) \/
  (exists r s' bl' fl',
     calloc nmemb size s = Ok r s' /\ heap_inv s' bl' fl' /\
     heap_listp s' = heap_listp s /\ r <> NULL /\
     ~ In r (used_bps (heap_listp s) bl) /\
     (exists c, In (r, c, 1) (entries (heap_listp s) bl') /\
                wrap64 (nmemb * size) + 8 <= c) /\
     (forall i, 0 <= i < wrap64 (nmemb * size) -> mem s' (r + i) = 0) /\
     (forall q szq,
        In (q, szq, 1) (entries (heap_listp s) bl) ->
        In (q, szq, 1) (entries (heap_listp s) bl') /\
        forall x, q - 4 <= x < q + szq - 4 -> mem s' x = mem s x)).
Proof.
  intros Hinv Hsize. set (bytes := wrap64 (nmemb * size)) in *.
  destruct (@mm_malloc_chain s bl fl bytes Hinv Hsize)
    as (r & s1 & bl1 & fl1 & R1 & H1 & G1 & C1 & K1).
  destruct C1 as [(-> & ->)|(Hr & Hnew & c & Hc & Hsz)].
  - left. destruct (@calloc_memset_after_failure nmemb size s s R1) as [_ F].
    fold bytes in F. split; [|exact R1].
    apply F; [lia|exact (ok_lo (inv_ok Hinv))].
  - right. pose proof G1 as (_ & _ & Gh & _).
    assert (Hc1 : In (r, c, 1) (entries (heap_listp s1) bl1)) by now rewrite Gh.
    destruct (@memset_chain s1 bl1 fl1 r c 0 bytes H1 Hc1) as (s2 & R2 & H2 & A2 & M2);
      [lia|].
    unfold calloc. fold bytes. erewrite bind_step by (exact R1).
    erewrite bind_step by (exact R2). unfold ret.
    pose proof A2 as (_ & _ & _ & Ah & _).
    exists r, s2, bl1, fl1. split; [reflexivity|]. split; [exact H2|].
    split; [congruence|]. split; [exact Hr|]. split; [exact Hnew|].
    split; [|split].
    + exists c. split; [exact Hc|lia].
    + intros i Hi. rewrite M2. unfold fill.
      destruct (Z.leb_spec r (r + i)); [|lia].
      destruct (Z.ltb_spec (r + i) (r + bytes)); [|lia]. reflexivity.
    + intros q szq Hq. destruct (K1 _ _ Hq) as [Hq1 Fr1]. split; [exact Hq1|].
      intros x Hx. rewrite M2, <- (Fr1 _ Hx). unfold fill.
      assert (Hne : q <> r).
      { intros ->. apply Hnew. apply entries_used_iff. now exists szq. }
      pose proof (@entries_sep bl1 (heap_listp s) q szq 1 r c 1
                    (ok_blocks (inv_ok H1)) Hq1 Hc Hne) as Hsep.
      destruct (Z.leb_spec r x); destruct (Z.ltb_spec x (r + bytes));
        cbn [andb]; try reflexivity. lia.
Qed.

(** C4, as the code has it.  [calloc] multiplies in [size_t] and never
    looks at the overflow: a call behaves as the call for one element of
    [nmemb * size] modulo 2^64 bytes, and what it does depends on that
    wrapped count alone.  On a well-formed heap: for a wrapped count of 0
    it returns the null pointer and changes nothing; for a wrapped count
    from 1 to 2^32 - 16 it returns an allocated block that is at least 8
    bytes larger than the wrapped count and whose first bytes, as many as
    the wrapped count, are 0, or it stops with a memory fault, which
    happens exactly when the [mm_malloc] inside it returns [NULL]. *)
Theorem calloc_wraps (s : state) (bl : list block) (fl : list Z)
        (nmemb size : Z) :
  heap_inv s bl fl ->
  calloc nmemb size s = calloc 1 (wrap64 (nmemb * size)) s /\
  (wrap64 (nmemb * size) = 0 -> calloc nmemb size s = Ok NULL s) /\
  (0 < wrap64 (nmemb * size) <= 4294967296 - 16 ->
   match calloc nmemb size s with
   | Ok r s' =>
       r <> NULL /\
       (exists sz, In (r, sz, 1) (block_chain s') /\
                   wrap64 (nmemb * size) + 8 <= sz) /\
       (forall i, 0 <= i < wrap64 (nmemb * size) -> mem s' (r + i) = 0)
   | Fault => mm_malloc (wrap64 (nmemb * size)) s = Ok NULL s
   | Diverge => False
   | Exited _ => False
   end).
Proof.
  intros Hinv. split; [apply calloc_product_wraps|].
  split; [apply calloc_zero|]. intros Hsize.
  destruct (@calloc_chain s bl fl nmemb size Hinv Hsize)
    as [[F R]|(r & s' & bl' & fl' & R & H' & Eh & Hr & _ & Hblk & Hz & _)].
  - rewrite F. exact R.
  - rewrite R. destruct (heap_chain H') as (E1' & _). rewrite Eh in E1'.
    rewrite E1'. split; [exact Hr|]. split; [exact Hblk|exact Hz].
Qed.

Lemma calloc_wraps_witness :
  calloc (9223372036854775808 + 8) 2 fit_state =
    calloc 1 (wrap64 ((9223372036854775808 + 8) * 2)) fit_state /\
  (wrap64 ((9223372036854775808 + 8) * 2) = 0 ->
   calloc (9223372036854775808 + 8) 2 fit_state = Ok NULL fit_state) /\
  (0 < wrap64 ((9223372036854775808 + 8) * 2) <= 4294967296 - 16 ->
   match calloc (9223372036854775808 + 8) 2 fit_state with
   | Ok r s' =>
       r <> NULL /\
       (exists sz, In (r, sz, 1) (block_chain s') /\
                   wrap64 ((9223372036854775808 + 8) * 2) + 8 <= sz) /\
       (forall i, 0 <= i < wrap64 ((9223372036854775808 + 8) * 2) ->
                  mem s' (r + i) = 0)
   | Fault =>
       mm_malloc (wrap64 ((9223372036854775808 + 8) * 2)) fit_state =
         Ok NULL fit_state
   | Diverge => False
   | Exited _ => False
   end).
Proof.
  apply (@calloc_wraps fit_state
           [(24, false); (112, true); (48, true); (352, false)] [4296; 4112]
           (9223372036854775808 + 8) 2).
  exact fit_state_inv.
Defined.

(** The three outcomes of an overflowing product: on [fit_state],
    [calloc (2^63 + 8) 2] wraps to 16 bytes and returns the block at 4296;
    [calloc 2^32 2^32] wraps to 0 bytes and returns the null pointer; on
    the full arena of 40 bytes [calloc (2^63 + 50) 2] wraps to 100 bytes,
    the allocation fails, and the call stops with a memory fault. *)
Lemma calloc_wraps_examples :
  value_of (calloc (9223372036854775808 + 8) 2 fit_state) = Some 4296 /\
  value_of (calloc 4294967296 4294967296 fit_state) = Some NULL /\
  (mm_init false ;;; calloc (9223372036854775808 + 50) 2)
    (fresh_arena 4096 40) = Fault.
Proof. vm_compute. repeat split. Qed.

(** X18.  [calloc] on a well-formed heap, for a product [nmemb * size]
    that is, reduced modulo 2^64, between 1 and 2^32 - 16.  The call either
    stops with a memory fault, exactly when the [mm_malloc] inside it
    returns [NULL], or it returns the pointer of an allocated block that
    was not allocated before and is at least 8 bytes larger than the
    product; the first [nmemb * size] bytes of its payload are 0; every
    block allocated before is still there with its size and none of its
    bytes has changed; no two neighbours of the chain are free. *)
Theorem calloc_result (s : state) (bl : list block) (fl : list Z)
        (nmemb size : Z) :
  heap_inv s bl fl -> 0 < wrap64 (nmemb * size) <= 4294967296 - 16 ->
  match calloc nmemb size s with
  | Ok r s' =>
      r <> NULL /\
      (exists sz,
         In (r, sz, 1) (block_chain s') /\ wrap64 (nmemb * size) + 8 <= sz /\
         forall sz0, ~ In (r, sz0, 1) (block_chain s)) /\
      (forall i, 0 <= i < wrap64 (nmemb * size) -> mem s' (r + i) = 0) /\
      (forall q szq,
         In (q, szq, 1) (block_chain s) ->
         In (q, szq, 1) (block_chain s') /\
         forall x, q - 4 <= x < q + szq - 4 -> mem s' x = mem s x) /\
      adjacent_free (block_chain s') = false
  | Fault => mm_malloc (wrap64 (nmemb * size)) s = Ok NULL s
  | Diverge => False
  | Exited _ => False
  end.
Proof.
  intros Hinv Hsize. destruct (heap_chain Hinv) as (E1 & _).
  destruct (@calloc_chain s bl fl nmemb size Hinv Hsize)
    as [[F R]|(r & s' & bl' & fl' & R & H' & Eh & Hr & Hnew & Hblk & Hz & K)].
  - rewrite F. exact R.
  - rewrite R. destruct (heap_chain H') as (E1' & Eadj' & _). rewrite Eh in E1'.
    rewrite E1, E1'. split; [exact Hr|]. split; [|split; [exact Hz|split]].
    + destruct Hblk as (c & Hc & Hsz). exists c. split; [exact Hc|].
      split; [exact Hsz|]. intros sz0 Hin. apply Hnew.
      apply entries_used_iff. now exists sz0.
    + exact K.
    + rewrite <- E1'. exact Eadj'.
Qed.

Lemma calloc_result_witness :
  match calloc 5 20 fit_state with
  | Ok r s' =>
      r <> NULL /\
      (exists sz,
         In (r, sz, 1) (block_chain s') /\ wrap64 (5 * 20) + 8 <= sz /\
         forall sz0, ~ In (r, sz0, 1) (block_chain fit_state)) /\
      (forall i, 0 <= i < wrap64 (5 * 20) -> mem s' (r + i) = 0) /\
      (forall q szq,
         In (q, szq, 1) (block_chain fit_state) ->
         In (q, szq, 1) (block_chain s') /\
         forall x, q - 4 <= x < q + szq - 4 -> mem s' x = mem fit_state x) /\
      adjacent_free (block_chain s') = false
  | Fault => mm_malloc (wrap64 (5 * 20)) fit_state = Ok NULL fit_state
  | Diverge => False
  | Exited _ => False
  end.
Proof.
  apply (@calloc_result fit_state
           [(24, false); (112, true); (48, true); (352, false)] [4296; 4112] 5 20).
  - exact fit_state_inv.
  - vm_compute. split; [reflexivity|discriminate].
Defined.

(** [calloc 5 20] on [fit_state] takes the first 112 bytes of the free
    block at 4296. *)
Lemma calloc_example :
  value_of (calloc 5 20 fit_state) = Some 4296 /\
  option_map block_chain (state_of (calloc 5 20 fit_state)) =
    Some [(4112, 24, 0); (4136, 112, 1); (4248, 48, 1); (4296, 112, 1);
          (4408, 240, 0)].
Proof. vm_compute. repeat split. Qed.

(** The copying path of [mm_realloc] on the chain: a new block, the first
    bytes of the old payload copied into it, the old block released. *)
Lemma realloc_copy_chain (s : state) (bl : list block) (fl : list Z)
      (p c size : Z) :
  heap_inv s bl fl -> In (p, c, 1) (entries (heap_listp s) bl) ->
  0 < size <= 4294967296 - 16 ->
  exists r s' bl' fl',
    realloc_copy p size c s = Ok r s' /\ heap_inv s' bl' fl' /\
    heap_listp s' = heap_listp s /\
    ((r = NULL /\ s' = s) \/
     (r <> NULL /\ r <> p /\ ~ In r (used_bps (heap_listp s) bl) /\
      ~ In p (used_bps (heap_listp s) bl') /\
      (exists c', In (r, c', 1) (entries (heap_listp s) bl') /\ size + 8 <= c') /\
      (forall i, 0 <= i < Z.min size (c - 8) -> mem s' (r + i) = mem s (p + i)))) /\
    (forall q szq,
       In (q, szq, 1) (entries (heap_listp s) bl) -> q <> p ->
       In (q, szq, 1) (entries (heap_listp s) bl') /\
       forall x, q - 4 <= x < q + szq - 4 -> mem s' x = mem s x).
Proof.
  intros Hinv Hp Hsize. pose proof (inv_ok Hinv) as Hok.
  pose proof (@entries_range bl (heap_listp s) p c 1 (ok_blocks Hok) Hp)
    as (Pr1 & Pr2 & Pr3 & Pr4).
  assert (Hpu : In p (used_bps (heap_listp s) bl))
    by (apply entries_used_iff; now exists c).
  unfold realloc_copy.
  destruct (@mm_malloc_chain s bl fl size Hinv Hsize)
    as (r & s1 & bl1 & fl1 & R1 & H1 & G1 & C1 & K1).
  erewrite bind_step by (exact R1).
  destruct C1 as [(-> & ->)|(Hr & Hnew & c' & Hc' & Hsz)].
  - cbn [NULL Z.eqb]. unfold ret. exists 0, s, bl1, fl1.
    split; [reflexivity|]. split; [exact H1|]. split; [reflexivity|].
    split; [left; now split|]. intros q szq Hq _. exact (K1 _ _ Hq).
  - pose proof G1 as (Gs & Gm & Gh & Gc & Gb).
    pose proof (inv_ok H1) as Hok1.
    assert (E1 : (r =? 0) = false) by (apply Z.eqb_neq; exact Hr). rewrite E1.
    set (n := if size <? c then size else c).
    assert (Hn : 0 <= n <= size /\ n <= c /\ (n = size \/ n = c)).
    { unfold n. destruct (Z.ltb_spec size c); lia. }
    destruct (K1 _ _ Hp) as [Hp1 Frp].
    pose proof (@entries_range bl1 (heap_listp s) p c 1 (ok_blocks Hok1) Hp1)
      as (_ & Q2 & _).
    pose proof (@entries_range bl1 (heap_listp s) r c' 1 (ok_blocks Hok1) Hc')
      as (_ & _ & Q3 & _).
    assert (Hne : r <> p) by (intros ->; now apply Hnew).
    pose proof (@entries_sep bl1 (heap_listp s) p c 1 r c' 1
                  (ok_blocks Hok1) Hp1 Hc' (not_eq_sym Hne)) as Hsep.
    assert (Hc1 : In (r, c', 1) (entries (heap_listp s1) bl1)) by now rewrite Gh.
    destruct (@memcpy_chain s1 bl1 fl1 r c' p n H1 Hc1)
      as (s2 & R2 & H2 & A2 & M2).
    { lia. }
    { rewrite Gs. pose proof (ok_listp Hok). lia. }
    { rewrite (ok_brk Hok1), Gh. lia. }
    erewrite bind_step by (exact R2).
    pose proof A2 as (_ & _ & _ & Ah & _).
    assert (Hp2 : In (p, c, 1) (entries (heap_listp s2) bl1)) by now rewrite Ah, Gh.
    destruct (@mm_free_chain s2 bl1 fl1 p c H2 Hp2)
      as (s3 & bl3 & fl3 & R3 & H3 & A3 & U3 & K3).
    erewrite bind_step by (exact R3). unfold ret.
    pose proof A3 as (_ & _ & _ & Ah3 & _).
    rewrite Ah, Gh in U3, K3.
    exists r, s3, bl3, fl3. split; [reflexivity|]. split; [exact H3|].
    split; [congruence|]. split.
    + right. split; [exact Hr|]. split; [exact Hne|]. split; [exact Hnew|].
      split; [exact U3|]. destruct (K3 _ _ Hc' Hne) as [Hc3 Fr3]. split.
      * exists c'. now split.
      * intros i Hi. rewrite Fr3 by lia. rewrite M2. unfold copy.
        destruct (Z.leb_spec r (r + i)); [|lia].
        destruct (Z.ltb_spec (r + i) (r + n)); [|lia]. cbn [andb].
        replace (p + (r + i - r)) with (p + i) by lia. apply Frp. lia.
    + intros q szq Hq Hqp. destruct (K1 _ _ Hq) as [Hq1 Fr1].
      destruct (K3 _ _ Hq1 Hqp) as [Hq3 Fr3]. split; [exact Hq3|].
      intros x Hx. rewrite (Fr3 _ Hx), M2, <- (Fr1 _ Hx). unfold copy.
      assert (Hqr : q <> r).
      { intros ->. apply Hnew. apply entries_used_iff. now exists szq. }
      pose proof (@entries_sep bl1 (heap_listp s) q szq 1 r c' 1
                    (ok_blocks Hok1) Hq1 Hc' Hqr) as Hsep'.
      destruct (Z.leb_spec r x); destruct (Z.ltb_spec x (r + n));
        cbn [andb]; try reflexivity. lia.
Qed.

(** [mm_realloc] on a block whose right neighbour is allocated (or is the
    epilogue), for a request not smaller than the block: the copying
    path. *)
Lemma mm_realloc_next_used (s : state) (l1 l2 : list block) (c : Z)
      (fl : list Z) (size : Z) :
  heap_inv s (l1 ++ (c, true) :: l2) fl ->
  size <> 0 -> c <= realloc_asize size -> snd (next_of l2) = true ->
  mm_realloc (heap_listp s + total l1) size s =
  realloc_copy (heap_listp s + total l1) size c s.
Proof.
  intros Hinv Hsize Hge Hnext. pose proof Hinv as [H Hall Hadj].
  pose proof (blk_facts H) as K.
  destruct K as (K1 & K2 & Kc & Kc8 & KT1 & KT2 & Kb & Kcap & Klo & Kst & Kmax).
  set (B := heap_listp s + total l1) in *.
  unfold mm_realloc.
  assert (E0 : (size =? 0) = false) by (apply Z.eqb_neq; lia). rewrite E0.
  assert (E1 : (B =? NULL) = false) by (apply Z.eqb_neq; unfold NULL; lia).
  rewrite E1.
  erewrite bind_step by (exact (run_size H)).
  destruct (Z.ltb_spec (realloc_asize size) c) as [Hlt|_]; [lia|].
  erewrite bind_step by (exact (run_NEXT H)).
  erewrite bind_step by (exact (run_next_alloc H)).
  rewrite Hnext. reflexivity.
Qed.

(** [mm_realloc] for a request smaller than the block: the call of
    [shrink] changes nothing. *)
Lemma mm_realloc_smaller_block (s : state) (l1 l2 : list block) (c : Z)
      (fl : list Z) (size : Z) :
  heap_inv s (l1 ++ (c, true) :: l2) fl ->
  size <> 0 -> realloc_asize size < c ->
  mm_realloc (heap_listp s + total l1) size s = Ok (heap_listp s + total l1) s.
Proof.
  intros Hinv Hsize Hlt. pose proof Hinv as [H Hall Hadj].
  pose proof (blk_facts H) as K.
  destruct K as (K1 & K2 & Kc & Kc8 & KT1 & KT2 & Kb & Kcap & Klo & Kst & Kmax).
  set (B := heap_listp s + total l1) in *.
  unfold mm_realloc.
  assert (E0 : (size =? 0) = false) by (apply Z.eqb_neq; lia). rewrite E0.
  assert (E1 : (B =? NULL) = false) by (apply Z.eqb_neq; unfold NULL; lia).
  rewrite E1.
  erewrite bind_step by (exact (run_size H)).
  destruct (Z.ltb_spec (realloc_asize size) c) as [_|Hge]; [|lia].
  assert (Hshrink : shrink B (realloc_asize size) s = Ok tt s).
  { unfold shrink. erewrite bind_step by (exact (run_size H)).
    destruct (Z.ltb_spec c (realloc_asize size)); [lia|reflexivity]. }
  erewrite bind_step by (exact Hshrink). reflexivity.
Qed.

(** [mm_realloc] on the chain, all three paths. *)
Lemma mm_realloc_chain (s : state) (bl : list block) (fl : list Z)
      (p c size : Z) :
  heap_inv s bl fl -> In (p, c, 1) (entries (heap_listp s) bl) ->
  0 < size <= 4294967296 - 16 ->
  exists r s' bl' fl',
    mm_realloc p size s = Ok r s' /\ heap_inv s' bl' fl' /\
    heap_listp s' = heap_listp s /\
    (r = NULL -> s' = s) /\
    (r <> NULL ->
       (exists c', In (r, c', 1) (entries (heap_listp s) bl') /\ size <= c' /\
                   (r <> p -> size + 8 <= c')) /\
       (r <> p -> ~ In p (used_bps (heap_listp s) bl') /\
                  ~ In r (used_bps (heap_listp s) bl)) /\
       (forall i, 0 <= i < Z.min size (c - 8) ->
                  mem s' (r + i) = mem s (p + i))) /\
    (realloc_asize size < c -> r = p /\ s' = s) /\
    (forall q szq,
       In (q, szq, 1) (entries (heap_listp s) bl) -> q <> p ->
       In (q, szq, 1) (entries (heap_listp s) bl') /\
       forall x, q - 4 <= x < q + szq - 4 -> mem s' x = mem s x).
Proof.
  intros Hinv Hp Hsize. pose proof (inv_ok Hinv) as Hok.
  destruct (realloc_asize_range Hsize) as (Ra & Rs).
  pose proof (@entries_range bl (heap_listp s) p c 1 (ok_blocks Hok) Hp)
    as (Pr1 & Pr2 & Pr3 & Pr4).
  assert (Hpn : p <> NULL).
  { pose proof (ok_listp Hok). pose proof (ok_lo Hok). unfold NULL. lia. }
  assert (Hcopy : c <= realloc_asize size ->
                  mm_realloc p size s = realloc_copy p size c s ->
    exists r s' bl' fl',
      mm_realloc p size s = Ok r s' /\ heap_inv s' bl' fl' /\
      heap_listp s' = heap_listp s /\
      (r = NULL -> s' = s) /\
      (r <> NULL ->
         (exists c', In (r, c', 1) (entries (heap_listp s) bl') /\ size <= c' /\
                     (r <> p -> size + 8 <= c')) /\
         (r <> p -> ~ In p (used_bps (heap_listp s) bl') /\
                    ~ In r (used_bps (heap_listp s) bl)) /\
         (forall i, 0 <= i < Z.min size (c - 8) ->
                    mem s' (r + i) = mem s (p + i))) /\
      (realloc_asize size < c -> r = p /\ s' = s) /\
      (forall q szq,
         In (q, szq, 1) (entries (heap_listp s) bl) -> q <> p ->
         In (q, szq, 1) (entries (heap_listp s) bl') /\
         forall x, q - 4 <= x < q + szq - 4 -> mem s' x = mem s x)).
  { intros Hge Epath. rewrite Epath.
    destruct (@realloc_copy_chain s bl fl p c size Hinv Hp Hsize)
      as (r & s' & bl' & fl' & R & H' & Eh & C & K).
    exists r, s', bl', fl'. split; [exact R|]. split; [exact H'|].
    split; [exact Eh|]. split; [|split; [|split]].
    - intros Er. destruct C as [(_ & Es)|(Hr & _)]; [exact Es|contradiction].
    - intros Hr.
      destruct C as [(Er & _)|(_ & Hne & Hnew & Hgone & (c' & Hc' & Hsz) & Hcont)];
        [contradiction|].
      split; [|split].
      + exists c'. split; [exact Hc'|]. split; lia.
      + intros _. now split.
      + exact Hcont.
    - lia.
    - exact K. }
  destruct (entries_split _ _ _ _ Hp) as (l1 & l2 & Ebl & Ep). subst bl.
  destruct (Z.ltb_spec (realloc_asize size) c) as [Hlt|Hge].
  - (* a smaller request *)
    exists p, s, (l1 ++ (c, true) :: l2), fl. rewrite Ep at 1 2.
    split; [apply (@mm_realloc_smaller_block s l1 l2 c fl size Hinv); lia|].
    split; [exact Hinv|]. split; [reflexivity|]. split; [reflexivity|].
    split; [|split; [now split|]].
    + intros _. split; [|split].
      * exists c. split; [exact Hp|]. split; [lia|].
        intros Hne. now contradiction Hne.
      * intros Hne. now contradiction Hne.
      * intros i Hi. reflexivity.
    + intros q szq Hq _. split; [exact Hq|]. intros x _. reflexivity.
  - destruct l2 as [|[n [|]] l3].
    + apply Hcopy; [exact Hge|]. rewrite Ep at 1 2.
      apply (@mm_realloc_next_used s l1 [] c fl size Hinv);
        [lia|exact Hge|reflexivity].
    + apply Hcopy; [exact Hge|]. rewrite Ep at 1 2.
      apply (@mm_realloc_next_used s l1 ((n, true) :: l3) c fl size Hinv);
        [lia|exact Hge|reflexivity].
    + pose proof (@mm_realloc_next_free s l1 l3 c n fl size Hinv) as Epath.
      rewrite <- Ep in Epath. specialize (Epath ltac:(lia) Hge).
      destruct (Z.leb_spec size (c + n)) as [Hfit|Hno];
        [|apply Hcopy; [exact Hge|exact Epath]].
      destruct (@realloc_in_place_fr s l1 l3 c n fl Hinv)
        as (s1 & fl1 & R1 & H1 & A1 & _ & Fpay & Fr).
      rewrite <- Ep in R1, Fpay. rewrite <- Epath in R1.
      pose proof A1 as (_ & _ & _ & Ah & _).
      exists p, s1, (l1 ++ (c + n, true) :: l3), fl1.
      split; [exact R1|]. split; [exact H1|]. split; [exact Ah|].
      split; [intros Er; contradiction|]. split; [|split; [lia|]].
      * intros _. split; [|split].
        -- exists (c + n). split; [|split; [lia|intros Hne; now contradiction Hne]].
           rewrite Ep. apply (entries_mid l1 l3 (c + n) true).
        -- intros Hne. now contradiction Hne.
        -- intros i Hi. apply Fpay. lia.
      * intros q szq Hq Hne.
        assert (Hsep : q + szq <= p \/ p + c <= q).
        { eapply entries_sep; [exact (ok_blocks Hok)|exact Hq|exact Hp|exact Hne]. }
        assert (Hfr : forall x, q - 4 <= x < q + szq - 4 -> mem s1 x = mem s x).
        { intros x Hx. apply Fr. apply in_used_unflag.
          - eapply entries_in_used; eassumption.
          - rewrite <- Ep. lia. }
        split; [|exact Hfr].
        eapply used_entry_kept;
          [exact Hok|exact (inv_ok H1)|exact Ah|exact Hq| |].
        -- assert (Hu : In q (used_bps (heap_listp s)
                                 (l1 ++ (c, true) :: (n, false) :: l3)))
             by (apply entries_used_iff; now exists szq).
           unfold used_bps in *. rewrite (addrs_same true) in Hu.
           rewrite (addrs_same true). cbn [addrs Bool.eqb] in Hu.
           replace (heap_listp s + total l1 + (c + n))
             with (heap_listp s + total l1 + c + n) by lia.
           exact Hu.
        -- intros x Hx. apply Hfr.
           pose proof (@entries_range _ (heap_listp s) q szq 1 (ok_blocks Hok) Hq).
           lia.
Qed.

(** X19.  [mm_realloc] on an allocated block [p] of [c] bytes of a
    well-formed heap, for a size from 1 to 2^32 - 16.  The call completes.
    When it returns [NULL] nothing has changed.  Otherwise the result is an
    allocated block of the chain, and the first [min size (c - 8)] bytes
    of its payload are the bytes the payload of [p] had.  A result other
    than [p] is a block that was not allocated before and is at least 8
    bytes larger than the request, and [p] is no allocated block any more.
    A block that stays at [p] is only known to be at least [size] bytes
    large, header and footer included.  A request whose adjusted size is
    below [c] returns [p] and changes nothing.  Every other allocated
    block is still there with its size and with every byte it had, and no
    two neighbours of the chain are free. *)
Theorem mm_realloc_result (s : state) (bl : list block) (fl : list Z)
        (p c size : Z) :
  heap_inv s bl fl -> In (p, c, 1) (block_chain s) ->
  0 < size <= 4294967296 - 16 ->
  exists r s',
    mm_realloc p size s = Ok r s' /\
    (r = NULL -> s' = s) /\
    (r <> NULL ->
       (exists c', In (r, c', 1) (block_chain s') /\ size <= c' /\
                   (r <> p -> size + 8 <= c')) /\
       (r <> p -> (forall sz0, ~ In (p, sz0, 1) (block_chain s')) /\
                  (forall sz0, ~ In (r, sz0, 1) (block_chain s))) /\
       (forall i, 0 <= i < Z.min size (c - 8) ->
                  mem s' (r + i) = mem s (p + i))) /\
    (realloc_asize size < c -> r = p /\ s' = s) /\
    (forall q szq,
       In (q, szq, 1) (block_chain s) -> q <> p ->
       In (q, szq, 1) (block_chain s') /\
       forall x, q - 4 <= x < q + szq - 4 -> mem s' x = mem s x) /\
    adjacent_free (block_chain s') = false.
Proof.
  intros Hinv Hp Hsize. destruct (heap_chain Hinv) as (E1 & _).
  rewrite E1 in Hp. rewrite E1.
  destruct (@mm_realloc_chain s bl fl p c size Hinv Hp Hsize)
    as (r & s' & bl' & fl' & R & H' & Eh & Null & Res & Small & K).
  destruct (heap_chain H') as (E1' & Eadj' & _). rewrite Eh in E1'.
  exists r, s'. split; [exact R|]. split; [exact Null|]. rewrite E1'.
  split; [|split; [exact Small|split; [exact K|rewrite <- E1'; exact Eadj']]].
  intros Hr. destruct (Res Hr) as (Hblk & Hmove & Hcont).
  split; [exact Hblk|]. split; [|exact Hcont].
  intros Hne. destruct (Hmove Hne) as [Hgone Hnew]. split.
  - intros sz0 Hin. apply Hgone. apply entries_used_iff. now exists sz0.
  - intros sz0 Hin. apply Hnew. apply entries_used_iff. now exists sz0.
Qed.

Lemma mm_realloc_result_witness :
  exists r s',
    mm_realloc 4136 200 fit_state = Ok r s' /\
    (r = NULL -> s' = fit_state) /\
    (r <> NULL ->
       (exists c', In (r, c', 1) (block_chain s') /\ 200 <= c' /\
                   (r <> 4136 -> 200 + 8 <= c')) /\
       (r <> 4136 -> (forall sz0, ~ In (4136, sz0, 1) (block_chain s')) /\
                     (forall sz0, ~ In (r, sz0, 1) (block_chain fit_state))) /\
       (forall i, 0 <= i < Z.min 200 (112 - 8) ->
                  mem s' (r + i) = mem fit_state (4136 + i))) /\
    (realloc_asize 200 < 112 -> r = 4136 /\ s' = fit_state) /\
    (forall q szq,
       In (q, szq, 1) (block_chain fit_state) -> q <> 4136 ->
       In (q, szq, 1) (block_chain s') /\
       forall x, q - 4 <= x < q + szq - 4 -> mem s' x = mem fit_state x) /\
    adjacent_free (block_chain s') = false.
Proof.
  apply (@mm_realloc_result fit_state
           [(24, false); (112, true); (48, true); (352, false)] [4296; 4112]
           4136 112 200).
  - exact fit_state_inv.
  - vm_compute. auto.
  - lia.
Defined.

(** The three paths of [mm_realloc].  On [fit_state] the block at 4136 has
    an allocated right neighbour: a request of 200 bytes moves it to 4296,
    and the old block merges with the free block before it.  The block at
    4248 has a free right neighbour of 352 bytes and takes all of it for a
    request of 60 bytes.  A request of 8 bytes leaves the chain as it
    is. *)
Lemma mm_realloc_examples :
  value_of (mm_realloc 4136 200 fit_state) = Some 4296 /\
  option_map block_chain (state_of (mm_realloc 4136 200 fit_state)) =
    Some [(4112, 136, 0); (4248, 48, 1); (4296, 208, 1); (4504, 144, 0)] /\
  value_of (mm_realloc 4248 60 fit_state) = Some 4248 /\
  option_map block_chain (state_of (mm_realloc 4248 60 fit_state)) =
    Some [(4112, 24, 0); (4136, 112, 1); (4248, 400, 1)] /\
  option_map block_chain (state_of (mm_realloc 4136 8 fit_state)) =
    Some (block_chain fit_state).
Proof. vm_compute. repeat split. Qed.

(** Growth in place compares the merged block size, header and footer
    included, with the raw request.  Here the block of 24 bytes at 4112
    has a free right neighbour of 80 bytes; [mm_realloc 4112 100] returns
    4112 as a block of 104 bytes. *)
Lemma mm_realloc_in_place_example :
  let o := (mm_init false ;;; mm_malloc 16 ;;; mm_malloc 72 ;;; mm_malloc 1 ;;;
            mm_free 4136 ;;; mm_realloc 4112 100) (fresh_arena 4096 65536) in
  value_of o = Some 4112 /\
  option_map block_chain (state_of o) =
    Some [(4112, 104, 1); (4216, 24, 1); (4240, 408, 0)].
Proof. vm_compute. repeat split. Qed.

(** ** The heap checker on any heap *)

(** A computation that writes nothing but console lines, each of them
    satisfying [P]. *)
Definition prints_only (P : msg -> Prop) {A : Type} (m : M A) : Prop :=
  forall s, match m s with
            | Ok _ s' =>
                same_heap s s' /\
                exists l, console s' = console s ++ l /\ Forall P l
            | _ => True
            end.

Section PrintsOnly.
Variable P : msg -> Prop.

Lemma prints_only_ret {A : Type} (a : A) : prints_only P (ret a).
Proof.
  intros s. split; [apply same_heap_refl|]. exists []. cbn [ret].
  now rewrite app_nil_r.
Qed.

Lemma prints_only_bind {A B : Type} (m : M A) (k : A -> M B) :
  prints_only P m -> (forall a, prints_only P (k a)) -> prints_only P (bind m k).
Proof.
  intros Hm Hk s. unfold bind. specialize (Hm s).
  destruct (m s) as [a s1| | |]; try exact I.
  specialize (Hk a s1). destruct (k a s1) as [b s2| | |]; try exact I.
  destruct Hm as [S1 (l1 & C1 & F1)]. destruct Hk as [S2 (l2 & C2 & F2)].
  split; [eapply same_heap_trans; eassumption|].
  exists (l1 ++ l2). rewrite C2, C1, app_assoc. split; [reflexivity|].
  apply Forall_app. now split.
Qed.

Lemma prints_only_load (n : nat) (a : Z) : prints_only P (load n a).
Proof.
  intros s. unfold load. destruct (in_arena s a (Z.of_nat n)); [|exact I].
  split; [apply same_heap_refl|]. exists []. now rewrite app_nil_r.
Qed.

Lemma prints_only_gets {A : Type} (f : state -> A) : prints_only P (gets f).
Proof.
  intros s. split; [apply same_heap_refl|]. exists []. cbn [gets].
  now rewrite app_nil_r.
Qed.

Lemma prints_only_diverge {A : Type} : prints_only P (@diverge A).
Proof. intros s. exact I. Qed.

Lemma prints_only_printf (x : msg) : P x -> prints_only P (printf x).
Proof.
  intros Hx s. split; [apply same_heap_console|]. exists [x].
  split; [reflexivity|]. now constructor.
Qed.

(** Two reads of one word with nothing in between give one value. *)
Lemma prints_only_same_word {B : Type} (x : msg) (k : M B) :
  prints_only P k ->
  prints_only P
    (hl <- gets heap_listp ;;
     v <- GET (HDRP hl) ;;
     hl <- gets heap_listp ;;
     w <- GET (HDRP hl) ;;
     when (negb (v =? w)) (printf x) ;;;
     k).
Proof.
  intros Hk s. unfold bind, gets, GET, load.
  destruct (in_arena s (HDRP (heap_listp s)) (Z.of_nat 4)) eqn:E; [|exact I].
  rewrite E, Z.eqb_refl. cbn [negb when ret]. apply Hk.
Qed.

End PrintsOnly.

Ltac prints_only_tac :=
  repeat first
    [ apply prints_only_ret
    | apply prints_only_load
    | apply prints_only_gets
    | apply prints_only_diverge
    | apply prints_only_printf; discriminate
    | apply prints_only_bind; [|intros ?]
    | match goal with
      | |- prints_only _ (if ?b then _ else _) => destruct b
      end ].

Definition not_footer_line (x : msg) : Prop := x <> BadPrologueFooter.

Lemma prints_only_printblock (bp : Z) :
  prints_only not_footer_line (printblock bp).
Proof.
  unfold printblock, FTRP, GET_SIZE, GET_ALLOC, GET, not_footer_line.
  prints_only_tac.
Qed.

Lemma prints_only_mm_checkblock (bp : Z) :
  prints_only not_footer_line (mm_checkblock bp).
Proof.
  unfold mm_checkblock, when, in_heap, mem_heap_hi, mem_heap_lo, FTRP,
    NEXT_BLKP, PREV_BLKP, GET_SIZE, GET_ALLOC, GET, not_footer_line.
  prints_only_tac.
Qed.

Lemma prints_only_check_blocks (fuel : nat) : forall (verbose bp count1 : Z),
  prints_only not_footer_line (check_blocks fuel verbose bp count1).
Proof.
  induction fuel as [|fuel IH]; intros verbose bp count1; cbn [check_blocks].
  - apply prints_only_diverge.
  - unfold when, NEXT_BLKP, GET_SIZE, GET_ALLOC, GET.
    repeat first
      [ apply IH
      | apply prints_only_printblock
      | apply prints_only_mm_checkblock
      | apply prints_only_ret
      | apply prints_only_load
      | apply prints_only_bind; [|intros ?]
      | match goal with
        | |- prints_only _ (if ?b then _ else _) => destruct b
        end ].
Qed.

Lemma prints_only_check_list (fuel : nat) : forall (bp count2 : Z),
  prints_only not_footer_line (check_list fuel bp count2).
Proof.
  induction fuel as [|fuel IH]; intros bp count2; cbn [check_list].
  - apply prints_only_diverge.
  - unfold when, in_heap, mem_heap_hi, mem_heap_lo, get_prev, get_next,
      not_footer_line.
    repeat first
      [ apply IH
      | apply prints_only_ret
      | apply prints_only_load
      | apply prints_only_gets
      | apply prints_only_printf; discriminate
      | apply prints_only_bind; [|intros ?]
      | match goal with
        | |- prints_only _ (if ?b then _ else _) => destruct b
        end ].
Qed.

Lemma prints_only_mm_checkheap (verbose : Z) :
  prints_only not_footer_line (mm_checkheap verbose).
Proof.
  unfold mm_checkheap.
  apply prints_only_bind; [unfold mem_heap_lo; prints_only_tac|intros lo].
  apply prints_only_bind; [unfold GET_SIZE, GET; prints_only_tac|intros sz].
  apply prints_only_bind;
    [unfold GET_ALLOC, GET; prints_only_tac|intros bad].
  apply prints_only_bind;
    [unfold when, not_footer_line; prints_only_tac|intros _].
  apply prints_only_same_word.
  apply prints_only_bind; [prints_only_tac|intros hl].
  apply prints_only_bind;
    [intros s; apply (prints_only_check_blocks (fuel_of s))|intros r].
  apply prints_only_bind; [unfold GET_SIZE, GET; prints_only_tac|intros sz'].
  apply prints_only_bind;
    [unfold GET_ALLOC, GET; prints_only_tac|intros bad'].
  apply prints_only_bind;
    [unfold when, not_footer_line; prints_only_tac|intros _].
  apply prints_only_bind; [prints_only_tac|intros start].
  apply prints_only_bind;
    [intros s; apply (prints_only_check_list (fuel_of s))|intros count2].
  unfold when, not_footer_line. prints_only_tac.
Qed.

(** The heap after [mm_init] and [mm_malloc 16], with the prologue footer
    overwritten by 0. *)
Definition bad_footer_state : state :=
  match state_of ((mm_init false ;;; mm_malloc 16) (fresh_arena 4096 65536)) with
  | Some s => set_mem (store_le 4 (heap_listp s - 8) 0 (mem s)) s
  | None => fresh_arena 4096 65536
  end.

(** X20.  [mm_checkheap] on any state, well-formed heap or not: when it
    returns, memory, arena bounds, [heap_listp] and the list ends are what
    they were, the console has only grown, and none of the new lines is
    the prologue-footer diagnostic, whose test compares a word with
    itself.  On a well-formed heap the call does return. *)
Theorem mm_checkheap_reads_only (verbose : Z) (s : state) :
  match mm_checkheap verbose s with
  | Ok r s' =>
      same_heap s s' /\
      exists l, console s' = console s ++ l /\ ~ In BadPrologueFooter l
  | _ => True
  end /\
  (forall bl fl, heap_inv s bl fl -> exists s', mm_checkheap verbose s = Ok 0 s').
Proof.
  split.
  - pose proof (prints_only_mm_checkheap verbose s) as K.
    destruct (mm_checkheap verbose s) as [r s'| | |]; try exact I.
    destruct K as [Sh (l & C & F)]. split; [exact Sh|]. exists l.
    split; [exact C|]. intros Hin. rewrite Forall_forall in F.
    now apply (F _ Hin).
  - intros bl fl H.
    destruct (@mm_checkheap_ok s bl fl verbose H) as (s' & R & _).
    now exists s'.
Qed.

(** A heap whose prologue footer is 0 passes the check without a line. *)
Lemma mm_checkheap_bad_footer :
  load_le 4 (mem bad_footer_state) (heap_listp bad_footer_state - 8) = 0 /\
  option_map console (state_of (mm_checkheap 0 bad_footer_state)) = Some [].
Proof. vm_compute. repeat split. Qed.

(** ** Where mm_malloc takes its block from *)

(** X21.  [mm_malloc] on a well-formed heap, for a size from 1 to
    2^32 - 16, with [asize] the adjusted size.  When the free list, walked
    from [dl_start], has a block of at least [asize] bytes, the result is
    the first such block and the arena keeps its size.  When it has none,
    the arena grows by the larger of [asize] and 512 bytes, or, if that
    does not fit below the arena limit, the call returns [NULL] and the
    arena keeps its size.  The block returned has at least [asize] and
    less than [asize + 24] bytes. *)
Theorem mm_malloc_footprint (s : state) (bl : list block) (fl : list Z)
        (size : Z) :
  heap_inv s bl fl -> 0 < size <= 4294967296 - 16 ->
  exists r s',
    mm_malloc size s = Ok r s' /\
    match find (fun bp => malloc_asize size <=? size_at (mem s) bp)
               (free_list s) with
    | Some bp => r = bp /\ mem_brk s' = mem_brk s
    | None =>
        if mem_max_addr s <? mem_brk s + MAX (malloc_asize size) 512
        then r = NULL /\ mem_brk s' = mem_brk s
        else r <> NULL /\
             mem_brk s' = mem_brk s + MAX (malloc_asize size) 512
    end /\
    (r <> NULL ->
     exists sz, In (r, sz, 1) (block_chain s') /\
                malloc_asize size <= sz < malloc_asize size + 24).
Proof.
  intros Hinv Hsize.
  destruct (@mm_malloc_fr s bl fl size Hinv Hsize)
    as (r & s' & bl' & fl' & R & H' & G & C & _ & Null & Fit & Ext & Sz).
  destruct (heap_chain Hinv) as (_ & _ & _ & E4).
  destruct (heap_chain H') as (E1' & _).
  destruct G as (_ & _ & Gh & _). rewrite Gh in E1'.
  exists r, s'. split; [exact R|]. rewrite E4, E1'. split.
  - unfold first_fit_spec in Null, Fit, Ext.
    destruct (find (fun bp => malloc_asize size <=? size_at (mem s) bp) fl)
      as [bp|] eqn:Ef.
    + apply Fit. apply find_some in Ef. destruct Ef as [Hin _].
      pose proof (node_facts (inv_ok Hinv) Hin). unfold NULL. lia.
    + destruct (Z.ltb_spec (mem_max_addr s)
                  (mem_brk s + MAX (malloc_asize size) 512)) as [Hlt|Hge].
      * assert (Er : r = NULL) by (apply Null; now split).
        split; [exact Er|].
        destruct C as [(_ & -> & _)|(l1 & c & l2 & -> & Er' & _)];
          [reflexivity|].
        pose proof (blk_facts (inv_ok H')) as K. rewrite Gh in K.
        exfalso. unfold NULL in Er. lia.
      * assert (Hr : r <> NULL) by (intros Er; apply Null in Er; lia).
        split; [exact Hr|]. now apply Ext.
  - intros Hr. destruct (Sz Hr) as (l1 & c & l2 & -> & -> & Hc).
    exists c. split; [apply (entries_mid l1 l2 c true)|exact Hc].
Qed.

Lemma mm_malloc_footprint_witness :
  exists r s',
    mm_malloc 100 fit_state = Ok r s' /\
    match find (fun bp => malloc_asize 100 <=? size_at (mem fit_state) bp)
               (free_list fit_state) with
    | Some bp => r = bp /\ mem_brk s' = mem_brk fit_state
    | None =>
        if mem_max_addr fit_state <? mem_brk fit_state + MAX (malloc_asize 100) 512
        then r = NULL /\ mem_brk s' = mem_brk fit_state
        else r <> NULL /\
             mem_brk s' = mem_brk fit_state + MAX (malloc_asize 100) 512
    end /\
    (r <> NULL ->
     exists sz, In (r, sz, 1) (block_chain s') /\
                malloc_asize 100 <= sz < malloc_asize 100 + 24).
Proof.
  apply (@mm_malloc_footprint fit_state
           [(24, false); (112, true); (48, true); (352, false)] [4296; 4112] 100).
  - exact fit_state_inv.
  - lia.
Defined.

(** On [fit_state], whose free list is 4296 (352 bytes), 4112 (24 bytes):
    a request of 100 bytes takes the first 112 bytes of the block at 4296;
    a request of 16 bytes takes them too, the smaller block coming later
    in the list; a request of 400 bytes grows the arena by 512 bytes and
    takes the first 408 bytes of the block at 4296, which the new bytes
    have joined. *)
Lemma mm_malloc_examples :
  value_of (mm_malloc 100 fit_state) = Some 4296 /\
  value_of (mm_malloc 16 fit_state) = Some 4296 /\
  value_of (mm_malloc 400 fit_state) = Some 4296 /\
  option_map mem_brk (state_of (mm_malloc 400 fit_state)) =
    Some (mem_brk fit_state + 512) /\
  option_map block_chain (state_of (mm_malloc 400 fit_state)) =
    Some [(4112, 24, 0); (4136, 112, 1); (4248, 48, 1); (4296, 408, 1);
          (4704, 456, 0)].
Proof. vm_compute. repeat split. Qed.

(** Above 2^32 - 16 the adjusted size no longer fits the 32-bit
    [extendsize] and the 32-bit header word, which drop its upper bits.  On
    [fit_state] a request of 2^32 + 400 bytes returns the block at 4296
    with 408 bytes. *)
Lemma mm_malloc_oversize_example :
  malloc_asize (4294967296 + 400) = 4294967296 + 408 /\
  value_of (mm_malloc (4294967296 + 400) fit_state) = Some 4296 /\
  option_map block_chain (state_of (mm_malloc (4294967296 + 400) fit_state)) =
    Some [(4112, 24, 0); (4136, 112, 1); (4248, 48, 1); (4296, 408, 1);
          (4704, 352, 0)].
Proof. vm_compute. repeat split. Qed.

(** ** Walking the chain by boundary tags *)

Lemma entries_split_any (bl : list block) : forall (bp q sz x : Z),
  In (q, sz, x) (entries bp bl) ->
  exists l1 l2 a, bl = l1 ++ (sz, a) :: l2 /\ q = bp + total l1 /\ x = flag a.
Proof.
  induction bl as [|[c b] r IH]; intros bp q sz x H; cbn [entries] in H.
  - destruct H.
  - destruct H as [E|H].
    + inversion E; subst. exists [], r, b. split; [reflexivity|].
      cbn [total]. split; [lia|reflexivity].
    + destruct (IH _ _ _ _ H) as (l1 & l2 & a & -> & -> & ->).
      exists ((c, b) :: l1), l2, a. split; [reflexivity|].
      cbn [total fst]. split; [lia|reflexivity].
Qed.

(** X22.  On a well-formed heap the macros that walk the chain agree with
    each other at every block [bp] of [sz] bytes: [FTRP] is the last word
    of the block, [NEXT_BLKP] is [bp + sz], stepping forward and then back
    or back and then forward ends at [bp] (the prologue and the epilogue
    serve as neighbours of the first and the last block), and the footer
    word is the header word. *)
Theorem boundary_tag_navigation (s : state) (bl : list block) (fl : list Z)
        (bp sz a : Z) :
  heap_inv s bl fl -> In (bp, sz, a) (block_chain s) ->
  FTRP bp s = Ok (bp + sz - 8) s /\
  NEXT_BLKP bp s = Ok (bp + sz) s /\
  (nb <- NEXT_BLKP bp ;; PREV_BLKP nb) s = Ok bp s /\
  (pb <- PREV_BLKP bp ;; NEXT_BLKP pb) s = Ok bp s /\
  (ft <- FTRP bp ;; GET ft) s = GET (HDRP bp) s.
Proof.
  intros Hinv Hin. destruct (heap_chain Hinv) as (E1 & _). rewrite E1 in Hin.
  destruct (entries_split_any _ _ _ _ _ Hin) as (l1 & l2 & b & -> & -> & ->).
  pose proof (inv_ok Hinv) as H. pose proof (blk_facts H) as K.
  destruct K as (K1 & K2 & Kc & Kc8 & KT1 & KT2 & Kb & Kcap & Klo & Kst & Kmax).
  pose proof (prev_facts H) as (P1 & P2 & P3 & P4 & P5).
  set (B := heap_listp s + total l1) in *.
  split; [exact (run_FTRP H)|]. split; [exact (run_NEXT H)|].
  split; [|split].
  - erewrite bind_step by (exact (run_NEXT H)). fold B. unfold PREV_BLKP, DSIZE.
    erewrite bind_step by
      (eapply GET_SIZE_ok with (a := b);
       [| |exact (blk_ftr H)| |];
       lia || assumption).
    unfold ret. f_equal. lia.
  - erewrite bind_step by (exact (run_PREV H)). fold B. unfold NEXT_BLKP, WSIZE.
    erewrite bind_step by
      (eapply GET_SIZE_ok with (a := snd (prev_of l1));
       [| |exact P5| |]; lia || assumption).
    unfold ret. f_equal. lia.
  - erewrite bind_step by (exact (run_FTRP H)). fold B.
    unfold GET, load, HDRP, WSIZE. rewrite !in_arena_true by (cbn; lia).
    f_equal. pose proof (blk_hdr H) as Hh. pose proof (blk_ftr H) as Hf.
    fold B in Hh, Hf. now rewrite Hh, Hf.
Qed.

Lemma boundary_tag_navigation_witness :
  FTRP 4248 fit_state = Ok (4248 + 48 - 8) fit_state /\
  NEXT_BLKP 4248 fit_state = Ok (4248 + 48) fit_state /\
  (nb <- NEXT_BLKP 4248 ;; PREV_BLKP nb) fit_state = Ok 4248 fit_state /\
  (pb <- PREV_BLKP 4248 ;; NEXT_BLKP pb) fit_state = Ok 4248 fit_state /\
  (ft <- FTRP 4248 ;; GET ft) fit_state = GET (HDRP 4248) fit_state.
Proof.
  apply (@boundary_tag_navigation fit_state
           [(24, false); (112, true); (48, true); (352, false)] [4296; 4112]
           4248 48 1).
  - exact fit_state_inv.
  - vm_compute. auto.
Defined.

(** ** What a call leaves alone *)

(** The slot a request of a session works on. *)
Definition slot_of (r : request) : nat :=
  match r with
  | Malloc id _ => id
  | Free id => id
  | Realloc id _ => id
  | Calloc id _ _ => id
  end.

(** A block of the chain that a call has kept, with its bytes. *)
Definition kept (s s' : state) (q sz : Z) : Prop :=
  In (q, sz, 1) (block_chain s') /\
  forall x, q - 4 <= x < q + sz - 4 -> mem s' x = mem s x.

Lemma kept_refl (s : state) (q sz : Z) :
  In (q, sz, 1) (block_chain s) -> kept s s q sz.
Proof. intros H. split; [exact H|]. intros x _. reflexivity. Qed.

Lemma kept_chain (s s' : state) (bl bl' : list block) (fl' : list Z)
      (q sz : Z) :
  heap_inv s' bl' fl' -> heap_listp s' = heap_listp s ->
  In (q, sz, 1) (entries (heap_listp s) bl') /\
  (forall x, q - 4 <= x < q + sz - 4 -> mem s' x = mem s x) ->
  kept s s' q sz.
Proof.
  intros H' Eh [Hq Fr]. split; [|exact Fr].
  destruct (heap_chain H') as (E1' & _). now rewrite E1', Eh.
Qed.

Lemma mm_free_kept (s : state) (bl : list block) (fl : list Z) (p q sz : Z) :
  heap_inv s bl fl ->
  p = NULL \/ In p (used_bps (heap_listp s) bl) ->
  In (q, sz, 1) (entries (heap_listp s) bl) -> q <> p ->
  exists s', mm_free p s = Ok tt s' /\ kept s s' q sz.
Proof.
  intros Hinv [->|Hp] Hq Hne.
  - exists s. split; [reflexivity|]. apply kept_refl.
    destruct (heap_chain Hinv) as (E1 & _). now rewrite E1.
  - apply entries_used_iff in Hp. destruct Hp as (c & Hp).
    destruct (@mm_free_chain s bl fl p c Hinv Hp)
      as (s' & bl' & fl' & R & H' & A & _ & K).
    destruct A as (_ & _ & _ & Ah & _).
    exists s'. split; [exact R|].
    exact (@kept_chain s s' bl bl' fl' q sz H' Ah (K _ _ Hq Hne)).
Qed.

Lemma mm_malloc_kept (s : state) (bl : list block) (fl : list Z)
      (size q sz : Z) :
  heap_inv s bl fl -> 0 <= size <= 4294967296 - 16 ->
  In (q, sz, 1) (entries (heap_listp s) bl) ->
  exists r s', mm_malloc size s = Ok r s' /\ kept s s' q sz.
Proof.
  intros Hinv Hsize Hq.
  destruct (Z.eq_dec size 0) as [->|Hnz].
  - exists NULL, s. split; [reflexivity|]. apply kept_refl.
    destruct (heap_chain Hinv) as (E1 & _). now rewrite E1.
  - destruct (@mm_malloc_chain s bl fl size Hinv)
      as (r & s' & bl' & fl' & R & H' & G & _ & K); [lia|].
    destruct G as (_ & _ & Gh & _).
    exists r, s'. split; [exact R|].
    exact (@kept_chain s s' bl bl' fl' q sz H' Gh (K _ _ Hq)).
Qed.

(** One request of a session leaves the blocks of the other slots alone. *)
Lemma serve_kept (s : state) (t : slots) (r : request) (j : nat) (sz : Z) :
  sess_inv s t -> request_ok r = true -> j <> slot_of r ->
  In (t j, sz, 1) (block_chain s) ->
  match serve t r s with
  | Ok t' s' => t' j = t j /\ kept s s' (t j) sz
  | Fault => is_calloc r = true
  | Diverge => False
  | Exited _ => False
  end.
Proof.
  intros (bl & fl & Hinv & Ht) Hr Hj Hq.
  destruct (heap_chain Hinv) as (E1 & _). rewrite E1 in Hq.
  pose proof (@entries_range bl (heap_listp s) (t j) sz 1
                (ok_blocks (inv_ok Hinv)) Hq) as (Q1 & _).
  assert (Hjn : t j <> NULL).
  { pose proof (ok_listp (inv_ok Hinv)). pose proof (ok_lo (inv_ok Hinv)).
    unfold NULL. lia. }
  assert (Hother : forall id, j <> id -> t j <> t id).
  { intros id Hne E. apply Hne. exact (proj2 Ht j id Hjn E). }
  assert (Hslot : forall id p, j <> id -> set_slot t id p j = t j).
  { intros id p Hne. unfold set_slot.
    destruct (Nat.eqb_spec j id); [contradiction|reflexivity]. }
  assert (Hheld : forall id, t id = NULL \/ In (t id) (used_bps (heap_listp s) bl)).
  { intros id. destruct (Z.eq_dec (t id) NULL) as [E|E]; [now left|right].
    exact (proj1 Ht id E). }
  destruct r as [id size|id|id size|id nmemb size]; cbn [slot_of] in Hj;
    cbn [request_ok] in Hr; cbn [serve is_calloc].
  - (* Malloc *)
    apply small_range in Hr.
    destruct (@mm_malloc_kept s bl fl size (t j) sz Hinv) as (r & s' & R & K);
      [lia|exact Hq|].
    erewrite bind_step by (exact R). unfold ret. split; [now apply Hslot|exact K].
  - (* Free *)
    destruct (@mm_free_kept s bl fl (t id) (t j) sz Hinv (Hheld id) Hq (Hother id Hj))
      as (s' & R & K).
    erewrite bind_step by (exact R). unfold ret. split; [now apply Hslot|exact K].
  - (* Realloc *)
    apply small_range in Hr. destruct (Z.eq_dec size 0) as [->|Hnz].
    + destruct (@mm_free_kept s bl fl (t id) (t j) sz Hinv (Hheld id) Hq
                  (Hother id Hj)) as (s' & R & K).
      assert (R' : mm_realloc (t id) 0 s = Ok 0 s').
      { unfold mm_realloc. cbn [Z.eqb]. erewrite bind_step by (exact R).
        reflexivity. }
      erewrite bind_step by (exact R'). unfold ret. cbn [Z.eqb negb andb].
      split; [now apply Hslot|exact K].
    + assert (Hres : exists r s', mm_realloc (t id) size s = Ok r s' /\
                                  kept s s' (t j) sz).
      { destruct (Hheld id) as [E|Hp].
        - rewrite E. unfold mm_realloc.
          assert (E0 : (size =? 0) = false) by (apply Z.eqb_neq; lia).
          rewrite E0. cbn [NULL Z.eqb].
          apply (@mm_malloc_kept s bl fl size (t j) sz Hinv); [lia|exact Hq].
        - apply entries_used_iff in Hp. destruct Hp as (c & Hp).
          destruct (@mm_realloc_chain s bl fl (t id) c size Hinv Hp)
            as (r & s' & bl' & fl' & R & H' & Eh & _ & _ & _ & K); [lia|].
          exists r, s'. split; [exact R|].
          exact (@kept_chain s s' bl bl' fl' (t j) sz H' Eh
                   (K _ _ Hq (Hother id Hj))). }
      destruct Hres as (r & s' & R & K).
      erewrite bind_step by (exact R). unfold ret. split; [|exact K].
      destruct ((r =? NULL) && negb (size =? 0)); [reflexivity|now apply Hslot].
  - (* Calloc *)
    apply small_range in Hr. destruct Hr as [E|Hsize].
    + erewrite bind_step by (exact (@calloc_zero s nmemb size E)). unfold ret.
      split; [now apply Hslot|]. apply kept_refl. now rewrite E1.
    + destruct (@calloc_chain s bl fl nmemb size Hinv Hsize)
        as [[F _]|(r & s' & bl' & fl' & R & H' & Eh & _ & _ & _ & _ & K)].
      * unfold bind. now rewrite F.
      * erewrite bind_step by (exact R). unfold ret.
        split; [now apply Hslot|].
        exact (@kept_chain s s' bl bl' fl' (t j) sz H' Eh (K _ _ Hq)).
Qed.

(** X23.  In a session, a call leaves the blocks of the other slots
    alone.  Whatever the calls before, the block a client holds in slot
    [j] is, after one more call on another slot, still an allocated block
    of the chain at the same address and of the same size, slot [j] still
    holds it, and none of its bytes, header and footer included, has
    changed. *)
Theorem session_keeps_other_blocks (ndebug : bool) (rs : list request)
        (r : request) (s0 : state) (j : nat) (sz : Z) :
  fresh s0 -> forallb request_ok rs = true -> request_ok r = true ->
  match session ndebug rs s0 with
  | Ok t s =>
      j <> slot_of r -> In (t j, sz, 1) (block_chain s) ->
      match serve t r s with
      | Ok t' s' =>
          t' j = t j /\ In (t j, sz, 1) (block_chain s') /\
          forall x, t j - 4 <= x < t j + sz - 4 -> mem s' x = mem s x
      | Fault => is_calloc r = true
      | Diverge => False
      | Exited _ => False
      end
  | Fault => existsb is_calloc rs = true
  | Diverge => False
  | Exited _ => False
  end.
Proof.
  intros H0 Hrs Hr. pose proof (@session_state ndebug rs s0 H0 Hrs) as K.
  destruct (session ndebug rs s0) as [t s| | |]; try assumption.
  destruct K as [Hs _]. intros Hj Hq.
  exact (@serve_kept s t r j sz Hs Hr Hj Hq).
Qed.

Lemma session_keeps_other_blocks_witness :
  fresh (fresh_arena 4096 65536) /\
  match session false example_session (fresh_arena 4096 65536) with
  | Ok t s =>
      3%nat <> slot_of (Malloc 1 200) -> In (t 3%nat, 48, 1) (block_chain s) ->
      match serve t (Malloc 1 200) s with
      | Ok t' s' =>
          t' 3%nat = t 3%nat /\ In (t 3%nat, 48, 1) (block_chain s') /\
          forall x, t 3%nat - 4 <= x < t 3%nat + 48 - 4 -> mem s' x = mem s x
      | Fault => is_calloc (Malloc 1 200) = true
      | Diverge => False
      | Exited _ => False
      end
  | Fault => existsb is_calloc example_session = true
  | Diverge => False
  | Exited _ => False
  end.
Proof.
  assert (H : fresh (fresh_arena 4096 65536)).
  { apply fresh_arena_fresh; [lia|reflexivity|lia|lia]. }
  split; [exact H|].
  apply (@session_keeps_other_blocks false example_session (Malloc 1 200) _
           3 48 H); reflexivity.
Defined.

(** At the end of [example_session] slot 3 holds the block of 48 bytes at
    4296; one more [mm_malloc 200] for slot 1 takes its block from the
    free block behind it. *)
Lemma session_keeps_other_blocks_example :
  let o := session false example_session (fresh_arena 4096 65536) in
  let o' := session false (example_session ++ [Malloc 1 200])
              (fresh_arena 4096 65536) in
  option_map (fun t : slots => t 3%nat) (value_of o) = Some 4296 /\
  option_map block_chain (state_of o) =
    Some [(4112, 184, 0); (4296, 48, 1); (4344, 304, 0)] /\
  option_map (fun t : slots => (t 1%nat, t 3%nat)) (value_of o') =
    Some (4344, 4296) /\
  option_map block_chain (state_of o') =
    Some [(4112, 184, 0); (4296, 48, 1); (4344, 208, 1); (4552, 96, 0)].
Proof. vm_compute. repeat split. Qed.
